(** * Teensy 3 UART0 driver (teensy3/serial1.c): rings, flow control, interrupt handler

    A shallow embedding of the interrupt-driven serial driver.  The static
    variables of serial1.c and the peripheral registers the driver writes are
    the fields of one [state] record; every C function is a computation in a
    small state-and-error monad.  Values that the hardware produces (status
    flags, received data, FIFO counters, the execution priority) are read from
    an input tape, so that every statement below is quantified over all
    behaviours of the peripheral. *)

From Stdlib Require Import ZArith List Bool Lia.
From stdpp Require Import base option list gmap.
Import ListNotations.
Local Open Scope Z_scope.

(** ** Build configuration *)

(** The tunables of serial1.c, the preprocessor switches that select the code
    variants, and the constants of core_pins.h and kinetis.h (which are not
    part of the sources and are therefore parameters of the development). *)
Class Config : Type := mkConfig {
  SERIAL1_TX_BUFFER_SIZE : Z;
  SERIAL1_RX_BUFFER_SIZE : Z;
  HAS_KINETISK_UART0_FIFO : bool;
  KINETISL : bool;
  SERIAL_9BIT_SUPPORT : bool;
  CORE_NUM_DIGITAL : Z;
  SIM_SCGC4_UART0 : Z;
  UART_C2_TIE : Z;
  UART_C2_TCIE : Z;
  UART_C2_RIE : Z;
  UART_C2_ILIE : Z;
  UART_C2_TE : Z;
  UART_C2_RE : Z;
  UART_S1_TDRE : Z;
  UART_S1_TC : Z;
  UART_S1_RDRF : Z;
  UART_S1_IDLE : Z;
  UART_C3_TXDIR : Z;
  UART_CFIFO_RXFLUSH : Z;
}.

(** The masks as kinetis.h gives them for the MKL26 (Teensy LC, no FIFO) and
    for the MK20 (Teensy 3.2, eight-entry FIFO), with the default ring sizes. *)
Definition teensy_lc : Config :=
  mkConfig 64 64 false true false 27
           0x400 0x80 0x40 0x20 0x10 0x08 0x04 0x80 0x40 0x20 0x10 0x20 0x40.

Definition teensy_32 : Config :=
  mkConfig 64 64 true false false 34
           0x400 0x80 0x40 0x20 0x10 0x08 0x04 0x80 0x40 0x20 0x10 0x20 0x40.

(** ** Machine integers *)

Definition u8 (x : Z) : Z := x mod 2 ^ 8.
Definition u16 (x : Z) : Z := x mod 2 ^ 16.
Definition u32 (x : Z) : Z := x mod 2 ^ 32.

(** Conversion of a 32-bit pattern to [int]. *)
Definition int32 (x : Z) : Z :=
  let y := u32 x in if y <? 2 ^ 31 then y else y - 2 ^ 32.

(** The type of a ring index is chosen by the preprocessor from the size of
    the base array: uint8_t up to 255, uint16_t up to 65535, else uint32_t. *)
Definition index_bits (size : Z) : Z :=
  if size >? 65535 then 32 else if size >? 255 then 16 else 8.

Definition index_wrap (size x : Z) : Z := x mod 2 ^ index_bits size.

(** A C condition: nonzero is true. *)
Definition nz (x : Z) : bool := negb (x =? 0).

(** ** Driver and peripheral state *)

(** [transmit_pin] points either at the output bit of a digital pin or (half
    duplex on Kinetis K) at the bit-band alias of UART0_C3.TXDIR; [rts_pin]
    only ever points at the output bit of a digital pin and is kept as the
    number of that pin. *)
Inductive pin_ptr : Type :=
| PortOutputRegister (pin : Z)
| BitbandC3TxDir.

Record state : Type := mkState {
  tx_buffer : list Z;
  rx_buffer : list Z;
  rx_buffer_storage_ : option (list Z);
  tx_buffer_storage_ : option (list Z);
  tx_buffer_total_size_ : Z;
  rx_buffer_total_size_ : Z;
  rts_low_watermark_ : Z;
  rts_high_watermark_ : Z;
  transmitting : Z;
  transmit_pin : option pin_ptr;
  rts_pin : option Z;
  tx_buffer_head : Z;
  tx_buffer_tail : Z;
  rx_buffer_head : Z;
  rx_buffer_tail : Z;
  use9Bits_var : Z;
  half_duplex_mode : Z;
  SIM_SCGC4 : Z;
  UART0_C2 : Z;
  UART0_C3 : Z;
  gpio : gmap Z bool;
  UART0_D_wr : list Z;
  UART0_CFIFO_wr : list Z;
  hw_in : list Z;
}.

(** Field by field:
    - [tx_buffer] ... [half_duplex_mode] are the static variables of
      serial1.c; [rx_buffer_storage_]/[tx_buffer_storage_] hold the
      caller-owned extension array ([None] is the NULL pointer), and
      [use9Bits_var] is only consulted when SERIAL_9BIT_SUPPORT is set;
    - [SIM_SCGC4], [UART0_C2], [UART0_C3] are registers that keep what software
      writes; [gpio] is the output level of the digital pins;
    - [UART0_D_wr] and [UART0_CFIFO_wr] log the values written to the transmit
      data register and to the FIFO control register, oldest first;
    - [hw_in] is the input tape: the values returned by the successive reads
      of hardware-driven registers (UART0_S1, UART0_D, UART0_RCFIFO,
      UART0_TCFIFO, the R8 bit of UART0_C3), the results of
      nvic_execution_priority(), and, at each turn of a busy-wait loop that
      runs at a priority the status interrupt can preempt, the decision
      whether that interrupt is taken there. *)

Definition set_SIM_SCGC4 (v : Z) (st : state) : state :=
  mkState (tx_buffer st) (rx_buffer st) (rx_buffer_storage_ st)
    (tx_buffer_storage_ st) (tx_buffer_total_size_ st)
    (rx_buffer_total_size_ st) (rts_low_watermark_ st)
    (rts_high_watermark_ st) (transmitting st) (transmit_pin st) (rts_pin st)
    (tx_buffer_head st) (tx_buffer_tail st) (rx_buffer_head st)
    (rx_buffer_tail st) (use9Bits_var st) (half_duplex_mode st) v
    (UART0_C2 st) (UART0_C3 st) (gpio st) (UART0_D_wr st) (UART0_CFIFO_wr st)
    (hw_in st).

Definition set_transmit_pin (v : option pin_ptr) (st : state) : state :=
  mkState (tx_buffer st) (rx_buffer st) (rx_buffer_storage_ st)
    (tx_buffer_storage_ st) (tx_buffer_total_size_ st)
    (rx_buffer_total_size_ st) (rts_low_watermark_ st)
    (rts_high_watermark_ st) (transmitting st) v (rts_pin st)
    (tx_buffer_head st) (tx_buffer_tail st) (rx_buffer_head st)
    (rx_buffer_tail st) (use9Bits_var st) (half_duplex_mode st) (SIM_SCGC4 st)
    (UART0_C2 st) (UART0_C3 st) (gpio st) (UART0_D_wr st) (UART0_CFIFO_wr st)
    (hw_in st).

Definition set_rts_pin (v : option Z) (st : state) : state :=
  mkState (tx_buffer st) (rx_buffer st) (rx_buffer_storage_ st)
    (tx_buffer_storage_ st) (tx_buffer_total_size_ st)
    (rx_buffer_total_size_ st) (rts_low_watermark_ st)
    (rts_high_watermark_ st) (transmitting st) (transmit_pin st) v
    (tx_buffer_head st) (tx_buffer_tail st) (rx_buffer_head st)
    (rx_buffer_tail st) (use9Bits_var st) (half_duplex_mode st) (SIM_SCGC4 st)
    (UART0_C2 st) (UART0_C3 st) (gpio st) (UART0_D_wr st) (UART0_CFIFO_wr st)
    (hw_in st).

Definition set_tx_buffer (v : list Z) (st : state) : state :=
  mkState v (rx_buffer st) (rx_buffer_storage_ st) (tx_buffer_storage_ st)
    (tx_buffer_total_size_ st) (rx_buffer_total_size_ st)
    (rts_low_watermark_ st) (rts_high_watermark_ st) (transmitting st)
    (transmit_pin st) (rts_pin st) (tx_buffer_head st) (tx_buffer_tail st)
    (rx_buffer_head st) (rx_buffer_tail st) (use9Bits_var st)
    (half_duplex_mode st) (SIM_SCGC4 st) (UART0_C2 st) (UART0_C3 st) (gpio st)
    (UART0_D_wr st) (UART0_CFIFO_wr st) (hw_in st).

Definition set_rx_buffer (v : list Z) (st : state) : state :=
  mkState (tx_buffer st) v (rx_buffer_storage_ st) (tx_buffer_storage_ st)
    (tx_buffer_total_size_ st) (rx_buffer_total_size_ st)
    (rts_low_watermark_ st) (rts_high_watermark_ st) (transmitting st)
    (transmit_pin st) (rts_pin st) (tx_buffer_head st) (tx_buffer_tail st)
    (rx_buffer_head st) (rx_buffer_tail st) (use9Bits_var st)
    (half_duplex_mode st) (SIM_SCGC4 st) (UART0_C2 st) (UART0_C3 st) (gpio st)
    (UART0_D_wr st) (UART0_CFIFO_wr st) (hw_in st).

Definition set_rx_buffer_storage_ (v : option (list Z)) (st : state) : state :=
  mkState (tx_buffer st) (rx_buffer st) v (tx_buffer_storage_ st)
    (tx_buffer_total_size_ st) (rx_buffer_total_size_ st)
    (rts_low_watermark_ st) (rts_high_watermark_ st) (transmitting st)
    (transmit_pin st) (rts_pin st) (tx_buffer_head st) (tx_buffer_tail st)
    (rx_buffer_head st) (rx_buffer_tail st) (use9Bits_var st)
    (half_duplex_mode st) (SIM_SCGC4 st) (UART0_C2 st) (UART0_C3 st) (gpio st)
    (UART0_D_wr st) (UART0_CFIFO_wr st) (hw_in st).

Definition set_tx_buffer_storage_ (v : option (list Z)) (st : state) : state :=
  mkState (tx_buffer st) (rx_buffer st) (rx_buffer_storage_ st) v
    (tx_buffer_total_size_ st) (rx_buffer_total_size_ st)
    (rts_low_watermark_ st) (rts_high_watermark_ st) (transmitting st)
    (transmit_pin st) (rts_pin st) (tx_buffer_head st) (tx_buffer_tail st)
    (rx_buffer_head st) (rx_buffer_tail st) (use9Bits_var st)
    (half_duplex_mode st) (SIM_SCGC4 st) (UART0_C2 st) (UART0_C3 st) (gpio st)
    (UART0_D_wr st) (UART0_CFIFO_wr st) (hw_in st).

Definition set_tx_buffer_total_size_ (v : Z) (st : state) : state :=
  mkState (tx_buffer st) (rx_buffer st) (rx_buffer_storage_ st)
    (tx_buffer_storage_ st) v (rx_buffer_total_size_ st)
    (rts_low_watermark_ st) (rts_high_watermark_ st) (transmitting st)
    (transmit_pin st) (rts_pin st) (tx_buffer_head st) (tx_buffer_tail st)
    (rx_buffer_head st) (rx_buffer_tail st) (use9Bits_var st)
    (half_duplex_mode st) (SIM_SCGC4 st) (UART0_C2 st) (UART0_C3 st) (gpio st)
    (UART0_D_wr st) (UART0_CFIFO_wr st) (hw_in st).

Definition set_rx_buffer_total_size_ (v : Z) (st : state) : state :=
  mkState (tx_buffer st) (rx_buffer st) (rx_buffer_storage_ st)
    (tx_buffer_storage_ st) (tx_buffer_total_size_ st) v
    (rts_low_watermark_ st) (rts_high_watermark_ st) (transmitting st)
    (transmit_pin st) (rts_pin st) (tx_buffer_head st) (tx_buffer_tail st)
    (rx_buffer_head st) (rx_buffer_tail st) (use9Bits_var st)
    (half_duplex_mode st) (SIM_SCGC4 st) (UART0_C2 st) (UART0_C3 st) (gpio st)
    (UART0_D_wr st) (UART0_CFIFO_wr st) (hw_in st).

Definition set_rts_low_watermark_ (v : Z) (st : state) : state :=
  mkState (tx_buffer st) (rx_buffer st) (rx_buffer_storage_ st)
    (tx_buffer_storage_ st) (tx_buffer_total_size_ st)
    (rx_buffer_total_size_ st) v (rts_high_watermark_ st) (transmitting st)
    (transmit_pin st) (rts_pin st) (tx_buffer_head st) (tx_buffer_tail st)
    (rx_buffer_head st) (rx_buffer_tail st) (use9Bits_var st)
    (half_duplex_mode st) (SIM_SCGC4 st) (UART0_C2 st) (UART0_C3 st) (gpio st)
    (UART0_D_wr st) (UART0_CFIFO_wr st) (hw_in st).

Definition set_rts_high_watermark_ (v : Z) (st : state) : state :=
  mkState (tx_buffer st) (rx_buffer st) (rx_buffer_storage_ st)
    (tx_buffer_storage_ st) (tx_buffer_total_size_ st)
    (rx_buffer_total_size_ st) (rts_low_watermark_ st) v (transmitting st)
    (transmit_pin st) (rts_pin st) (tx_buffer_head st) (tx_buffer_tail st)
    (rx_buffer_head st) (rx_buffer_tail st) (use9Bits_var st)
    (half_duplex_mode st) (SIM_SCGC4 st) (UART0_C2 st) (UART0_C3 st) (gpio st)
    (UART0_D_wr st) (UART0_CFIFO_wr st) (hw_in st).

Definition set_transmitting (v : Z) (st : state) : state :=
  mkState (tx_buffer st) (rx_buffer st) (rx_buffer_storage_ st)
    (tx_buffer_storage_ st) (tx_buffer_total_size_ st)
    (rx_buffer_total_size_ st) (rts_low_watermark_ st)
    (rts_high_watermark_ st) v (transmit_pin st) (rts_pin st)
    (tx_buffer_head st) (tx_buffer_tail st) (rx_buffer_head st)
    (rx_buffer_tail st) (use9Bits_var st) (half_duplex_mode st) (SIM_SCGC4 st)
    (UART0_C2 st) (UART0_C3 st) (gpio st) (UART0_D_wr st) (UART0_CFIFO_wr st)
    (hw_in st).

Definition set_tx_buffer_head (v : Z) (st : state) : state :=
  mkState (tx_buffer st) (rx_buffer st) (rx_buffer_storage_ st)
    (tx_buffer_storage_ st) (tx_buffer_total_size_ st)
    (rx_buffer_total_size_ st) (rts_low_watermark_ st)
    (rts_high_watermark_ st) (transmitting st) (transmit_pin st) (rts_pin st)
    v (tx_buffer_tail st) (rx_buffer_head st) (rx_buffer_tail st)
    (use9Bits_var st) (half_duplex_mode st) (SIM_SCGC4 st) (UART0_C2 st)
    (UART0_C3 st) (gpio st) (UART0_D_wr st) (UART0_CFIFO_wr st) (hw_in st).

Definition set_tx_buffer_tail (v : Z) (st : state) : state :=
  mkState (tx_buffer st) (rx_buffer st) (rx_buffer_storage_ st)
    (tx_buffer_storage_ st) (tx_buffer_total_size_ st)
    (rx_buffer_total_size_ st) (rts_low_watermark_ st)
    (rts_high_watermark_ st) (transmitting st) (transmit_pin st) (rts_pin st)
    (tx_buffer_head st) v (rx_buffer_head st) (rx_buffer_tail st)
    (use9Bits_var st) (half_duplex_mode st) (SIM_SCGC4 st) (UART0_C2 st)
    (UART0_C3 st) (gpio st) (UART0_D_wr st) (UART0_CFIFO_wr st) (hw_in st).

Definition set_rx_buffer_head (v : Z) (st : state) : state :=
  mkState (tx_buffer st) (rx_buffer st) (rx_buffer_storage_ st)
    (tx_buffer_storage_ st) (tx_buffer_total_size_ st)
    (rx_buffer_total_size_ st) (rts_low_watermark_ st)
    (rts_high_watermark_ st) (transmitting st) (transmit_pin st) (rts_pin st)
    (tx_buffer_head st) (tx_buffer_tail st) v (rx_buffer_tail st)
    (use9Bits_var st) (half_duplex_mode st) (SIM_SCGC4 st) (UART0_C2 st)
    (UART0_C3 st) (gpio st) (UART0_D_wr st) (UART0_CFIFO_wr st) (hw_in st).

Definition set_rx_buffer_tail (v : Z) (st : state) : state :=
  mkState (tx_buffer st) (rx_buffer st) (rx_buffer_storage_ st)
    (tx_buffer_storage_ st) (tx_buffer_total_size_ st)
    (rx_buffer_total_size_ st) (rts_low_watermark_ st)
    (rts_high_watermark_ st) (transmitting st) (transmit_pin st) (rts_pin st)
    (tx_buffer_head st) (tx_buffer_tail st) (rx_buffer_head st) v
    (use9Bits_var st) (half_duplex_mode st) (SIM_SCGC4 st) (UART0_C2 st)
    (UART0_C3 st) (gpio st) (UART0_D_wr st) (UART0_CFIFO_wr st) (hw_in st).

Definition set_UART0_C2 (v : Z) (st : state) : state :=
  mkState (tx_buffer st) (rx_buffer st) (rx_buffer_storage_ st)
    (tx_buffer_storage_ st) (tx_buffer_total_size_ st)
    (rx_buffer_total_size_ st) (rts_low_watermark_ st)
    (rts_high_watermark_ st) (transmitting st) (transmit_pin st) (rts_pin st)
    (tx_buffer_head st) (tx_buffer_tail st) (rx_buffer_head st)
    (rx_buffer_tail st) (use9Bits_var st) (half_duplex_mode st) (SIM_SCGC4 st)
    v (UART0_C3 st) (gpio st) (UART0_D_wr st) (UART0_CFIFO_wr st) (hw_in st).

Definition set_UART0_C3 (v : Z) (st : state) : state :=
  mkState (tx_buffer st) (rx_buffer st) (rx_buffer_storage_ st)
    (tx_buffer_storage_ st) (tx_buffer_total_size_ st)
    (rx_buffer_total_size_ st) (rts_low_watermark_ st)
    (rts_high_watermark_ st) (transmitting st) (transmit_pin st) (rts_pin st)
    (tx_buffer_head st) (tx_buffer_tail st) (rx_buffer_head st)
    (rx_buffer_tail st) (use9Bits_var st) (half_duplex_mode st) (SIM_SCGC4 st)
    (UART0_C2 st) v (gpio st) (UART0_D_wr st) (UART0_CFIFO_wr st) (hw_in st).

Definition set_gpio (v : gmap Z bool) (st : state) : state :=
  mkState (tx_buffer st) (rx_buffer st) (rx_buffer_storage_ st)
    (tx_buffer_storage_ st) (tx_buffer_total_size_ st)
    (rx_buffer_total_size_ st) (rts_low_watermark_ st)
    (rts_high_watermark_ st) (transmitting st) (transmit_pin st) (rts_pin st)
    (tx_buffer_head st) (tx_buffer_tail st) (rx_buffer_head st)
    (rx_buffer_tail st) (use9Bits_var st) (half_duplex_mode st) (SIM_SCGC4 st)
    (UART0_C2 st) (UART0_C3 st) v (UART0_D_wr st) (UART0_CFIFO_wr st)
    (hw_in st).

Definition set_UART0_D_wr (v : list Z) (st : state) : state :=
  mkState (tx_buffer st) (rx_buffer st) (rx_buffer_storage_ st)
    (tx_buffer_storage_ st) (tx_buffer_total_size_ st)
    (rx_buffer_total_size_ st) (rts_low_watermark_ st)
    (rts_high_watermark_ st) (transmitting st) (transmit_pin st) (rts_pin st)
    (tx_buffer_head st) (tx_buffer_tail st) (rx_buffer_head st)
    (rx_buffer_tail st) (use9Bits_var st) (half_duplex_mode st) (SIM_SCGC4 st)
    (UART0_C2 st) (UART0_C3 st) (gpio st) v (UART0_CFIFO_wr st) (hw_in st).

Definition set_UART0_CFIFO_wr (v : list Z) (st : state) : state :=
  mkState (tx_buffer st) (rx_buffer st) (rx_buffer_storage_ st)
    (tx_buffer_storage_ st) (tx_buffer_total_size_ st)
    (rx_buffer_total_size_ st) (rts_low_watermark_ st)
    (rts_high_watermark_ st) (transmitting st) (transmit_pin st) (rts_pin st)
    (tx_buffer_head st) (tx_buffer_tail st) (rx_buffer_head st)
    (rx_buffer_tail st) (use9Bits_var st) (half_duplex_mode st) (SIM_SCGC4 st)
    (UART0_C2 st) (UART0_C3 st) (gpio st) (UART0_D_wr st) v (hw_in st).

Definition set_hw_in (v : list Z) (st : state) : state :=
  mkState (tx_buffer st) (rx_buffer st) (rx_buffer_storage_ st)
    (tx_buffer_storage_ st) (tx_buffer_total_size_ st)
    (rx_buffer_total_size_ st) (rts_low_watermark_ st)
    (rts_high_watermark_ st) (transmitting st) (transmit_pin st) (rts_pin st)
    (tx_buffer_head st) (tx_buffer_tail st) (rx_buffer_head st)
    (rx_buffer_tail st) (use9Bits_var st) (half_duplex_mode st) (SIM_SCGC4 st)
    (UART0_C2 st) (UART0_C3 st) (gpio st) (UART0_D_wr st) (UART0_CFIFO_wr st)
    v.

(** ** A state-and-error monad for the C functions *)

(** A C function either returns ([Done]), has undefined behaviour (a NULL or
    out-of-bounds access, [Undefined]), or is still waiting for the hardware
    when the input tape ends ([Starved]). *)
Inductive outcome (A : Type) : Type :=
| Done (a : A) (st : state)
| Undefined
| Starved.

Arguments Done {A} a st.
Arguments Undefined {A}.
Arguments Starved {A}.

Definition M (A : Type) : Type := state → outcome A.

Global Instance M_ret : MRet M := λ A a st, Done a st.

Global Instance M_bind : MBind M := λ A B f m st,
  match m st with
  | Done a st' => f a st'
  | Undefined => Undefined
  | Starved => Starved
  end.

Definition gets {A : Type} (f : state → A) : M A := λ st, Done (f st) st.
Definition modify (f : state → state) : M unit := λ st, Done tt (f st).
Definition undefined {A : Type} : M A := λ _, Undefined.
Definition starved {A : Type} : M A := λ _, Starved.
Definition skip : M unit := mret tt.

(** The next value produced by the hardware. *)
Definition hw_read : M Z := λ st,
  match hw_in st with
  | [] => Starved
  | v :: rest => Done v (set_hw_in rest st)
  end.

(** A read of an 8-bit hardware-driven register. *)
Definition hw_read8 : M Z := v ← hw_read; mret (u8 v).

(** Array accesses; outside the object they are undefined behaviour. *)
Definition load (a : list Z) (i : Z) : M Z := λ st,
  if i <? 0 then Undefined
  else match a !! Z.to_nat i with
       | Some v => Done v st
       | None => Undefined
       end.

Definition store (a : list Z) (i v : Z) : M (list Z) := λ st,
  if (0 <=? i) && (i <? Z.of_nat (length a))
  then Done (<[Z.to_nat i := v]> a) st
  else Undefined.

(** [if (p) f(p);] for a pointer [p]. *)
Definition when_set {A : Type} (p : option A) (f : A → M unit) : M unit :=
  match p with
  | Some x => f x
  | None => skip
  end.

Definition when (b : bool) (m : M unit) : M unit := if b then m else skip.

Section Driver.
Context `{cfg : Config}.

(** *** Macros of serial1.c *)

Definition RTS_HIGH_WATERMARK : Z := SERIAL1_RX_BUFFER_SIZE - 24.
Definition RTS_LOW_WATERMARK : Z := SERIAL1_RX_BUFFER_SIZE - 38.
Definition IRQ_PRIORITY : Z := 64.
Definition C3_TXDIR_BIT : Z := 5.

Definition C2_ENABLE : Z :=
  if HAS_KINETISK_UART0_FIFO
  then Z.lor (Z.lor (Z.lor UART_C2_TE UART_C2_RE) UART_C2_RIE) UART_C2_ILIE
  else Z.lor (Z.lor UART_C2_TE UART_C2_RE) UART_C2_RIE.
Definition C2_TX_ACTIVE : Z := Z.lor C2_ENABLE UART_C2_TIE.
Definition C2_TX_COMPLETING : Z := Z.lor C2_ENABLE UART_C2_TCIE.
Definition C2_TX_INACTIVE : Z := C2_ENABLE.

(** Conversion to BUFTYPE: uint16_t with SERIAL_9BIT_SUPPORT, else uint8_t. *)
Definition BUFTYPE (x : Z) : Z := if SERIAL_9BIT_SUPPORT then u16 x else u8 x.

(** [use9Bits] is a variable with SERIAL_9BIT_SUPPORT and the constant 0
    without it. *)
Definition use9Bits (st : state) : Z :=
  if SERIAL_9BIT_SUPPORT then use9Bits_var st else 0.

(** Conversion to the type of tx_buffer_head/tail and of rx_buffer_head/tail. *)
Definition tx_index (x : Z) : Z := index_wrap SERIAL1_TX_BUFFER_SIZE x.
Definition rx_index (x : Z) : Z := index_wrap SERIAL1_RX_BUFFER_SIZE x.

(** *** Pins *)

(** A store through [transmit_pin] or [rts_pin].  On Kinetis K the pointer is
    the bit-band alias of one output bit; on Kinetis L the store goes to the
    set or clear register of the port with the mask of the pin.  Both drive
    the pin to [level]. *)
Definition pin_write (p : pin_ptr) (level : bool) : M unit :=
  match p with
  | PortOutputRegister n =>
      modify (λ st, set_gpio (<[n := level]> (gpio st)) st)
  | BitbandC3TxDir =>
      modify (λ st, set_UART0_C3
                      (if level then Z.setbit (UART0_C3 st) C3_TXDIR_BIT
                       else Z.clearbit (UART0_C3 st) C3_TXDIR_BIT) st)
  end.

Definition transmit_assert (p : pin_ptr) : M unit := pin_write p true.
Definition transmit_deassert (p : pin_ptr) : M unit := pin_write p false.
Definition rts_assert (pin : Z) : M unit :=
  pin_write (PortOutputRegister pin) false.
Definition rts_deassert (pin : Z) : M unit :=
  pin_write (PortOutputRegister pin) true.

(** *** Split addressing of the rings *)

(** [tx_buffer[i]] below the base size, [tx_buffer_storage_[i - size]] above;
    the source writes this two-way branch out at every access. *)
Definition tx_slot_load (i : Z) : M Z :=
  if i <? SERIAL1_TX_BUFFER_SIZE then
    a ← gets tx_buffer; load a i
  else
    p ← gets tx_buffer_storage_;
    match p with
    | Some a => load a (u32 (i - SERIAL1_TX_BUFFER_SIZE))
    | None => undefined
    end.

Definition tx_slot_store (i v : Z) : M unit :=
  if i <? SERIAL1_TX_BUFFER_SIZE then
    a ← gets tx_buffer; a' ← store a i (BUFTYPE v); modify (set_tx_buffer a')
  else
    p ← gets tx_buffer_storage_;
    match p with
    | Some a =>
        a' ← store a (u32 (i - SERIAL1_TX_BUFFER_SIZE)) (BUFTYPE v);
        modify (set_tx_buffer_storage_ (Some a'))
    | None => undefined
    end.

Definition rx_slot_load (i : Z) : M Z :=
  if i <? SERIAL1_RX_BUFFER_SIZE then
    a ← gets rx_buffer; load a i
  else
    p ← gets rx_buffer_storage_;
    match p with
    | Some a => load a (u32 (i - SERIAL1_RX_BUFFER_SIZE))
    | None => undefined
    end.

Definition rx_slot_store (i v : Z) : M unit :=
  if i <? SERIAL1_RX_BUFFER_SIZE then
    a ← gets rx_buffer; a' ← store a i (BUFTYPE v); modify (set_rx_buffer a')
  else
    p ← gets rx_buffer_storage_;
    match p with
    | Some a =>
        a' ← store a (u32 (i - SERIAL1_RX_BUFFER_SIZE)) (BUFTYPE v);
        modify (set_rx_buffer_storage_ (Some a'))
    | None => undefined
    end.

(** [if (++i >= total) i = 0;] on a uint32_t. *)
Definition advance (total i : Z) : Z :=
  let i' := u32 (i + 1) in if i' >=? total then 0 else i'.

(** The occupancy as serial_available and the flow control code compute it,
    [if (head >= tail) return head - tail; return total + head - tail;], and
    the free space as serial_write_buffer_free computes it,
    [if (head >= tail) return total - 1 - head + tail; return tail - head - 1;],
    both unsigned 32-bit expressions converted to [int]. *)
Definition ring_occupied (total head tail : Z) : Z :=
  if head >=? tail then int32 (head - tail) else int32 (total + head - tail).

Definition ring_free (total head tail : Z) : Z :=
  if head >=? tail then int32 (total - 1 - head + tail)
  else int32 (tail - head - 1).

(** *** Register writes *)

Definition write_UART0_C2 (v : Z) : M unit := modify (set_UART0_C2 (u8 v)).
Definition write_UART0_C3 (v : Z) : M unit := modify (set_UART0_C3 (u8 v)).
Definition write_UART0_D (v : Z) : M unit :=
  modify (λ st, set_UART0_D_wr (UART0_D_wr st ++ [u8 v]) st).
Definition write_UART0_CFIFO (v : Z) : M unit :=
  modify (λ st, set_UART0_CFIFO_wr (UART0_CFIFO_wr st ++ [u8 v]) st).

(** [if (use9Bits) UART0_C3 = (UART0_C3 & ~0x40) | ((n & 0x100) >> 2);
     UART0_D = n;] *)
Definition transmit_unit (n : Z) : M unit :=
  use9 ← gets use9Bits;
  when (nz use9)
    (c3 ← gets UART0_C3;
     write_UART0_C3 (Z.lor (Z.land c3 (Z.lnot 0x40))
                           (Z.shiftr (Z.land n 0x100) 2)));;
  write_UART0_D n.

(** [if (use9Bits && (UART0_C3 & 0x80)) n = UART0_D | 0x100; else n = UART0_D;]
    The R8 bit of UART0_C3 is driven by the receiver, so this read of the
    register comes from the tape. *)
Definition receive_unit : M Z :=
  use9 ← gets use9Bits;
  if nz use9 then
    c3 ← hw_read8;
    d ← hw_read8;
    mret (if nz (Z.land c3 0x80) then Z.lor d 0x100 else d)
  else hw_read8.

(** *** uart0_status_isr *)

(** The body of [do { ... } while (--avail > 0);] in the FIFO variant, with
    the uint8_t counter [avail]; returns the local [head]. *)
Fixpoint isr_rx_drain (fuel : nat) (avail head tail : Z) : M Z :=
  match fuel with
  | O => starved
  | S fuel' =>
      n ← receive_unit;
      total ← gets rx_buffer_total_size_;
      let newhead := advance total head in
      head' ← (if negb (newhead =? tail) then
                 rx_slot_store newhead n;; mret newhead
               else mret head);
      let avail' := u8 (avail - 1) in
      if avail' >? 0 then isr_rx_drain fuel' avail' head' tail
      else mret head'
  end.

(** Receive part, variant with HAS_KINETISK_UART0_FIFO. *)
Definition isr_receive_fifo : M unit :=
  s1 ← hw_read8;
  when (nz (Z.land s1 (Z.lor UART_S1_RDRF UART_S1_IDLE)))
    (avail ← hw_read8;
     if avail =? 0 then
       _ ← hw_read8;
       write_UART0_CFIFO UART_CFIFO_RXFLUSH
     else
       head ← gets rx_buffer_head;
       tail ← gets rx_buffer_tail;
       head ← isr_rx_drain 256 avail head tail;
       modify (set_rx_buffer_head (rx_index head));;
       rts ← gets rts_pin;
       when_set rts (λ p,
         total ← gets rx_buffer_total_size_;
         high ← gets rts_high_watermark_;
         let avail := ring_occupied total head tail in
         when (u32 avail >=? high) (rts_deassert p))).

(** Receive part, variant without the FIFO. *)
Definition isr_receive_single : M unit :=
  s1 ← hw_read8;
  when (nz (Z.land s1 UART_S1_RDRF))
    (n ← receive_unit;
     h ← gets rx_buffer_head;
     total ← gets rx_buffer_total_size_;
     let head := advance total h in
     tail ← gets rx_buffer_tail;
     when (negb (head =? tail))
       (rx_slot_store head n;;
        modify (set_rx_buffer_head (rx_index head)))).

(** The loop [do { if (tail == head) break; ... } while (UART0_TCFIFO < 8);]
    of the FIFO variant; returns the local [tail]. *)
Fixpoint isr_tx_fill (fuel : nat) (head tail : Z) : M Z :=
  match fuel with
  | O => starved
  | S fuel' =>
      if tail =? head then mret tail
      else
        total ← gets tx_buffer_total_size_;
        let tail := advance total tail in
        _ ← hw_read8;
        n ← tx_slot_load tail;
        transmit_unit n;;
        tcfifo ← hw_read8;
        if tcfifo <? 8 then isr_tx_fill fuel' head tail else mret tail
  end.

(** Transmit-ready part, variant with the FIFO; [c] is the value read from
    UART0_C2. *)
Definition isr_transmit_fifo (c : Z) : M unit :=
  when (nz (Z.land c UART_C2_TIE))
    (s1 ← hw_read8;
     when (nz (Z.land s1 UART_S1_TDRE))
       (head ← gets tx_buffer_head;
        tail ← gets tx_buffer_tail;
        fuel ← gets (λ st, S (length (hw_in st)));
        tail ← isr_tx_fill fuel head tail;
        modify (set_tx_buffer_tail (tx_index tail));;
        s1 ← hw_read8;
        when (nz (Z.land s1 UART_S1_TDRE)) (write_UART0_C2 C2_TX_COMPLETING))).

(** Transmit-ready part, variant without the FIFO. *)
Definition isr_transmit_single (c : Z) : M unit :=
  when (nz (Z.land c UART_C2_TIE))
    (s1 ← hw_read8;
     when (nz (Z.land s1 UART_S1_TDRE))
       (head ← gets tx_buffer_head;
        tail ← gets tx_buffer_tail;
        if head =? tail then write_UART0_C2 C2_TX_COMPLETING
        else
          total ← gets tx_buffer_total_size_;
          let tail := advance total tail in
          n ← tx_slot_load tail;
          transmit_unit n;;
          modify (set_tx_buffer_tail (tx_index tail)))).

(** Transmit-complete part, common to both variants. *)
Definition isr_transmit_complete (c : Z) : M unit :=
  when (nz (Z.land c UART_C2_TCIE))
    (s1 ← hw_read8;
     when (nz (Z.land s1 UART_S1_TC))
       (modify (set_transmitting 0);;
        tp ← gets transmit_pin;
        when_set tp transmit_deassert;;
        when KINETISL
          (hd ← gets half_duplex_mode;
           when (nz hd)
             (reg ← gets UART0_C3;
              write_UART0_C3 (Z.land reg (Z.lnot UART_C3_TXDIR))));;
        write_UART0_C2 C2_TX_INACTIVE)).

Definition uart0_status_isr : M unit :=
  (if HAS_KINETISK_UART0_FIFO then isr_receive_fifo else isr_receive_single);;
  c ← gets UART0_C2;
  (if HAS_KINETISK_UART0_FIFO then isr_transmit_fifo c
   else isr_transmit_single c);;
  isr_transmit_complete c.

(** *** Transmit side *)

(** The inline service of one unit inside the busy-wait loops of
    serial_putchar and serial_write:
    [if (UART0_S1 & UART_S1_TDRE) { tail = tx_buffer_tail; ... }]. *)
Definition service_one_unit : M unit :=
  s1 ← hw_read8;
  when (nz (Z.land s1 UART_S1_TDRE))
    (t ← gets tx_buffer_tail;
     total ← gets tx_buffer_total_size_;
     let tail := advance total t in
     n ← tx_slot_load tail;
     transmit_unit n;;
     modify (set_tx_buffer_tail (tx_index tail))).

(** yield() hands the processor to the cooperative dispatcher; the other
    tasks are taken not to call into this driver. *)
Definition yield : M unit := skip.

(** One turn of the body of the busy-wait loops, starting with the call of
    nvic_execution_priority().  At a priority value of IRQ_PRIORITY or below
    the status interrupt cannot preempt, and the loop services the
    transmitter itself; above it, the next value on the tape says whether the
    status interrupt is taken during this turn. *)
Definition wait_turn : M unit :=
  priority ← hw_read;
  if priority <=? IRQ_PRIORITY then service_one_unit
  else
    irq ← hw_read;
    when (nz irq) uart0_status_isr;;
    when (priority >=? 256) yield.

(** [while (tx_buffer_tail == head) { ... }] *)
Fixpoint putchar_wait (fuel : nat) (head : Z) : M unit :=
  match fuel with
  | O => starved
  | S fuel' =>
      tail ← gets tx_buffer_tail;
      if tail =? head then wait_turn;; putchar_wait fuel' head
      else skip
  end.

(** The store of the new unit and the publication of the new head, common to
    serial_putchar and serial_write. *)
Definition enqueue (head c : Z) : M unit :=
  tx_slot_store head c;;
  modify (set_transmitting 1);;
  modify (set_tx_buffer_head (tx_index head)).

Definition serial_putchar (c : Z) : M unit :=
  scgc4 ← gets SIM_SCGC4;
  if negb (nz (Z.land scgc4 SIM_SCGC4_UART0)) then skip
  else
    tp ← gets transmit_pin;
    when_set tp transmit_assert;;
    when KINETISL
      (hd ← gets half_duplex_mode;
       when (nz hd)
         (reg ← gets UART0_C3;
          write_UART0_C3 (Z.lor reg UART_C3_TXDIR)));;
    h ← gets tx_buffer_head;
    total ← gets tx_buffer_total_size_;
    let head := advance total h in
    fuel ← gets (λ st, S (length (hw_in st)));
    putchar_wait fuel head;;
    enqueue head (u32 c);;
    write_UART0_C2 C2_TX_ACTIVE.

(** [do { ... } while (tx_buffer_tail == head);] of the FIFO serial_write. *)
Fixpoint write_wait (fuel : nat) (head : Z) : M unit :=
  match fuel with
  | O => starved
  | S fuel' =>
      wait_turn;;
      tail ← gets tx_buffer_tail;
      if tail =? head then write_wait fuel' head else skip
  end.

(** [while (p < end) { ... }] of the FIFO serial_write over the bytes from
    [p] on; [n] bytes remain. *)
Fixpoint write_loop (n : nat) (p : list Z) : M unit :=
  match n with
  | O => skip
  | S n' =>
      h ← gets tx_buffer_head;
      total ← gets tx_buffer_total_size_;
      let head := advance total h in
      tail ← gets tx_buffer_tail;
      when (tail =? head)
        (write_UART0_C2 C2_TX_ACTIVE;;
         fuel ← gets (λ st, S (length (hw_in st)));
         write_wait fuel head);;
      match p with
      | [] => undefined
      | b :: p' => enqueue head (u8 b);; write_loop n' p'
      end
  end.

(** The loop of the other serial_write: one serial_putchar call per byte,
    while count-- is positive. *)
Fixpoint write_each (n : nat) (p : list Z) : M unit :=
  match n with
  | O => skip
  | S n' =>
      match p with
      | [] => undefined
      | b :: p' => serial_putchar (u8 b);; write_each n' p'
      end
  end.

(** [buf] is the object the pointer refers to, [count] an unsigned int. *)
Definition serial_write (buf : list Z) (count : Z) : M unit :=
  if HAS_KINETISK_UART0_FIFO then
    scgc4 ← gets SIM_SCGC4;
    if negb (nz (Z.land scgc4 SIM_SCGC4_UART0)) then skip
    else
      tp ← gets transmit_pin;
      when_set tp transmit_assert;;
      write_loop (Z.to_nat (u32 count)) buf;;
      write_UART0_C2 C2_TX_ACTIVE
  else write_each (Z.to_nat (u32 count)) buf.

Definition serial_write_buffer_free : M Z :=
  head ← gets tx_buffer_head;
  tail ← gets tx_buffer_tail;
  total ← gets tx_buffer_total_size_;
  mret (ring_free total head tail).

(** The string at [p] is the list of the chars from [p] to the end of the
    object; char is unsigned on this target. *)
Fixpoint serial_print (p : list Z) : M unit :=
  match p with
  | [] => undefined
  | c :: p' =>
      if nz c then
        when (c =? 10) (serial_putchar 13);;
        serial_putchar c;;
        serial_print p'
      else skip
  end.

(** *** Receive side *)

Definition serial_available : M Z :=
  head ← gets rx_buffer_head;
  tail ← gets rx_buffer_tail;
  total ← gets rx_buffer_total_size_;
  mret (ring_occupied total head tail).

Definition serial_getchar : M Z :=
  head ← gets rx_buffer_head;
  t ← gets rx_buffer_tail;
  if head =? t then mret (-1)
  else
    total ← gets rx_buffer_total_size_;
    let tail := advance total t in
    c ← rx_slot_load tail;
    modify (set_rx_buffer_tail (rx_index tail));;
    rts ← gets rts_pin;
    when_set rts (λ p,
      low ← gets rts_low_watermark_;
      let avail := ring_occupied total head tail in
      when (u32 avail <=? low) (rts_assert p));;
    mret c.

Definition serial_peek : M Z :=
  head ← gets rx_buffer_head;
  t ← gets rx_buffer_tail;
  if head =? t then mret (-1)
  else
    total ← gets rx_buffer_total_size_;
    rx_slot_load (advance total t).

Definition serial_clear : M unit :=
  scgc4 ← gets SIM_SCGC4;
  if HAS_KINETISK_UART0_FIFO && negb (nz (Z.land scgc4 SIM_SCGC4_UART0))
  then skip
  else
    when HAS_KINETISK_UART0_FIFO
      (let mask := Z.lor (Z.lor UART_C2_RE UART_C2_RIE) UART_C2_ILIE in
       c2 ← gets UART0_C2;
       write_UART0_C2 (Z.land c2 (Z.lnot mask));;
       write_UART0_CFIFO UART_CFIFO_RXFLUSH;;
       c2 ← gets UART0_C2;
       write_UART0_C2 (Z.lor c2 mask));;
    tail ← gets rx_buffer_tail;
    modify (set_rx_buffer_head tail);;
    rts ← gets rts_pin;
    when_set rts rts_assert.

(** *** Start-up and pin selection *)

(** The values of the static initialisers, with the peripheral clock gated
    off and nothing on the tape. *)
Definition power_on : state :=
  mkState (replicate (Z.to_nat SERIAL1_TX_BUFFER_SIZE) 0)
          (replicate (Z.to_nat SERIAL1_RX_BUFFER_SIZE) 0)
          None None
          (u32 SERIAL1_TX_BUFFER_SIZE) (u32 SERIAL1_RX_BUFFER_SIZE)
          (u32 RTS_LOW_WATERMARK) (u32 RTS_HIGH_WATERMARK)
          0 None None 0 0 0 0 0 0 0 0 0 ∅ [] [] [].

(** serial_begin, as far as it touches the state modelled here: the writes
    to the pin multiplexer, to the baud rate and FIFO set-up registers and to
    the interrupt controller are left out. *)
Definition serial_begin : M unit :=
  modify (λ st, set_SIM_SCGC4 (u32 (Z.lor (SIM_SCGC4 st) SIM_SCGC4_UART0)) st);;
  modify (set_rx_buffer_head 0);;
  modify (set_rx_buffer_tail 0);;
  modify (set_tx_buffer_head 0);;
  modify (set_tx_buffer_tail 0);;
  modify (set_transmitting 0);;
  write_UART0_C2 C2_TX_INACTIVE.

(** pinMode(pin, OUTPUT) only changes the direction of the pin, which is not
    part of the state. *)
Definition serial_set_rts (pin : Z) : M Z :=
  scgc4 ← gets SIM_SCGC4;
  if negb (nz (Z.land scgc4 SIM_SCGC4_UART0)) then mret 0
  else if u8 pin <? CORE_NUM_DIGITAL then
    modify (set_rts_pin (Some (u8 pin)));;
    rts_assert (u8 pin);;
    mret 1
  else
    modify (set_rts_pin None);;
    mret 0.

(** *** Ring extensions *)

(** [buffer] is the caller's array ([None] for NULL), [length] a size_t. *)
Definition serial_add_memory_for_read (buffer : option (list Z)) (length : Z)
  : M unit :=
  modify (set_rx_buffer_storage_ buffer);;
  match buffer with
  | Some _ =>
      modify (set_rx_buffer_total_size_ (u32 (SERIAL1_RX_BUFFER_SIZE + length)))
  | None => modify (set_rx_buffer_total_size_ (u32 SERIAL1_RX_BUFFER_SIZE))
  end;;
  modify (set_rts_low_watermark_ (u32 (RTS_LOW_WATERMARK + length)));;
  modify (set_rts_high_watermark_ (u32 (RTS_HIGH_WATERMARK + length))).

Definition serial_add_memory_for_write (buffer : option (list Z)) (length : Z)
  : M unit :=
  modify (set_tx_buffer_storage_ buffer);;
  match buffer with
  | Some _ =>
      modify (set_tx_buffer_total_size_ (u32 (SERIAL1_TX_BUFFER_SIZE + length)))
  | None => modify (set_tx_buffer_total_size_ (u32 SERIAL1_TX_BUFFER_SIZE))
  end.

End Driver.

(** ** Running the driver on concrete inputs *)

(** The state a computation ends in (the initial one if it does not return). *)
Definition run {A : Type} (m : M A) (st : state) : state :=
  match m st with
  | Done _ st' => st'
  | _ => st
  end.

(** The hardware will produce [tape] next. *)
Definition feed (tape : list Z) (st : state) : state :=
  set_hw_in (hw_in st ++ tape) st.

Fixpoint times (n : nat) (m : M unit) : M unit :=
  match n with
  | O => skip
  | S n' => m;; times n' m
  end.

(** Level of the pin behind a pointer. *)
Definition pin_level (st : state) (p : pin_ptr) : option bool :=
  match p with
  | PortOutputRegister n => gpio st !! n
  | BitbandC3TxDir => Some (Z.testbit (UART0_C3 st) 5)
  end.

(** ** Specification-level notions *)

Section Notions.
Context `{cfg : Config}.

(** The UART0 clock gate in SIM_SCGC4 is off. *)
Definition clock_gated (st : state) : Prop :=
  Z.land (SIM_SCGC4 st) SIM_SCGC4_UART0 = 0.

(** The sequence of serial_putchar calls that the specification asks of
    serial_print: the characters in order, with a carriage return put before
    every line feed. *)
Definition crlf_expand (s : list Z) : list Z :=
  flat_map (λ c, if c =? 10 then [13; 10] else [c]) s.

(** One serial_putchar call per element, in order. *)
Fixpoint putchar_each (cs : list Z) : M unit :=
  match cs with
  | [] => skip
  | c :: cs' => serial_putchar c;; putchar_each cs'
  end.

(** Length of an extension array (0 for NULL). *)
Definition ext_len (p : option (list Z)) : Z :=
  match p with
  | Some a => Z.of_nat (length a)
  | None => 0
  end.

(** The unit in slot [i] of a ring made of [base] and [ext], by the split
    addressing rule; [None] where the access would be undefined. *)
Definition slot (size : Z) (base : list Z) (ext : option (list Z)) (i : Z)
  : option Z :=
  if i <? size then
    if i <? 0 then None else base !! Z.to_nat i
  else
    match ext with
    | Some a => a !! Z.to_nat (u32 (i - size))
    | None => None
    end.

Definition tx_slot (st : state) (i : Z) : option Z :=
  slot SERIAL1_TX_BUFFER_SIZE (tx_buffer st) (tx_buffer_storage_ st) i.

Definition rx_slot (st : state) (i : Z) : option Z :=
  slot SERIAL1_RX_BUFFER_SIZE (rx_buffer st) (rx_buffer_storage_ st) i.

(** The state after [transmit_unit n]. *)
Definition transmitted (n : Z) (st : state) : state :=
  let st1 :=
    if nz (use9Bits st)
    then set_UART0_C3 (u8 (Z.lor (Z.land (UART0_C3 st) (Z.lnot 0x40))
                                 (Z.shiftr (Z.land n 0x100) 2))) st
    else st in
  set_UART0_D_wr (UART0_D_wr st1 ++ [u8 n]) st1.

(** Everything the TX ring consists of, the log of the transmit data
    register and the clock gate are the same in both states. *)
Definition tx_ring_same (st st' : state) : Prop :=
  tx_buffer_head st' = tx_buffer_head st
  ∧ tx_buffer_tail st' = tx_buffer_tail st
  ∧ tx_buffer_total_size_ st' = tx_buffer_total_size_ st
  ∧ tx_buffer st' = tx_buffer st
  ∧ tx_buffer_storage_ st' = tx_buffer_storage_ st
  ∧ UART0_D_wr st' = UART0_D_wr st
  ∧ SIM_SCGC4 st' = SIM_SCGC4 st.

(** [st'] is [st] up to what transmitting units changes: UART0_C3 (ninth
    bit), the log of the data register and the tape. *)
Definition tx_drained (st st' : state) : Prop :=
  ∃ c3 dwr tape,
    st' = set_hw_in tape (set_UART0_D_wr dwr (set_UART0_C3 c3 st)).

(** [st'] is [st] up to what the transmit-ready part of the handler may
    change, and up to what the transmit-complete part may change. *)
Definition tx_part (st st' : state) : Prop :=
  ∃ t c2 c3 dwr tape,
    st' = set_tx_buffer_tail t
            (set_UART0_C2 c2
               (set_hw_in tape (set_UART0_D_wr dwr (set_UART0_C3 c3 st)))).

Definition tc_part (st st' : state) : Prop :=
  ∃ tr g c2 c3 tape,
    st' = set_transmitting tr
            (set_gpio g (set_UART0_C2 c2 (set_UART0_C3 c3 (set_hw_in tape st)))).

(** [st'] is [st] up to what the receive part changes besides the RX ring:
    the RTS pin, the log of UART0_CFIFO and the tape. *)
Definition rx_quiet (st st' : state) : Prop :=
  ∃ g cf tape,
    st' = set_gpio g (set_UART0_CFIFO_wr cf (set_hw_in tape st)).

(** [st'] is [st] up to what the receive part of the handler may change. *)
Definition rx_part (st st' : state) : Prop :=
  ∃ b e h g cf tape,
    st' = set_rx_buffer b
            (set_rx_buffer_storage_ e
               (set_rx_buffer_head h
                  (set_gpio g (set_UART0_CFIFO_wr cf (set_hw_in tape st))))).

(** A ring is well formed when the base array has its declared size, the
    total capacity is covered by the base array and the extension, and both
    indices are below the total and representable in the index type. *)
Record ring_wf (size total head tail : Z) (base : list Z)
       (ext : option (list Z)) : Prop := mkRingWf {
  wf_size : 0 < size < 2 ^ 31;
  wf_base : Z.of_nat (length base) = size;
  wf_total : 0 < total < 2 ^ 32;
  wf_cover : total ≤ size + ext_len ext;
  wf_head : 0 ≤ head < total;
  wf_tail : 0 ≤ tail < total;
  wf_head_index : head < 2 ^ index_bits size;
  wf_tail_index : tail < 2 ^ index_bits size;
}.

Definition tx_wf (st : state) : Prop :=
  ring_wf SERIAL1_TX_BUFFER_SIZE (tx_buffer_total_size_ st)
          (tx_buffer_head st) (tx_buffer_tail st)
          (tx_buffer st) (tx_buffer_storage_ st).

Definition rx_wf (st : state) : Prop :=
  ring_wf SERIAL1_RX_BUFFER_SIZE (rx_buffer_total_size_ st)
          (rx_buffer_head st) (rx_buffer_tail st)
          (rx_buffer st) (rx_buffer_storage_ st).

(** The slots that hold the pending units of a ring, oldest first: the [n]
    slots after [tail]. *)
Definition ring_positions (total tail : Z) (n : nat) : list Z :=
  map (λ k, (tail + 1 + Z.of_nat k) mod total) (seq 0 n).

(** The pending units of a ring, oldest first. *)
Definition ring_units (sl : Z → option Z) (total head tail : Z) : list Z :=
  map (λ p, default 0 (sl p))
      (ring_positions total tail (Z.to_nat ((head - tail) mod total))).

Definition tx_pending (st : state) : list Z :=
  ring_units (tx_slot st) (tx_buffer_total_size_ st)
             (tx_buffer_head st) (tx_buffer_tail st).

Definition rx_pending (st : state) : list Z :=
  ring_units (rx_slot st) (rx_buffer_total_size_ st)
             (rx_buffer_head st) (rx_buffer_tail st).

(** Everything that was handed to the transmitter and not yet dropped from
    the books: the bytes already written to the data register, followed by
    the low bytes of the units still pending in the TX ring. *)
Definition tx_stream (st : state) : list Z :=
  UART0_D_wr st ++ map u8 (tx_pending st).

(** The state after one unit [n] was taken from the TX ring and handed to
    the transmitter. *)
Definition tx_popped (n : Z) (st : state) : state :=
  set_tx_buffer_tail
    (tx_index (advance (tx_buffer_total_size_ st) (tx_buffer_tail st)))
    (transmitted n st).

(** The total capacity of a ring is within the range of its index type. *)
Definition tx_fits (st : state) : Prop :=
  tx_buffer_total_size_ st ≤ 2 ^ index_bits SERIAL1_TX_BUFFER_SIZE.

Definition rx_fits (st : state) : Prop :=
  rx_buffer_total_size_ st ≤ 2 ^ index_bits SERIAL1_RX_BUFFER_SIZE.

(** What every step of the driver other than a push keeps of the TX side:
    the ring stays well formed and within its index range, its arrays, its
    capacity and head and the clock gate stay put, and nothing enters or
    leaves [tx_stream]. *)
Definition tx_kept (st st' : state) : Prop :=
  tx_wf st' ∧ tx_fits st'
  ∧ tx_stream st' = tx_stream st
  ∧ tx_buffer_head st' = tx_buffer_head st
  ∧ tx_buffer_total_size_ st' = tx_buffer_total_size_ st
  ∧ tx_buffer st' = tx_buffer st
  ∧ tx_buffer_storage_ st' = tx_buffer_storage_ st
  ∧ SIM_SCGC4 st' = SIM_SCGC4 st.

(** The unit that [receive_unit] delivers from a tape, with the rest of the
    tape; [use9] is the value of use9Bits. *)
Definition take_unit (use9 : Z) (tape : list Z) : option (Z * list Z) :=
  if nz use9 then
    match tape with
    | c3 :: d :: rest =>
        Some (if nz (Z.land (u8 c3) 0x80) then Z.lor (u8 d) 0x100 else u8 d,
              rest)
    | _ => None
    end
  else
    match tape with
    | d :: rest => Some (u8 d, rest)
    | [] => None
    end.

(** Free slots of the RX ring. *)
Definition rx_room (st : state) : Z :=
  rx_buffer_total_size_ st - 1
  - (rx_buffer_head st - rx_buffer_tail st) mod rx_buffer_total_size_ st.

(** What the drain loop of the FIFO handler pushes: it reads [avail] units
    (counted in a uint8_t) and pushes each one for which there is room. *)
Fixpoint drain_accepted (fuel : nat) (use9 avail room : Z) (tape : list Z)
  : list Z :=
  match fuel with
  | O => []
  | S fuel' =>
      match take_unit use9 tape with
      | Some (n, rest) =>
          let more := λ room',
            if u8 (avail - 1) >? 0
            then drain_accepted fuel' use9 (u8 (avail - 1)) room' rest
            else [] in
          if 0 <? room then BUFTYPE n :: more (room - 1) else more room
      | None => []
      end
  end.

(** What the handler pushes into the RX ring in one run from [st].  The
    single-slot handler takes one unit from the data register if UART0_S1
    shows RDRF; the FIFO handler takes as many units as UART0_RCFIFO says if
    UART0_S1 shows RDRF or IDLE.  A unit is pushed if there is room for it. *)
Definition rx_accepted (st : state) : list Z :=
  match hw_in st with
  | s1 :: rest =>
      if HAS_KINETISK_UART0_FIFO then
        if nz (Z.land (u8 s1) (Z.lor UART_S1_RDRF UART_S1_IDLE)) then
          match rest with
          | av :: rest' =>
              if u8 av =? 0 then []
              else drain_accepted 256 (use9Bits st) (u8 av) (rx_room st) rest'
          | [] => []
          end
        else []
      else
        if nz (Z.land (u8 s1) UART_S1_RDRF) && (0 <? rx_room st) then
          match take_unit (use9Bits st) rest with
          | Some (n, _) => [BUFTYPE n]
          | None => []
          end
        else []
  | [] => []
  end.

(** [st'] is [st] up to the arrays of the RX ring and the tape. *)
Definition rx_stored (st st' : state) : Prop :=
  ∃ b e tape,
    st' = set_rx_buffer b (set_rx_buffer_storage_ e (set_hw_in tape st)).

(** A schedule of driver calls on the transmit side, and one on the receive
    side: application calls interleaved with runs of the interrupt handler. *)
Inductive tx_op : Type :=
| TxPut (c : Z)
| TxIrq.

Inductive rx_op : Type :=
| RxGet
| RxIrq.

Fixpoint tx_run (ops : list tx_op) : M unit :=
  match ops with
  | [] => skip
  | TxPut c :: ops' => serial_putchar c;; tx_run ops'
  | TxIrq :: ops' => uart0_status_isr;; tx_run ops'
  end.

(** The bytes handed to serial_putchar by a schedule, in order. *)
Definition puts (ops : list tx_op) : list Z :=
  flat_map (λ o, match o with TxPut c => [u8 c] | TxIrq => [] end) ops.

(** Runs a receive-side schedule; returns the units popped by the
    serial_getchar calls (a call on an empty ring pops nothing) and the units
    pushed by the handler, both in order. *)
Fixpoint rx_run (ops : list rx_op) : M (list Z * list Z) :=
  match ops with
  | [] => mret ([], [])
  | RxGet :: ops' =>
      empty ← gets (λ st, rx_buffer_head st =? rx_buffer_tail st);
      c ← serial_getchar;
      r ← rx_run ops';
      mret ((if empty : bool then [] else [c]) ++ r.1, r.2)
  | RxIrq :: ops' =>
      pushed ← gets rx_accepted;
      uart0_status_isr;;
      r ← rx_run ops';
      mret (r.1, pushed ++ r.2)
  end.

(** The RX ring is full: advancing head by one would reach tail. *)
Definition rx_full (st : state) : Prop :=
  (rx_buffer_head st + 1) mod rx_buffer_total_size_ st = rx_buffer_tail st.

(** Everything the RX ring consists of is the same in both states. *)
Definition rx_ring_same (st st' : state) : Prop :=
  rx_buffer_head st' = rx_buffer_head st
  ∧ rx_buffer_tail st' = rx_buffer_tail st
  ∧ rx_buffer_total_size_ st' = rx_buffer_total_size_ st
  ∧ rx_buffer st' = rx_buffer st
  ∧ rx_buffer_storage_ st' = rx_buffer_storage_ st.

(** Tape that lets one run of the interrupt handler complete in any case. *)
Definition isr_tape_bound (st : state) : Z :=
  520 + 2 * tx_buffer_total_size_ st.

End Notions.

(** ** Concrete scenarios *)

Section Scenarios.

(** One received unit per handler run: UART0_S1 with RDRF set, then the data
    (single-slot build), or UART0_S1, UART0_RCFIFO = 1 and the data (FIFO
    build).  UART0_C2 has no transmit interrupt enabled in these runs, so the
    handler reads nothing else. *)
Definition rx_events_single (n : nat) : list Z :=
  flat_map (λ i, [0x20; Z.of_nat i]) (seq 1 n).

Definition rx_events_fifo (n : nat) : list Z :=
  flat_map (λ i, [0x20; 1; Z.of_nat i]) (seq 1 n).

(** Teensy LC after serial_begin. *)
Definition lc_begun : state :=
  run (serial_begin (cfg := teensy_lc)) (power_on (cfg := teensy_lc)).

(** Teensy 3.2 after serial_begin. *)
Definition t32_begun : state :=
  run (serial_begin (cfg := teensy_32)) (power_on (cfg := teensy_32)).

(** Teensy LC with a 200-unit extension on the RX ring, resp. the TX ring. *)
Definition lc_rx_extended : state :=
  run (serial_add_memory_for_read (cfg := teensy_lc) (Some (replicate 200 0)) 200)
      lc_begun.

Definition lc_tx_extended : state :=
  run (serial_add_memory_for_write (cfg := teensy_lc) (Some (replicate 200 0)) 200)
      lc_begun.

(** [n] units received on Teensy LC from state [st], none read. *)
Definition lc_receive (n : nat) (st : state) : state :=
  run (times n (uart0_status_isr (cfg := teensy_lc)))
      (feed (rx_events_single n) st).

End Scenarios.

(** ** Further functions of serial1.c *)

(** Updates of the two variables that only serial_format writes. *)
Definition set_use9Bits_var (v : Z) (st : state) : state :=
  mkState (tx_buffer st) (rx_buffer st) (rx_buffer_storage_ st)
    (tx_buffer_storage_ st) (tx_buffer_total_size_ st)
    (rx_buffer_total_size_ st) (rts_low_watermark_ st)
    (rts_high_watermark_ st) (transmitting st) (transmit_pin st) (rts_pin st)
    (tx_buffer_head st) (tx_buffer_tail st) (rx_buffer_head st)
    (rx_buffer_tail st) v (half_duplex_mode st) (SIM_SCGC4 st) (UART0_C2 st)
    (UART0_C3 st) (gpio st) (UART0_D_wr st) (UART0_CFIFO_wr st) (hw_in st).

Definition set_half_duplex_mode (v : Z) (st : state) : state :=
  mkState (tx_buffer st) (rx_buffer st) (rx_buffer_storage_ st)
    (tx_buffer_storage_ st) (tx_buffer_total_size_ st)
    (rx_buffer_total_size_ st) (rts_low_watermark_ st)
    (rts_high_watermark_ st) (transmitting st) (transmit_pin st) (rts_pin st)
    (tx_buffer_head st) (tx_buffer_tail st) (rx_buffer_head st)
    (rx_buffer_tail st) (use9Bits_var st) v (SIM_SCGC4 st) (UART0_C2 st)
    (UART0_C3 st) (gpio st) (UART0_D_wr st) (UART0_CFIFO_wr st) (hw_in st).

Section Further.
Context `{cfg : Config}.

(** *** Waiting for the transmitter to finish *)

(** One turn of a loop that only waits for the interrupt handler: the next
    value on the tape says whether the status interrupt is taken during this
    turn. *)
Definition idle_turn : M unit :=
  irq ← hw_read;
  when (nz irq) uart0_status_isr.

(** [while (transmitting) body;] *)
Fixpoint wait_idle (fuel : nat) (body : M unit) : M unit :=
  match fuel with
  | O => starved
  | S fuel' =>
      t ← gets transmitting;
      if nz t then idle_turn;; body;; wait_idle fuel' body
      else skip
  end.

Definition serial_flush : M unit :=
  fuel ← gets (λ st, S (length (hw_in st)));
  wait_idle fuel yield.

(** digitalWrite(pin, LOW) of pins_teensy.c, for a pin that pinMode has made
    an output: the pin is driven low; a pin number that is not a digital pin
    is ignored. *)
Definition digitalWrite_LOW (pin : Z) : M unit :=
  when (pin <? CORE_NUM_DIGITAL)
    (modify (λ st, set_gpio (<[pin := false]> (gpio st)) st)).

(** portOutputRegister(pin) reads the table of the digital pins, which has
    CORE_NUM_DIGITAL entries. *)
Definition serial_set_transmit_pin (pin : Z) : M unit :=
  let pin := u8 pin in
  fuel ← gets (λ st, S (length (hw_in st)));
  wait_idle fuel skip;;
  digitalWrite_LOW pin;;
  if pin <? CORE_NUM_DIGITAL
  then modify (set_transmit_pin (Some (PortOutputRegister pin)))
  else undefined.

(** *** Hexadecimal output *)

Definition serial_phex1 (n : Z) : M unit :=
  let n := Z.land (u32 n) 15 in
  if n <? 10 then serial_putchar (u32 (48 + n))
  else serial_putchar (u32 (65 - 10 + n)).

Definition serial_phex (n : Z) : M unit :=
  let n := u32 n in
  serial_phex1 (Z.shiftr n 4);;
  serial_phex1 n.

Definition serial_phex16 (n : Z) : M unit :=
  let n := u32 n in
  serial_phex (Z.shiftr n 8);;
  serial_phex n.

Definition serial_phex32 (n : Z) : M unit :=
  let n := u32 n in
  serial_phex (Z.shiftr n 24);;
  serial_phex (Z.shiftr n 16);;
  serial_phex (Z.shiftr n 8);;
  serial_phex n.

(** *** Notions for these functions *)

(** The characters 0 to 9 and A to F. *)
Definition hex_alphabet : list Z :=
  [48; 49; 50; 51; 52; 53; 54; 55; 56; 57; 65; 66; 67; 68; 69; 70].

Definition hex_char (d : Z) : Z := default 0 (hex_alphabet !! Z.to_nat d).

(** The [k] low hexadecimal digits of [n] as characters, the most
    significant first. *)
Fixpoint hex_digits (k : nat) (n : Z) : list Z :=
  match k with
  | O => []
  | S k' => hex_digits k' (n / 16) ++ [hex_char (n mod 16)]
  end.

(** The value of a character as a hexadecimal digit. *)
Definition hex_value (c : Z) : option Z :=
  if (48 <=? c) && (c <=? 57) then Some (c - 48)
  else if (65 <=? c) && (c <=? 70) then Some (c - 55)
  else None.

(** The number that a string of hexadecimal digits denotes. *)
Definition unhex (cs : list Z) : option Z :=
  foldl (λ acc c, a ← acc; d ← hex_value c; Some (16 * a + d)) (Some 0) cs.

(** [n] serial_getchar calls in a row; returns what they returned. *)
Fixpoint getchar_each (n : nat) : M (list Z) :=
  match n with
  | O => mret []
  | S n' => c ← serial_getchar; cs ← getchar_each n'; mret (c :: cs)
  end.

(** The free slots of the TX ring. *)
Definition tx_room (st : state) : Z :=
  tx_buffer_total_size_ st - 1
  - (tx_buffer_head st - tx_buffer_tail st) mod tx_buffer_total_size_ st.

(** What remains of [st] for the code outside the TX ring when units are
    pushed into it: everything but the arrays, head, the transmitting flag,
    the interrupt enables, the direction bit and the transmit pin level. *)
Definition tx_pushed (st st' : state) : Prop :=
  ∃ b e h tr c2 c3 g,
    st' = set_tx_buffer b
            (set_tx_buffer_storage_ e
               (set_tx_buffer_head h
                  (set_transmitting tr
                     (set_UART0_C2 c2 (set_UART0_C3 c3 (set_gpio g st)))))).

(** The driver switches the direction of the single wire: on KINETISL by
    half_duplex_mode, elsewhere by a transmit pin that is the TXDIR bit of
    UART0_C3. *)
Definition half_duplex_on (st : state) : Prop :=
  if KINETISL then half_duplex_mode st ≠ 0
  else transmit_pin st = Some BitbandC3TxDir.

(** The transmitter has finished in [st']: the flag is clear, the interrupt
    enables are back to C2_TX_INACTIVE and the transmit pin that was
    configured in [st] is deasserted. *)
Definition tx_finished (st st' : state) : Prop :=
  transmitting st' = 0
  ∧ UART0_C2 st' = u8 C2_TX_INACTIVE
  ∧ ∀ p, transmit_pin st = Some p → pin_level st' p = Some false.

End Further.

(** ** Further scenarios *)

(** Teensy 3.2 built with SERIAL_9BIT_SUPPORT, after serial_begin and with
    use9Bits set to 0x80, the value that serial_format stores for a format
    with the nine-bit flag. *)
Definition teensy_32_9bit : Config :=
  mkConfig 64 64 true false true 34
           0x400 0x80 0x40 0x20 0x10 0x08 0x04 0x80 0x40 0x20 0x10 0x20 0x40.

Definition t32_9bit_begun : state :=
  set_use9Bits_var 0x80
    (run (serial_begin (cfg := teensy_32_9bit))
         (power_on (cfg := teensy_32_9bit))).

(** ** Set-up of the peripheral: pins, baud rate, format *)

(** serial_begin, serial_format, serial_end, serial_set_tx, serial_set_rx
    and serial_set_cts also act on what the driver proper never touches: the
    two variables that hold the numbers of the RX and TX pins, the pin
    configuration registers, the baud rate and format registers of UART0, and
    the interrupt controller.  A [machine] is the driver state together with
    these:
    - [rx_pin_num], [tx_pin_num]: the static variables of serial1.c;
    - [CORE_PIN_CONFIG]: the registers CORE_PINn_CONFIG, by pin number n;
    - [UART0_BDH] ... [UART0_MODEM]: registers that keep what software
      writes; UART0_S2 has flags driven by the hardware, so it is read from
      the tape and [UART0_S2_wr] logs what is written to it;
    - [irq_priority], [irq_enabled]: the priority of IRQ_UART0_STATUS in the
      interrupt controller and whether that interrupt is enabled. *)
Record machine : Type := mkMachine {
  driver : state;
  rx_pin_num : Z;
  tx_pin_num : Z;
  CORE_PIN_CONFIG : gmap Z Z;
  UART0_BDH : Z;
  UART0_BDL : Z;
  UART0_C1 : Z;
  UART0_C4 : Z;
  UART0_S2_wr : list Z;
  UART0_PFIFO : Z;
  UART0_TWFIFO : Z;
  UART0_RWFIFO : Z;
  UART0_MODEM : Z;
  irq_priority : Z;
  irq_enabled : bool;
}.

Definition set_driver (v : state) (m : machine) : machine :=
  mkMachine v (rx_pin_num m) (tx_pin_num m) (CORE_PIN_CONFIG m) (UART0_BDH m)
    (UART0_BDL m) (UART0_C1 m) (UART0_C4 m) (UART0_S2_wr m) (UART0_PFIFO m)
    (UART0_TWFIFO m) (UART0_RWFIFO m) (UART0_MODEM m) (irq_priority m)
    (irq_enabled m).

Definition set_rx_pin_num (v : Z) (m : machine) : machine :=
  mkMachine (driver m) v (tx_pin_num m) (CORE_PIN_CONFIG m) (UART0_BDH m)
    (UART0_BDL m) (UART0_C1 m) (UART0_C4 m) (UART0_S2_wr m) (UART0_PFIFO m)
    (UART0_TWFIFO m) (UART0_RWFIFO m) (UART0_MODEM m) (irq_priority m)
    (irq_enabled m).

Definition set_tx_pin_num (v : Z) (m : machine) : machine :=
  mkMachine (driver m) (rx_pin_num m) v (CORE_PIN_CONFIG m) (UART0_BDH m)
    (UART0_BDL m) (UART0_C1 m) (UART0_C4 m) (UART0_S2_wr m) (UART0_PFIFO m)
    (UART0_TWFIFO m) (UART0_RWFIFO m) (UART0_MODEM m) (irq_priority m)
    (irq_enabled m).

Definition set_CORE_PIN_CONFIG (v : gmap Z Z) (m : machine) : machine :=
  mkMachine (driver m) (rx_pin_num m) (tx_pin_num m) v (UART0_BDH m)
    (UART0_BDL m) (UART0_C1 m) (UART0_C4 m) (UART0_S2_wr m) (UART0_PFIFO m)
    (UART0_TWFIFO m) (UART0_RWFIFO m) (UART0_MODEM m) (irq_priority m)
    (irq_enabled m).

Definition set_UART0_BDH (v : Z) (m : machine) : machine :=
  mkMachine (driver m) (rx_pin_num m) (tx_pin_num m) (CORE_PIN_CONFIG m) v
    (UART0_BDL m) (UART0_C1 m) (UART0_C4 m) (UART0_S2_wr m) (UART0_PFIFO m)
    (UART0_TWFIFO m) (UART0_RWFIFO m) (UART0_MODEM m) (irq_priority m)
    (irq_enabled m).

Definition set_UART0_BDL (v : Z) (m : machine) : machine :=
  mkMachine (driver m) (rx_pin_num m) (tx_pin_num m) (CORE_PIN_CONFIG m)
    (UART0_BDH m) v (UART0_C1 m) (UART0_C4 m) (UART0_S2_wr m) (UART0_PFIFO m)
    (UART0_TWFIFO m) (UART0_RWFIFO m) (UART0_MODEM m) (irq_priority m)
    (irq_enabled m).

Definition set_UART0_C1 (v : Z) (m : machine) : machine :=
  mkMachine (driver m) (rx_pin_num m) (tx_pin_num m) (CORE_PIN_CONFIG m)
    (UART0_BDH m) (UART0_BDL m) v (UART0_C4 m) (UART0_S2_wr m) (UART0_PFIFO m)
    (UART0_TWFIFO m) (UART0_RWFIFO m) (UART0_MODEM m) (irq_priority m)
    (irq_enabled m).

Definition set_UART0_C4 (v : Z) (m : machine) : machine :=
  mkMachine (driver m) (rx_pin_num m) (tx_pin_num m) (CORE_PIN_CONFIG m)
    (UART0_BDH m) (UART0_BDL m) (UART0_C1 m) v (UART0_S2_wr m) (UART0_PFIFO m)
    (UART0_TWFIFO m) (UART0_RWFIFO m) (UART0_MODEM m) (irq_priority m)
    (irq_enabled m).

Definition set_UART0_S2_wr (v : list Z) (m : machine) : machine :=
  mkMachine (driver m) (rx_pin_num m) (tx_pin_num m) (CORE_PIN_CONFIG m)
    (UART0_BDH m) (UART0_BDL m) (UART0_C1 m) (UART0_C4 m) v (UART0_PFIFO m)
    (UART0_TWFIFO m) (UART0_RWFIFO m) (UART0_MODEM m) (irq_priority m)
    (irq_enabled m).

Definition set_UART0_PFIFO (v : Z) (m : machine) : machine :=
  mkMachine (driver m) (rx_pin_num m) (tx_pin_num m) (CORE_PIN_CONFIG m)
    (UART0_BDH m) (UART0_BDL m) (UART0_C1 m) (UART0_C4 m) (UART0_S2_wr m) v
    (UART0_TWFIFO m) (UART0_RWFIFO m) (UART0_MODEM m) (irq_priority m)
    (irq_enabled m).

Definition set_UART0_TWFIFO (v : Z) (m : machine) : machine :=
  mkMachine (driver m) (rx_pin_num m) (tx_pin_num m) (CORE_PIN_CONFIG m)
    (UART0_BDH m) (UART0_BDL m) (UART0_C1 m) (UART0_C4 m) (UART0_S2_wr m)
    (UART0_PFIFO m) v (UART0_RWFIFO m) (UART0_MODEM m) (irq_priority m)
    (irq_enabled m).

Definition set_UART0_RWFIFO (v : Z) (m : machine) : machine :=
  mkMachine (driver m) (rx_pin_num m) (tx_pin_num m) (CORE_PIN_CONFIG m)
    (UART0_BDH m) (UART0_BDL m) (UART0_C1 m) (UART0_C4 m) (UART0_S2_wr m)
    (UART0_PFIFO m) (UART0_TWFIFO m) v (UART0_MODEM m) (irq_priority m)
    (irq_enabled m).

Definition set_UART0_MODEM (v : Z) (m : machine) : machine :=
  mkMachine (driver m) (rx_pin_num m) (tx_pin_num m) (CORE_PIN_CONFIG m)
    (UART0_BDH m) (UART0_BDL m) (UART0_C1 m) (UART0_C4 m) (UART0_S2_wr m)
    (UART0_PFIFO m) (UART0_TWFIFO m) (UART0_RWFIFO m) v (irq_priority m)
    (irq_enabled m).

Definition set_irq_priority (v : Z) (m : machine) : machine :=
  mkMachine (driver m) (rx_pin_num m) (tx_pin_num m) (CORE_PIN_CONFIG m)
    (UART0_BDH m) (UART0_BDL m) (UART0_C1 m) (UART0_C4 m) (UART0_S2_wr m)
    (UART0_PFIFO m) (UART0_TWFIFO m) (UART0_RWFIFO m) (UART0_MODEM m) v
    (irq_enabled m).

Definition set_irq_enabled (v : bool) (m : machine) : machine :=
  mkMachine (driver m) (rx_pin_num m) (tx_pin_num m) (CORE_PIN_CONFIG m)
    (UART0_BDH m) (UART0_BDL m) (UART0_C1 m) (UART0_C4 m) (UART0_S2_wr m)
    (UART0_PFIFO m) (UART0_TWFIFO m) (UART0_RWFIFO m) (UART0_MODEM m)
    (irq_priority m) v.
(** The constants of kinetis.h, core_pins.h and HardwareSerial.h that these
    functions use, and the preprocessor symbols that select their variants;
    the headers are not part of the sources and are therefore parameters.
    [MK64FX512_or_MK66FX1M0] stands for
    [defined(__MK64FX512__) || defined(__MK66FX1M0__)]. *)
Class Kinetis : Type := mkKinetis {
  MK64FX512_or_MK66FX1M0 : bool;
  HAS_KINETISK_UART0 : bool;
  HAS_KINETISL_UART0 : bool;
  PORT_PCR_MUX : Z → Z;
  PORT_PCR_PE : Z;
  PORT_PCR_PS : Z;
  PORT_PCR_PFE : Z;
  PORT_PCR_DSE : Z;
  PORT_PCR_SRE : Z;
  PORT_PCR_ODE : Z;
  UART_C1_ILT : Z;
  UART_C1_LOOPS : Z;
  UART_C1_RSRC : Z;
  UART_PFIFO_TXFE : Z;
  UART_PFIFO_RXFE : Z;
  UART_BDH_SBNS : Z;
  UART_MODEM_TXCTSE : Z;
  SERIAL_HALF_DUPLEX : Z;
}.

(** The values of the headers for the MKL26 (Teensy LC) and the MK20
    (Teensy 3.2). *)
Definition kinetis_lc : Kinetis :=
  mkKinetis false false true (λ n, Z.shiftl (Z.land n 7) 8)
            0x02 0x01 0x10 0x40 0x04 0x20 0x04 0x80 0x20 0x80 0x08 0x20 0x01
            0x200.

Definition kinetis_32 : Kinetis :=
  mkKinetis false true false (λ n, Z.shiftl (Z.land n 7) 8)
            0x02 0x01 0x10 0x40 0x04 0x20 0x04 0x80 0x20 0x80 0x08 0x20 0x01
            0x200.

(** A function on a machine returns, has undefined behaviour, or is still
    waiting when the tape ends, like a function of the driver proper. *)
Inductive result (A : Type) : Type :=
| Returned (a : A) (m : machine)
| Faulted
| Blocked.

Arguments Returned {A} a m.
Arguments Faulted {A}.
Arguments Blocked {A}.

Definition Op (A : Type) : Type := machine → result A.

Global Instance Op_ret : MRet Op := λ A a m, Returned a m.

Global Instance Op_bind : MBind Op := λ A B f op m,
  match op m with
  | Returned a m' => f a m'
  | Faulted => Faulted
  | Blocked => Blocked
  end.

Definition reads {A : Type} (f : machine → A) : Op A := λ m, Returned (f m) m.
Definition changes (f : machine → machine) : Op unit :=
  λ m, Returned tt (f m).
Definition faults {A : Type} : Op A := λ _, Faulted.
Definition nothing : Op unit := mret tt.

(** A computation of the driver proper, run on the driver state of the
    machine. *)
Definition on_driver {A : Type} (f : M A) : Op A := λ m,
  match f (driver m) with
  | Done a st => Returned a (set_driver st m)
  | Undefined => Faulted
  | Starved => Blocked
  end.

Definition provided (b : bool) (op : Op unit) : Op unit :=
  if b then op else nothing.

(** The machine a function ends in (the initial one if it does not
    return). *)
Definition after {A : Type} (op : Op A) (m : machine) : machine :=
  match op m with
  | Returned _ m' => m'
  | _ => m
  end.

Module Machine.
Section Functions.
Context `{cfg : Config} `{kin : Kinetis}.

(** [CORE_PINn_CONFIG = v;] for the pin [n]. *)
Definition write_CORE_PIN_CONFIG (n v : Z) : Op unit :=
  changes (λ m, set_CORE_PIN_CONFIG (<[n := u32 v]> (CORE_PIN_CONFIG m)) m).

(** The case labels of the switch statements over the RX pin and over the
    TX pin: the pins that can carry the signal in this build, each with the
    number of the multiplexer setting that its case writes. *)
Definition rx_pin_case (pin : Z) : option Z :=
  if pin =? 0 then Some 3
  else if pin =? 21 then Some 3
  else if KINETISL && (pin =? 3) then Some 2
  else if KINETISL && (pin =? 25) then Some 4
  else if MK64FX512_or_MK66FX1M0 && (pin =? 27) then Some 3
  else None.

Definition tx_pin_case (pin : Z) : option Z :=
  if pin =? 1 then Some 3
  else if pin =? 5 then Some 3
  else if KINETISL && (pin =? 4) then Some 2
  else if KINETISL && (pin =? 24) then Some 4
  else if MK64FX512_or_MK66FX1M0 && (pin =? 26) then Some 3
  else None.

(** [switch (pin) { case n: CORE_PINn_CONFIG = v(k); break; ... }] where k is
    the multiplexer setting of the case. *)
Definition switch_rx_pin (pin : Z) (v : Z → Z) : Op unit :=
  match rx_pin_case pin with
  | Some k => write_CORE_PIN_CONFIG pin (v k)
  | None => nothing
  end.

Definition switch_tx_pin (pin : Z) (v : Z → Z) : Op unit :=
  match tx_pin_case pin with
  | Some k => write_CORE_PIN_CONFIG pin (v k)
  | None => nothing
  end.

Definition lor3 (a b c : Z) : Z := Z.lor (Z.lor a b) c.
Definition lor4 (a b c d : Z) : Z := Z.lor (Z.lor (Z.lor a b) c) d.
Definition lor5 (a b c d e : Z) : Z :=
  Z.lor (Z.lor (Z.lor (Z.lor a b) c) d) e.

(** The baud rate registers after [if (divisor < 32) divisor = 32;
    UART0_BDH = (divisor >> 13) & 0x1F; UART0_BDL = (divisor >> 5) & 0xFF;
    UART0_C4 = divisor & 0x1F;] (HAS_KINETISK_UART0), resp.
    [if (divisor < 1) divisor = 1; UART0_BDH = (divisor >> 8) & 0x1F;
    UART0_BDL = divisor & 0xFF;] (HAS_KINETISL_UART0). *)
Definition set_baud_kinetisk (divisor : Z) : Op unit :=
  let divisor := if divisor <? 32 then 32 else divisor in
  changes (set_UART0_BDH (u8 (Z.land (Z.shiftr divisor 13) 0x1F)));;
  changes (set_UART0_BDL (u8 (Z.land (Z.shiftr divisor 5) 0xFF)));;
  changes (set_UART0_C4 (u8 (Z.land divisor 0x1F))).

Definition set_baud_kinetisl (divisor : Z) : Op unit :=
  let divisor := if divisor <? 1 then 1 else divisor in
  changes (set_UART0_BDH (u8 (Z.land (Z.shiftr divisor 8) 0x1F)));;
  changes (set_UART0_BDL (u8 (Z.land divisor 0xFF))).

Definition serial_begin (divisor : Z) : Op unit :=
  let divisor := u32 divisor in
  on_driver
    (modify (λ st, set_SIM_SCGC4
                     (u32 (Z.lor (SIM_SCGC4 st) SIM_SCGC4_UART0)) st));;
  on_driver (modify (set_rx_buffer_head 0));;
  on_driver (modify (set_rx_buffer_tail 0));;
  on_driver (modify (set_tx_buffer_head 0));;
  on_driver (modify (set_tx_buffer_tail 0));;
  on_driver (modify (set_transmitting 0));;
  rx ← reads rx_pin_num;
  switch_rx_pin rx
    (λ k, lor4 PORT_PCR_PE PORT_PCR_PS PORT_PCR_PFE (PORT_PCR_MUX k));;
  tx ← reads tx_pin_num;
  switch_tx_pin tx (λ k, lor3 PORT_PCR_DSE PORT_PCR_SRE (PORT_PCR_MUX k));;
  (if HAS_KINETISK_UART0 then
     set_baud_kinetisk divisor;;
     if HAS_KINETISK_UART0_FIFO then
       changes (set_UART0_C1 (u8 UART_C1_ILT));;
       changes (set_UART0_TWFIFO 2);;
       changes (set_UART0_RWFIFO 4);;
       changes (set_UART0_PFIFO (u8 (Z.lor UART_PFIFO_TXFE UART_PFIFO_RXFE)))
     else
       changes (set_UART0_C1 0);;
       changes (set_UART0_PFIFO 0)
   else if HAS_KINETISL_UART0 then
     set_baud_kinetisl divisor;;
     changes (set_UART0_C1 0)
   else nothing);;
  on_driver (write_UART0_C2 C2_TX_INACTIVE);;
  changes (set_irq_priority IRQ_PRIORITY);;
  changes (set_irq_enabled true).

(** [serial_format]: [c] is a uint8_t, [format] a uint32_t.  UART0_C3 is read
    as the driver proper reads it; UART0_S2 is read from the tape. *)
Definition tx_pin_case_half_duplex (pin : Z) : option Z :=
  if pin =? 1 then Some 3
  else if pin =? 5 then Some 3
  else if pin =? 4 then Some 2
  else if pin =? 24 then Some 4
  else None.

Definition serial_format (format : Z) : Op unit :=
  let format := u32 format in
  c ← reads UART0_C1;
  let c := u8 (Z.lor (Z.land c (Z.lnot 0x13)) (Z.land format 0x03)) in
  let c := if nz (Z.land format 0x04) then u8 (Z.lor c 0x10) else c in
  changes (set_UART0_C1 c);;
  provided (Z.land format 0x0F =? 0x04)
    (on_driver (c3 ← gets UART0_C3; write_UART0_C3 (Z.lor c3 0x40)));;
  s2 ← on_driver hw_read8;
  let c := u8 (Z.land s2 (Z.lnot 0x10)) in
  let c := if nz (Z.land format 0x10) then u8 (Z.lor c 0x10) else c in
  changes (λ m, set_UART0_S2_wr (UART0_S2_wr m ++ [c]) m);;
  c3 ← on_driver (gets UART0_C3);
  let c := u8 (Z.land c3 (Z.lnot 0x10)) in
  let c := if nz (Z.land format 0x20) then u8 (Z.lor c 0x10) else c in
  on_driver (write_UART0_C3 c);;
  provided SERIAL_9BIT_SUPPORT
    (c4 ← reads UART0_C4;
     let c := u8 (Z.land c4 0x1F) in
     let c := if nz (Z.land format 0x08) then u8 (Z.lor c 0x20) else c in
     changes (set_UART0_C4 c);;
     on_driver (modify (set_use9Bits_var (u8 (Z.land format 0x80)))));;
  provided (MK64FX512_or_MK66FX1M0 || KINETISL)
    (provided (nz (Z.land format 0x100))
       (bdl ← reads UART0_BDL;
        bdh ← reads UART0_BDH;
        changes (set_UART0_BDH (u8 (Z.lor bdh UART_BDH_SBNS)));;
        changes (set_UART0_BDL bdl)));;
  if nz (Z.land format SERIAL_HALF_DUPLEX) then
    c ← reads UART0_C1;
    changes (set_UART0_C1
               (u8 (Z.lor c (Z.lor UART_C1_LOOPS UART_C1_RSRC))));;
    tx ← reads tx_pin_num;
    if KINETISL then
      match tx_pin_case_half_duplex tx with
      | Some k =>
          write_CORE_PIN_CONFIG tx
            (lor5 PORT_PCR_DSE PORT_PCR_SRE (PORT_PCR_MUX k)
                  PORT_PCR_PE PORT_PCR_PS)
      | None => nothing
      end;;
      on_driver (modify (set_half_duplex_mode 1))
    else
      (* portConfigRegister(tx_pin_num) reads the table of the digital
         pins, which has CORE_NUM_DIGITAL entries *)
      (if tx <? CORE_NUM_DIGITAL then
         write_CORE_PIN_CONFIG tx
           (lor5 PORT_PCR_DSE PORT_PCR_SRE (PORT_PCR_MUX 3)
                 PORT_PCR_PE PORT_PCR_PS)
       else faults);;
      on_driver (modify (set_transmit_pin (Some BitbandC3TxDir)))
  else
    if KINETISL then on_driver (modify (set_half_duplex_mode 0))
    else
      tp ← on_driver (gets transmit_pin);
      match tp with
      | Some BitbandC3TxDir => on_driver (modify (set_transmit_pin None))
      | _ => nothing
      end.

Definition serial_end : Op unit :=
  scgc4 ← on_driver (gets SIM_SCGC4);
  if negb (nz (Z.land scgc4 SIM_SCGC4_UART0)) then nothing
  else
    on_driver (fuel ← gets (λ st, S (length (hw_in st)));
               wait_idle fuel yield);;
    changes (set_irq_enabled false);;
    on_driver (write_UART0_C2 0);;
    rx ← reads rx_pin_num;
    switch_rx_pin rx (λ _, lor3 PORT_PCR_PE PORT_PCR_PS (PORT_PCR_MUX 1));;
    tx ← reads tx_pin_num;
    switch_tx_pin (Z.land tx 127)
      (λ _, lor3 PORT_PCR_PE PORT_PCR_PS (PORT_PCR_MUX 1));;
    _ ← on_driver hw_read8;
    _ ← on_driver hw_read8;
    on_driver (modify (set_rx_buffer_head 0));;
    on_driver (modify (set_rx_buffer_tail 0));;
    on_driver (rts ← gets rts_pin; when_set rts rts_deassert).

Definition serial_set_tx (pin opendrain : Z) : Op unit :=
  let opendrain := u8 opendrain in
  let pin := if nz opendrain then u8 (Z.lor (u8 pin) 128) else u8 pin in
  tx ← reads tx_pin_num;
  if pin =? tx then nothing
  else
    scgc4 ← on_driver (gets SIM_SCGC4);
    provided (nz (Z.land scgc4 SIM_SCGC4_UART0))
      (switch_tx_pin (Z.land tx 127) (λ _, 0);;
       let cfg := if nz opendrain then Z.lor PORT_PCR_DSE PORT_PCR_ODE
                  else Z.lor PORT_PCR_DSE PORT_PCR_SRE in
       switch_tx_pin (Z.land pin 127) (λ k, Z.lor cfg (PORT_PCR_MUX k)));;
    changes (set_tx_pin_num pin).

Definition serial_set_rx (pin : Z) : Op unit :=
  let pin := u8 pin in
  rx ← reads rx_pin_num;
  if pin =? rx then nothing
  else
    scgc4 ← on_driver (gets SIM_SCGC4);
    provided (nz (Z.land scgc4 SIM_SCGC4_UART0))
      (switch_rx_pin rx (λ _, 0);;
       switch_rx_pin pin
         (λ k, lor4 PORT_PCR_PE PORT_PCR_PS PORT_PCR_PFE (PORT_PCR_MUX k)));;
    changes (set_rx_pin_num pin).

(** KINETISK is the family that is not KINETISL. *)
Definition serial_set_cts (pin : Z) : Op Z :=
  let pin := u8 pin in
  if negb KINETISL then
    let enable : Op Z :=
      modem ← reads UART0_MODEM;
      changes (set_UART0_MODEM (u8 (Z.lor modem UART_MODEM_TXCTSE)));;
      mret 1 in
    scgc4 ← on_driver (gets SIM_SCGC4);
    if negb (nz (Z.land scgc4 SIM_SCGC4_UART0)) then mret 0
    else if pin =? 18 then
      write_CORE_PIN_CONFIG 18 (Z.lor (PORT_PCR_MUX 3) PORT_PCR_PE);;
      enable
    else if pin =? 20 then
      write_CORE_PIN_CONFIG 20 (Z.lor (PORT_PCR_MUX 3) PORT_PCR_PE);;
      enable
    else
      modem ← reads UART0_MODEM;
      changes (set_UART0_MODEM
                 (u8 (Z.land modem (Z.lnot UART_MODEM_TXCTSE))));;
      mret 0
  else mret 0.

End Functions.
End Machine.

(** A machine around a driver state, with the pin numbers as serial1.c
    initialises them (RX on pin 0, TX on pin 1), no pin configured, the
    registers cleared and the interrupt disabled. *)
Definition machine_of (st : state) : machine :=
  mkMachine st 0 1 ∅ 0 0 0 0 [] 0 0 0 0 0 false.

Section MachineNotions.
Context `{cfg : Config} `{kin : Kinetis}.

(** The pin configuration registers after the two switch statements of
    serial_begin. *)
Definition begin_pins (m : machine) : gmap Z Z :=
  let pc :=
    match Machine.rx_pin_case (rx_pin_num m) with
    | Some k =>
        <[rx_pin_num m :=
            u32 (Machine.lor4 PORT_PCR_PE PORT_PCR_PS PORT_PCR_PFE
                              (PORT_PCR_MUX k))]> (CORE_PIN_CONFIG m)
    | None => CORE_PIN_CONFIG m
    end in
  match Machine.tx_pin_case (tx_pin_num m) with
  | Some k =>
      <[tx_pin_num m :=
          u32 (Machine.lor3 PORT_PCR_DSE PORT_PCR_SRE (PORT_PCR_MUX k))]> pc
  | None => pc
  end.

End MachineNotions.

(** * Properties *)

(** ** Reasoning about monadic code *)

Lemma bind_unfold {A B : Type} (m : M A) (k : A → M B) (st : state) :
  (m ≫= k) st = match m st with
                | Done a st' => k a st'
                | Undefined => Undefined
                | Starved => Starved
                end.
Proof. reflexivity. Qed.

Lemma bind_gets {A B : Type} (g : state → A) (k : A → M B) (st : state) :
  (gets g ≫= k) st = k (g st) st.
Proof. reflexivity. Qed.

Lemma bind_modify {B : Type} (g : state → state) (k : unit → M B) (st : state) :
  (modify g ≫= k) st = k tt (g st).
Proof. reflexivity. Qed.

Lemma bind_mret {A B : Type} (a : A) (k : A → M B) (st : state) :
  (mret a ≫= k) st = k a st.
Proof. reflexivity. Qed.

Lemma bind_skip {B : Type} (k : unit → M B) (st : state) :
  (skip ≫= k) st = k tt st.
Proof. reflexivity. Qed.

Lemma bind_done {A B : Type} (m : M A) (k : A → M B) (st st' : state) (a : A) :
  m st = Done a st' → (m ≫= k) st = k a st'.
Proof. intros E. rewrite bind_unfold, E. reflexivity. Qed.

Lemma bind_assoc {A B C : Type} (m : M A) (k : A → M B) (h : B → M C)
      (st : state) :
  ((m ≫= k) ≫= h) st = (m ≫= λ a, k a ≫= h) st.
Proof. rewrite !bind_unfold. destruct (m st); reflexivity. Qed.

Lemma bind_inv {A B : Type} (m : M A) (k : A → M B) (st st2 : state) (b : B) :
  (m ≫= k) st = Done b st2 →
  ∃ a st1, m st = Done a st1 ∧ k a st1 = Done b st2.
Proof.
  rewrite bind_unfold. destruct (m st) as [a st1| |]; try discriminate.
  intros E. exists a, st1. split; [reflexivity | exact E].
Qed.

Lemma gets_eq {A : Type} (g : state → A) (st : state) : gets g st = Done (g st) st.
Proof. reflexivity. Qed.

Lemma modify_eq (g : state → state) (st : state) : modify g st = Done tt (g st).
Proof. reflexivity. Qed.

Lemma mret_eq {A : Type} (a : A) (st : state) : (mret a : M A) st = Done a st.
Proof. reflexivity. Qed.

Lemma skip_eq (st : state) : skip st = Done tt st.
Proof. reflexivity. Qed.

Ltac mstep :=
  repeat first
    [ rewrite bind_assoc
    | rewrite bind_gets | rewrite bind_modify | rewrite bind_mret
    | rewrite bind_skip | rewrite gets_eq | rewrite modify_eq
    | rewrite mret_eq | rewrite skip_eq ].

(** Reduce the projections of updated states. *)
Ltac fsimpl :=
  cbn [tx_buffer rx_buffer rx_buffer_storage_ tx_buffer_storage_
       tx_buffer_total_size_ rx_buffer_total_size_ rts_low_watermark_
       rts_high_watermark_ transmitting transmit_pin rts_pin tx_buffer_head
       tx_buffer_tail rx_buffer_head rx_buffer_tail use9Bits_var
       half_duplex_mode SIM_SCGC4 UART0_C2 UART0_C3 gpio UART0_D_wr
       UART0_CFIFO_wr hw_in set_SIM_SCGC4 set_transmit_pin set_rts_pin
       set_tx_buffer set_rx_buffer set_rx_buffer_storage_
       set_tx_buffer_storage_ set_tx_buffer_total_size_
       set_rx_buffer_total_size_ set_rts_low_watermark_
       set_rts_high_watermark_ set_transmitting set_tx_buffer_head
       set_tx_buffer_tail set_rx_buffer_head set_rx_buffer_tail
       set_UART0_C2 set_UART0_C3 set_gpio set_UART0_D_wr set_UART0_CFIFO_wr
       set_hw_in].

Ltac fsimpl_in H :=
  cbn [tx_buffer rx_buffer rx_buffer_storage_ tx_buffer_storage_
       tx_buffer_total_size_ rx_buffer_total_size_ rts_low_watermark_
       rts_high_watermark_ transmitting transmit_pin rts_pin tx_buffer_head
       tx_buffer_tail rx_buffer_head rx_buffer_tail use9Bits_var
       half_duplex_mode SIM_SCGC4 UART0_C2 UART0_C3 gpio UART0_D_wr
       UART0_CFIFO_wr hw_in set_SIM_SCGC4 set_transmit_pin set_rts_pin
       set_tx_buffer set_rx_buffer set_rx_buffer_storage_
       set_tx_buffer_storage_ set_tx_buffer_total_size_
       set_rx_buffer_total_size_ set_rts_low_watermark_
       set_rts_high_watermark_ set_transmitting set_tx_buffer_head
       set_tx_buffer_tail set_rx_buffer_head set_rx_buffer_tail
       set_UART0_C2 set_UART0_C3 set_gpio set_UART0_D_wr set_UART0_CFIFO_wr
       set_hw_in] in H.

(** Compute every state update down to the record. *)
Ltac funfold :=
  cbv [set_SIM_SCGC4 set_transmit_pin set_rts_pin set_tx_buffer
       set_rx_buffer set_rx_buffer_storage_ set_tx_buffer_storage_
       set_tx_buffer_total_size_ set_rx_buffer_total_size_
       set_rts_low_watermark_ set_rts_high_watermark_ set_transmitting
       set_tx_buffer_head set_tx_buffer_tail set_rx_buffer_head
       set_rx_buffer_tail set_UART0_C2 set_UART0_C3 set_gpio set_UART0_D_wr
       set_UART0_CFIFO_wr set_hw_in tx_buffer rx_buffer rx_buffer_storage_
       tx_buffer_storage_ tx_buffer_total_size_ rx_buffer_total_size_
       rts_low_watermark_ rts_high_watermark_ transmitting transmit_pin
       rts_pin tx_buffer_head tx_buffer_tail rx_buffer_head rx_buffer_tail
       use9Bits_var half_duplex_mode SIM_SCGC4 UART0_C2 UART0_C3 gpio
       UART0_D_wr UART0_CFIFO_wr hw_in].

(** Arithmetic on the length of the remaining tape. *)
Ltac tape_lia := fsimpl; cbn [length]; lia.

Ltac mexec := repeat (progress (mstep; fsimpl)).

(** ** Machine integers *)

Lemma u32_small (x : Z) : 0 ≤ x < 2 ^ 32 → u32 x = x.
Proof. intros Hx. unfold u32. apply Z.mod_small. exact Hx. Qed.

Lemma u8_small (x : Z) : 0 ≤ x < 2 ^ 8 → u8 x = x.
Proof. intros Hx. unfold u8. apply Z.mod_small. exact Hx. Qed.

Lemma int32_small (x : Z) : 0 ≤ x < 2 ^ 31 → int32 x = x.
Proof.
  intros Hx. unfold int32. rewrite u32_small by lia.
  destruct (Z.ltb_spec x (2 ^ 31)); lia.
Qed.

Lemma u32_int32 (x : Z) : u32 (int32 x) = u32 x.
Proof.
  unfold int32. destruct (Z.ltb_spec (u32 x) (2 ^ 31)).
  - unfold u32. apply Z.mod_mod. lia.
  - unfold u32. rewrite Zminus_mod, Z_mod_same_full, Z.sub_0_r.
    rewrite !Z.mod_mod by lia. reflexivity.
Qed.

Lemma nz_true (x : Z) : nz x = true ↔ x ≠ 0.
Proof. unfold nz. destruct (Z.eqb_spec x 0); simpl; split; auto; congruence. Qed.

Lemma nz_false (x : Z) : nz x = false ↔ x = 0.
Proof. unfold nz. destruct (Z.eqb_spec x 0); simpl; split; auto; congruence. Qed.

Section Properties.
Context `{cfg : Config}.

(** ** Occupancy and free space *)

Lemma mod_wrap_down (total head tail : Z) :
  0 ≤ head < total → 0 ≤ tail < total →
  (head - tail) mod total =
  if head >=? tail then head - tail else total + head - tail.
Proof.
  intros Hh Ht. destruct (Z.geb_spec head tail).
  - apply Z.mod_small. lia.
  - symmetry. apply Z.mod_unique with (q := -1); lia.
Qed.

(** C5. For every head and tail inside [0, total) (with a total that an
    [int] can hold) the occupied count is (head - tail) mod total, the free
    count is total - 1 minus that, and the two add up to total - 1;
    serial_available returns the occupied count of the RX ring and
    serial_write_buffer_free the free count of the TX ring, and neither
    changes the state. *)
Theorem occupancy_free_identity (total head tail : Z) :
  0 ≤ head < total → 0 ≤ tail < total → total ≤ 2 ^ 31 →
  ring_occupied total head tail = (head - tail) mod total
  ∧ ring_free total head tail = total - 1 - (head - tail) mod total
  ∧ ring_occupied total head tail + ring_free total head tail = total - 1
  ∧ (∀ st, rx_buffer_head st = head → rx_buffer_tail st = tail →
           rx_buffer_total_size_ st = total →
           serial_available st = Done ((head - tail) mod total) st)
  ∧ (∀ st, tx_buffer_head st = head → tx_buffer_tail st = tail →
           tx_buffer_total_size_ st = total →
           serial_write_buffer_free st
           = Done (total - 1 - (head - tail) mod total) st).
Proof.
  intros Hh Ht Hn.
  assert (Ho : ring_occupied total head tail = (head - tail) mod total).
  { unfold ring_occupied. rewrite mod_wrap_down by assumption.
    destruct (Z.geb_spec head tail); apply int32_small; lia. }
  assert (Hf : ring_free total head tail = total - 1 - (head - tail) mod total).
  { unfold ring_free. rewrite mod_wrap_down by assumption.
    destruct (Z.geb_spec head tail); rewrite int32_small by lia; lia. }
  split; [exact Ho |]. split; [exact Hf |]. split; [lia |]. split.
  - intros st Eh Et En. unfold serial_available. mstep.
    rewrite Eh, Et, En, Ho. reflexivity.
  - intros st Eh Et En. unfold serial_write_buffer_free. mstep.
    rewrite Eh, Et, En, Hf. reflexivity.
Qed.

(** ** The disabled peripheral *)

Lemma serial_putchar_gated (c : Z) (st : state) :
  clock_gated st → serial_putchar c st = Done tt st.
Proof.
  intros Hg. unfold serial_putchar. mstep. rewrite Hg. reflexivity.
Qed.

Lemma write_each_gated (n : nat) (buf : list Z) (st : state) :
  clock_gated st → (n ≤ length buf)%nat → write_each n buf st = Done tt st.
Proof.
  intros Hg. revert buf. induction n as [|n IH]; intros buf Hn; simpl.
  - reflexivity.
  - destruct buf as [|b buf]; simpl in Hn; [lia |].
    rewrite (bind_done _ _ _ _ _ (serial_putchar_gated (u8 b) st Hg)).
    apply IH. lia.
Qed.

(** C9. While the UART0 clock gate in SIM_SCGC4 is off, serial_putchar and
    serial_write (for every count of bytes that the buffer really holds)
    return at once and leave the whole state as it was: rings, indices, the
    transmitting flag, the pins and every register. *)
Theorem disabled_peripheral_noop (st : state) (c : Z) (buf : list Z) (count : Z) :
  clock_gated st →
  0 ≤ count < 2 ^ 32 →
  count ≤ Z.of_nat (length buf) →
  serial_putchar c st = Done tt st ∧ serial_write buf count st = Done tt st.
Proof.
  intros Hg Hc Hlen. split; [apply serial_putchar_gated; exact Hg |].
  unfold serial_write. destruct HAS_KINETISK_UART0_FIFO.
  - mstep. rewrite Hg. reflexivity.
  - apply write_each_gated; [exact Hg |].
    rewrite u32_small by exact Hc. lia.
Qed.

(** ** serial_print *)

(** C10. For a string [s] without NUL, stored in front of its terminating
    NUL (whatever follows it), serial_print makes exactly the serial_putchar
    calls of the characters of [s] in order, with '\r' (13) before every
    '\n' (10), and none for the NUL or anything after it. *)
Theorem serial_print_crlf (s rest : list Z) (st : state) :
  Forall (λ c, c ≠ 0) s →
  serial_print (s ++ 0 :: rest) st = putchar_each (crlf_expand s) st.
Proof.
  intros Hs. revert st. induction Hs as [|c s Hc Hs IH]; intros st.
  - reflexivity.
  - simpl. apply nz_true in Hc. rewrite Hc.
    destruct (Z.eqb_spec c 10) as [->|Hne]; simpl.
    + unfold when. rewrite !bind_unfold.
      destruct (serial_putchar 13 st) as [[] st1| |]; try reflexivity.
      rewrite !bind_unfold.
      destruct (serial_putchar 10 st1) as [[] st2| |]; try reflexivity.
      apply IH.
    + unfold when. rewrite bind_skip, !bind_unfold.
      destruct (serial_putchar c st) as [[] st1| |]; try reflexivity.
      apply IH.
Qed.

End Properties.

Section Handler.
Context `{cfg : Config}.

(** ** Index arithmetic *)

Lemma advance_spec (total i : Z) :
  0 ≤ i < total → total < 2 ^ 32 →
  advance total i = (i + 1) mod total.
Proof.
  intros Hi Ht. unfold advance. rewrite u32_small by lia.
  destruct (Z.geb_spec (i + 1) total).
  - replace (i + 1) with total by lia. rewrite Z_mod_same_full. reflexivity.
  - rewrite Z.mod_small by lia. reflexivity.
Qed.

Lemma advance_range (total i : Z) :
  0 ≤ i → 0 < total → 0 ≤ advance total i < total.
Proof.
  intros Hi Ht. unfold advance.
  assert (0 ≤ u32 (i + 1)) by (unfold u32; apply Z.mod_pos_bound; lia).
  destruct (Z.geb_spec (u32 (i + 1)) total); lia.
Qed.

Lemma index_wrap_le (size x : Z) : 0 ≤ x → 0 ≤ index_wrap size x ≤ x.
Proof.
  intros Hx. unfold index_wrap.
  assert (0 < 2 ^ index_bits size).
  { unfold index_bits. destruct (size >? 65535); [lia |].
    destruct (size >? 255); lia. }
  split; [apply Z.mod_pos_bound; lia | apply Z.mod_le; lia].
Qed.

Lemma index_wrap_lt (size x : Z) : index_wrap size x < 2 ^ index_bits size.
Proof.
  unfold index_wrap. apply Z.mod_pos_bound.
  unfold index_bits. destruct (size >? 65535); [lia |].
  destruct (size >? 255); lia.
Qed.

Lemma index_wrap_small (size x : Z) :
  0 ≤ x < 2 ^ index_bits size → index_wrap size x = x.
Proof. intros Hx. unfold index_wrap. apply Z.mod_small. exact Hx. Qed.

(** ** Hardware reads *)

Lemma bind_hw_read {B : Type} (k : Z → M B) (st : state) (v : Z) (rest : list Z) :
  hw_in st = v :: rest → (hw_read ≫= k) st = k v (set_hw_in rest st).
Proof. intros E. rewrite bind_unfold. unfold hw_read. rewrite E. reflexivity. Qed.

Lemma bind_hw_read8 {B : Type} (k : Z → M B) (st : state) (v : Z) (rest : list Z) :
  hw_in st = v :: rest → (hw_read8 ≫= k) st = k (u8 v) (set_hw_in rest st).
Proof.
  intros E. unfold hw_read8. rewrite bind_assoc, (bind_hw_read _ _ _ _ E).
  reflexivity.
Qed.

Lemma tape_cons (st : state) (n : Z) :
  n < Z.of_nat (length (hw_in st)) → 0 ≤ n →
  ∃ v rest, hw_in st = v :: rest ∧ n - 1 < Z.of_nat (length rest).
Proof.
  intros Hn H0. destruct (hw_in st) as [|v rest]; simpl in *; [lia |].
  exists v, rest. split; [reflexivity | lia].
Qed.

(** ** Slots of a well-formed ring can be loaded *)

Lemma load_ok (a : list Z) (i : Z) (st : state) :
  0 ≤ i < Z.of_nat (length a) → ∃ v, load a i st = Done v st.
Proof.
  intros Hi. unfold load. destruct (Z.ltb_spec i 0); [lia |].
  destruct (a !! Z.to_nat i) as [v|] eqn:E; [eauto |].
  apply lookup_ge_None in E. lia.
Qed.

End Handler.

Section Slots.
Context `{cfg : Config}.

Lemma load_lookup (a : list Z) (i : Z) (st : state) :
  load a i st = match (if i <? 0 then None else a !! Z.to_nat i) with
                | Some v => Done v st
                | None => Undefined
                end.
Proof. unfold load. destruct (i <? 0); reflexivity. Qed.

Lemma tx_slot_load_eq (i : Z) (st : state) :
  tx_slot_load i st = match tx_slot st i with
                      | Some v => Done v st
                      | None => Undefined
                      end.
Proof.
  unfold tx_slot_load, tx_slot, slot.
  destruct (i <? SERIAL1_TX_BUFFER_SIZE).
  - mstep. apply load_lookup.
  - mstep. destruct (tx_buffer_storage_ st) as [a|]; [| reflexivity].
    rewrite load_lookup.
    assert (0 ≤ u32 (i - SERIAL1_TX_BUFFER_SIZE))
      by (unfold u32; apply Z.mod_pos_bound; lia).
    destruct (Z.ltb_spec (u32 (i - SERIAL1_TX_BUFFER_SIZE)) 0); [lia |].
    reflexivity.
Qed.

Lemma rx_slot_load_eq (i : Z) (st : state) :
  rx_slot_load i st = match rx_slot st i with
                      | Some v => Done v st
                      | None => Undefined
                      end.
Proof.
  unfold rx_slot_load, rx_slot, slot.
  destruct (i <? SERIAL1_RX_BUFFER_SIZE).
  - mstep. apply load_lookup.
  - mstep. destruct (rx_buffer_storage_ st) as [a|]; [| reflexivity].
    rewrite load_lookup.
    assert (0 ≤ u32 (i - SERIAL1_RX_BUFFER_SIZE))
      by (unfold u32; apply Z.mod_pos_bound; lia).
    destruct (Z.ltb_spec (u32 (i - SERIAL1_RX_BUFFER_SIZE)) 0); [lia |].
    reflexivity.
Qed.

Lemma slot_is_Some (size total head tail : Z) (base : list Z)
      (ext : option (list Z)) (i : Z) :
  ring_wf size total head tail base ext → 0 ≤ i < total →
  is_Some (slot size base ext i).
Proof.
  intros [Hs Hb Ht Hc _ _ _ _] Hi. unfold slot.
  destruct (Z.ltb_spec i size).
  - destruct (Z.ltb_spec i 0); [lia |]. apply lookup_lt_is_Some. lia.
  - destruct ext as [a|]; simpl in Hc; [| lia].
    apply lookup_lt_is_Some. rewrite u32_small by lia. lia.
Qed.

Lemma transmit_unit_eq (n : Z) (st : state) :
  transmit_unit n st = Done tt (transmitted n st).
Proof.
  unfold transmit_unit, transmitted. mstep.
  destruct (nz (use9Bits st)); unfold when, write_UART0_C3, write_UART0_D;
    mstep; reflexivity.
Qed.

End Slots.

Section TransmitPart.
Context `{cfg : Config}.

(** ** The transmit-ready part without FIFO, case by case *)

Lemma isr_transmit_single_masked (c : Z) (st : state) :
  Z.land c UART_C2_TIE = 0 → isr_transmit_single c st = Done tt st.
Proof.
  intros Hc. unfold isr_transmit_single. apply nz_false in Hc. rewrite Hc.
  reflexivity.
Qed.

Lemma isr_transmit_single_not_ready (c s1 : Z) (rest : list Z) (st : state) :
  Z.land c UART_C2_TIE ≠ 0 → hw_in st = s1 :: rest →
  Z.land (u8 s1) UART_S1_TDRE = 0 →
  isr_transmit_single c st = Done tt (set_hw_in rest st).
Proof.
  intros Hc Htape Hs. unfold isr_transmit_single.
  apply nz_true in Hc. apply nz_false in Hs. rewrite Hc. unfold when at 1.
  rewrite (bind_hw_read8 _ _ _ _ Htape), Hs. reflexivity.
Qed.

Lemma isr_transmit_single_empty (c s1 : Z) (rest : list Z) (st : state) :
  Z.land c UART_C2_TIE ≠ 0 → hw_in st = s1 :: rest →
  Z.land (u8 s1) UART_S1_TDRE ≠ 0 →
  tx_buffer_head st = tx_buffer_tail st →
  isr_transmit_single c st
  = Done tt (set_UART0_C2 (u8 C2_TX_COMPLETING) (set_hw_in rest st)).
Proof.
  intros Hc Htape Hs Hht. unfold isr_transmit_single.
  apply nz_true in Hc. apply nz_true in Hs. rewrite Hc. unfold when at 1.
  rewrite (bind_hw_read8 _ _ _ _ Htape), Hs. unfold when. mexec.
  rewrite Hht, Z.eqb_refl. reflexivity.
Qed.

Lemma isr_transmit_single_pop (c s1 n : Z) (rest : list Z) (st : state) :
  Z.land c UART_C2_TIE ≠ 0 → hw_in st = s1 :: rest →
  Z.land (u8 s1) UART_S1_TDRE ≠ 0 →
  tx_buffer_head st ≠ tx_buffer_tail st →
  tx_slot st (advance (tx_buffer_total_size_ st) (tx_buffer_tail st)) = Some n →
  isr_transmit_single c st
  = Done tt (set_tx_buffer_tail
               (tx_index (advance (tx_buffer_total_size_ st) (tx_buffer_tail st)))
               (transmitted n (set_hw_in rest st))).
Proof.
  intros Hc Htape Hs Hht Hn. unfold isr_transmit_single.
  apply nz_true in Hc. apply nz_true in Hs. rewrite Hc. unfold when at 1.
  rewrite (bind_hw_read8 _ _ _ _ Htape), Hs. unfold when. mexec.
  destruct (Z.eqb_spec (tx_buffer_head st) (tx_buffer_tail st)); [contradiction |].
  mexec. rewrite bind_unfold, tx_slot_load_eq.
  unfold tx_slot in *. simpl. rewrite Hn.
  rewrite bind_unfold, transmit_unit_eq. reflexivity.
Qed.

(** ** The transmit-complete part *)

Lemma isr_transmit_complete_masked (c : Z) (st : state) :
  Z.land c UART_C2_TCIE = 0 → isr_transmit_complete c st = Done tt st.
Proof.
  intros Hc. unfold isr_transmit_complete. apply nz_false in Hc. rewrite Hc.
  reflexivity.
Qed.

Lemma isr_transmit_complete_not_yet (c s1 : Z) (rest : list Z) (st : state) :
  Z.land c UART_C2_TCIE ≠ 0 → hw_in st = s1 :: rest →
  Z.land (u8 s1) UART_S1_TC = 0 →
  isr_transmit_complete c st = Done tt (set_hw_in rest st).
Proof.
  intros Hc Htape Hs. unfold isr_transmit_complete.
  apply nz_true in Hc. apply nz_false in Hs. rewrite Hc. unfold when at 1.
  rewrite (bind_hw_read8 _ _ _ _ Htape), Hs. reflexivity.
Qed.

Lemma isr_transmit_complete_done (c s1 : Z) (rest : list Z) (st : state) :
  Z.land c UART_C2_TCIE ≠ 0 → hw_in st = s1 :: rest →
  Z.land (u8 s1) UART_S1_TC ≠ 0 →
  ∃ st', isr_transmit_complete c st = Done tt st'
         ∧ transmitting st' = 0
         ∧ UART0_C2 st' = u8 C2_TX_INACTIVE
         ∧ (∀ p, transmit_pin st = Some p → pin_level st' p = Some false)
         ∧ (transmit_pin st = None → gpio st' = gpio st)
         ∧ tx_ring_same st st' ∧ rx_ring_same st st'
         ∧ hw_in st' = rest.
Proof.
  intros Hc Htape Hs. unfold isr_transmit_complete.
  apply nz_true in Hc. apply nz_true in Hs. rewrite Hc. unfold when at 1.
  rewrite (bind_hw_read8 _ _ _ _ Htape), Hs. unfold when at 1. mexec.
  unfold when_set, transmit_deassert, pin_write, write_UART0_C3, write_UART0_C2.
  destruct (transmit_pin st) as [[pin|]|] eqn:Ep;
    destruct KINETISL; unfold when; mexec;
    try (destruct (nz (half_duplex_mode st)); mexec);
    (eexists; split; [reflexivity |]); fsimpl;
    unfold tx_ring_same, rx_ring_same; fsimpl;
    repeat split; try reflexivity; try discriminate;
    intros p' [= <-]; unfold pin_level; fsimpl.
  all: try (rewrite lookup_insert_eq; reflexivity).
  all: f_equal; unfold u8, C3_TXDIR_BIT;
    rewrite ?Z.mod_pow2_bits_low, ?Z.land_spec, Z.clearbit_eq by lia;
    reflexivity.
Qed.

End TransmitPart.

Section FifoTransmit.
Context `{cfg : Config}.

(** ** The transmit-ready part with FIFO *)

Lemma mod_step (total head tail : Z) :
  0 ≤ head < total → 0 ≤ tail < total → head ≠ tail →
  (head - (tail + 1) mod total) mod total = (head - tail) mod total - 1.
Proof.
  intros Hh Ht Hne.
  assert (Hr : 0 ≤ (tail + 1) mod total < total) by (apply Z.mod_pos_bound; lia).
  rewrite !mod_wrap_down by lia.
  destruct (Z.eq_dec (tail + 1) total) as [E|E].
  - rewrite E, Z_mod_same_full in *.
    destruct (Z.geb_spec head 0), (Z.geb_spec head tail); lia.
  - rewrite (Z.mod_small (tail + 1)) in * by lia.
    destruct (Z.geb_spec head (tail + 1)), (Z.geb_spec head tail); lia.
Qed.

Lemma mod_zero_iff (total head tail : Z) :
  0 ≤ head < total → 0 ≤ tail < total →
  (head - tail) mod total = 0 ↔ head = tail.
Proof.
  intros Hh Ht. rewrite mod_wrap_down by lia.
  destruct (Z.geb_spec head tail); lia.
Qed.

Lemma tx_wf_drained (st st' : state) :
  tx_wf st → tx_drained st st' → tx_wf st'.
Proof.
  intros Hwf (c3 & dwr & tape & ->). destruct Hwf. constructor; assumption.
Qed.

Lemma tx_drained_refl (st : state) : tx_drained st st.
Proof. destruct st. eexists _, _, _. funfold. reflexivity. Qed.

Lemma tx_drained_trans (st1 st2 st3 : state) :
  tx_drained st1 st2 → tx_drained st2 st3 → tx_drained st1 st3.
Proof.
  intros (c & d & t & ->) (c' & d' & t' & ->). exists c', d', t'.
  destruct st1. funfold. reflexivity.
Qed.

Lemma tx_drained_read (st : state) (rest : list Z) :
  tx_drained st (set_hw_in rest st).
Proof. destruct st. eexists _, _, _. funfold. reflexivity. Qed.

Lemma tx_drained_transmitted (st : state) (n : Z) :
  tx_drained st (transmitted n st).
Proof.
  unfold transmitted. destruct (nz (use9Bits st)); destruct st;
    eexists _, _, _; funfold; reflexivity.
Qed.

Lemma isr_tx_fill_returns (fuel : nat) :
  ∀ (head tail : Z) (st : state),
    tx_wf st →
    0 ≤ head < tx_buffer_total_size_ st →
    0 ≤ tail < tx_buffer_total_size_ st →
    2 * ((head - tail) mod tx_buffer_total_size_ st)
      ≤ Z.of_nat (length (hw_in st)) →
    (head - tail) mod tx_buffer_total_size_ st < Z.of_nat fuel →
    ∃ tail' st',
      isr_tx_fill fuel head tail st = Done tail' st'
      ∧ 0 ≤ tail' < tx_buffer_total_size_ st
      ∧ tx_drained st st'
      ∧ Z.of_nat (length (hw_in st))
        ≤ Z.of_nat (length (hw_in st'))
          + 2 * ((head - tail) mod tx_buffer_total_size_ st).
Proof.
  induction fuel as [|fuel IH]; intros head tail st Hwf Hh Ht Htape Hfuel.
  - assert (0 ≤ (head - tail) mod tx_buffer_total_size_ st)
      by (apply Z.mod_pos_bound; lia). lia.
  - simpl. destruct (Z.eqb_spec tail head) as [->|Hne].
    + exists head, st. rewrite mret_eq. split; [reflexivity |].
      split; [exact Hh |]. split; [apply tx_drained_refl |].
      rewrite Z.sub_diag, Z.mod_0_l by lia. lia.
    + pose proof (wf_total _ _ _ _ _ _ Hwf) as Htot.
      assert (Hd : (head - advance (tx_buffer_total_size_ st) tail)
                   mod tx_buffer_total_size_ st
                   = (head - tail) mod tx_buffer_total_size_ st - 1).
      { rewrite advance_spec by lia. apply mod_step; lia. }
      assert (Hpos : 0 < (head - tail) mod tx_buffer_total_size_ st).
      { assert (0 ≤ (head - tail) mod tx_buffer_total_size_ st)
          by (apply Z.mod_pos_bound; lia).
        assert ((head - tail) mod tx_buffer_total_size_ st ≠ 0)
          by (rewrite mod_zero_iff by lia; congruence).
        lia. }
      assert (Hadv : 0 ≤ advance (tx_buffer_total_size_ st) tail
                     < tx_buffer_total_size_ st)
        by (apply advance_range; lia).
      destruct (hw_in st) as [|s1 [|tc rest]] eqn:Etape; simpl in Htape; try lia.
      destruct (slot_is_Some _ _ _ _ _ _
                  (advance (tx_buffer_total_size_ st) tail) Hwf Hadv)
        as [n Hn].
      mexec. rewrite (bind_hw_read8 _ _ _ _ Etape).
      rewrite bind_unfold, tx_slot_load_eq. unfold tx_slot. fsimpl. rewrite Hn.
      rewrite bind_unfold, transmit_unit_eq.
      set (st1 := transmitted n (set_hw_in (tc :: rest) st)).
      assert (Hdr1 : tx_drained st st1).
      { eapply tx_drained_trans;
          [apply tx_drained_read | apply tx_drained_transmitted]. }
      assert (E1 : hw_in st1 = tc :: rest).
      { unfold st1, transmitted. destruct (nz _); reflexivity. }
      rewrite (bind_hw_read8 _ _ _ _ E1).
      set (st2 := set_hw_in rest st1).
      assert (Hdr2 : tx_drained st st2).
      { eapply tx_drained_trans; [exact Hdr1 | apply tx_drained_read]. }
      assert (Etot : tx_buffer_total_size_ st2 = tx_buffer_total_size_ st).
      { destruct Hdr2 as (? & ? & ? & ->). reflexivity. }
      destruct (u8 tc <? 8).
      * destruct (IH head (advance (tx_buffer_total_size_ st) tail) st2)
          as (tail' & st' & Hrun & Hr & Hdr & Hlen).
        -- eapply tx_wf_drained; eassumption.
        -- rewrite Etot. exact Hh.
        -- rewrite Etot. exact Hadv.
        -- rewrite Etot, Hd. unfold st2. fsimpl. lia.
        -- rewrite Etot, Hd. lia.
        -- exists tail', st'. split; [exact Hrun |].
           rewrite Etot in Hr. split; [exact Hr |].
           split; [eapply tx_drained_trans; eassumption |].
           rewrite Etot, Hd in Hlen. unfold st2 in Hlen. fsimpl_in Hlen.
           simpl. lia.
      * exists (advance (tx_buffer_total_size_ st) tail), st2.
        rewrite mret_eq. split; [reflexivity |]. split; [exact Hadv |].
        split; [exact Hdr2 |]. unfold st2. fsimpl. simpl. lia.
Qed.

End FifoTransmit.

Section Totality.
Context `{cfg : Config}.

(** ** Frames *)

Lemma tx_drained_part (st st' : state) : tx_drained st st' → tx_part st st'.
Proof.
  intros (c3 & dwr & tape & ->). destruct st. eexists _, _, _, _, _.
  funfold. reflexivity.
Qed.

Lemma tx_part_rx_same (st st' : state) : tx_part st st' → rx_ring_same st st'.
Proof.
  intros (t & c2 & c3 & dwr & tape & ->). repeat split.
Qed.

Lemma tc_part_rx_same (st st' : state) : tc_part st st' → rx_ring_same st st'.
Proof.
  intros (tr & g & c2 & c3 & tape & ->). repeat split.
Qed.

Lemma tc_part_tx_same (st st' : state) : tc_part st st' → tx_ring_same st st'.
Proof.
  intros (tr & g & c2 & c3 & tape & ->). repeat split.
Qed.

Lemma rx_quiet_rx_same (st st' : state) : rx_quiet st st' → rx_ring_same st st'.
Proof. intros (g & cf & tape & ->). repeat split. Qed.

Lemma rx_quiet_tx_same (st st' : state) : rx_quiet st st' → tx_ring_same st st'.
Proof. intros (g & cf & tape & ->). repeat split. Qed.

Lemma rx_ring_same_trans (st1 st2 st3 : state) :
  rx_ring_same st1 st2 → rx_ring_same st2 st3 → rx_ring_same st1 st3.
Proof.
  unfold rx_ring_same. intros (?&?&?&?&?) (?&?&?&?&?).
  repeat split; congruence.
Qed.

Lemma tx_wf_same (st st' : state) : tx_ring_same st st' → tx_wf st → tx_wf st'.
Proof.
  unfold tx_ring_same, tx_wf. intros (-> & -> & -> & -> & -> & _ & _). trivial.
Qed.

(** ** The transmit-ready part returns *)

Lemma tx_index_advance_wf (st : state) :
  tx_wf st →
  let t := tx_index (advance (tx_buffer_total_size_ st) (tx_buffer_tail st)) in
  0 ≤ t < tx_buffer_total_size_ st ∧ t < 2 ^ index_bits SERIAL1_TX_BUFFER_SIZE.
Proof.
  intros Hwf t. destruct Hwf.
  pose proof (advance_range (tx_buffer_total_size_ st) (tx_buffer_tail st)
                ltac:(lia) ltac:(lia)) as Ha.
  pose proof (index_wrap_le SERIAL1_TX_BUFFER_SIZE _ (proj1 Ha)) as Hw.
  pose proof (index_wrap_lt SERIAL1_TX_BUFFER_SIZE
                (advance (tx_buffer_total_size_ st) (tx_buffer_tail st))).
  unfold t, tx_index. lia.
Qed.

Lemma isr_transmit_single_returns (c : Z) (st : state) :
  tx_wf st → 1 ≤ Z.of_nat (length (hw_in st)) →
  ∃ st', isr_transmit_single c st = Done tt st'
         ∧ tx_wf st' ∧ tx_part st st'
         ∧ Z.of_nat (length (hw_in st)) ≤ Z.of_nat (length (hw_in st')) + 1.
Proof.
  intros Hwf Htape.
  destruct (Z.eq_dec (Z.land c UART_C2_TIE) 0) as [Hc|Hc].
  { exists st. rewrite isr_transmit_single_masked by exact Hc.
    split; [reflexivity |]. split; [exact Hwf |].
    split; [apply tx_drained_part, tx_drained_refl | lia]. }
  destruct (hw_in st) as [|s1 rest] eqn:Etape; simpl in Htape; [lia |].
  destruct (Z.eq_dec (Z.land (u8 s1) UART_S1_TDRE) 0) as [Hs|Hs].
  { eexists. rewrite (isr_transmit_single_not_ready _ _ _ _ Hc Etape Hs).
    split; [reflexivity |]. split; [destruct Hwf; constructor; assumption |].
    split; [apply tx_drained_part, tx_drained_read | tape_lia]. }
  destruct (Z.eq_dec (tx_buffer_head st) (tx_buffer_tail st)) as [Hht|Hht].
  { eexists. rewrite (isr_transmit_single_empty _ _ _ _ Hc Etape Hs Hht).
    split; [reflexivity |]. split; [destruct Hwf; constructor; assumption |].
    split; [| tape_lia].
    destruct st. eexists _, _, _, _, _. funfold. reflexivity. }
  pose proof (tx_index_advance_wf st Hwf) as [Ht1 Ht2].
  destruct (slot_is_Some _ _ _ _ _ _
              (advance (tx_buffer_total_size_ st) (tx_buffer_tail st)) Hwf)
    as [n Hn].
  { destruct Hwf. apply advance_range; lia. }
  eexists. rewrite (isr_transmit_single_pop _ _ n _ _ Hc Etape Hs Hht Hn).
  split; [reflexivity |]. split; [| split].
  - destruct Hwf. unfold transmitted.
    destruct (nz _); constructor; fsimpl; assumption.
  - unfold transmitted. destruct (nz _); destruct st;
      eexists _, _, _, _, _; funfold; reflexivity.
  - unfold transmitted. destruct (nz _); tape_lia.
Qed.

Lemma isr_transmit_fifo_returns (c : Z) (st : state) :
  tx_wf st →
  2 * tx_buffer_total_size_ st + 2 ≤ Z.of_nat (length (hw_in st)) →
  ∃ st', isr_transmit_fifo c st = Done tt st'
         ∧ tx_wf st' ∧ tx_part st st'
         ∧ Z.of_nat (length (hw_in st))
           ≤ Z.of_nat (length (hw_in st')) + 2 * tx_buffer_total_size_ st + 2.
Proof.
  intros Hwf Htape. pose proof Hwf as [Hsz Hb Htot Hcov Hh Ht Hhi Hti].
  unfold isr_transmit_fifo.
  destruct (nz (Z.land c UART_C2_TIE)); unfold when at 1.
  2:{ exists st. split; [reflexivity |]. split; [exact Hwf |].
      split; [apply tx_drained_part, tx_drained_refl | lia]. }
  destruct (hw_in st) as [|s1 rest] eqn:Etape; simpl in Htape; [lia |].
  rewrite (bind_hw_read8 _ _ _ _ Etape).
  destruct (nz (Z.land (u8 s1) UART_S1_TDRE)); unfold when at 1.
  2:{ eexists. split; [reflexivity |].
      split; [constructor; assumption|].
      split; [apply tx_drained_part, tx_drained_read | tape_lia]. }
  mexec.
  set (st0 := set_hw_in rest st).
  assert (Hwf0 : tx_wf st0) by (constructor; assumption).
  assert (Hmod : 0 ≤ (tx_buffer_head st - tx_buffer_tail st)
                       mod tx_buffer_total_size_ st < tx_buffer_total_size_ st)
    by (apply Z.mod_pos_bound; lia).
  destruct (isr_tx_fill_returns (S (length rest)) (tx_buffer_head st)
              (tx_buffer_tail st) st0 Hwf0
              ltac:(unfold st0; tape_lia) ltac:(unfold st0; tape_lia)
              ltac:(unfold st0; tape_lia) ltac:(unfold st0; tape_lia))
    as (tail' & st1 & Hrun & Hr & Hdr & Hlen).
  rewrite (bind_done _ _ _ _ _ Hrun). mexec.
  unfold st0 in Hlen, Hr. fsimpl_in Hlen. fsimpl_in Hr.
  destruct Hdr as (c3 & dwr & tape & ->). fsimpl_in Hlen.
  destruct tape as [|s2 tape]; simpl in Hlen; [lia |].
  erewrite bind_hw_read8 by (fsimpl; reflexivity).
  pose proof (index_wrap_le SERIAL1_TX_BUFFER_SIZE tail' (proj1 Hr)).
  pose proof (index_wrap_lt SERIAL1_TX_BUFFER_SIZE tail').
  destruct (nz (Z.land (u8 s2) UART_S1_TDRE)); unfold when, write_UART0_C2;
    mexec; (eexists; split; [reflexivity |]); split; [| split | | split].
  all: try (subst st0; constructor; fsimpl; unfold tx_index; solve [assumption | lia]).
  all: try tape_lia.
  all: try subst st0; destruct st; eexists _, _, _, _, _; funfold; reflexivity.
Qed.

Lemma isr_transmit_complete_returns (c : Z) (st : state) :
  1 ≤ Z.of_nat (length (hw_in st)) →
  ∃ st', isr_transmit_complete c st = Done tt st'
         ∧ tc_part st st'
         ∧ Z.of_nat (length (hw_in st)) ≤ Z.of_nat (length (hw_in st')) + 1.
Proof.
  intros Htape. unfold isr_transmit_complete.
  destruct (nz (Z.land c UART_C2_TCIE)); unfold when at 1.
  2:{ exists st. split; [reflexivity |]. split; [| lia].
      destruct st. eexists _, _, _, _, _. funfold. reflexivity. }
  destruct (hw_in st) as [|s1 rest] eqn:Etape; simpl in Htape; [lia |].
  rewrite (bind_hw_read8 _ _ _ _ Etape).
  destruct (nz (Z.land (u8 s1) UART_S1_TC)); unfold when at 1.
  2:{ eexists. split; [reflexivity |]. split; [| tape_lia].
      destruct st. eexists _, _, _, _, _. funfold. reflexivity. }
  unfold when_set, transmit_deassert, pin_write, write_UART0_C3, write_UART0_C2.
  mexec.
  destruct (transmit_pin st) as [[pin|]|];
    destruct KINETISL; unfold when; mexec;
    try (destruct (nz (half_duplex_mode st)); mexec);
    (eexists; split; [reflexivity |]); (split; [| tape_lia]);
    destruct st; eexists _, _, _, _, _; funfold; reflexivity.
Qed.

End Totality.

Section ReceiveFull.
Context `{cfg : Config}.

(** ** The receive part on a full ring *)

Lemma set_hw_in_twice (a b : list Z) (st : state) :
  set_hw_in a (set_hw_in b st) = set_hw_in a st.
Proof. destruct st. reflexivity. Qed.

Lemma receive_unit_returns (st : state) :
  2 ≤ Z.of_nat (length (hw_in st)) →
  ∃ n tape, receive_unit st = Done n (set_hw_in tape st)
            ∧ Z.of_nat (length (hw_in st)) ≤ Z.of_nat (length tape) + 2.
Proof.
  intros Htape. unfold receive_unit. mexec.
  destruct (hw_in st) as [|a [|b rest]] eqn:Etape; simpl in Htape; try lia.
  destruct (nz (use9Bits st)).
  - rewrite (bind_hw_read8 _ _ _ _ Etape).
    erewrite bind_hw_read8 by (fsimpl; reflexivity).
    rewrite mret_eq, set_hw_in_twice. eexists _, _.
    split; [reflexivity | simpl; lia].
  - unfold hw_read8. rewrite (bind_hw_read _ _ _ _ Etape), mret_eq.
    eexists _, _. split; [reflexivity | simpl; lia].
Qed.

Lemma isr_rx_drain_full (tail : Z) (fuel : nat) :
  ∀ (avail head : Z) (st : state),
    advance (rx_buffer_total_size_ st) head = tail →
    1 ≤ avail ≤ 255 → avail ≤ Z.of_nat fuel →
    2 * avail ≤ Z.of_nat (length (hw_in st)) →
    ∃ tape, isr_rx_drain fuel avail head tail st = Done head (set_hw_in tape st)
            ∧ Z.of_nat (length (hw_in st)) ≤ Z.of_nat (length tape) + 2 * avail.
Proof.
  induction fuel as [|fuel IH]; intros avail head st Hfull Ha Hfuel Htape; [lia |].
  simpl. destruct (receive_unit_returns st ltac:(lia)) as (n & tape1 & Hrun & Hlen).
  rewrite (bind_done _ _ _ _ _ Hrun). mexec.
  rewrite Hfull, Z.eqb_refl. cbn [negb]. mexec.
  rewrite (u8_small (avail - 1)) by lia.
  destruct (Z.gtb_spec (avail - 1) 0).
  - destruct (IH (avail - 1) head (set_hw_in tape1 st) Hfull
                ltac:(lia) ltac:(lia) ltac:(fsimpl; lia))
      as (tape2 & Hrun2 & Hlen2).
    rewrite Hrun2, set_hw_in_twice. exists tape2.
    split; [reflexivity |]. fsimpl_in Hlen2. lia.
  - rewrite mret_eq. exists tape1. split; [reflexivity | lia].
Qed.

Lemma rx_quiet_read (st : state) (tape : list Z) : rx_quiet st (set_hw_in tape st).
Proof. destruct st. eexists _, _, _. funfold. reflexivity. Qed.

Lemma isr_receive_single_full (st : state) :
  advance (rx_buffer_total_size_ st) (rx_buffer_head st) = rx_buffer_tail st →
  3 ≤ Z.of_nat (length (hw_in st)) →
  ∃ st', isr_receive_single st = Done tt st'
         ∧ rx_quiet st st'
         ∧ Z.of_nat (length (hw_in st)) ≤ Z.of_nat (length (hw_in st')) + 3.
Proof.
  intros Hfull Htape. unfold isr_receive_single.
  destruct (hw_in st) as [|s1 rest] eqn:Etape; simpl in Htape; [lia |].
  rewrite (bind_hw_read8 _ _ _ _ Etape).
  destruct (nz (Z.land (u8 s1) UART_S1_RDRF)); unfold when at 1.
  2:{ eexists. split; [reflexivity |]. split; [apply rx_quiet_read | tape_lia]. }
  destruct (receive_unit_returns (set_hw_in rest st) ltac:(tape_lia))
    as (n & tape & Hrun & Hlen).
  rewrite (bind_done _ _ _ _ _ Hrun), set_hw_in_twice. mexec.
  rewrite Hfull, Z.eqb_refl. cbn [negb when]. rewrite skip_eq.
  eexists. split; [reflexivity |]. split; [apply rx_quiet_read |].
  fsimpl_in Hlen. tape_lia.
Qed.

Lemma isr_receive_fifo_full (st : state) :
  advance (rx_buffer_total_size_ st) (rx_buffer_head st) = rx_buffer_tail st →
  0 ≤ rx_buffer_head st < 2 ^ index_bits SERIAL1_RX_BUFFER_SIZE →
  512 ≤ Z.of_nat (length (hw_in st)) →
  ∃ st', isr_receive_fifo st = Done tt st'
         ∧ rx_quiet st st'
         ∧ Z.of_nat (length (hw_in st)) ≤ Z.of_nat (length (hw_in st')) + 512.
Proof.
  intros Hfull Hidx Htape. unfold isr_receive_fifo.
  destruct (hw_in st) as [|s1 [|av [|d rest]]] eqn:Etape; simpl in Htape; try lia.
  rewrite (bind_hw_read8 _ _ _ _ Etape).
  destruct (nz (Z.land (u8 s1) (Z.lor UART_S1_RDRF UART_S1_IDLE)));
    unfold when at 1.
  2:{ eexists. split; [reflexivity |]. split; [apply rx_quiet_read | tape_lia]. }
  erewrite bind_hw_read8 by (fsimpl; reflexivity).
  assert (Hav : 0 ≤ u8 av < 256) by (unfold u8; apply Z.mod_pos_bound; lia).
  destruct (Z.eqb_spec (u8 av) 0).
  - erewrite bind_hw_read8 by (fsimpl; reflexivity).
    unfold write_UART0_CFIFO. mexec. eexists. split; [reflexivity |].
    split; [| tape_lia]. destruct st. eexists _, _, _. funfold. reflexivity.
  - mexec.
    destruct (isr_rx_drain_full (rx_buffer_tail st) 256 (u8 av) (rx_buffer_head st)
                (set_hw_in (d :: rest) (set_hw_in (av :: d :: rest) st)) Hfull
                ltac:(lia) ltac:(lia) ltac:(tape_lia))
      as (tape & Hrun & Hlen).
    rewrite (bind_done _ _ _ _ _ Hrun). mexec.
    unfold rx_index. rewrite index_wrap_small by lia.
    fsimpl_in Hlen. cbn [length] in Hlen.
    unfold when_set, rts_deassert, pin_write.
    destruct (rts_pin st) as [pin|]; mexec.
    + destruct (u32 _ >=? rts_high_watermark_ st); unfold when; mexec;
        (eexists; split; [reflexivity |]); (split; [| tape_lia]);
        destruct st; eexists _, _, _; funfold; reflexivity.
    + eexists. split; [reflexivity |]. split; [| tape_lia].
      destruct st. eexists _, _, _. funfold. reflexivity.
Qed.

Lemma rx_full_advance (st : state) :
  0 ≤ rx_buffer_head st < rx_buffer_total_size_ st →
  rx_buffer_total_size_ st < 2 ^ 32 →
  rx_full st →
  advance (rx_buffer_total_size_ st) (rx_buffer_head st) = rx_buffer_tail st.
Proof. intros Hh Ht Hf. rewrite advance_spec by lia. exact Hf. Qed.

(** C2. On an RX ring that is full (head advanced by one modulo the total
    capacity equals tail) the interrupt handler completes, whatever the
    peripheral reports, and leaves head, tail, the capacity, the base array
    and the extension array of the RX ring as they were, so that
    serial_available returns the same count before and after: the incoming
    unit is dropped, and the handler has no error result. *)
Theorem rx_overflow_drop (st : state) :
  0 ≤ rx_buffer_head st < rx_buffer_total_size_ st →
  rx_buffer_head st < 2 ^ index_bits SERIAL1_RX_BUFFER_SIZE →
  rx_buffer_total_size_ st < 2 ^ 32 →
  rx_full st →
  tx_wf st →
  isr_tape_bound st ≤ Z.of_nat (length (hw_in st)) →
  ∃ st', uart0_status_isr st = Done tt st'
         ∧ rx_buffer_head st' = rx_buffer_head st
         ∧ rx_buffer_tail st' = rx_buffer_tail st
         ∧ rx_buffer_total_size_ st' = rx_buffer_total_size_ st
         ∧ rx_buffer st' = rx_buffer st
         ∧ rx_buffer_storage_ st' = rx_buffer_storage_ st
         ∧ ∃ n, serial_available st = Done n st
                ∧ serial_available st' = Done n st'.
Proof.
  intros Hh Hidx Htot Hfull Hwf Htape. unfold isr_tape_bound in Htape.
  pose proof (rx_full_advance st Hh Htot Hfull) as Hadv.
  pose proof (wf_total _ _ _ _ _ _ Hwf) as Httot.
  assert (Hrx : ∃ st1,
             (if HAS_KINETISK_UART0_FIFO then isr_receive_fifo
              else isr_receive_single) st = Done tt st1
             ∧ rx_quiet st st1
             ∧ Z.of_nat (length (hw_in st))
               ≤ Z.of_nat (length (hw_in st1)) + 512).
  { destruct HAS_KINETISK_UART0_FIFO.
    - apply isr_receive_fifo_full; [exact Hadv | lia | lia].
    - destruct (isr_receive_single_full st Hadv) as (st1 & ? & ? & ?); [lia |].
      exists st1. repeat split; [assumption .. | lia]. }
  destruct Hrx as (st1 & Hrun1 & Hq & Hlen1).
  pose proof (tx_wf_same _ _ (rx_quiet_tx_same _ _ Hq) Hwf) as Hwf1.
  assert (Etot : tx_buffer_total_size_ st1 = tx_buffer_total_size_ st).
  { destruct Hq as (? & ? & ? & ->). reflexivity. }
  assert (Htx : ∃ st2,
             (if HAS_KINETISK_UART0_FIFO then isr_transmit_fifo (UART0_C2 st1)
              else isr_transmit_single (UART0_C2 st1)) st1 = Done tt st2
             ∧ tx_part st1 st2
             ∧ Z.of_nat (length (hw_in st1))
               ≤ Z.of_nat (length (hw_in st2))
                 + 2 * tx_buffer_total_size_ st + 2).
  { destruct HAS_KINETISK_UART0_FIFO.
    - destruct (isr_transmit_fifo_returns (UART0_C2 st1) st1 Hwf1)
        as (st2 & ? & ? & ? & ?); [lia |].
      exists st2. repeat split; [assumption .. | lia].
    - destruct (isr_transmit_single_returns (UART0_C2 st1) st1 Hwf1)
        as (st2 & ? & ? & ? & ?); [lia |].
      exists st2. repeat split; [assumption .. | lia]. }
  destruct Htx as (st2 & Hrun2 & Hp & Hlen2).
  destruct (isr_transmit_complete_returns (UART0_C2 st1) st2)
    as (st3 & Hrun3 & Hc & Hlen3); [lia |].
  assert (Hsame : rx_ring_same st st3).
  { eapply rx_ring_same_trans; [apply rx_quiet_rx_same; exact Hq |].
    eapply rx_ring_same_trans; [apply tx_part_rx_same; exact Hp |].
    apply tc_part_rx_same; exact Hc. }
  exists st3. split.
  - unfold uart0_status_isr. rewrite (bind_done _ _ _ _ _ Hrun1). mexec.
    rewrite (bind_done _ _ _ _ _ Hrun2). exact Hrun3.
  - destruct Hsame as (E1 & E2 & E3 & E4 & E5).
    repeat (split; [assumption |]).
    exists (ring_occupied (rx_buffer_total_size_ st) (rx_buffer_head st)
                          (rx_buffer_tail st)).
    unfold serial_available. mexec. rewrite E1, E2, E3. split; reflexivity.
Qed.

End ReceiveFull.

Section Transitions.
Context `{cfg : Config}.

(** ** serial_clear *)

(** C8, as amended. Unless the build has the hardware FIFO and the UART0
    clock gate is off (serial_clear then returns at once), serial_clear
    empties the RX ring by setting head to tail: tail and the arrays keep
    their values, RTS is asserted (driven low) if an RTS pin is configured,
    and serial_available returns 0 afterwards. *)
Theorem serial_clear_empties (st : state) :
  HAS_KINETISK_UART0_FIFO = false ∨ ¬ clock_gated st →
  ∃ st', serial_clear st = Done tt st'
         ∧ rx_buffer_head st' = rx_buffer_tail st
         ∧ rx_buffer_tail st' = rx_buffer_tail st
         ∧ rx_buffer st' = rx_buffer st
         ∧ rx_buffer_storage_ st' = rx_buffer_storage_ st
         ∧ (∀ pin, rts_pin st = Some pin → gpio st' !! pin = Some false)
         ∧ (rts_pin st = None → gpio st' = gpio st)
         ∧ serial_available st' = Done 0 st'.
Proof.
  intros Hen. unfold serial_clear. mexec.
  assert (Hgate : HAS_KINETISK_UART0_FIFO
                  && negb (nz (Z.land (SIM_SCGC4 st) SIM_SCGC4_UART0)) = false).
  { destruct Hen as [-> | Hen]; [reflexivity |].
    apply nz_true in Hen. rewrite Hen. apply andb_false_r. }
  rewrite Hgate. unfold when_set, rts_assert, pin_write, write_UART0_C2,
    write_UART0_CFIFO, serial_available.
  destruct HAS_KINETISK_UART0_FIFO; unfold when; mexec;
    destruct (rts_pin st) as [pin|]; mexec;
    (eexists; split; [reflexivity |]); fsimpl;
    repeat split; try reflexivity; try discriminate.
  all: try (intros p [= <-]; apply lookup_insert_eq).
  all: mexec; unfold ring_occupied; rewrite Z.geb_leb, Z.leb_refl, Z.sub_diag;
    reflexivity.
Qed.

(** In the build with the hardware FIFO, serial_clear with the UART0 clock
    gate off changes nothing. *)
Lemma serial_clear_gated (st : state) :
  HAS_KINETISK_UART0_FIFO = true → clock_gated st →
  serial_clear st = Done tt st.
Proof.
  intros Hf Hg. unfold serial_clear. mexec.
  apply nz_false in Hg. rewrite Hf, Hg. reflexivity.
Qed.

(** ** serial_add_memory_for_read *)

Lemma serial_add_memory_for_read_eq (buffer : option (list Z)) (len : Z)
      (st : state) :
  ∃ st', serial_add_memory_for_read buffer len st = Done tt st'
         ∧ rx_buffer_storage_ st' = buffer
         ∧ rx_buffer_total_size_ st'
           = u32 (SERIAL1_RX_BUFFER_SIZE
                  + match buffer with Some _ => len | None => 0 end)
         ∧ rts_low_watermark_ st' = u32 (RTS_LOW_WATERMARK + len)
         ∧ rts_high_watermark_ st' = u32 (RTS_HIGH_WATERMARK + len).
Proof.
  unfold serial_add_memory_for_read. destruct buffer; mexec;
    (eexists; split; [reflexivity |]); fsimpl; rewrite ?Z.add_0_r;
    repeat split.
Qed.

(** What the claim C6 says about a non-null buffer holds: with room in a
    size_t, the capacity and both watermarks move up by exactly the length. *)
Lemma install_rx_extension (a : list Z) (len : Z) (st : state) :
  0 ≤ len → 38 ≤ SERIAL1_RX_BUFFER_SIZE → SERIAL1_RX_BUFFER_SIZE + len < 2 ^ 32 →
  ∃ st', serial_add_memory_for_read (Some a) len st = Done tt st'
         ∧ rx_buffer_total_size_ st' = SERIAL1_RX_BUFFER_SIZE + len
         ∧ rts_low_watermark_ st' = RTS_LOW_WATERMARK + len
         ∧ rts_high_watermark_ st' = RTS_HIGH_WATERMARK + len.
Proof.
  intros Hlen Hsize Hfit.
  destruct (serial_add_memory_for_read_eq (Some a) len st)
    as (st' & Hrun & _ & Ht & Hl & Hh).
  exists st'. split; [exact Hrun |].
  rewrite Ht, Hl, Hh. unfold RTS_LOW_WATERMARK, RTS_HIGH_WATERMARK.
  rewrite !u32_small by lia. repeat split.
Qed.

End Transitions.

Section Getchar.
Context `{cfg : Config}.

(** ** serial_getchar *)

Lemma u32_ring_occupied (total head tail : Z) :
  0 ≤ head < total → 0 ≤ tail < total → total < 2 ^ 32 →
  u32 (ring_occupied total head tail) = (head - tail) mod total.
Proof.
  intros Hh Ht Hn. unfold ring_occupied. rewrite mod_wrap_down by lia.
  destruct (Z.geb_spec head tail); rewrite u32_int32; apply u32_small; lia.
Qed.

(** The empty-ring half of C7: serial_getchar returns -1 and the state,
    with head, tail, the arrays and the pins, is untouched. *)
Lemma serial_getchar_empty (st : state) :
  rx_buffer_head st = rx_buffer_tail st → serial_getchar st = Done (-1) st.
Proof.
  intros E. unfold serial_getchar. mexec. rewrite E, Z.eqb_refl. reflexivity.
Qed.

(** serial_getchar on a non-empty, well-formed ring: it returns the unit of
    the slot after tail, stores that index (converted to the index type) as
    the new tail, and, with an RTS pin, asserts RTS exactly when the occupancy
    recomputed from head and the advanced tail is at most the low watermark;
    it never drives RTS high. *)
Lemma serial_getchar_pop (st : state) :
  rx_wf st → rx_buffer_head st ≠ rx_buffer_tail st →
  let tail := (rx_buffer_tail st + 1) mod rx_buffer_total_size_ st in
  let occupancy := (rx_buffer_head st - tail) mod rx_buffer_total_size_ st in
  ∃ c st', rx_slot st tail = Some c
           ∧ serial_getchar st = Done c st'
           ∧ rx_buffer_tail st' = rx_index tail
           ∧ rx_buffer_head st' = rx_buffer_head st
           ∧ rx_buffer_total_size_ st' = rx_buffer_total_size_ st
           ∧ rx_buffer st' = rx_buffer st
           ∧ rx_buffer_storage_ st' = rx_buffer_storage_ st
           ∧ tx_ring_same st st'
           ∧ gpio st' = match rts_pin st with
                        | Some pin =>
                            if occupancy <=? rts_low_watermark_ st
                            then <[pin := false]> (gpio st)
                            else gpio st
                        | None => gpio st
                        end.
Proof.
  intros Hwf Hne tail occupancy. pose proof Hwf as [Hs Hb Ht Hc Hh Htl Hhi Hti].
  assert (Hadv : advance (rx_buffer_total_size_ st) (rx_buffer_tail st) = tail)
    by (apply advance_spec; lia).
  assert (Hr : 0 ≤ tail < rx_buffer_total_size_ st)
    by (apply Z.mod_pos_bound; lia).
  destruct (slot_is_Some _ _ _ _ _ _ tail Hwf Hr) as [c Hc'].
  exists c. unfold serial_getchar. mexec.
  destruct (Z.eqb_spec (rx_buffer_head st) (rx_buffer_tail st)); [contradiction |].
  mexec. rewrite Hadv, bind_unfold, rx_slot_load_eq. unfold rx_slot in *.
  rewrite Hc'. mexec. unfold when_set, rts_assert, pin_write.
  rewrite u32_ring_occupied by lia. fold occupancy.
  destruct (rts_pin st) as [pin|]; mexec.
  - destruct (occupancy <=? rts_low_watermark_ st); unfold when; mexec;
      (eexists; split; [reflexivity |]); (split; [reflexivity |]);
      fsimpl; unfold tx_ring_same; fsimpl; repeat split.
  - eexists. split; [reflexivity |]. split; [reflexivity |].
    fsimpl. unfold tx_ring_same. fsimpl. repeat split.
Qed.

(** With the capacity inside the range of the index type the stored tail is
    the advanced tail itself, as C7 says. *)
Lemma serial_getchar_advances (st : state) :
  rx_wf st → rx_fits st → rx_buffer_head st ≠ rx_buffer_tail st →
  let tail := (rx_buffer_tail st + 1) mod rx_buffer_total_size_ st in
  ∃ c st', rx_slot st tail = Some c
           ∧ serial_getchar st = Done c st'
           ∧ rx_buffer_tail st' = tail.
Proof.
  intros Hwf Hfit Hne tail.
  destruct (serial_getchar_pop st Hwf Hne) as (c & st' & Hc & Hrun & Ht & _).
  exists c, st'. split; [exact Hc |]. split; [exact Hrun |].
  rewrite Ht. apply index_wrap_small. unfold rx_fits in Hfit.
  destruct Hwf as [_ _ Htot _ _ _ _ _].
  pose proof (Z.mod_pos_bound (rx_buffer_tail st + 1)
                (rx_buffer_total_size_ st) ltac:(lia)).
  fold tail in H. lia.
Qed.

End Getchar.

Section RingTheory.
Context `{cfg : Config}.

(** ** Pending units of a ring *)

Lemma ring_positions_pop (total tail : Z) (n : nat) :
  ring_positions total tail (S n)
  = (tail + 1) mod total :: ring_positions total ((tail + 1) mod total) n.
Proof.
  unfold ring_positions. rewrite <- cons_seq, <- seq_shift. simpl.
  rewrite Z.add_0_r. f_equal. rewrite map_map. apply map_ext. intros k.
  symmetry.
  replace ((tail + 1) mod total + 1 + Z.of_nat k)
    with ((tail + 1) mod total + (1 + Z.of_nat k)) by lia.
  rewrite Zplus_mod_idemp_l. f_equal. lia.
Qed.

Lemma ring_positions_push (total tail : Z) (n : nat) :
  ring_positions total tail (S n)
  = ring_positions total tail n ++ [(tail + 1 + Z.of_nat n) mod total].
Proof. unfold ring_positions. rewrite seq_S, map_app. reflexivity. Qed.

Lemma ring_positions_bound (total tail : Z) (n : nat) (p : Z) :
  0 < total → In p (ring_positions total tail n) →
  ∃ k, (k < n)%nat ∧ p = (tail + 1 + Z.of_nat k) mod total.
Proof.
  intros Ht Hin. unfold ring_positions in Hin. apply in_map_iff in Hin.
  destruct Hin as (k & <- & Hk). apply in_seq in Hk. exists k. split; [lia | reflexivity].
Qed.

Lemma mod_eq_small (total a b : Z) :
  0 < total → 0 ≤ a - b < total → a mod total = b mod total → a = b.
Proof.
  intros Ht Hab E.
  assert (H0 : (a - b) mod total = 0).
  { rewrite Zminus_mod, E, Z.sub_diag. apply Z.mod_0_l. lia. }
  rewrite Z.mod_small in H0 by lia. lia.
Qed.

Lemma ring_units_empty (sl : Z → option Z) (total head : Z) :
  0 < total → ring_units sl total head head = [].
Proof.
  intros Ht. unfold ring_units. rewrite Z.sub_diag, Z.mod_0_l by lia.
  reflexivity.
Qed.

Lemma ring_units_pop (sl : Z → option Z) (total head tail : Z) :
  0 ≤ head < total → 0 ≤ tail < total → head ≠ tail →
  ring_units sl total head tail
  = default 0 (sl ((tail + 1) mod total))
    :: ring_units sl total head ((tail + 1) mod total).
Proof.
  intros Hh Ht Hne. unfold ring_units.
  pose proof (mod_step total head tail Hh Ht Hne) as Hstep.
  assert (Hpos : 0 ≤ (head - (tail + 1) mod total) mod total)
    by (apply Z.mod_pos_bound; lia).
  replace (Z.to_nat ((head - tail) mod total))
    with (S (Z.to_nat ((head - (tail + 1) mod total) mod total))) by lia.
  rewrite ring_positions_pop. reflexivity.
Qed.

Lemma mod_step_up (total head tail : Z) :
  0 ≤ head < total → 0 ≤ tail < total → (head + 1) mod total ≠ tail →
  ((head + 1) mod total - tail) mod total = (head - tail) mod total + 1.
Proof.
  intros Hh Ht Hne.
  assert (Hr : 0 ≤ (head + 1) mod total < total) by (apply Z.mod_pos_bound; lia).
  rewrite !mod_wrap_down by lia.
  destruct (Z.eq_dec (head + 1) total) as [E|E].
  - rewrite E, Z_mod_same_full in *.
    destruct (Z.geb_spec 0 tail), (Z.geb_spec head tail); lia.
  - rewrite (Z.mod_small (head + 1)) in * by lia.
    destruct (Z.geb_spec (head + 1) tail), (Z.geb_spec head tail); lia.
Qed.

Lemma ring_units_push (sl sl' : Z → option Z) (total head tail v : Z) :
  0 ≤ head < total → 0 ≤ tail < total → (head + 1) mod total ≠ tail →
  sl' ((head + 1) mod total) = Some v →
  (∀ p, 0 ≤ p < total → p ≠ (head + 1) mod total → sl' p = sl p) →
  ring_units sl' total ((head + 1) mod total) tail
  = ring_units sl total head tail ++ [v].
Proof.
  intros Hh Ht Hne Hv Hsame. unfold ring_units.
  rewrite (mod_step_up total head tail Hh Ht Hne).
  assert (Hn : 0 ≤ (head - tail) mod total < total)
    by (apply Z.mod_pos_bound; lia).
  assert (Hn1 : (head - tail) mod total + 1 < total).
  { pose proof (mod_step_up total head tail Hh Ht Hne) as E.
    pose proof (Z.mod_pos_bound ((head + 1) mod total - tail) total ltac:(lia)).
    lia. }
  replace (Z.to_nat ((head - tail) mod total + 1))
    with (S (Z.to_nat ((head - tail) mod total))) by lia.
  rewrite ring_positions_push, map_app. simpl.
  assert (Hlast : (tail + 1 + Z.of_nat (Z.to_nat ((head - tail) mod total)))
                  mod total = (head + 1) mod total).
  { rewrite Z2Nat.id by lia.
    rewrite Zplus_mod_idemp_r. f_equal. lia. }
  rewrite Hlast, Hv. simpl. f_equal.
  apply map_ext_in. intros p Hp.
  apply ring_positions_bound in Hp as (k & Hk & ->); [| lia].
  rewrite Hsame; [reflexivity | apply Z.mod_pos_bound; lia |].
  rewrite <- Hlast. intros E. symmetry in E.
  apply mod_eq_small in E; lia.
Qed.

(** ** Stores into a ring *)

Lemma slot_insert_base (size : Z) (base : list Z) (ext : option (list Z))
      (i j v : Z) :
  0 ≤ i < size → i < Z.of_nat (length base) → 0 ≤ j →
  slot size (<[Z.to_nat i := v]> base) ext j
  = if j =? i then Some v else slot size base ext j.
Proof.
  intros Hi Hlen Hj. unfold slot.
  destruct (Z.eqb_spec j i) as [->|Hne].
  - destruct (Z.ltb_spec i size); [| lia]. destruct (Z.ltb_spec i 0); [lia |].
    apply list_lookup_insert_eq. lia.
  - destruct (Z.ltb_spec j size); [| reflexivity].
    destruct (Z.ltb_spec j 0); [reflexivity |].
    apply list_lookup_insert_ne. lia.
Qed.

Lemma slot_insert_ext (size : Z) (base a : list Z) (i j v : Z) :
  size ≤ i → i - size < Z.of_nat (length a) → i - size < 2 ^ 32 →
  0 ≤ j → j - size < 2 ^ 32 →
  slot size base (Some (<[Z.to_nat (u32 (i - size)) := v]> a)) j
  = if j =? i then Some v else slot size base (Some a) j.
Proof.
  intros Hi Hlen Hi32 Hj Hj32. unfold slot.
  rewrite (u32_small (i - size)) by lia.
  destruct (Z.eqb_spec j i) as [->|Hne].
  - destruct (Z.ltb_spec i size); [lia |].
    rewrite (u32_small (i - size)) by lia.
    apply list_lookup_insert_eq. lia.
  - destruct (Z.ltb_spec j size); [reflexivity |].
    rewrite (u32_small (j - size)) by lia.
    apply list_lookup_insert_ne. lia.
Qed.

End RingTheory.

Section Inversion.
Context `{cfg : Config}.

(** ** Inversion of completed computations *)

Lemma hw_read_inv {B : Type} (k : Z → M B) (st st' : state) (b : B) :
  (hw_read ≫= k) st = Done b st' →
  ∃ v rest, hw_in st = v :: rest ∧ k v (set_hw_in rest st) = Done b st'.
Proof.
  rewrite bind_unfold. unfold hw_read.
  destruct (hw_in st) as [|v rest]; [discriminate |]. eauto.
Qed.

Lemma hw_read8_inv {B : Type} (k : Z → M B) (st st' : state) (b : B) :
  (hw_read8 ≫= k) st = Done b st' →
  ∃ v rest, hw_in st = v :: rest ∧ k (u8 v) (set_hw_in rest st) = Done b st'.
Proof.
  unfold hw_read8. rewrite bind_assoc. intros H.
  apply hw_read_inv in H as (v & rest & E & H). rewrite bind_mret in H. eauto.
Qed.

Lemma receive_unit_inv {B : Type} (k : Z → M B) (st st' : state) (b : B) :
  (receive_unit ≫= k) st = Done b st' →
  ∃ n tape, receive_unit st = Done n (set_hw_in tape st)
            ∧ k n (set_hw_in tape st) = Done b st'.
Proof.
  intros H. rewrite bind_unfold in H.
  destruct (receive_unit st) as [n st1| |] eqn:E; try discriminate.
  revert E. unfold receive_unit. mexec. destruct (nz (use9Bits st)).
  - intros E. apply hw_read8_inv in E as (v1 & r1 & E1 & E).
    apply hw_read8_inv in E as (v2 & r2 & E2 & E).
    rewrite mret_eq, set_hw_in_twice in E. injection E as <- <-. eauto.
  - unfold hw_read8. intros E. apply hw_read_inv in E as (v1 & r1 & E1 & E).
    rewrite mret_eq in E. injection E as <- <-. eauto.
Qed.

Lemma store_inv (a a' : list Z) (i v : Z) (st st' : state) :
  store a i v st = Done a' st' →
  st' = st ∧ a' = <[Z.to_nat i := v]> a ∧ 0 ≤ i < Z.of_nat (length a).
Proof.
  unfold store. destruct (Z.leb_spec 0 i), (Z.ltb_spec i (Z.of_nat (length a)));
    simpl; try discriminate.
  intros [= <- <-]. repeat split; lia.
Qed.

(** ** Frames of the receive part *)

Lemma rx_part_refl (st : state) : rx_part st st.
Proof. destruct st. eexists _, _, _, _, _, _. funfold. reflexivity. Qed.

Lemma rx_part_trans (st1 st2 st3 : state) :
  rx_part st1 st2 → rx_part st2 st3 → rx_part st1 st3.
Proof.
  intros (b & e & h & g & cf & t & ->) (b' & e' & h' & g' & cf' & t' & ->).
  destruct st1. eexists _, _, _, _, _, _. funfold. reflexivity.
Qed.

Lemma rx_part_read (st : state) (tape : list Z) : rx_part st (set_hw_in tape st).
Proof. destruct st. eexists _, _, _, _, _, _. funfold. reflexivity. Qed.

Lemma rx_part_tx_same (st st' : state) : rx_part st st' → tx_ring_same st st'.
Proof. intros (b & e & h & g & cf & t & ->). repeat split. Qed.

Lemma rx_slot_store_frame (i v : Z) (st st' : state) :
  rx_slot_store i v st = Done tt st' → rx_part st st'.
Proof.
  unfold rx_slot_store. destruct (i <? SERIAL1_RX_BUFFER_SIZE); mexec.
  - rewrite bind_unfold.
    destruct (store (rx_buffer st) i (BUFTYPE v) st) as [a' st1| |] eqn:E;
      try discriminate.
    apply store_inv in E as (-> & -> & _). rewrite modify_eq. intros [= <-].
    destruct st. eexists _, _, _, _, _, _. funfold. reflexivity.
  - destruct (rx_buffer_storage_ st) as [a|]; [| discriminate].
    rewrite bind_unfold.
    destruct (store a _ (BUFTYPE v) st) as [a' st1| |] eqn:E; try discriminate.
    apply store_inv in E as (-> & -> & _). rewrite modify_eq. intros [= <-].
    destruct st. eexists _, _, _, _, _, _. funfold. reflexivity.
Qed.

Lemma isr_receive_single_frame (st st' : state) :
  isr_receive_single st = Done tt st' → rx_part st st'.
Proof.
  unfold isr_receive_single. intros H.
  apply hw_read8_inv in H as (s1 & rest & Etape & H).
  destruct (nz (Z.land (u8 s1) UART_S1_RDRF)); unfold when at 1 in H.
  2:{ injection H as <-. apply rx_part_read. }
  apply receive_unit_inv in H as (n & tape & _ & H).
  rewrite set_hw_in_twice in H. revert H. mexec.
  destruct (negb _); unfold when.
  - rewrite bind_unfold.
    destruct (rx_slot_store _ n (set_hw_in tape st)) as [[] st1| |] eqn:E;
      try discriminate.
    apply rx_slot_store_frame in E. rewrite modify_eq. intros [= <-].
    eapply rx_part_trans; [apply rx_part_read |].
    eapply rx_part_trans; [exact E |].
    destruct st1. eexists _, _, _, _, _, _. funfold. reflexivity.
  - rewrite skip_eq. intros [= <-]. apply rx_part_read.
Qed.

Lemma isr_rx_drain_frame (tail : Z) (fuel : nat) :
  ∀ (avail head head' : Z) (st st' : state),
    isr_rx_drain fuel avail head tail st = Done head' st' → rx_part st st'.
Proof.
  induction fuel as [|fuel IH]; intros avail head head' st st' H; [discriminate |].
  simpl in H. apply receive_unit_inv in H as (n & tape & _ & H).
  revert H. mexec. rewrite bind_unfold.
  destruct (negb _).
  - rewrite bind_unfold.
    destruct (rx_slot_store _ n (set_hw_in tape st)) as [[] st1| |] eqn:E;
      try discriminate.
    apply rx_slot_store_frame in E. rewrite mret_eq.
    destruct (u8 (avail - 1) >? 0).
    + intros H. apply IH in H.
      eapply rx_part_trans; [apply rx_part_read |].
      eapply rx_part_trans; eassumption.
    + rewrite mret_eq. intros [= <- <-].
      eapply rx_part_trans; [apply rx_part_read | exact E].
  - rewrite mret_eq. destruct (u8 (avail - 1) >? 0).
    + intros H. apply IH in H.
      eapply rx_part_trans; [apply rx_part_read | exact H].
    + rewrite mret_eq. intros [= <- <-]. apply rx_part_read.
Qed.

Lemma isr_receive_fifo_frame (st st' : state) :
  isr_receive_fifo st = Done tt st' → rx_part st st'.
Proof.
  unfold isr_receive_fifo. intros H.
  apply hw_read8_inv in H as (s1 & rest & Etape & H).
  destruct (nz _); unfold when at 1 in H.
  2:{ injection H as <-. apply rx_part_read. }
  apply hw_read8_inv in H as (av & rest2 & Etape2 & H).
  rewrite set_hw_in_twice in H. destruct (u8 av =? 0).
  - apply hw_read8_inv in H as (d & rest3 & Etape3 & H).
    rewrite set_hw_in_twice in H. unfold write_UART0_CFIFO in H.
    rewrite modify_eq in H. injection H as <-.
    destruct st. eexists _, _, _, _, _, _. funfold. reflexivity.
  - revert H. mexec. rewrite bind_unfold.
    destruct (isr_rx_drain 256 (u8 av) _ _ (set_hw_in rest2 st))
      as [head' st1| |] eqn:E; try discriminate.
    apply isr_rx_drain_frame in E. mexec.
    unfold when_set, rts_deassert, pin_write.
    assert (Hfin : ∀ st2, rx_part st1 st2 → rx_part st st2).
    { intros st2 H2. eapply rx_part_trans; [apply rx_part_read |].
      eapply rx_part_trans; eassumption. }
    destruct (rts_pin st1) as [pin|]; mexec.
    + destruct (u32 _ >=? rts_high_watermark_ st1); unfold when; mexec;
        intros [= <-]; apply Hfin; destruct st1;
        eexists _, _, _, _, _, _; funfold; reflexivity.
    + intros [= <-]. apply Hfin. destruct st1.
      eexists _, _, _, _, _, _. funfold. reflexivity.
Qed.

End Inversion.

Section TransmitStream.
Context `{cfg : Config}.

(** ** The TX ring as a queue: pops *)

Lemma tx_kept_refl (st : state) : tx_wf st → tx_fits st → tx_kept st st.
Proof.
  intros Hwf Hfit. split; [assumption |]. split; [assumption |]. repeat split.
Qed.

Lemma tx_kept_trans (st1 st2 st3 : state) :
  tx_kept st1 st2 → tx_kept st2 st3 → tx_kept st1 st3.
Proof.
  unfold tx_kept. intros (?&?&?&?&?&?&?&?) (?&?&?&?&?&?&?&?).
  split; [assumption |]. split; [assumption |]. repeat split; congruence.
Qed.

Lemma tx_kept_same (st st' : state) :
  tx_wf st → tx_fits st → tx_ring_same st st' → tx_kept st st'.
Proof.
  intros Hwf Hfit (Eh & Et & En & Eb & Es & Ed & Eg).
  unfold tx_kept, tx_wf, tx_fits, tx_stream, tx_pending, tx_slot in *.
  rewrite Eh, Et, En, Eb, Es, Ed, Eg.
  split; [assumption |]. split; [assumption |]. repeat split.
Qed.

Lemma tx_popped_spec (n : Z) (st : state) :
  tx_wf st → tx_fits st →
  tx_buffer_head st ≠ tx_buffer_tail st →
  tx_slot st (advance (tx_buffer_total_size_ st) (tx_buffer_tail st)) = Some n →
  tx_kept st (tx_popped n st)
  ∧ tx_pending st = n :: tx_pending (tx_popped n st)
  ∧ UART0_D_wr (tx_popped n st) = UART0_D_wr st ++ [u8 n].
Proof.
  intros Hwf Hfit Hne Hn. pose proof Hwf as [Hs Hb Ht Hc Hh Htl Hhi Hti].
  unfold tx_fits in Hfit.
  assert (Hadv : advance (tx_buffer_total_size_ st) (tx_buffer_tail st)
                 = (tx_buffer_tail st + 1) mod tx_buffer_total_size_ st)
    by (apply advance_spec; lia).
  assert (Hr : 0 ≤ (tx_buffer_tail st + 1) mod tx_buffer_total_size_ st
               < tx_buffer_total_size_ st) by (apply Z.mod_pos_bound; lia).
  assert (Hidx : tx_index (advance (tx_buffer_total_size_ st) (tx_buffer_tail st))
                 = (tx_buffer_tail st + 1) mod tx_buffer_total_size_ st).
  { rewrite Hadv. apply index_wrap_small. lia. }
  assert (Hpend : tx_pending st = n :: tx_pending (tx_popped n st)).
  { unfold tx_pending, tx_popped, transmitted, tx_slot.
    destruct (nz (use9Bits st)); fsimpl; rewrite Hidx;
      rewrite (ring_units_pop _ _ _ (tx_buffer_tail st)) by assumption;
      unfold tx_slot in Hn; rewrite Hadv in Hn; rewrite Hn; reflexivity. }
  assert (Hd : UART0_D_wr (tx_popped n st) = UART0_D_wr st ++ [u8 n]).
  { unfold tx_popped, transmitted. destruct (nz (use9Bits st)); reflexivity. }
  split; [| split; assumption]. unfold tx_kept. split; [| split; [| split]].
  - unfold tx_popped, transmitted.
    destruct (nz (use9Bits st)); constructor; fsimpl;
      rewrite ?Hidx; try assumption; lia.
  - unfold tx_popped, transmitted, tx_fits.
    destruct (nz (use9Bits st)); fsimpl; exact Hfit.
  - unfold tx_stream. rewrite Hd, Hpend. simpl. rewrite <- app_assoc.
    reflexivity.
  - unfold tx_popped, transmitted. destruct (nz (use9Bits st)); repeat split.
Qed.

Lemma tx_kept_read (st : state) (tape : list Z) :
  tx_wf st → tx_fits st → tx_kept st (set_hw_in tape st).
Proof. intros Hwf Hfit. apply tx_kept_same; try assumption. repeat split. Qed.

Lemma isr_transmit_single_kept (c : Z) (st st' : state) :
  tx_wf st → tx_fits st →
  isr_transmit_single c st = Done tt st' →
  tx_kept st st' ∧ tx_part st st'.
Proof.
  intros Hwf Hfit H. unfold isr_transmit_single in H.
  destruct (nz (Z.land c UART_C2_TIE)); unfold when at 1 in H.
  2:{ injection H as <-. split; [apply tx_kept_refl; assumption |].
      apply tx_drained_part, tx_drained_refl. }
  apply hw_read8_inv in H as (s1 & rest & Etape & H).
  destruct (nz (Z.land (u8 s1) UART_S1_TDRE)); unfold when at 1 in H.
  2:{ injection H as <-. split; [apply tx_kept_read; assumption |].
      apply tx_drained_part, tx_drained_read. }
  revert H. mexec.
  destruct (Z.eqb_spec (tx_buffer_head st) (tx_buffer_tail st)) as [E|Hne].
  - unfold write_UART0_C2. rewrite modify_eq. intros [= <-]. split.
    + apply tx_kept_same; try assumption. repeat split.
    + destruct st. eexists _, _, _, _, _. funfold. reflexivity.
  - mexec. rewrite bind_unfold, tx_slot_load_eq.
    destruct (tx_slot (set_hw_in rest st) _) as [n|] eqn:Hn; [| discriminate].
    rewrite bind_unfold, transmit_unit_eq, modify_eq. intros [= <-].
    destruct (tx_popped_spec n (set_hw_in rest st)) as (Hk & _ & _);
      try assumption.
    split.
    + eapply tx_kept_trans; [apply (tx_kept_read st rest); assumption |].
      exact Hk.
    + unfold transmitted. destruct (nz _); destruct st;
        eexists _, _, _, _, _; funfold; reflexivity.
Qed.

Lemma service_one_unit_kept (st st' : state) :
  tx_wf st → tx_fits st →
  tx_buffer_head st ≠ tx_buffer_tail st →
  service_one_unit st = Done tt st' →
  tx_kept st st' ∧ tx_part st st'.
Proof.
  intros Hwf Hfit Hne H. unfold service_one_unit in H.
  apply hw_read8_inv in H as (s1 & rest & Etape & H).
  destruct (nz (Z.land (u8 s1) UART_S1_TDRE)); unfold when at 1 in H.
  2:{ injection H as <-. split; [apply tx_kept_read; assumption |].
      apply tx_drained_part, tx_drained_read. }
  revert H. mexec. rewrite bind_unfold, tx_slot_load_eq.
  destruct (tx_slot (set_hw_in rest st) _) as [n|] eqn:Hn; [| discriminate].
  rewrite bind_unfold, transmit_unit_eq, modify_eq. intros [= <-].
  destruct (tx_popped_spec n (set_hw_in rest st)) as (Hk & _ & _);
    try assumption.
  split.
  - eapply tx_kept_trans; [apply (tx_kept_read st rest); assumption |].
    exact Hk.
  - unfold transmitted. destruct (nz _); destruct st;
      eexists _, _, _, _, _; funfold; reflexivity.
Qed.

End TransmitStream.

Section FifoStream.
Context `{cfg : Config}.

(** ** The FIFO transmit loop keeps the stream *)

Lemma isr_tx_fill_kept (fuel : nat) :
  ∀ (head tail tail' : Z) (st st' : state),
    tx_wf st →
    0 ≤ head < tx_buffer_total_size_ st →
    0 ≤ tail < tx_buffer_total_size_ st →
    isr_tx_fill fuel head tail st = Done tail' st' →
    tx_drained st st'
    ∧ 0 ≤ tail' < tx_buffer_total_size_ st
    ∧ UART0_D_wr st'
      ++ map u8 (ring_units (tx_slot st) (tx_buffer_total_size_ st) head tail')
      = UART0_D_wr st
        ++ map u8 (ring_units (tx_slot st) (tx_buffer_total_size_ st) head tail).
Proof.
  induction fuel as [|fuel IH]; intros head tail tail' st st' Hwf Hh Ht H;
    [discriminate |].
  simpl in H. destruct (Z.eqb_spec tail head) as [->|Hne].
  { rewrite mret_eq in H. injection H as <- <-.
    split; [apply tx_drained_refl |]. split; [exact Hh | reflexivity]. }
  pose proof (wf_total _ _ _ _ _ _ Hwf) as Htot.
  assert (Hadv : advance (tx_buffer_total_size_ st) tail
                 = (tail + 1) mod tx_buffer_total_size_ st)
    by (apply advance_spec; lia).
  assert (Hr : 0 ≤ (tail + 1) mod tx_buffer_total_size_ st
               < tx_buffer_total_size_ st) by (apply Z.mod_pos_bound; lia).
  revert H. mexec. rewrite Hadv. intros H.
  apply hw_read8_inv in H as (s1 & rest & Etape & H).
  rewrite bind_unfold, tx_slot_load_eq in H.
  destruct (tx_slot (set_hw_in rest st) _) as [n|] eqn:Hn; [| discriminate].
  rewrite bind_unfold, transmit_unit_eq in H.
  apply hw_read8_inv in H as (tc & rest2 & Etape2 & H).
  set (st2 := set_hw_in rest2 (transmitted n (set_hw_in rest st))) in *.
  assert (Hdr : tx_drained st st2).
  { eapply tx_drained_trans; [apply tx_drained_read |].
    eapply tx_drained_trans; [apply tx_drained_transmitted |].
    apply tx_drained_read. }
  assert (Hd2 : UART0_D_wr st2 = UART0_D_wr st ++ [u8 n]).
  { unfold st2, transmitted. destruct (nz _); reflexivity. }
  assert (Hpop : ring_units (tx_slot st) (tx_buffer_total_size_ st) head tail
                 = n :: ring_units (tx_slot st) (tx_buffer_total_size_ st) head
                          ((tail + 1) mod tx_buffer_total_size_ st)).
  { rewrite (ring_units_pop _ _ _ tail) by (assumption || congruence).
    change (tx_slot (set_hw_in rest st)) with (tx_slot st) in Hn.
    rewrite Hn. reflexivity. }
  destruct (u8 tc <? 8).
  - assert (E2 : tx_slot st2 = tx_slot st ∧
                 tx_buffer_total_size_ st2 = tx_buffer_total_size_ st).
    { destruct Hdr as (? & ? & ? & ->). split; reflexivity. }
    destruct E2 as [Es2 Et2].
    apply IH in H; [| eapply tx_wf_drained; eassumption | rewrite Et2; lia ..].
    destruct H as (Hdr' & Hr' & Hstream). rewrite Es2, Et2 in *.
    split; [eapply tx_drained_trans; eassumption |]. split; [exact Hr' |].
    rewrite Hstream, Hd2, Hpop. simpl. rewrite <- app_assoc. reflexivity.
  - rewrite mret_eq in H. injection H as <- <-.
    split; [exact Hdr |]. split; [exact Hr |].
    rewrite Hd2, Hpop. simpl. rewrite <- app_assoc. reflexivity.
Qed.

Lemma isr_transmit_fifo_kept (c : Z) (st st' : state) :
  tx_wf st → tx_fits st →
  isr_transmit_fifo c st = Done tt st' →
  tx_kept st st' ∧ tx_part st st'.
Proof.
  intros Hwf Hfit H. pose proof Hwf as [Hs Hb Ht Hc Hh Htl Hhi Hti].
  unfold isr_transmit_fifo in H.
  destruct (nz (Z.land c UART_C2_TIE)); unfold when at 1 in H.
  2:{ injection H as <-. split; [apply tx_kept_refl; assumption |].
      apply tx_drained_part, tx_drained_refl. }
  apply hw_read8_inv in H as (s1 & rest & Etape & H).
  destruct (nz (Z.land (u8 s1) UART_S1_TDRE)); unfold when at 1 in H.
  2:{ injection H as <-. split; [apply tx_kept_read; assumption |].
      apply tx_drained_part, tx_drained_read. }
  revert H. mexec. rewrite bind_unfold.
  destruct (isr_tx_fill _ _ _ (set_hw_in rest st)) as [tail' st1| |] eqn:E;
    try discriminate.
  apply isr_tx_fill_kept in E; try assumption.
  destruct E as (Hdr & Hr & Hstream). fsimpl_in Hr. fsimpl_in Hstream.
  change (tx_slot (set_hw_in rest st)) with (tx_slot st) in Hstream.
  destruct Hdr as (c3 & dwr & tape & ->). fsimpl_in Hstream.
  assert (Hidx : tx_index tail' = tail').
  { apply index_wrap_small. unfold tx_fits in Hfit. lia. }
  mexec. rewrite Hidx. intros H.
  apply hw_read8_inv in H as (s2 & rest2 & Etape2 & H).
  assert (Hres : ∀ st2,
             (∃ c2 t, st2 = set_UART0_C2 c2
                              (set_hw_in t
                                 (set_tx_buffer_tail tail'
                                    (set_UART0_D_wr dwr
                                       (set_UART0_C3 c3 st))))) →
             tx_kept st st2 ∧ tx_part st st2).
  { intros st2 (c2 & t & ->). pose proof Hfit as Hfit'. unfold tx_fits in Hfit'.
    split.
    - unfold tx_kept. split; [constructor; fsimpl; (assumption || lia) |].
      split; [exact Hfit |]. split; [| repeat split].
      unfold tx_stream, tx_pending. fsimpl. exact Hstream.
    - destruct st. eexists _, _, _, _, _. funfold. reflexivity. }
  destruct (nz (Z.land (u8 s2) UART_S1_TDRE)); unfold when, write_UART0_C2 in H;
    rewrite ?modify_eq, ?skip_eq in H; injection H as <-; apply Hres.
  - destruct st. eexists _, _. funfold. reflexivity.
  - destruct st. eexists _, _. funfold. reflexivity.
Qed.

(** ** The whole handler keeps the TX stream *)

Lemma isr_transmit_complete_frame (c : Z) (st st' : state) :
  isr_transmit_complete c st = Done tt st' → tc_part st st'.
Proof.
  unfold isr_transmit_complete. intros H.
  destruct (nz (Z.land c UART_C2_TCIE)); unfold when at 1 in H.
  2:{ injection H as <-. destruct st. eexists _, _, _, _, _.
      funfold. reflexivity. }
  apply hw_read8_inv in H as (s1 & rest & Etape & H).
  destruct (nz (Z.land (u8 s1) UART_S1_TC)); unfold when at 1 in H.
  2:{ injection H as <-. destruct st. eexists _, _, _, _, _.
      funfold. reflexivity. }
  revert H.
  unfold when_set, transmit_deassert, pin_write, write_UART0_C3, write_UART0_C2.
  mexec.
  destruct (transmit_pin st) as [[pin|]|];
    destruct KINETISL; unfold when; mexec;
    try (destruct (nz (half_duplex_mode st)); mexec);
    intros [= <-]; destruct st; eexists _, _, _, _, _; funfold; reflexivity.
Qed.

Lemma uart0_status_isr_kept (st st' : state) :
  tx_wf st → tx_fits st →
  uart0_status_isr st = Done tt st' →
  tx_kept st st'.
Proof.
  intros Hwf Hfit H. unfold uart0_status_isr in H.
  apply bind_inv in H as ([] & st1 & Hrx & H).
  assert (Hp : rx_part st st1).
  { destruct HAS_KINETISK_UART0_FIFO;
      [apply isr_receive_fifo_frame | apply isr_receive_single_frame];
      exact Hrx. }
  pose proof (tx_kept_same st st1 Hwf Hfit (rx_part_tx_same _ _ Hp)) as Hk1.
  rewrite bind_gets in H. apply bind_inv in H as ([] & st2 & Htx & Htc).
  assert (Hk2 : tx_kept st1 st2).
  { destruct Hk1 as (Hwf1 & Hfit1 & _).
    destruct HAS_KINETISK_UART0_FIFO;
      [eapply isr_transmit_fifo_kept | eapply isr_transmit_single_kept];
      eassumption. }
  apply isr_transmit_complete_frame, tc_part_tx_same in Htc.
  eapply tx_kept_trans; [exact Hk1 |].
  eapply tx_kept_trans; [exact Hk2 |].
  destruct Hk2 as (Hwf2 & Hfit2 & _). apply tx_kept_same; assumption.
Qed.

End FifoStream.

Section Putchar.
Context `{cfg : Config}.

(** ** The TX ring as a queue: pushes *)

Lemma u8_BUFTYPE (c : Z) : u8 (BUFTYPE c) = u8 c.
Proof.
  unfold BUFTYPE, u8, u16. destruct SERIAL_9BIT_SUPPORT.
  - apply Z.mod_mod_divide. exists (2 ^ 8). reflexivity.
  - apply Z.mod_mod. lia.
Qed.

Lemma tx_slot_store_spec (i v head tail : Z) (st st' : state) :
  ring_wf SERIAL1_TX_BUFFER_SIZE (tx_buffer_total_size_ st) head tail
          (tx_buffer st) (tx_buffer_storage_ st) →
  0 ≤ i < tx_buffer_total_size_ st →
  tx_slot_store i v st = Done tt st' →
  ∃ b e, st' = set_tx_buffer b (set_tx_buffer_storage_ e st)
         ∧ Z.of_nat (length b) = SERIAL1_TX_BUFFER_SIZE
         ∧ ext_len e = ext_len (tx_buffer_storage_ st)
         ∧ slot SERIAL1_TX_BUFFER_SIZE b e i = Some (BUFTYPE v)
         ∧ ∀ j, 0 ≤ j < tx_buffer_total_size_ st → j ≠ i →
                slot SERIAL1_TX_BUFFER_SIZE b e j = tx_slot st j.
Proof.
  intros [Hs Hb Ht Hc _ _ _ _] Hi. unfold tx_slot_store, tx_slot.
  destruct (Z.ltb_spec i SERIAL1_TX_BUFFER_SIZE) as [Hlt|Hge]; mexec.
  - rewrite bind_unfold.
    destruct (store (tx_buffer st) i (BUFTYPE v) st) as [a' st1| |] eqn:E;
      try discriminate.
    apply store_inv in E as (-> & -> & Hlen). rewrite modify_eq. intros [= <-].
    exists (<[Z.to_nat i := BUFTYPE v]> (tx_buffer st)), (tx_buffer_storage_ st).
    split; [destruct st; reflexivity |].
    split; [rewrite length_insert; exact Hb |]. split; [reflexivity |].
    split.
    + rewrite slot_insert_base by lia. rewrite Z.eqb_refl. reflexivity.
    + intros j Hj Hne. rewrite slot_insert_base by lia.
      destruct (Z.eqb_spec j i); [contradiction | reflexivity].
  - destruct (tx_buffer_storage_ st) as [a|] eqn:Es; [| discriminate].
    simpl in Hc. rewrite bind_unfold.
    destruct (store a _ (BUFTYPE v) st) as [a' st1| |] eqn:E; try discriminate.
    apply store_inv in E as (-> & -> & Hlen). rewrite modify_eq. intros [= <-].
    eexists (tx_buffer st), (Some _).
    split; [destruct st; reflexivity |]. split; [exact Hb |].
    split; [simpl; rewrite length_insert; reflexivity |].
    split.
    + rewrite slot_insert_ext by lia. rewrite Z.eqb_refl. reflexivity.
    + intros j Hj Hne. rewrite slot_insert_ext by lia.
      destruct (Z.eqb_spec j i); [contradiction | reflexivity].
Qed.

Lemma enqueue_spec (c : Z) (st st' : state) :
  tx_wf st → tx_fits st →
  advance (tx_buffer_total_size_ st) (tx_buffer_head st) ≠ tx_buffer_tail st →
  enqueue (advance (tx_buffer_total_size_ st) (tx_buffer_head st)) c st
  = Done tt st' →
  tx_wf st' ∧ tx_fits st'
  ∧ tx_buffer_total_size_ st' = tx_buffer_total_size_ st
  ∧ SIM_SCGC4 st' = SIM_SCGC4 st
  ∧ UART0_D_wr st' = UART0_D_wr st
  ∧ tx_pending st' = tx_pending st ++ [BUFTYPE c]
  ∧ tx_stream st' = tx_stream st ++ [u8 c].
Proof.
  intros Hwf Hfit Hroom H. pose proof Hwf as [Hs Hb Ht Hc Hh Htl Hhi Hti].
  pose proof Hfit as Hfit'. unfold tx_fits in Hfit'.
  assert (Hadv : advance (tx_buffer_total_size_ st) (tx_buffer_head st)
                 = (tx_buffer_head st + 1) mod tx_buffer_total_size_ st)
    by (apply advance_spec; lia).
  rewrite Hadv in *.
  assert (Hr : 0 ≤ (tx_buffer_head st + 1) mod tx_buffer_total_size_ st
               < tx_buffer_total_size_ st) by (apply Z.mod_pos_bound; lia).
  unfold enqueue in H. apply bind_inv in H as ([] & st1 & Hst & H).
  apply (tx_slot_store_spec _ _ _ _ _ _ Hwf Hr) in Hst
    as (b & e & -> & Hlb & Hle & Hnew & Hold).
  revert H. mexec. unfold tx_index. rewrite index_wrap_small by lia.
  intros [= <-].
  assert (Hpend : tx_pending
                    (set_tx_buffer_head
                       ((tx_buffer_head st + 1) mod tx_buffer_total_size_ st)
                       (set_transmitting 1
                          (set_tx_buffer b (set_tx_buffer_storage_ e st))))
                  = tx_pending st ++ [BUFTYPE c]).
  { unfold tx_pending, tx_slot. fsimpl.
    apply ring_units_push; assumption. }
  split; [constructor; fsimpl; rewrite ?Hle; (assumption || lia) |].
  split; [exact Hfit |]. do 3 (split; [reflexivity |]).
  split; [exact Hpend |].
  unfold tx_stream. rewrite Hpend, map_app, app_assoc. simpl.
  rewrite u8_BUFTYPE. reflexivity.
Qed.

(** ** serial_putchar *)

Lemma wait_turn_kept (st st' : state) :
  tx_wf st → tx_fits st →
  tx_buffer_head st ≠ tx_buffer_tail st →
  wait_turn st = Done tt st' →
  tx_kept st st'.
Proof.
  intros Hwf Hfit Hne H. unfold wait_turn in H.
  apply hw_read_inv in H as (priority & rest & Etape & H).
  pose proof (tx_kept_read st rest Hwf Hfit) as Hk0.
  destruct (priority <=? IRQ_PRIORITY).
  - apply service_one_unit_kept in H as [Hk _];
      [| destruct Hk0 as (? & ? & _); assumption ..| exact Hne].
    exact (tx_kept_trans _ _ _ Hk0 Hk).
  - apply hw_read_inv in H as (irq & rest2 & Etape2 & H).
    rewrite set_hw_in_twice in H.
    pose proof (tx_kept_read st rest2 Hwf Hfit) as Hk1.
    apply bind_inv in H as ([] & st1 & Hirq & H).
    assert (Hk2 : tx_kept (set_hw_in rest2 st) st1).
    { destruct Hk1 as (Hwf1 & Hfit1 & _). destruct (nz irq); unfold when in Hirq.
      - apply uart0_status_isr_kept; assumption.
      - injection Hirq as <-. apply tx_kept_refl; assumption. }
    assert (st' = st1) as ->.
    { unfold when, yield in H. destruct (priority >=? 256);
        rewrite skip_eq in H; congruence. }
    exact (tx_kept_trans _ _ _ Hk1 Hk2).
Qed.

Lemma advance_moves (total i : Z) :
  1 < total < 2 ^ 32 → 0 ≤ i < total → advance total i ≠ i.
Proof.
  intros Ht Hi. unfold advance. rewrite u32_small by lia.
  destruct (Z.geb_spec (i + 1) total); lia.
Qed.

Lemma putchar_wait_kept (fuel : nat) :
  ∀ (st st' : state),
    tx_wf st → tx_fits st → 1 < tx_buffer_total_size_ st →
    putchar_wait fuel
      (advance (tx_buffer_total_size_ st) (tx_buffer_head st)) st
    = Done tt st' →
    tx_kept st st'
    ∧ advance (tx_buffer_total_size_ st) (tx_buffer_head st)
      ≠ tx_buffer_tail st'.
Proof.
  induction fuel as [|fuel IH]; intros st st' Hwf Hfit Htot H; [discriminate |].
  simpl in H. rewrite bind_gets in H.
  destruct (Z.eqb_spec (tx_buffer_tail st)
              (advance (tx_buffer_total_size_ st) (tx_buffer_head st)))
    as [E|Hne].
  - apply bind_inv in H as ([] & st1 & Hturn & H).
    pose proof Hwf as [_ _ Ht _ Hh _ _ _].
    apply wait_turn_kept in Hturn; try assumption.
    2:{ rewrite E. intros Eq. symmetry in Eq. revert Eq.
        apply advance_moves; lia. }
    pose proof Hturn as (Hwf1 & Hfit1 & _ & Eh & Et & _).
    rewrite <- Eh, <- Et in H. apply IH in H; try assumption; [| lia].
    destruct H as [Hk Hx]. rewrite Eh, Et in Hx.
    split; [eapply tx_kept_trans; eassumption | exact Hx].
  - rewrite skip_eq in H. injection H as <-.
    split; [apply tx_kept_refl; assumption | congruence].
Qed.

Lemma putchar_prologue (st : state) (k : unit → M unit) :
  ∃ g c3,
    (when_set (transmit_pin st) transmit_assert
     ≫= λ _, when KINETISL
                (hd ← gets half_duplex_mode;
                 when (nz hd)
                   (reg ← gets UART0_C3;
                    write_UART0_C3 (Z.lor reg UART_C3_TXDIR)))
     ≫= k) st
    = k tt (set_gpio g (set_UART0_C3 c3 st)).
Proof.
  unfold when_set, transmit_assert, pin_write, write_UART0_C3.
  destruct (transmit_pin st) as [[pin|]|];
    destruct KINETISL; unfold when; mexec;
    try (destruct (nz (half_duplex_mode st)); mexec);
    destruct st; eexists _, _; funfold; reflexivity.
Qed.

(** serial_putchar, when it returns on an enabled peripheral, has appended
    its byte to the TX stream, whatever happened while it was waiting for
    room: interrupts taken, units serviced inline. *)
Lemma serial_putchar_stream (c : Z) (st st' : state) :
  tx_wf st → tx_fits st → 1 < tx_buffer_total_size_ st →
  ¬ clock_gated st →
  serial_putchar c st = Done tt st' →
  tx_wf st' ∧ tx_fits st'
  ∧ tx_buffer_total_size_ st' = tx_buffer_total_size_ st
  ∧ SIM_SCGC4 st' = SIM_SCGC4 st
  ∧ tx_stream st' = tx_stream st ++ [u8 c].
Proof.
  intros Hwf Hfit Htot Hen H. unfold serial_putchar in H. revert H.
  rewrite bind_gets. apply nz_true in Hen. rewrite Hen. cbn [negb].
  rewrite bind_gets.
  destruct (putchar_prologue st
              (λ _, h ← gets tx_buffer_head;
                    total ← gets tx_buffer_total_size_;
                    fuel ← gets (λ st0, S (length (hw_in st0)));
                    putchar_wait fuel (advance total h);;
                    enqueue (advance total h) (u32 c);;
                    write_UART0_C2 C2_TX_ACTIVE)) as (g & c3 & ->).
  set (st2 := set_gpio g (set_UART0_C3 c3 st)).
  assert (Hsame : tx_ring_same st st2) by (repeat split).
  pose proof (tx_kept_same st st2 Hwf Hfit Hsame) as Hk2.
  pose proof Hk2 as (Hwf2 & Hfit2 & Estr2 & Eh2 & Et2 & _).
  mexec. intros H.
  apply bind_inv in H as ([] & st3 & Hwait & H).
  change (tx_buffer_total_size_ st) with (tx_buffer_total_size_ st2) in Hwait, H.
  change (tx_buffer_head st) with (tx_buffer_head st2) in Hwait, H.
  apply putchar_wait_kept in Hwait; try assumption.
  destruct Hwait as [Hk3 Hroom].
  pose proof Hk3 as (Hwf3 & Hfit3 & Estr3 & Eh3 & Et3 & _).
  apply bind_inv in H as ([] & st4 & Henq & H).
  rewrite <- Eh3, <- Et3 in Henq, Hroom.
  apply enqueue_spec in Henq; try assumption.
  destruct Henq as (Hwf4 & Hfit4 & Et4 & Eg4 & _ & _ & Estr4).
  unfold write_UART0_C2 in H. rewrite modify_eq in H. injection H as <-.
  destruct Hk2 as (_ & _ & _ & _ & _ & _ & _ & Eg2).
  destruct Hk3 as (_ & _ & _ & _ & _ & _ & _ & Eg3).
  split; [destruct Hwf4; constructor; assumption |].
  split; [exact Hfit4 |].
  split; [fsimpl; congruence |]. split; [fsimpl; congruence |].
  unfold u32 in Estr4. unfold tx_stream, tx_pending, tx_slot in *.
  fsimpl. rewrite Estr4, Estr3, Estr2. f_equal. f_equal.
  unfold u8. apply Z.mod_mod_divide. exists (2 ^ 24). reflexivity.
Qed.

End Putchar.

Section ReceiveQueue.
Context `{cfg : Config}.

(** ** The RX ring as a queue *)

Lemma rx_slot_store_spec (i v head tail : Z) (st st' : state) :
  ring_wf SERIAL1_RX_BUFFER_SIZE (rx_buffer_total_size_ st) head tail
          (rx_buffer st) (rx_buffer_storage_ st) →
  0 ≤ i < rx_buffer_total_size_ st →
  rx_slot_store i v st = Done tt st' →
  ∃ b e, st' = set_rx_buffer b (set_rx_buffer_storage_ e st)
         ∧ Z.of_nat (length b) = SERIAL1_RX_BUFFER_SIZE
         ∧ ext_len e = ext_len (rx_buffer_storage_ st)
         ∧ slot SERIAL1_RX_BUFFER_SIZE b e i = Some (BUFTYPE v)
         ∧ ∀ j, 0 ≤ j < rx_buffer_total_size_ st → j ≠ i →
                slot SERIAL1_RX_BUFFER_SIZE b e j = rx_slot st j.
Proof.
  intros [Hs Hb Ht Hc _ _ _ _] Hi. unfold rx_slot_store, rx_slot.
  destruct (Z.ltb_spec i SERIAL1_RX_BUFFER_SIZE) as [Hlt|Hge]; mexec.
  - rewrite bind_unfold.
    destruct (store (rx_buffer st) i (BUFTYPE v) st) as [a' st1| |] eqn:E;
      try discriminate.
    apply store_inv in E as (-> & -> & Hlen). rewrite modify_eq. intros [= <-].
    exists (<[Z.to_nat i := BUFTYPE v]> (rx_buffer st)), (rx_buffer_storage_ st).
    split; [destruct st; reflexivity |].
    split; [rewrite length_insert; exact Hb |]. split; [reflexivity |].
    split.
    + rewrite slot_insert_base by lia. rewrite Z.eqb_refl. reflexivity.
    + intros j Hj Hne. rewrite slot_insert_base by lia.
      destruct (Z.eqb_spec j i); [contradiction | reflexivity].
  - destruct (rx_buffer_storage_ st) as [a|] eqn:Es; [| discriminate].
    simpl in Hc. rewrite bind_unfold.
    destruct (store a _ (BUFTYPE v) st) as [a' st1| |] eqn:E; try discriminate.
    apply store_inv in E as (-> & -> & Hlen). rewrite modify_eq. intros [= <-].
    eexists (rx_buffer st), (Some _).
    split; [destruct st; reflexivity |]. split; [exact Hb |].
    split; [simpl; rewrite length_insert; reflexivity |].
    split.
    + rewrite slot_insert_ext by lia. rewrite Z.eqb_refl. reflexivity.
    + intros j Hj Hne. rewrite slot_insert_ext by lia.
      destruct (Z.eqb_spec j i); [contradiction | reflexivity].
Qed.

Lemma receive_unit_take (st : state) :
  receive_unit st = match take_unit (use9Bits st) (hw_in st) with
                    | Some (n, rest) => Done n (set_hw_in rest st)
                    | None => Starved
                    end.
Proof.
  unfold receive_unit, take_unit. mexec. destruct (nz (use9Bits st)).
  - destruct (hw_in st) as [|c3 [|d rest]] eqn:E.
    + rewrite bind_unfold. unfold hw_read8. rewrite bind_unfold. unfold hw_read.
      rewrite E. reflexivity.
    + rewrite (bind_hw_read8 _ _ _ _ E). rewrite bind_unfold. unfold hw_read8.
      rewrite bind_unfold. unfold hw_read. reflexivity.
    + rewrite (bind_hw_read8 _ _ _ _ E).
      erewrite bind_hw_read8 by (fsimpl; reflexivity).
      rewrite mret_eq, set_hw_in_twice. reflexivity.
  - unfold hw_read8. rewrite bind_unfold. unfold hw_read.
    destruct (hw_in st); reflexivity.
Qed.

Lemma room_test (total head tail : Z) :
  0 ≤ head < total → 0 ≤ tail < total →
  (0 <? total - 1 - (head - tail) mod total)
  = negb ((head + 1) mod total =? tail).
Proof.
  intros Hh Ht.
  assert (Hm : 0 ≤ (head - tail) mod total < total)
    by (apply Z.mod_pos_bound; lia).
  destruct (Z.eqb_spec ((head + 1) mod total) tail) as [E|Hne]; simpl.
  - apply Z.ltb_ge. rewrite mod_wrap_down by lia.
    destruct (Z.eq_dec (head + 1) total) as [Et|Et].
    + rewrite Et, Z_mod_same_full in E. destruct (Z.geb_spec head tail); lia.
    + rewrite Z.mod_small in E by lia. destruct (Z.geb_spec head tail); lia.
  - apply Z.ltb_lt.
    pose proof (mod_step_up total head tail Hh Ht Hne) as Hup.
    pose proof (Z.mod_pos_bound ((head + 1) mod total - tail) total ltac:(lia)).
    lia.
Qed.

(** One run of the receive part of the single-slot handler appends to the
    pending units exactly what [rx_accepted] names. *)
Lemma isr_receive_single_push (st st' : state) :
  HAS_KINETISK_UART0_FIFO = false →
  rx_wf st → rx_fits st →
  isr_receive_single st = Done tt st' →
  rx_wf st' ∧ rx_fits st'
  ∧ rx_part st st'
  ∧ rx_pending st' = rx_pending st ++ rx_accepted st.
Proof.
  intros Hfifo Hwf Hfit H. pose proof Hwf as [Hs Hb Ht Hc Hh Htl Hhi Hti].
  pose proof Hfit as Hfit'. unfold rx_fits in Hfit'.
  pose proof (isr_receive_single_frame _ _ H) as Hpart.
  unfold isr_receive_single in H. unfold rx_accepted. rewrite Hfifo.
  apply hw_read8_inv in H as (s1 & rest & Etape & H). rewrite Etape.
  assert (Hquiet : ∀ tape, rx_wf (set_hw_in tape st) ∧ rx_fits (set_hw_in tape st)
                   ∧ rx_part st st'
                   ∧ rx_pending (set_hw_in tape st) = rx_pending st ++ []).
  { intros tape. rewrite app_nil_r. split; [constructor; assumption |].
    split; [exact Hfit |]. split; [exact Hpart |]. reflexivity. }
  destruct (nz (Z.land (u8 s1) UART_S1_RDRF)); unfold when at 1 in H; cbn [andb].
  2:{ injection H as <-. apply Hquiet. }
  rewrite bind_unfold, receive_unit_take in H. fsimpl_in H.
  change (use9Bits (set_hw_in rest st)) with (use9Bits st) in H.
  destruct (take_unit (use9Bits st) rest) as [[n tape]|]; [| discriminate].
  rewrite set_hw_in_twice in H. revert H. mexec.
  assert (Hadv : advance (rx_buffer_total_size_ st) (rx_buffer_head st)
                 = (rx_buffer_head st + 1) mod rx_buffer_total_size_ st)
    by (apply advance_spec; lia).
  assert (Hr : 0 ≤ (rx_buffer_head st + 1) mod rx_buffer_total_size_ st
               < rx_buffer_total_size_ st) by (apply Z.mod_pos_bound; lia).
  unfold rx_room. rewrite room_test, Hadv by assumption.
  destruct (Z.eqb_spec ((rx_buffer_head st + 1) mod rx_buffer_total_size_ st)
              (rx_buffer_tail st)) as [E|Hne]; cbn [negb when].
  { rewrite skip_eq. intros [= <-]. apply Hquiet. }
  intros H. apply bind_inv in H as ([] & st1 & Hst & H).
  assert (Hwf0 : rx_wf (set_hw_in tape st)) by (constructor; assumption).
  apply (rx_slot_store_spec _ _ _ _ _ _ Hwf0 Hr) in Hst
    as (b & e & -> & Hlb & Hle & Hnew & Hold).
  rewrite modify_eq in H. injection H as <-.
  assert (Hidx : rx_index ((rx_buffer_head st + 1) mod rx_buffer_total_size_ st)
                 = (rx_buffer_head st + 1) mod rx_buffer_total_size_ st)
    by (apply index_wrap_small; lia).
  rewrite Hidx in *.
  split; [constructor; fsimpl; rewrite ?Hle; (assumption || lia) |].
  split; [exact Hfit |]. split; [exact Hpart |].
  unfold rx_pending, rx_slot. fsimpl. apply ring_units_push; assumption.
Qed.

(** serial_getchar takes the oldest pending unit. *)
Lemma serial_getchar_queue (st : state) :
  rx_wf st → rx_fits st →
  ∃ c st', serial_getchar st = Done c st'
           ∧ rx_wf st' ∧ rx_fits st'
           ∧ tx_ring_same st st'
           ∧ if rx_buffer_head st =? rx_buffer_tail st
             then c = -1 ∧ st' = st ∧ rx_pending st = []
             else rx_pending st = c :: rx_pending st'.
Proof.
  intros Hwf Hfit. pose proof Hwf as [Hs Hb Ht Hc Hh Htl Hhi Hti].
  destruct (Z.eqb_spec (rx_buffer_head st) (rx_buffer_tail st)) as [E|Hne].
  - exists (-1), st. rewrite serial_getchar_empty by exact E.
    split; [reflexivity |]. split; [exact Hwf |]. split; [exact Hfit |].
    split; [repeat split |].
    unfold rx_pending. rewrite E, ring_units_empty by lia. repeat split.
  - destruct (serial_getchar_pop st Hwf Hne)
      as (c & st' & Hslot & Hrun & Et & Eh & En & Eb & Es & Htx & _).
    exists c, st'. split; [exact Hrun |].
    assert (Hr : 0 ≤ (rx_buffer_tail st + 1) mod rx_buffer_total_size_ st
                 < rx_buffer_total_size_ st) by (apply Z.mod_pos_bound; lia).
    unfold rx_fits in Hfit.
    assert (Et' : rx_buffer_tail st'
                  = (rx_buffer_tail st + 1) mod rx_buffer_total_size_ st).
    { rewrite Et. apply index_wrap_small. lia. }
    split; [unfold rx_wf; rewrite Et', Eh, En, Eb, Es;
            constructor; (assumption || lia) |].
    split; [unfold rx_fits; rewrite En; exact Hfit |].
    split; [exact Htx |].
    unfold rx_pending, rx_slot in *. rewrite Et', Eh, En, Eb, Es.
    rewrite (ring_units_pop _ _ _ (rx_buffer_tail st)) by assumption.
    rewrite Hslot. reflexivity.
Qed.

Lemma rx_same_pending (st st' : state) :
  rx_ring_same st st' → rx_pending st' = rx_pending st.
Proof.
  intros (Eh & Et & En & Eb & Es). unfold rx_pending, rx_slot.
  rewrite Eh, Et, En, Eb, Es. reflexivity.
Qed.

Lemma rx_same_wf (st st' : state) :
  rx_ring_same st st' → rx_wf st → rx_fits st → rx_wf st' ∧ rx_fits st'.
Proof.
  intros (Eh & Et & En & Eb & Es). unfold rx_wf, rx_fits.
  rewrite Eh, Et, En, Eb, Es. auto.
Qed.

(** ** The FIFO law, within the range of the index type *)

(** The stream invariant of the TX side along a schedule. *)
Lemma tx_run_stream (ops : list tx_op) :
  ∀ (st st' : state),
    tx_wf st → tx_fits st → 1 < tx_buffer_total_size_ st →
    ¬ clock_gated st →
    tx_run ops st = Done tt st' →
    tx_wf st' ∧ tx_fits st'
    ∧ tx_stream st' = tx_stream st ++ puts ops.
Proof.
  induction ops as [|[c|] ops IH]; intros st st' Hwf Hfit Htot Hen H; simpl in H.
  - injection H as <-. rewrite app_nil_r. auto.
  - apply bind_inv in H as ([] & st1 & Hput & H).
    apply serial_putchar_stream in Hput
      as (Hwf1 & Hfit1 & Et1 & Eg1 & Es1); try assumption.
    apply IH in H as (Hwf' & Hfit' & Es'); try assumption.
    + split; [exact Hwf' |]. split; [exact Hfit' |].
      rewrite Es', Es1. simpl. rewrite <- app_assoc. reflexivity.
    + lia.
    + unfold clock_gated in *. rewrite Eg1. exact Hen.
  - apply bind_inv in H as ([] & st1 & Hirq & H).
    apply uart0_status_isr_kept in Hirq
      as (Hwf1 & Hfit1 & Es1 & _ & Et1 & _ & _ & Eg1); try assumption.
    apply IH in H as (Hwf' & Hfit' & Es'); try assumption.
    + split; [exact Hwf' |]. split; [exact Hfit' |].
      rewrite Es', Es1. reflexivity.
    + lia.
    + unfold clock_gated in *. rewrite Eg1. exact Hen.
Qed.

(** X1. TX ring. Along every schedule of serial_putchar calls and handler
    runs that completes, on an enabled peripheral whose TX capacity fits the
    index type, the bytes written to the data register followed by the pending
    units are the stream at the start followed by the bytes put, in order:
    nothing is lost, duplicated or reordered, also when serial_putchar had to
    wait for room. *)
Theorem tx_fifo_law (ops : list tx_op) (st st' : state) :
  tx_wf st → tx_fits st → 1 < tx_buffer_total_size_ st →
  ¬ clock_gated st →
  tx_run ops st = Done tt st' →
  tx_wf st' ∧ tx_fits st'
  ∧ tx_stream st' = tx_stream st ++ puts ops.
Proof. exact (tx_run_stream ops st st'). Qed.

(** When the TX ring is empty before and after the schedule, the data
    register has received exactly the bytes put, in the order of the calls. *)
Corollary tx_fifo_drained (ops : list tx_op) (st st' : state) :
  tx_wf st → tx_fits st → 1 < tx_buffer_total_size_ st →
  ¬ clock_gated st →
  tx_buffer_head st = tx_buffer_tail st →
  tx_run ops st = Done tt st' →
  tx_buffer_head st' = tx_buffer_tail st' →
  UART0_D_wr st' = UART0_D_wr st ++ puts ops.
Proof.
  intros Hwf Hfit Htot Hen He H He'.
  destruct (tx_run_stream ops st st' Hwf Hfit Htot Hen H) as (Hwf' & _ & Hs).
  unfold tx_stream, tx_pending in Hs. rewrite He, He' in Hs.
  rewrite !ring_units_empty in Hs
    by (eapply wf_total; eassumption).
  simpl in Hs. rewrite !app_nil_r in Hs. exact Hs.
Qed.

End ReceiveQueue.

Section FifoReceive.
Context `{cfg : Config}.

(** ** The receive part with FIFO *)

Lemma rx_stored_part (st st' : state) : rx_stored st st' → rx_part st st'.
Proof.
  intros (b & e & tape & ->). destruct st. eexists _, _, _, _, _, _.
  funfold. reflexivity.
Qed.

Lemma rx_stored_trans (st1 st2 st3 : state) :
  rx_stored st1 st2 → rx_stored st2 st3 → rx_stored st1 st3.
Proof.
  intros (b & e & t & ->) (b' & e' & t' & ->). destruct st1.
  eexists _, _, _. funfold. reflexivity.
Qed.

Lemma rx_stored_read (st : state) (tape : list Z) :
  rx_stored st (set_hw_in tape st).
Proof. destruct st. eexists _, _, _. funfold. reflexivity. Qed.

Lemma isr_rx_drain_push (tail : Z) (fuel : nat) :
  ∀ (avail head head' : Z) (st st' : state),
    ring_wf SERIAL1_RX_BUFFER_SIZE (rx_buffer_total_size_ st) head tail
            (rx_buffer st) (rx_buffer_storage_ st) →
    rx_fits st →
    isr_rx_drain fuel avail head tail st = Done head' st' →
    rx_stored st st'
    ∧ ring_wf SERIAL1_RX_BUFFER_SIZE (rx_buffer_total_size_ st) head' tail
              (rx_buffer st') (rx_buffer_storage_ st')
    ∧ ring_units (rx_slot st') (rx_buffer_total_size_ st) head' tail
      = ring_units (rx_slot st) (rx_buffer_total_size_ st) head tail
        ++ drain_accepted fuel (use9Bits st) avail
             (rx_buffer_total_size_ st - 1
              - (head - tail) mod rx_buffer_total_size_ st)
             (hw_in st).
Proof.
  induction fuel as [|fuel IH]; intros avail head head' st st' Hwf Hfit H;
    [discriminate |].
  pose proof Hwf as [Hs Hb Ht Hc Hh Htl Hhi Hti].
  pose proof Hfit as Hfit'. unfold rx_fits in Hfit'.
  simpl in H. rewrite bind_unfold, receive_unit_take in H.
  cbn [drain_accepted].
  destruct (take_unit (use9Bits st) (hw_in st)) as [[n tape1]|]; [| discriminate].
  revert H. mexec.
  assert (Hadv : advance (rx_buffer_total_size_ st) head
                 = (head + 1) mod rx_buffer_total_size_ st)
    by (apply advance_spec; lia).
  assert (Hr : 0 ≤ (head + 1) mod rx_buffer_total_size_ st
               < rx_buffer_total_size_ st) by (apply Z.mod_pos_bound; lia).
  rewrite Hadv, room_test by assumption.
  set (st1 := set_hw_in tape1 st).
  destruct (Z.eqb_spec ((head + 1) mod rx_buffer_total_size_ st) tail)
    as [E|Hne]; cbn [negb].
  - rewrite bind_mret. destruct (u8 (avail - 1) >? 0).
    + intros H. apply (IH _ _ _ st1) in H; [| exact Hwf | exact Hfit].
      destruct H as (Hst & Hwf' & Hu).
      split; [eapply rx_stored_trans; [apply rx_stored_read | exact Hst] |].
      split; [exact Hwf' |]. exact Hu.
    + rewrite mret_eq. intros [= <- <-].
      split; [apply rx_stored_read |]. split; [exact Hwf |].
      rewrite app_nil_r. reflexivity.
  - rewrite bind_assoc. intros H.
    apply bind_inv in H as ([] & st2 & Hst & H).
    assert (Hwf1 : ring_wf SERIAL1_RX_BUFFER_SIZE (rx_buffer_total_size_ st1)
                           head tail (rx_buffer st1) (rx_buffer_storage_ st1))
      by exact Hwf.
    apply (rx_slot_store_spec _ _ _ _ _ _ Hwf1 Hr) in Hst
      as (b & e & -> & Hlb & Hle & Hnew & Hold).
    rewrite bind_mret in H.
    set (st2 := set_rx_buffer b (set_rx_buffer_storage_ e st1)) in *.
    assert (Hst2 : rx_stored st st2).
    { unfold st2, st1. destruct st. eexists _, _, _. funfold. reflexivity. }
    assert (Hwf2 : ring_wf SERIAL1_RX_BUFFER_SIZE (rx_buffer_total_size_ st2)
                           ((head + 1) mod rx_buffer_total_size_ st) tail
                           (rx_buffer st2) (rx_buffer_storage_ st2)).
    { constructor; unfold st2, st1; fsimpl; rewrite ?Hle; (assumption || lia). }
    assert (Hu2 : ring_units (rx_slot st2) (rx_buffer_total_size_ st)
                             ((head + 1) mod rx_buffer_total_size_ st) tail
                  = ring_units (rx_slot st) (rx_buffer_total_size_ st) head tail
                    ++ [BUFTYPE n]).
    { unfold rx_slot, st2. fsimpl. apply ring_units_push; assumption. }
    assert (Hroom : rx_buffer_total_size_ st - 1
                    - ((head + 1) mod rx_buffer_total_size_ st - tail)
                      mod rx_buffer_total_size_ st
                    = rx_buffer_total_size_ st - 1
                      - (head - tail) mod rx_buffer_total_size_ st - 1).
    { rewrite mod_step_up by assumption. lia. }
    destruct (u8 (avail - 1) >? 0).
    + apply (IH _ _ _ st2) in H; [| exact Hwf2 | exact Hfit].
      destruct H as (Hst' & Hwf' & Hu).
      split; [eapply rx_stored_trans; eassumption |].
      split; [exact Hwf' |].
      change (rx_buffer_total_size_ st2) with (rx_buffer_total_size_ st) in Hu.
      change (use9Bits st2) with (use9Bits st) in Hu.
      change (hw_in st2) with tape1 in Hu.
      rewrite Hu, Hu2, Hroom, <- app_assoc. reflexivity.
    + rewrite mret_eq in H. injection H as <- <-.
      split; [exact Hst2 |]. split; [exact Hwf2 |]. exact Hu2.
Qed.

(** One run of the receive part of the FIFO handler: the pending units grow
    by what [rx_accepted] names, and, when units were drained and an RTS pin
    is configured, RTS is driven high exactly when the resulting occupancy has
    reached the high watermark; it is never driven low. *)
Lemma isr_receive_fifo_push (st st' : state) :
  HAS_KINETISK_UART0_FIFO = true →
  rx_wf st → rx_fits st →
  isr_receive_fifo st = Done tt st' →
  rx_wf st' ∧ rx_fits st'
  ∧ rx_part st st'
  ∧ rx_pending st' = rx_pending st ++ rx_accepted st
  ∧ gpio st'
    = match hw_in st, rts_pin st with
      | s1 :: av :: _, Some pin =>
          if nz (Z.land (u8 s1) (Z.lor UART_S1_RDRF UART_S1_IDLE))
             && negb (u8 av =? 0)
             && (rts_high_watermark_ st
                 <=? (rx_buffer_head st' - rx_buffer_tail st')
                     mod rx_buffer_total_size_ st')
          then <[pin := true]> (gpio st)
          else gpio st
      | _, _ => gpio st
      end.
Proof.
  intros Hfifo Hwf Hfit H. pose proof Hwf as [Hs Hb Ht Hc Hh Htl Hhi Hti].
  pose proof Hfit as Hfit'. unfold rx_fits in Hfit'.
  pose proof (isr_receive_fifo_frame _ _ H) as Hpart.
  unfold isr_receive_fifo in H. unfold rx_accepted. rewrite Hfifo.
  apply hw_read8_inv in H as (s1 & rest & Etape & H). rewrite Etape.
  assert (Hquiet : ∀ tape1,
             rx_wf (set_hw_in tape1 st) ∧ rx_fits (set_hw_in tape1 st)
             ∧ rx_part st st'
             ∧ rx_pending (set_hw_in tape1 st) = rx_pending st ++ []).
  { intros tape1. rewrite app_nil_r. split; [constructor; assumption |].
    split; [exact Hfit |]. split; [exact Hpart |]. reflexivity. }
  destruct (nz (Z.land (u8 s1) (Z.lor UART_S1_RDRF UART_S1_IDLE)));
    unfold when at 1 in H; cbn [andb].
  2:{ injection H as <-. destruct (Hquiet rest) as (? & ? & ? & ?).
      repeat (split; [assumption |]).
      destruct rest; destruct (rts_pin st); reflexivity. }
  apply hw_read8_inv in H as (av & rest2 & Etape2 & H).
  fsimpl_in Etape2. subst rest. rewrite set_hw_in_twice in H.
  destruct (Z.eqb_spec (u8 av) 0) as [E0|Hav]; cbn [negb andb].
  { apply hw_read8_inv in H as (d & rest3 & Etape3 & H).
    rewrite set_hw_in_twice in H. unfold write_UART0_CFIFO in H.
    rewrite modify_eq in H. injection H as <-.
    split; [constructor; assumption |]. split; [exact Hfit |].
    split; [exact Hpart |]. split; [rewrite app_nil_r; reflexivity |].
    destruct (rts_pin st); reflexivity. }
  revert H. mexec. intros H.
  apply bind_inv in H as (head' & st1 & Hdrain & H).
  assert (Hwf0 : ring_wf SERIAL1_RX_BUFFER_SIZE
                         (rx_buffer_total_size_ (set_hw_in rest2 st))
                         (rx_buffer_head st) (rx_buffer_tail st)
                         (rx_buffer (set_hw_in rest2 st))
                         (rx_buffer_storage_ (set_hw_in rest2 st)))
    by exact Hwf.
  apply (isr_rx_drain_push _ _ _ _ _ _ _ Hwf0 Hfit) in Hdrain
    as (Hst & Hwf1 & Hu).
  fsimpl_in Hwf1. fsimpl_in Hu.
  change (use9Bits (set_hw_in rest2 st)) with (use9Bits st) in Hu.
  change (rx_slot (set_hw_in rest2 st)) with (rx_slot st) in Hu.
  destruct Hst as (b & e & tape & ->). fsimpl_in Hwf1.
  pose proof Hwf1 as [_ Hb1 _ Hc1 Hh1 _ Hhi1 _].
  assert (Hidx : rx_index head' = head') by (apply index_wrap_small; lia).
  revert H. mexec. rewrite Hidx.
  unfold when_set, rts_deassert, pin_write.
  assert (Hfin : ∀ g,
             let st2 := set_gpio g
                          (set_rx_buffer_head head'
                             (set_rx_buffer b
                                (set_rx_buffer_storage_ e
                                   (set_hw_in tape
                                      (set_hw_in rest2 st))))) in
             rx_wf st2 ∧ rx_fits st2
             ∧ rx_pending st2
               = rx_pending st
                 ++ drain_accepted 256 (use9Bits st) (u8 av) (rx_room st) rest2).
  { intros g st2. split; [exact Hwf1 |]. split; [exact Hfit |].
    unfold rx_pending, st2. fsimpl. exact Hu. }
  destruct (rts_pin st) as [pin|]; mexec.
  - rewrite u32_ring_occupied by lia. rewrite Z.geb_leb.
    destruct (rts_high_watermark_ st
              <=? (head' - rx_buffer_tail st) mod rx_buffer_total_size_ st)
      eqn:Ehigh; unfold when; mexec; intros [= <-];
      (destruct (Hfin (gpio st)) as (? & ? & ?) ||
       destruct (Hfin (<[pin := true]> (gpio st))) as (? & ? & ?));
      fsimpl; rewrite ?Ehigh; repeat (split; [assumption |]); reflexivity.
  - intros [= <-]. destruct (Hfin (gpio st)) as (? & ? & ?).
    repeat (split; [assumption |]). reflexivity.
Qed.

End FifoReceive.

Section ReceiveLaw.
Context `{cfg : Config}.

(** One run of the handler, seen from both rings. *)
Lemma uart0_status_isr_push (st st' : state) :
  rx_wf st → rx_fits st → tx_wf st → tx_fits st →
  uart0_status_isr st = Done tt st' →
  rx_wf st' ∧ rx_fits st' ∧ tx_wf st' ∧ tx_fits st'
  ∧ rx_pending st' = rx_pending st ++ rx_accepted st.
Proof.
  intros Hrwf Hrfit Htwf Htfit H.
  pose proof (uart0_status_isr_kept st st' Htwf Htfit H) as (Htwf' & Htfit' & _).
  unfold uart0_status_isr in H.
  apply bind_inv in H as ([] & st1 & Hrx & H).
  assert (Hrx1 : rx_wf st1 ∧ rx_fits st1 ∧ rx_part st st1
                 ∧ rx_pending st1 = rx_pending st ++ rx_accepted st).
  { destruct HAS_KINETISK_UART0_FIFO eqn:Hfifo.
    - destruct (isr_receive_fifo_push st st1 Hfifo Hrwf Hrfit Hrx)
        as (? & ? & ? & ? & _). auto.
    - apply isr_receive_single_push; assumption. }
  destruct Hrx1 as (Hrwf1 & Hrfit1 & Hp1 & Hpend).
  pose proof (tx_kept_same st st1 Htwf Htfit (rx_part_tx_same _ _ Hp1))
    as (Htwf1 & Htfit1 & _).
  rewrite bind_gets in H. apply bind_inv in H as ([] & st2 & Htx & Htc).
  assert (Hp2 : tx_part st1 st2).
  { destruct HAS_KINETISK_UART0_FIFO.
    - apply isr_transmit_fifo_kept in Htx as [_ Hp2]; assumption.
    - apply isr_transmit_single_kept in Htx as [_ Hp2]; assumption. }
  apply isr_transmit_complete_frame in Htc.
  assert (Hsame : rx_ring_same st1 st').
  { eapply rx_ring_same_trans;
      [apply tx_part_rx_same; exact Hp2 | apply tc_part_rx_same; exact Htc]. }
  destruct (rx_same_wf _ _ Hsame Hrwf1 Hrfit1) as [Hrwf' Hrfit'].
  repeat (split; [assumption |]).
  rewrite (rx_same_pending _ _ Hsame). exact Hpend.
Qed.

(** X2. RX ring. Along every schedule of serial_getchar calls and handler
    runs that completes, with the capacities inside the index types, the units
    pending at the start followed by the units the handler pushed are the
    units popped followed by the units pending at the end: serial_getchar
    returns the pushed units in the order of their arrival. *)
Theorem rx_fifo_law (ops : list rx_op) :
  ∀ (st st' : state) (popped pushed : list Z),
    rx_wf st → rx_fits st → tx_wf st → tx_fits st →
    rx_run ops st = Done (popped, pushed) st' →
    rx_pending st ++ pushed = popped ++ rx_pending st'.
Proof.
  induction ops as [|[|] ops IH];
    intros st st' popped pushed Hrwf Hrfit Htwf Htfit H; simpl in H.
  - injection H as <- <- <-. rewrite app_nil_r. reflexivity.
  - rewrite bind_gets in H.
    destruct (serial_getchar_queue st Hrwf Hrfit)
      as (c & st1 & Hget & Hrwf1 & Hrfit1 & Htx & Hq).
    rewrite (bind_done _ _ _ _ _ Hget) in H.
    apply bind_inv in H as ([pop1 push1] & st2 & Hrun & H).
    rewrite mret_eq in H. injection H as <- <- <-. simpl.
    destruct (tx_kept_same st st1 Htwf Htfit Htx) as (Htwf1 & Htfit1 & _).
    apply IH in Hrun; try assumption.
    destruct (rx_buffer_head st =? rx_buffer_tail st).
    + destruct Hq as (_ & -> & _). exact Hrun.
    + rewrite Hq. simpl. f_equal. exact Hrun.
  - rewrite bind_gets in H.
    apply bind_inv in H as ([] & st1 & Hirq & H).
    apply bind_inv in H as ([pop1 push1] & st2 & Hrun & H).
    rewrite mret_eq in H. injection H as <- <- <-. simpl.
    apply uart0_status_isr_push in Hirq
      as (Hrwf1 & Hrfit1 & Htwf1 & Htfit1 & Hpend); try assumption.
    apply IH in Hrun; try assumption.
    rewrite app_assoc, <- Hpend. exact Hrun.
Qed.

(** ** RTS flow control *)

(** What C3 says of serial_getchar: with an RTS pin configured, a
    successful serial_getchar drives RTS low (asserts it) exactly when the
    occupancy after the pop is at most the low watermark, and otherwise leaves
    every pin as it was. *)
Lemma serial_getchar_rts (st : state) (pin : Z) :
  rx_wf st → rx_fits st → rts_pin st = Some pin →
  rx_buffer_head st ≠ rx_buffer_tail st →
  ∃ c st', serial_getchar st = Done c st'
           ∧ gpio st'
             = if (rx_buffer_head st' - rx_buffer_tail st')
                  mod rx_buffer_total_size_ st' <=? rts_low_watermark_ st
               then <[pin := false]> (gpio st)
               else gpio st.
Proof.
  intros Hwf Hfit Hpin Hne.
  destruct (serial_getchar_pop st Hwf Hne)
    as (c & st' & _ & Hrun & Et & Eh & En & _ & _ & _ & Hg).
  exists c, st'. split; [exact Hrun |].
  rewrite Hpin in Hg. rewrite Hg, Eh, En, Et. unfold rx_index.
  rewrite index_wrap_small; [reflexivity |].
  destruct Hwf as [_ _ Ht _ _ _ _ _]. unfold rx_fits in Hfit.
  pose proof (Z.mod_pos_bound (rx_buffer_tail st + 1) (rx_buffer_total_size_ st)
                ltac:(lia)). lia.
Qed.

End ReceiveLaw.

Section TransmitEvents.
Context `{cfg : Config}.

(** ** The transmit side of the handler, event by event *)

Lemma isr_transmit_fifo_masked (c : Z) (st : state) :
  Z.land c UART_C2_TIE = 0 → isr_transmit_fifo c st = Done tt st.
Proof.
  intros Hc. unfold isr_transmit_fifo. apply nz_false in Hc. rewrite Hc.
  reflexivity.
Qed.

(** The state that the receive part leaves differs from the one it found in
    the RX ring, the RTS pin, the log of UART0_CFIFO and the tape only. *)
Lemma receive_part_frame (st st1 : state) :
  (if HAS_KINETISK_UART0_FIFO then isr_receive_fifo else isr_receive_single) st
  = Done tt st1 →
  rx_part st st1.
Proof.
  destruct HAS_KINETISK_UART0_FIFO;
    [apply isr_receive_fifo_frame | apply isr_receive_single_frame].
Qed.

(** The loop of the FIFO variant hands over a front part of the pending
    units, in order, and at least one unit when the ring is not empty. *)
Lemma isr_tx_fill_pops (fuel : nat) :
  ∀ (head tail tail' : Z) (st st' : state),
    tx_wf st →
    0 ≤ head < tx_buffer_total_size_ st →
    0 ≤ tail < tx_buffer_total_size_ st →
    isr_tx_fill fuel head tail st = Done tail' st' →
    ∃ sent used,
      tx_drained st st'
      ∧ 0 ≤ tail' < tx_buffer_total_size_ st
      ∧ ring_units (tx_slot st) (tx_buffer_total_size_ st) head tail
        = sent
          ++ ring_units (tx_slot st) (tx_buffer_total_size_ st) head tail'
      ∧ (tail ≠ head → sent ≠ [])
      ∧ UART0_D_wr st' = UART0_D_wr st ++ map u8 sent
      ∧ hw_in st = used ++ hw_in st'.
Proof.
  induction fuel as [|fuel IH]; intros head tail tail' st st' Hwf Hh Ht H;
    [discriminate |].
  simpl in H. destruct (Z.eqb_spec tail head) as [->|Hne].
  { rewrite mret_eq in H. injection H as <- <-. exists [], [].
    split; [apply tx_drained_refl |]. split; [exact Hh |].
    split; [reflexivity |]. split; [intros E; contradiction |].
    split; [rewrite app_nil_r; reflexivity | reflexivity]. }
  pose proof (wf_total _ _ _ _ _ _ Hwf) as Htot.
  assert (Hadv : advance (tx_buffer_total_size_ st) tail
                 = (tail + 1) mod tx_buffer_total_size_ st)
    by (apply advance_spec; lia).
  assert (Hr : 0 ≤ (tail + 1) mod tx_buffer_total_size_ st
               < tx_buffer_total_size_ st) by (apply Z.mod_pos_bound; lia).
  revert H. mexec. rewrite Hadv. intros H.
  apply hw_read8_inv in H as (s1 & rest & Etape & H).
  rewrite bind_unfold, tx_slot_load_eq in H.
  destruct (tx_slot (set_hw_in rest st) _) as [n|] eqn:Hn; [| discriminate].
  rewrite bind_unfold, transmit_unit_eq in H.
  apply hw_read8_inv in H as (tc & rest2 & Etape2 & H).
  set (st2 := set_hw_in rest2 (transmitted n (set_hw_in rest st))) in *.
  assert (Hdr : tx_drained st st2).
  { eapply tx_drained_trans; [apply tx_drained_read |].
    eapply tx_drained_trans; [apply tx_drained_transmitted |].
    apply tx_drained_read. }
  assert (Hd2 : UART0_D_wr st2 = UART0_D_wr st ++ [u8 n]).
  { unfold st2, transmitted. destruct (nz _); reflexivity. }
  assert (Ht2 : hw_in st = [s1; tc] ++ hw_in st2).
  { rewrite Etape. unfold st2. fsimpl. f_equal.
    unfold transmitted in Etape2. revert Etape2.
    destruct (nz _); fsimpl; intros ->; reflexivity. }
  assert (Hpop : ring_units (tx_slot st) (tx_buffer_total_size_ st) head tail
                 = n :: ring_units (tx_slot st) (tx_buffer_total_size_ st) head
                          ((tail + 1) mod tx_buffer_total_size_ st)).
  { rewrite (ring_units_pop _ _ _ tail) by (assumption || congruence).
    change (tx_slot (set_hw_in rest st)) with (tx_slot st) in Hn.
    rewrite Hn. reflexivity. }
  destruct (u8 tc <? 8).
  - assert (E2 : tx_slot st2 = tx_slot st ∧
                 tx_buffer_total_size_ st2 = tx_buffer_total_size_ st).
    { destruct Hdr as (? & ? & ? & ->). split; reflexivity. }
    destruct E2 as [Es2 Et2'].
    apply IH in H; [| eapply tx_wf_drained; eassumption | rewrite Et2'; lia ..].
    destruct H as (sent & used & Hdr' & Hr' & Hunits & _ & Hd & Hu).
    rewrite Es2, Et2' in *.
    exists (n :: sent), ([s1; tc] ++ used).
    split; [eapply tx_drained_trans; eassumption |]. split; [exact Hr' |].
    split; [rewrite Hpop, Hunits; reflexivity |].
    split; [intros _; discriminate |].
    split; [rewrite Hd, Hd2, <- app_assoc; reflexivity |].
    rewrite Ht2, Hu, <- app_assoc. reflexivity.
  - rewrite mret_eq in H. injection H as <- <-.
    exists [n], [s1; tc].
    split; [exact Hdr |]. split; [exact Hr |].
    split; [rewrite Hpop; reflexivity |].
    split; [intros _; discriminate |].
    split; [exact Hd2 | exact Ht2].
Qed.

(** The state that the transmit-ready part leaves differs from the one it
    found in tail, UART0_C2, UART0_C3, the log of the data register and the
    tape only. *)
Lemma transmit_part_frame (c : Z) (st st' : state) :
  tx_wf st →
  (if HAS_KINETISK_UART0_FIFO then isr_transmit_fifo c
   else isr_transmit_single c) st = Done tt st' →
  tx_part st st'.
Proof.
  intros Hwf H. destruct HAS_KINETISK_UART0_FIFO.
  - unfold isr_transmit_fifo in H.
    destruct (nz (Z.land c UART_C2_TIE)); unfold when at 1 in H.
    2:{ injection H as <-. apply tx_drained_part, tx_drained_refl. }
    apply hw_read8_inv in H as (s1 & rest & Etape & H).
    destruct (nz (Z.land (u8 s1) UART_S1_TDRE)); unfold when at 1 in H.
    2:{ injection H as <-. apply tx_drained_part, tx_drained_read. }
    revert H. mexec. rewrite bind_unfold.
    destruct (isr_tx_fill _ _ _ (set_hw_in rest st)) as [tail' st1| |] eqn:E;
      try discriminate.
    pose proof Hwf as [Hsz Hb Htot Hcov Hh Ht Hhi Hti].
    apply isr_tx_fill_pops in E;
      [| constructor; assumption | fsimpl; assumption ..].
    destruct E as (sent & used & Hdr & _).
    destruct Hdr as (c3 & dwr & tape & ->). mexec. intros H.
    apply hw_read8_inv in H as (s2 & rest2 & Etape2 & H).
    destruct (nz (Z.land (u8 s2) UART_S1_TDRE));
      unfold when, write_UART0_C2 in H;
      rewrite ?modify_eq, ?skip_eq in H; injection H as <-;
      destruct st; eexists _, _, _, _, _; funfold; reflexivity.
  - unfold isr_transmit_single in H.
    destruct (nz (Z.land c UART_C2_TIE)); unfold when at 1 in H.
    2:{ injection H as <-. apply tx_drained_part, tx_drained_refl. }
    apply hw_read8_inv in H as (s1 & rest & Etape & H).
    destruct (nz (Z.land (u8 s1) UART_S1_TDRE)); unfold when at 1 in H.
    2:{ injection H as <-. apply tx_drained_part, tx_drained_read. }
    revert H. mexec.
    destruct (tx_buffer_head st =? tx_buffer_tail st).
    + unfold write_UART0_C2. rewrite modify_eq. intros [= <-].
      destruct st. eexists _, _, _, _, _. funfold. reflexivity.
    + mexec. rewrite bind_unfold, tx_slot_load_eq.
      destruct (tx_slot (set_hw_in rest st) _) as [n|] eqn:Hn; [| discriminate].
      rewrite bind_unfold, transmit_unit_eq, modify_eq. intros [= <-].
      unfold transmitted. destruct (nz _); destruct st;
        eexists _, _, _, _, _; funfold; reflexivity.
Qed.

(** C4, as amended. [st1] is the state that the receive part of the handler
    leaves, whatever it did.
    - Without the hardware FIFO, a transmit-ready event (TIE enabled, TCIE
      not, TDRE set in the next status read [s1]) on a non-empty TX ring pops
      exactly one unit into the data register and leaves the interrupt
      enables as they were, also when this pop empties the ring; on an empty
      ring it writes nothing to the data register and switches the enables to
      C2_TX_COMPLETING.
    - With the hardware FIFO, a transmit-ready event hands a front part of
      the pending units to the data register, in ring order and at least one
      unit when the ring is not empty, and stores the new tail; the status
      register read after that is the last register read of the run, and the
      enables are switched to C2_TX_COMPLETING exactly when it has TDRE set.
      The handler returns when the tape holds two values for every slot of
      the ring and one more.
    - In both builds, on a transmit-complete event (TCIE enabled, TC set in
      the status read that follows the transmit-ready part, which leaves
      [st2] whatever it did) the handler clears transmitting, drives the
      transmit pin low if one is configured, and sets the enables to
      C2_TX_INACTIVE. *)
Theorem tx_interrupt_transitions (st st1 : state) :
  tx_wf st →
  (if HAS_KINETISK_UART0_FIFO then isr_receive_fifo else isr_receive_single) st
  = Done tt st1 →
  (∀ s1 rest,
   hw_in st1 = s1 :: rest →
   HAS_KINETISK_UART0_FIFO = false →
   Z.land (UART0_C2 st) UART_C2_TIE ≠ 0 →
   Z.land (UART0_C2 st) UART_C2_TCIE = 0 →
   Z.land (u8 s1) UART_S1_TDRE ≠ 0 →
   ∃ st', uart0_status_isr st = Done tt st'
          ∧ tx_buffer_head st' = tx_buffer_head st
          ∧ tx_buffer st' = tx_buffer st
          ∧ tx_buffer_storage_ st' = tx_buffer_storage_ st
          ∧ if tx_buffer_head st =? tx_buffer_tail st
            then UART0_C2 st' = u8 C2_TX_COMPLETING
                 ∧ tx_buffer_tail st' = tx_buffer_tail st
                 ∧ UART0_D_wr st' = UART0_D_wr st
            else let tail := advance (tx_buffer_total_size_ st)
                                     (tx_buffer_tail st) in
                 ∃ n, tx_slot st tail = Some n
                      ∧ UART0_D_wr st' = UART0_D_wr st ++ [u8 n]
                      ∧ tx_buffer_tail st' = tx_index tail
                      ∧ UART0_C2 st' = UART0_C2 st)
  ∧ (∀ s1 rest,
     hw_in st1 = s1 :: rest →
     HAS_KINETISK_UART0_FIFO = true →
     Z.land (UART0_C2 st) UART_C2_TIE ≠ 0 →
     Z.land (UART0_C2 st) UART_C2_TCIE = 0 →
     Z.land (u8 s1) UART_S1_TDRE ≠ 0 →
     (∀ st', uart0_status_isr st = Done tt st' →
             tx_buffer_head st' = tx_buffer_head st
             ∧ tx_buffer st' = tx_buffer st
             ∧ tx_buffer_storage_ st' = tx_buffer_storage_ st
             ∧ ∃ sent tail' used s2,
                 0 ≤ tail' < tx_buffer_total_size_ st
                 ∧ tx_pending st
                   = sent ++ ring_units (tx_slot st) (tx_buffer_total_size_ st)
                                        (tx_buffer_head st) tail'
                 ∧ (tx_buffer_head st ≠ tx_buffer_tail st → sent ≠ [])
                 ∧ UART0_D_wr st' = UART0_D_wr st ++ map u8 sent
                 ∧ tx_buffer_tail st' = tx_index tail'
                 ∧ rest = used ++ s2 :: hw_in st'
                 ∧ UART0_C2 st'
                   = if nz (Z.land (u8 s2) UART_S1_TDRE)
                     then u8 C2_TX_COMPLETING else UART0_C2 st)
     ∧ (2 * tx_buffer_total_size_ st + 1 ≤ Z.of_nat (length rest) →
        ∃ st', uart0_status_isr st = Done tt st'))
  ∧ (∀ st2 s2 rest,
     (if HAS_KINETISK_UART0_FIFO then isr_transmit_fifo (UART0_C2 st)
      else isr_transmit_single (UART0_C2 st)) st1 = Done tt st2 →
     hw_in st2 = s2 :: rest →
     Z.land (UART0_C2 st) UART_C2_TCIE ≠ 0 →
     Z.land (u8 s2) UART_S1_TC ≠ 0 →
     ∃ st', uart0_status_isr st = Done tt st'
            ∧ transmitting st' = 0
            ∧ UART0_C2 st' = u8 C2_TX_INACTIVE
            ∧ (∀ p, transmit_pin st = Some p → pin_level st' p = Some false)
            ∧ (transmit_pin st = None → gpio st' = gpio st1)
            ∧ tx_ring_same st2 st').
Proof.
  intros Hwf Hrx.
  pose proof (receive_part_frame _ _ Hrx) as Hp.
  pose proof (rx_part_tx_same _ _ Hp) as Hsame.
  pose proof (tx_wf_same _ _ Hsame Hwf) as Hwf1.
  assert (Ec2 : UART0_C2 st1 = UART0_C2 st)
    by (destruct Hp as (b & e & h & g & cf & t & ->); reflexivity).
  assert (Eslot : tx_slot st1 = tx_slot st)
    by (destruct Hp as (b & e & h & g & cf & t & ->); reflexivity).
  assert (Epin : transmit_pin st1 = transmit_pin st)
    by (destruct Hp as (b & e & h & g & cf & t & ->); reflexivity).
  destruct Hsame as (Eh & Et & En & Eb & Es & Ed & Eg).
  unfold uart0_status_isr. rewrite (bind_done _ _ _ _ _ Hrx), bind_gets, Ec2.
  split; [| split].
  - intros s1 rest Etape Hf Htie Htcie Hs1. rewrite Hf.
    destruct (Z.eqb_spec (tx_buffer_head st) (tx_buffer_tail st)) as [Hht|Hht].
    + rewrite (bind_done _ _ _ _ _
                 (isr_transmit_single_empty _ _ _ _ Htie Etape Hs1
                    ltac:(congruence))).
      rewrite isr_transmit_complete_masked by exact Htcie.
      eexists. split; [reflexivity |]. fsimpl.
      split; [exact Eh |]. split; [exact Eb |]. split; [exact Es |].
      split; [reflexivity |]. split; [exact Et | exact Ed].
    + destruct (slot_is_Some _ _ _ _ _ _
                  (advance (tx_buffer_total_size_ st) (tx_buffer_tail st)) Hwf)
        as [n Hn].
      { destruct Hwf. apply advance_range; lia. }
      assert (Hn1 : tx_slot st1 (advance (tx_buffer_total_size_ st1)
                                         (tx_buffer_tail st1)) = Some n)
        by (rewrite Eslot, En, Et; exact Hn).
      rewrite (bind_done _ _ _ _ _
                 (isr_transmit_single_pop _ _ n _ _ Htie Etape Hs1
                    ltac:(congruence) Hn1)).
      rewrite isr_transmit_complete_masked by exact Htcie.
      eexists. split; [reflexivity |]. unfold transmitted.
      destruct (nz _); fsimpl;
        (split; [exact Eh |]); (split; [exact Eb |]); (split; [exact Es |]);
        exists n; (split; [exact Hn |]);
        (split; [rewrite Ed; reflexivity |]);
        (split; [rewrite En, Et; reflexivity | exact Ec2]).
  - intros s1 rest Etape Hf Htie Htcie Hs1. rewrite Hf. split.
    + intros st' H. apply bind_inv in H as ([] & st2 & Htx & Htc).
      rewrite isr_transmit_complete_masked in Htc by exact Htcie.
      injection Htc as <-.
      unfold isr_transmit_fifo in Htx. pose proof Htie as Htie'.
      apply nz_true in Htie'. rewrite Htie' in Htx. unfold when at 1 in Htx.
      rewrite (bind_hw_read8 _ _ _ _ Etape) in Htx.
      pose proof Hs1 as Hs1'. apply nz_true in Hs1'. rewrite Hs1' in Htx.
      unfold when at 1 in Htx. revert Htx. mexec. rewrite bind_unfold.
      destruct (isr_tx_fill _ _ _ (set_hw_in rest st1)) as [tail' st3| |] eqn:E;
        try discriminate.
      pose proof Hwf1 as [Hsz Hb1 Htot1 Hcov1 Hh1 Ht1 Hhi1 Hti1].
      apply isr_tx_fill_pops in E;
        [| constructor; assumption | fsimpl; assumption ..].
      destruct E as (sent & used & Hdr & Hr & Hunits & Hne & Hd & Hu).
      fsimpl_in Hr. fsimpl_in Hunits. fsimpl_in Hd. fsimpl_in Hu.
      change (tx_slot (set_hw_in rest st1)) with (tx_slot st1) in Hunits.
      destruct Hdr as (c3 & dwr & tape & ->). fsimpl_in Hd. fsimpl_in Hu.
      mexec. intros H.
      apply hw_read8_inv in H as (s2 & rest2 & Etape2 & H).
      fsimpl_in Etape2. subst tape dwr.
      assert (Hres : tx_buffer_head st2 = tx_buffer_head st1
                     ∧ tx_buffer st2 = tx_buffer st1
                     ∧ tx_buffer_storage_ st2 = tx_buffer_storage_ st1
                     ∧ UART0_D_wr st2 = UART0_D_wr st1 ++ map u8 sent
                     ∧ tx_buffer_tail st2 = tx_index tail'
                     ∧ hw_in st2 = rest2
                     ∧ UART0_C2 st2
                       = if nz (Z.land (u8 s2) UART_S1_TDRE)
                         then u8 C2_TX_COMPLETING else UART0_C2 st1).
      { destruct (nz (Z.land (u8 s2) UART_S1_TDRE));
          unfold when, write_UART0_C2 in H;
          rewrite ?modify_eq, ?skip_eq in H; injection H as <-;
          repeat split. }
      destruct Hres as (R1 & R2 & R3 & R4 & R5 & R6 & R7).
      split; [congruence |]. split; [congruence |]. split; [congruence |].
      exists sent, tail', used, s2.
      split; [rewrite <- En; exact Hr |].
      split; [unfold tx_pending; rewrite <- Eslot, <- En, <- Eh, <- Et;
              exact Hunits |].
      split; [intros Hx; apply Hne; congruence |].
      split; [rewrite R4, Ed; reflexivity |].
      split; [exact R5 |].
      split; [rewrite R6; exact Hu |].
      rewrite R7, Ec2. reflexivity.
    + intros Hlen.
      destruct (isr_transmit_fifo_returns (UART0_C2 st) st1 Hwf1)
        as (st2 & Hrun & _).
      { rewrite Etape, En. cbn [length]. lia. }
      rewrite (bind_done _ _ _ _ _ Hrun).
      rewrite isr_transmit_complete_masked by exact Htcie.
      exists st2. reflexivity.
  - intros st2 s2 rest Htx Etape Htcie Hs2.
    rewrite (bind_done _ _ _ _ _ Htx).
    pose proof (transmit_part_frame _ _ _ Hwf1 Htx) as Hp2.
    assert (Epin2 : transmit_pin st2 = transmit_pin st1
                    ∧ gpio st2 = gpio st1)
      by (destruct Hp2 as (t & c2 & c3 & dwr & tape & ->);
          split; reflexivity).
    destruct Epin2 as [Epin2 Eg2].
    destruct (isr_transmit_complete_done (UART0_C2 st) s2 rest st2
                Htcie Etape Hs2)
      as (st' & Hrun & Htr & Hc2 & Hpin & Hnopin & Htx' & _ & _).
    exists st'. split; [exact Hrun |]. split; [exact Htr |].
    split; [exact Hc2 |].
    split; [intros p Hp'; apply Hpin; congruence |].
    split; [intros Hp'; rewrite <- Eg2; apply Hnopin; congruence |].
    exact Htx'.
Qed.

End TransmitEvents.

Section Hexadecimal.
Context `{cfg : Config}.

(** ** Hexadecimal output *)

Lemma putchar_each_app (cs ds : list Z) (st : state) :
  putchar_each (cs ++ ds) st = (putchar_each cs ≫= λ _, putchar_each ds) st.
Proof.
  revert st. induction cs as [|c cs IH]; intros st.
  - reflexivity.
  - cbn [app putchar_each]. rewrite bind_assoc, !bind_unfold.
    destruct (serial_putchar c st) as [[] st1| |]; try reflexivity.
    apply IH.
Qed.

Lemma hex_char_digit (d : Z) :
  0 ≤ d < 16 → hex_char d = if d <? 10 then 48 + d else 55 + d.
Proof.
  intros H.
  assert (Hd : d = 0 ∨ d = 1 ∨ d = 2 ∨ d = 3 ∨ d = 4 ∨ d = 5 ∨ d = 6 ∨ d = 7
               ∨ d = 8 ∨ d = 9 ∨ d = 10 ∨ d = 11 ∨ d = 12 ∨ d = 13
               ∨ d = 14 ∨ d = 15) by lia.
  repeat destruct Hd as [-> | Hd]; try subst d; reflexivity.
Qed.

Lemma hex_value_char (d : Z) : 0 ≤ d < 16 → hex_value (hex_char d) = Some d.
Proof.
  intros H. rewrite (hex_char_digit d H). unfold hex_value.
  destruct (Z.ltb_spec d 10).
  - replace ((48 <=? 48 + d) && (48 + d <=? 57)) with true
      by (symmetry; apply andb_true_iff; split; apply Z.leb_le; lia).
    f_equal. lia.
  - replace ((48 <=? 55 + d) && (55 + d <=? 57)) with false
      by (symmetry; apply andb_false_iff; right; apply Z.leb_gt; lia).
    replace ((65 <=? 55 + d) && (55 + d <=? 70)) with true
      by (symmetry; apply andb_true_iff; split; apply Z.leb_le; lia).
    f_equal. lia.
Qed.

Lemma land_15 (x : Z) : Z.land x 15 = x mod 16.
Proof. change 15 with (Z.ones 4). rewrite Z.land_ones by lia. reflexivity. Qed.

Lemma serial_phex1_digit (n : Z) (st : state) :
  serial_phex1 n st = serial_putchar (hex_char (n mod 16)) st.
Proof.
  unfold serial_phex1. cbv zeta. rewrite land_15.
  assert (E : u32 n mod 16 = n mod 16).
  { unfold u32. apply Z.mod_mod_divide. exists (2 ^ 28). reflexivity. }
  rewrite E.
  assert (H : 0 ≤ n mod 16 < 16) by (apply Z.mod_pos_bound; lia).
  rewrite (hex_char_digit _ H).
  destruct (n mod 16 <? 10); rewrite u32_small by lia;
    f_equal; f_equal; lia.
Qed.

Lemma hex_digits_mod (k : nat) :
  ∀ n : Z, hex_digits k (n mod 16 ^ Z.of_nat k) = hex_digits k n.
Proof.
  induction k as [|k IH]; intros n; [reflexivity |].
  cbn [hex_digits].
  assert (Hp : 0 < 16 ^ Z.of_nat k) by (apply Z.pow_pos_nonneg; lia).
  assert (E : 16 ^ Z.of_nat (S k) = 16 * 16 ^ Z.of_nat k).
  { rewrite Nat2Z.inj_succ, Z.pow_succ_r by lia. reflexivity. }
  rewrite E.
  assert (E1 : (n mod (16 * 16 ^ Z.of_nat k)) mod 16 = n mod 16).
  { apply Z.mod_mod_divide. exists (16 ^ Z.of_nat k). lia. }
  assert (E2 : (n mod (16 * 16 ^ Z.of_nat k)) / 16
               = (n / 16) mod 16 ^ Z.of_nat k).
  { rewrite Z.rem_mul_r by lia.
    replace (n mod 16 + 16 * ((n / 16) mod 16 ^ Z.of_nat k))
      with ((n / 16) mod 16 ^ Z.of_nat k * 16 + n mod 16) by lia.
    rewrite Z.div_add_l by lia.
    rewrite (Z.div_small (n mod 16)) by (apply Z.mod_pos_bound; lia). lia. }
  rewrite E1, E2, IH. reflexivity.
Qed.

Lemma hex_digits_app (b : nat) :
  ∀ (a : nat) (n : Z),
    hex_digits (a + b) n = hex_digits a (n / 16 ^ Z.of_nat b) ++ hex_digits b n.
Proof.
  induction b as [|b IH]; intros a n.
  - rewrite Nat.add_0_r, app_nil_r. change (16 ^ Z.of_nat 0) with 1.
    rewrite Z.div_1_r. reflexivity.
  - rewrite Nat.add_succ_r. cbn [hex_digits]. rewrite IH, app_assoc.
    rewrite Nat2Z.inj_succ, Z.pow_succ_r by lia.
    rewrite Z.div_div by (try apply Z.pow_pos_nonneg; lia).
    reflexivity.
Qed.

Lemma serial_phex_digits (n : Z) (st : state) :
  serial_phex n st = putchar_each (hex_digits 2 n) st.
Proof.
  unfold serial_phex. cbv zeta. cbn [hex_digits app putchar_each].
  rewrite bind_unfold, serial_phex1_digit.
  assert (E0 : u32 n mod 16 = n mod 16).
  { unfold u32. apply Z.mod_mod_divide. exists (2 ^ 28). reflexivity. }
  assert (E1 : Z.shiftr (u32 n) 4 mod 16 = (n / 16) mod 16).
  { rewrite Z.shiftr_div_pow2 by lia. change (2 ^ 4) with 16.
    unfold u32. change (2 ^ 32) with (16 * 2 ^ 28).
    rewrite Z.rem_mul_r by lia.
    replace (n mod 16 + 16 * ((n / 16) mod 2 ^ 28))
      with ((n / 16) mod 2 ^ 28 * 16 + n mod 16) by lia.
    rewrite Z.div_add_l by lia.
    rewrite (Z.div_small (n mod 16)) by (apply Z.mod_pos_bound; lia).
    rewrite Z.add_0_r. apply Z.mod_mod_divide.
    exists (2 ^ 24). reflexivity. }
  rewrite E1, bind_unfold.
  destruct (serial_putchar (hex_char ((n / 16) mod 16)) st) as [[] st1| |];
    try reflexivity.
  rewrite serial_phex1_digit, E0, bind_unfold.
  destruct (serial_putchar (hex_char (n mod 16)) st1) as [[] st2| |];
    reflexivity.
Qed.

Lemma serial_phex_shift (sh : Z) (k : nat) (n : Z) (st : state) :
  sh = 4 * Z.of_nat k →
  serial_phex (Z.shiftr n sh) st
  = putchar_each (hex_digits 2 (n / 16 ^ Z.of_nat k)) st.
Proof.
  intros ->. rewrite serial_phex_digits, Z.shiftr_div_pow2 by lia.
  replace (2 ^ (4 * Z.of_nat k)) with (16 ^ Z.of_nat k); [reflexivity |].
  change 16 with (2 ^ 4). rewrite <- Z.pow_mul_r by lia. reflexivity.
Qed.

Lemma unhex_snoc (cs : list Z) (c : Z) :
  unhex (cs ++ [c])
  = match unhex cs, hex_value c with
    | Some a, Some d => Some (16 * a + d)
    | _, _ => None
    end.
Proof.
  unfold unhex. rewrite foldl_app. cbn [foldl].
  destruct (foldl _ (Some 0) cs); [|reflexivity].
  cbn. destruct (hex_value c); reflexivity.
Qed.

Lemma unhex_hex_digits (k : nat) :
  ∀ n : Z, unhex (hex_digits k n) = Some (n mod 16 ^ Z.of_nat k).
Proof.
  induction k as [|k IH]; intros n.
  - cbn. rewrite Z.mod_1_r. reflexivity.
  - cbn [hex_digits]. rewrite unhex_snoc, IH.
    rewrite hex_value_char by (apply Z.mod_pos_bound; lia).
    f_equal. rewrite Nat2Z.inj_succ, Z.pow_succ_r by lia.
    rewrite Z.rem_mul_r by (try apply Z.pow_nonzero; lia). lia.
Qed.

(** X10. serial_phex, serial_phex16 and serial_phex32 hand to serial_putchar the
    two, four and eight low hexadecimal digits of their argument, the most
    significant first, in the characters 0 to 9 and A to F; read back as a
    hexadecimal number, the eight characters of serial_phex32 give the
    argument as a 32-bit value. *)
Theorem serial_phex_hexadecimal (n : Z) (st : state) :
  serial_phex n st = putchar_each (hex_digits 2 n) st
  ∧ serial_phex16 n st = putchar_each (hex_digits 4 n) st
  ∧ serial_phex32 n st = putchar_each (hex_digits 8 n) st
  ∧ length (hex_digits 8 n) = 8%nat
  ∧ unhex (hex_digits 8 n) = Some (u32 n).
Proof.
  assert (Hu : ∀ k, (k ≤ 8)%nat → hex_digits k (u32 n) = hex_digits k n).
  { intros k Hk. rewrite <- (hex_digits_mod k (u32 n)), <- (hex_digits_mod k n).
    f_equal. unfold u32. apply Z.mod_mod_divide.
    exists (16 ^ (8 - Z.of_nat k)). rewrite <- Z.pow_add_r by lia.
    replace (8 - Z.of_nat k + Z.of_nat k) with 8 by lia. reflexivity. }
  split; [apply serial_phex_digits |].
  split; [| split; [| split]].
  - unfold serial_phex16. cbv zeta.
    rewrite <- (Hu 4%nat) by lia.
    change (hex_digits 4 (u32 n)) with (hex_digits (2 + 2) (u32 n)).
    rewrite (hex_digits_app 2 2 (u32 n)), putchar_each_app.
    rewrite bind_unfold, (serial_phex_shift 8 2 (u32 n) st eq_refl).
    rewrite (bind_unfold (putchar_each _)).
    destruct (putchar_each _ st) as [[] st1| |]; try reflexivity.
    apply serial_phex_digits.
  - unfold serial_phex32. cbv zeta.
    rewrite <- (Hu 8%nat) by lia.
    change (hex_digits 8 (u32 n)) with (hex_digits (2 + 6) (u32 n)).
    rewrite (hex_digits_app 6 2 (u32 n)).
    change (hex_digits 6 (u32 n)) with (hex_digits (2 + 4) (u32 n)).
    rewrite (hex_digits_app 4 2 (u32 n)).
    change (hex_digits 4 (u32 n)) with (hex_digits (2 + 2) (u32 n)).
    rewrite (hex_digits_app 2 2 (u32 n)).
    rewrite putchar_each_app.
    rewrite bind_unfold, (serial_phex_shift 24 6 (u32 n) st eq_refl).
    rewrite (bind_unfold (putchar_each _)).
    destruct (putchar_each _ st) as [[] st1| |]; try reflexivity.
    rewrite putchar_each_app.
    rewrite bind_unfold, (serial_phex_shift 16 4 (u32 n) st1 eq_refl).
    rewrite (bind_unfold (putchar_each _)).
    destruct (putchar_each _ st1) as [[] st2| |]; try reflexivity.
    rewrite putchar_each_app.
    rewrite bind_unfold, (serial_phex_shift 8 2 (u32 n) st2 eq_refl).
    rewrite (bind_unfold (putchar_each _)).
    destruct (putchar_each _ st2) as [[] st3| |]; try reflexivity.
    apply serial_phex_digits.
  - clear. generalize 8%nat. intros k. revert n.
    induction k as [|k IH]; intros n; [reflexivity |].
    cbn [hex_digits]. rewrite length_app, IH. cbn. lia.
  - rewrite unhex_hex_digits. reflexivity.
Qed.

End Hexadecimal.

Section Reading.
Context `{cfg : Config}.

(** ** serial_peek and reading until the ring is empty *)

Lemma ring_occupied_mod (total head tail : Z) :
  0 ≤ head < total → 0 ≤ tail < total → total ≤ 2 ^ 31 →
  ring_occupied total head tail = (head - tail) mod total.
Proof.
  intros Hh Ht Hn. unfold ring_occupied. rewrite mod_wrap_down by lia.
  destruct (Z.geb_spec head tail); apply int32_small; lia.
Qed.

Lemma ring_units_length (sl : Z → option Z) (total head tail : Z) :
  length (ring_units sl total head tail)
  = Z.to_nat ((head - tail) mod total).
Proof.
  unfold ring_units, ring_positions. rewrite !length_map, length_seq.
  reflexivity.
Qed.

Lemma serial_available_pending (st : state) :
  rx_wf st → rx_buffer_total_size_ st ≤ 2 ^ 31 →
  serial_available st = Done (Z.of_nat (length (rx_pending st))) st.
Proof.
  intros [Hs Hb Ht Hc Hh Htl Hhi Hti] Hn. unfold serial_available. mexec.
  rewrite ring_occupied_mod by lia.
  unfold rx_pending. rewrite ring_units_length, Z2Nat.id; [reflexivity |].
  apply Z.mod_pos_bound. lia.
Qed.

(** X8. serial_peek returns what the next serial_getchar returns and changes
    nothing: not the tail, not the RTS pin.  On an empty ring both return -1;
    otherwise both return the unit in the slot after tail. *)
Theorem serial_peek_next_getchar (st : state) :
  rx_wf st →
  ∃ c st', serial_peek st = Done c st
           ∧ serial_getchar st = Done c st'
           ∧ if rx_buffer_head st =? rx_buffer_tail st
             then c = -1 ∧ st' = st
             else rx_slot st ((rx_buffer_tail st + 1)
                              mod rx_buffer_total_size_ st) = Some c.
Proof.
  intros Hwf. pose proof Hwf as [Hs Hb Ht Hc Hh Htl Hhi Hti].
  destruct (Z.eqb_spec (rx_buffer_head st) (rx_buffer_tail st)) as [E|Hne].
  - exists (-1), st. rewrite serial_getchar_empty by exact E.
    unfold serial_peek. mexec. rewrite E, Z.eqb_refl. repeat split.
  - destruct (serial_getchar_pop st Hwf Hne) as (c & st' & Hslot & Hrun & _).
    exists c, st'. unfold serial_peek. mexec.
    destruct (Z.eqb_spec (rx_buffer_head st) (rx_buffer_tail st));
      [contradiction |].
    mexec. rewrite advance_spec by lia.
    rewrite rx_slot_load_eq, Hslot. repeat split; assumption.
Qed.

Lemma getchar_each_pending (n : nat) :
  ∀ st : state,
    rx_wf st → rx_fits st → length (rx_pending st) = n →
    ∃ st', getchar_each n st = Done (rx_pending st) st'
           ∧ rx_wf st'
           ∧ rx_buffer_head st' = rx_buffer_tail st'
           ∧ rx_buffer_total_size_ st' = rx_buffer_total_size_ st.
Proof.
  induction n as [|n IH]; intros st Hwf Hfit Hlen.
  - exists st. pose proof Hwf as [Hs Hb Ht Hc Hh Htl Hhi Hti].
    apply nil_length_inv in Hlen as Hnil. rewrite Hnil.
    split; [reflexivity |]. split; [exact Hwf |]. split; [| reflexivity].
    unfold rx_pending in Hlen. rewrite ring_units_length in Hlen.
    apply (mod_zero_iff (rx_buffer_total_size_ st)); try lia.
    pose proof (Z.mod_pos_bound (rx_buffer_head st - rx_buffer_tail st)
                  (rx_buffer_total_size_ st) ltac:(lia)). lia.
  - pose proof Hwf as [Hs Hb Ht Hc Hh Htl Hhi Hti].
    assert (Hne : rx_buffer_head st ≠ rx_buffer_tail st).
    { intros E. unfold rx_pending in Hlen.
      rewrite E, ring_units_empty in Hlen by lia. discriminate. }
    destruct (serial_getchar_queue st Hwf Hfit)
      as (c & st1 & Hrun & Hwf1 & Hfit1 & _ & Hq).
    destruct (Z.eqb_spec (rx_buffer_head st) (rx_buffer_tail st));
      [contradiction |].
    destruct (serial_getchar_pop st Hwf Hne)
      as (c' & st1' & _ & Hrun' & _ & _ & En & _).
    rewrite Hrun in Hrun'. injection Hrun' as <- <-.
    destruct (IH st1 Hwf1 Hfit1) as (st' & Hrest & Hwf' & He & En').
    { rewrite Hq in Hlen. cbn [length] in Hlen. lia. }
    exists st'. cbn [getchar_each].
    rewrite (bind_done _ _ _ _ _ Hrun), (bind_done _ _ _ _ _ Hrest), Hq.
    split; [reflexivity |]. split; [exact Hwf' |]. split; [exact He |].
    rewrite En', En. reflexivity.
Qed.

(** X9. If serial_available returns n, then n calls of serial_getchar return the n
    pending units, oldest first, none of them being -1 for lack of data;
    after them serial_available returns 0 and serial_getchar returns -1. *)
Theorem getchar_drains_available (st : state) :
  rx_wf st → rx_fits st → rx_buffer_total_size_ st ≤ 2 ^ 31 →
  ∃ st', serial_available st = Done (Z.of_nat (length (rx_pending st))) st
         ∧ getchar_each (length (rx_pending st)) st
           = Done (rx_pending st) st'
         ∧ serial_available st' = Done 0 st'
         ∧ serial_getchar st' = Done (-1) st'.
Proof.
  intros Hwf Hfit Hn.
  destruct (getchar_each_pending _ st Hwf Hfit eq_refl)
    as (st' & Hrun & Hwf' & He & En).
  exists st'. split; [apply serial_available_pending; assumption |].
  split; [exact Hrun |].
  split; [| apply serial_getchar_empty; exact He].
  rewrite serial_available_pending by (try rewrite En; assumption).
  unfold rx_pending. destruct Hwf' as [_ _ Ht _ _ _ _ _].
  rewrite He, ring_units_empty by lia. reflexivity.
Qed.

End Reading.

Section Flush.
Context `{cfg : Config}.

(** ** Waiting for the transmitter: serial_flush, serial_set_transmit_pin *)

Lemma isr_transmit_complete_cases (c : Z) (st st' : state) :
  isr_transmit_complete c st = Done tt st' →
  transmitting st' = transmitting st ∨ tx_finished st st'.
Proof.
  intros H. unfold isr_transmit_complete in H.
  destruct (nz (Z.land c UART_C2_TCIE)) eqn:Hc; unfold when at 1 in H.
  2:{ injection H as <-. left. reflexivity. }
  pose proof H as H0.
  apply hw_read8_inv in H as (s1 & rest & Etape & H).
  destruct (nz (Z.land (u8 s1) UART_S1_TC)) eqn:Hs; unfold when at 1 in H.
  2:{ injection H as <-. left. reflexivity. }
  right. apply nz_true in Hc, Hs.
  destruct (isr_transmit_complete_done c s1 rest st Hc Etape Hs)
    as (st2 & Hrun & Htr & Hc2 & Hpin & _).
  unfold isr_transmit_complete in Hrun. apply nz_true in Hc.
  rewrite Hc in Hrun. unfold when at 1 in Hrun.
  rewrite Hrun in H0. injection H0 as <-.
  split; [exact Htr |]. split; [exact Hc2 | exact Hpin].
Qed.

Lemma rx_part_tx_flags (st st' : state) :
  rx_part st st' →
  transmitting st' = transmitting st ∧ transmit_pin st' = transmit_pin st.
Proof. intros (b & e & h & g & cf & t & ->). split; reflexivity. Qed.

Lemma tx_part_tx_flags (st st' : state) :
  tx_part st st' →
  transmitting st' = transmitting st ∧ transmit_pin st' = transmit_pin st.
Proof. intros (t & c2 & c3 & dwr & tape & ->). split; reflexivity. Qed.

Lemma tc_part_pin (st st' : state) :
  tc_part st st' → transmit_pin st' = transmit_pin st.
Proof. intros (tr & g & c2 & c3 & tape & ->). reflexivity. Qed.

(** One run of the handler either leaves the transmitting flag alone or
    finishes the transmission. *)
Lemma uart0_status_isr_transmitting (st st' : state) :
  tx_wf st → tx_fits st →
  uart0_status_isr st = Done tt st' →
  transmit_pin st' = transmit_pin st
  ∧ (transmitting st' = transmitting st ∨ tx_finished st st').
Proof.
  intros Hwf Hfit H. unfold uart0_status_isr in H.
  apply bind_inv in H as ([] & st1 & Hrx & H).
  assert (Hp : rx_part st st1).
  { destruct HAS_KINETISK_UART0_FIFO;
      [apply isr_receive_fifo_frame | apply isr_receive_single_frame];
      exact Hrx. }
  pose proof (tx_kept_same st st1 Hwf Hfit (rx_part_tx_same _ _ Hp))
    as (Hwf1 & Hfit1 & _).
  apply rx_part_tx_flags in Hp as [Etr1 Epin1].
  rewrite bind_gets in H. apply bind_inv in H as ([] & st2 & Htx & Htc).
  assert (Hp2 : tx_part st1 st2).
  { destruct HAS_KINETISK_UART0_FIFO;
      [eapply isr_transmit_fifo_kept | eapply isr_transmit_single_kept];
      eassumption. }
  apply tx_part_tx_flags in Hp2 as [Etr2 Epin2].
  pose proof (tc_part_pin _ _ (isr_transmit_complete_frame _ _ _ Htc)) as Epin3.
  split; [congruence |].
  apply isr_transmit_complete_cases in Htc as [E | (Htr & Hc2 & Hpin)].
  - left. congruence.
  - right. split; [exact Htr |]. split; [exact Hc2 |].
    intros p Hp. apply Hpin. congruence.
Qed.

Lemma wait_idle_done (fuel : nat) (body : M unit) (st st' : state) :
  transmitting st = 0 → wait_idle fuel body st = Done tt st' → st' = st.
Proof.
  intros E H. destruct fuel as [|fuel]; [discriminate |].
  cbn [wait_idle] in H. rewrite bind_gets in H.
  apply nz_false in E. rewrite E, skip_eq in H. congruence.
Qed.

Lemma wait_idle_spec (body : M unit) (fuel : nat) :
  (∀ s, body s = Done tt s) →
  ∀ st st' : state,
    tx_wf st → tx_fits st →
    wait_idle fuel body st = Done tt st' →
    transmitting st' = 0
    ∧ tx_kept st st'
    ∧ transmit_pin st' = transmit_pin st
    ∧ (transmitting st ≠ 0 → tx_finished st st').
Proof.
  intros Hbody. induction fuel as [|fuel IH]; intros st st' Hwf Hfit H;
    [discriminate |].
  cbn [wait_idle] in H. rewrite bind_gets in H.
  destruct (nz (transmitting st)) eqn:Et.
  2:{ rewrite skip_eq in H. injection H as <-. apply nz_false in Et.
      split; [exact Et |]. split; [apply tx_kept_refl; assumption |].
      split; [reflexivity | contradiction]. }
  apply nz_true in Et.
  apply bind_inv in H as ([] & st1 & Hturn & H).
  rewrite (bind_done _ _ _ _ _ (Hbody st1)) in H.
  unfold idle_turn in Hturn.
  apply hw_read_inv in Hturn as (irq & rest & Etape & Hturn).
  pose proof (tx_kept_read st rest Hwf Hfit) as Hk0.
  pose proof Hk0 as (Hwf0 & Hfit0 & _).
  assert (Hstep : tx_kept (set_hw_in rest st) st1
                  ∧ transmit_pin st1 = transmit_pin st
                  ∧ (transmitting st1 = transmitting st ∨ tx_finished st st1)).
  { destruct (nz irq); unfold when in Hturn.
    - split; [apply uart0_status_isr_kept; assumption |].
      apply uart0_status_isr_transmitting in Hturn; assumption.
    - injection Hturn as <-. split; [apply tx_kept_refl; assumption |].
      split; [reflexivity | left; reflexivity]. }
  destruct Hstep as (Hk1 & Epin & Hcase).
  pose proof Hk1 as (Hwf1 & Hfit1 & _).
  pose proof (tx_kept_trans _ _ _ Hk0 Hk1) as Hk.
  destruct Hcase as [E | Hfin].
  - destruct (IH st1 st' Hwf1 Hfit1 H) as (Htr & Hk' & Epin' & Hfin).
    split; [exact Htr |].
    split; [exact (tx_kept_trans _ _ _ Hk Hk') |].
    split; [congruence |].
    intros _. destruct Hfin as (? & ? & Hp); [congruence |].
    split; [assumption |]. split; [assumption |].
    intros p Ep. apply Hp. congruence.
  - pose proof Hfin as (Htr & _).
    apply (wait_idle_done _ _ _ _ Htr) in H as ->.
    split; [exact Htr |]. split; [exact Hk |]. split; [exact Epin |].
    intros _. exact Hfin.
Qed.

(** X6. serial_flush on a well-formed TX ring with the capacity inside the
    range of the index type.  It returns at once, without a change, when
    nothing is being transmitted.  Whenever it returns, the transmitting flag
    is clear and nothing was added to, lost from or reordered in the stream of
    transmitted and pending bytes; if it had to wait, the transmit-complete
    part of the handler has run last: the interrupt enables are
    C2_TX_INACTIVE and a configured transmit pin is deasserted. *)
Theorem serial_flush_waits_for_completion (st : state) :
  tx_wf st → tx_fits st →
  (transmitting st = 0 → serial_flush st = Done tt st)
  ∧ ∀ st', serial_flush st = Done tt st' →
           transmitting st' = 0
           ∧ tx_kept st st'
           ∧ (transmitting st ≠ 0 → tx_finished st st').
Proof.
  intros Hwf Hfit. split.
  - intros E. unfold serial_flush. rewrite bind_gets. cbn [wait_idle].
    rewrite bind_gets. apply nz_false in E. rewrite E. reflexivity.
  - intros st' H. unfold serial_flush in H. rewrite bind_gets in H.
    apply wait_idle_spec in H as (Htr & Hk & _ & Hfin); try assumption.
    + split; [exact Htr |]. split; [exact Hk | exact Hfin].
    + reflexivity.
Qed.

(** X7. serial_set_transmit_pin with the number of a digital pin, on a
    well-formed TX ring with the capacity inside the range of the index type:
    when it returns, no transmission is in progress, the pin is recorded as
    the transmit pin and is driven low, and the stream of transmitted and
    pending bytes is as before; it returns at once when nothing is being
    transmitted. *)
Theorem serial_set_transmit_pin_idle (pin : Z) (st : state) :
  tx_wf st → tx_fits st → 0 ≤ pin < 256 → pin < CORE_NUM_DIGITAL →
  (transmitting st = 0 →
   serial_set_transmit_pin pin st
   = Done tt (set_transmit_pin (Some (PortOutputRegister pin))
                (set_gpio (<[pin := false]> (gpio st)) st)))
  ∧ ∀ st', serial_set_transmit_pin pin st = Done tt st' →
           transmitting st' = 0
           ∧ transmit_pin st' = Some (PortOutputRegister pin)
           ∧ pin_level st' (PortOutputRegister pin) = Some false
           ∧ tx_kept st st'.
Proof.
  intros Hwf Hfit Hpin Hdig.
  assert (Ep : u8 pin = pin) by (apply u8_small; lia).
  apply Z.ltb_lt in Hdig.
  unfold serial_set_transmit_pin, digitalWrite_LOW. cbv zeta.
  rewrite Ep, Hdig. unfold when. split.
  - intros E. rewrite bind_gets. cbn [wait_idle].
    apply nz_false in E. mexec. rewrite E. mexec. reflexivity.
  - intros st' H. rewrite bind_gets in H.
    apply bind_inv in H as ([] & st1 & Hw & H).
    apply wait_idle_spec in Hw as (Htr & Hk & _ & _);
      [| reflexivity | assumption ..].
    revert H. mexec. intros [= <-]. fsimpl.
    split; [exact Htr |]. split; [reflexivity |].
    split; [unfold pin_level; fsimpl; apply lookup_insert_eq |].
    eapply tx_kept_trans; [exact Hk |].
    destruct Hk as (Hwf1 & Hfit1 & _).
    apply tx_kept_same; try assumption. repeat split.
Qed.

End Flush.

Section WriteRoom.
Context `{cfg : Config}.

(** ** Writing into free space never waits *)

Lemma tx_pushed_refl (st : state) : tx_pushed st st.
Proof. destruct st. eexists _, _, _, _, _, _, _. funfold. reflexivity. Qed.

Lemma tx_pushed_trans (st1 st2 st3 : state) :
  tx_pushed st1 st2 → tx_pushed st2 st3 → tx_pushed st1 st3.
Proof.
  intros (b & e & h & tr & c2 & c3 & g & ->)
         (b' & e' & h' & tr' & c2' & c3' & g' & ->).
  destruct st1. eexists _, _, _, _, _, _, _. funfold. reflexivity.
Qed.

Lemma tx_pushed_same (st st' : state) :
  tx_pushed st st' →
  transmit_pin st' = transmit_pin st
  ∧ SIM_SCGC4 st' = SIM_SCGC4 st
  ∧ tx_buffer_tail st' = tx_buffer_tail st
  ∧ tx_buffer_total_size_ st' = tx_buffer_total_size_ st
  ∧ UART0_D_wr st' = UART0_D_wr st
  ∧ hw_in st' = hw_in st
  ∧ half_duplex_mode st' = half_duplex_mode st
  ∧ rx_ring_same st st'.
Proof.
  intros (b & e & h & tr & c2 & c3 & g & ->). repeat split.
Qed.

Lemma tx_slot_store_ok (i v head tail : Z) (st : state) :
  ring_wf SERIAL1_TX_BUFFER_SIZE (tx_buffer_total_size_ st) head tail
          (tx_buffer st) (tx_buffer_storage_ st) →
  0 ≤ i < tx_buffer_total_size_ st →
  ∃ b e, tx_slot_store i v st
         = Done tt (set_tx_buffer b (set_tx_buffer_storage_ e st)).
Proof.
  intros [Hs Hb Ht Hc _ _ _ _] Hi. unfold tx_slot_store, store.
  destruct (Z.ltb_spec i SERIAL1_TX_BUFFER_SIZE) as [Hlt|Hge]; mexec.
  - rewrite bind_unfold.
    replace ((0 <=? i) && (i <? Z.of_nat (length (tx_buffer st)))) with true
      by (symmetry; apply andb_true_iff; split;
          [apply Z.leb_le | apply Z.ltb_lt]; lia).
    rewrite modify_eq.
    exists (<[Z.to_nat i := BUFTYPE v]> (tx_buffer st)), (tx_buffer_storage_ st).
    destruct st. reflexivity.
  - destruct (tx_buffer_storage_ st) as [a|] eqn:Es; simpl in Hc; [| lia].
    rewrite bind_unfold, u32_small by lia.
    replace ((0 <=? i - SERIAL1_TX_BUFFER_SIZE)
             && (i - SERIAL1_TX_BUFFER_SIZE <? Z.of_nat (length a))) with true
      by (symmetry; apply andb_true_iff; split;
          [apply Z.leb_le | apply Z.ltb_lt]; lia).
    rewrite modify_eq.
    exists (tx_buffer st),
      (Some (<[Z.to_nat (i - SERIAL1_TX_BUFFER_SIZE) := BUFTYPE v]> a)).
    destruct st. reflexivity.
Qed.

Lemma tx_room_advance (st : state) :
  tx_wf st →
  0 < tx_room st ↔
  advance (tx_buffer_total_size_ st) (tx_buffer_head st) ≠ tx_buffer_tail st.
Proof.
  intros [Hs Hb Ht Hc Hh Htl Hhi Hti]. rewrite advance_spec by lia.
  pose proof (room_test (tx_buffer_total_size_ st) (tx_buffer_head st)
                (tx_buffer_tail st) Hh Htl) as E.
  unfold tx_room.
  destruct (Z.eqb_spec ((tx_buffer_head st + 1) mod tx_buffer_total_size_ st)
              (tx_buffer_tail st)) as [E'|E']; cbn [negb] in E.
  - apply Z.ltb_ge in E. split; [lia | contradiction].
  - apply Z.ltb_lt in E. split; [intros _; exact E' | intros _; exact E].
Qed.

(** Storing a unit when there is room: the store succeeds, nothing but the
    arrays, head and the transmitting flag changes, and the ring holds one
    unit more. *)
Lemma enqueue_room (c : Z) (st : state) :
  tx_wf st → tx_fits st → 0 < tx_room st →
  ∃ st', enqueue (advance (tx_buffer_total_size_ st) (tx_buffer_head st)) c st
         = Done tt st'
         ∧ tx_pushed st st'
         ∧ tx_wf st' ∧ tx_fits st'
         ∧ tx_pending st' = tx_pending st ++ [BUFTYPE c]
         ∧ tx_room st' = tx_room st - 1
         ∧ transmitting st' = 1
         ∧ UART0_C2 st' = UART0_C2 st
         ∧ UART0_C3 st' = UART0_C3 st
         ∧ gpio st' = gpio st.
Proof.
  intros Hwf Hfit Hroom. pose proof Hwf as [Hs Hb Ht Hc Hh Htl Hhi Hti].
  pose proof (proj1 (tx_room_advance st Hwf) Hroom) as Hne.
  assert (Hr : 0 ≤ advance (tx_buffer_total_size_ st) (tx_buffer_head st)
               < tx_buffer_total_size_ st) by (apply advance_range; lia).
  destruct (tx_slot_store_ok _ (c) _ _ st Hwf Hr) as (b & e & Hst).
  eexists. unfold enqueue at 1.
  rewrite (bind_done _ _ _ _ _ Hst). mexec.
  split; [reflexivity |].
  match goal with |- tx_pushed st ?s ∧ _ => set (st' := s) end.
  assert (Hrun : enqueue (advance (tx_buffer_total_size_ st) (tx_buffer_head st))
                   c st = Done tt st').
  { unfold enqueue. rewrite (bind_done _ _ _ _ _ Hst). mexec. reflexivity. }
  apply enqueue_spec in Hrun as (Hwf' & Hfit' & Et & _ & _ & Hp & _);
    try assumption.
  split; [subst st'; destruct st; eexists _, _, _, _, _, _, _; funfold;
          reflexivity |].
  split; [exact Hwf' |]. split; [exact Hfit' |]. split; [exact Hp |].
  split; [| subst st'; fsimpl; repeat split].
  unfold tx_room. subst st'. fsimpl. unfold tx_index.
  unfold tx_fits in Hfit. rewrite index_wrap_small by lia.
  rewrite advance_spec in * by lia.
  rewrite mod_step_up by assumption. lia.
Qed.

Lemma putchar_prologue_pin (st : state) (k : unit → M unit) :
  ∃ g c3,
    (when_set (transmit_pin st) transmit_assert
     ≫= λ _, when KINETISL
                (hd ← gets half_duplex_mode;
                 when (nz hd)
                   (reg ← gets UART0_C3;
                    write_UART0_C3 (Z.lor reg UART_C3_TXDIR)))
     ≫= k) st
    = k tt (set_gpio g (set_UART0_C3 c3 st))
    ∧ ∀ p, transmit_pin st = Some p →
           pin_level (set_gpio g (set_UART0_C3 c3 st)) p = Some true.
Proof.
  exists (match transmit_pin st with
          | Some (PortOutputRegister pin) => <[pin := true]> (gpio st)
          | _ => gpio st
          end),
         (let c3 := match transmit_pin st with
                    | Some BitbandC3TxDir =>
                        Z.setbit (UART0_C3 st) C3_TXDIR_BIT
                    | _ => UART0_C3 st
                    end in
          if KINETISL && nz (half_duplex_mode st)
          then u8 (Z.lor c3 UART_C3_TXDIR) else c3).
  unfold when_set, transmit_assert, pin_write, write_UART0_C3. cbv zeta.
  destruct (transmit_pin st) as [[pin|]|] eqn:Ep;
    destruct KINETISL; unfold when; mexec;
    try (destruct (nz (half_duplex_mode st)); mexec);
    cbn [andb];
    (split; [destruct st; funfold; reflexivity |]);
    intros p' [= <-]; unfold pin_level; fsimpl.
  all: try (rewrite lookup_insert_eq; reflexivity).
  all: f_equal; unfold u8, C3_TXDIR_BIT;
    rewrite ?Z.mod_pow2_bits_low, ?Z.lor_spec, Z.setbit_eq by lia;
    reflexivity.
Qed.

Lemma putchar_wait_room (fuel : nat) (head : Z) (st : state) :
  tx_buffer_tail st ≠ head → putchar_wait (S fuel) head st = Done tt st.
Proof.
  intros Hne. cbn [putchar_wait]. rewrite bind_gets.
  destruct (Z.eqb_spec (tx_buffer_tail st) head); [contradiction |].
  reflexivity.
Qed.

Lemma BUFTYPE_byte (b : Z) : BUFTYPE (u32 (u8 b)) = u8 b.
Proof.
  assert (H : 0 ≤ u8 b < 2 ^ 8) by (apply Z.mod_pos_bound; lia).
  rewrite u32_small by lia. unfold BUFTYPE.
  destruct SERIAL_9BIT_SUPPORT; [apply Z.mod_small; lia | apply u8_small; lia].
Qed.

Lemma BUFTYPE_u8 (b : Z) : BUFTYPE (u8 b) = u8 b.
Proof.
  assert (H : 0 ≤ u8 b < 2 ^ 8) by (apply Z.mod_pos_bound; lia).
  unfold BUFTYPE.
  destruct SERIAL_9BIT_SUPPORT; [apply Z.mod_small; lia | apply u8_small; lia].
Qed.

Lemma putchar_room_step (c : Z) (st : state) :
  tx_wf st → tx_fits st → ¬ clock_gated st → 0 < tx_room st →
  ∃ st', serial_putchar c st = Done tt st'
         ∧ tx_pushed st st'
         ∧ tx_wf st' ∧ tx_fits st'
         ∧ tx_pending st' = tx_pending st ++ [BUFTYPE (u32 c)]
         ∧ tx_room st' = tx_room st - 1
         ∧ transmitting st' = 1
         ∧ UART0_C2 st' = u8 C2_TX_ACTIVE
         ∧ ∀ p, transmit_pin st = Some p → pin_level st' p = Some true.
Proof.
  intros Hwf Hfit Hen Hroom. unfold serial_putchar.
  rewrite bind_gets. apply nz_true in Hen. rewrite Hen. cbn [negb].
  rewrite bind_gets.
  destruct (putchar_prologue_pin st
              (λ _, h ← gets tx_buffer_head;
                    total ← gets tx_buffer_total_size_;
                    fuel ← gets (λ st0, S (length (hw_in st0)));
                    putchar_wait fuel (advance total h);;
                    enqueue (advance total h) (u32 c);;
                    write_UART0_C2 C2_TX_ACTIVE)) as (g & c3 & -> & Hpin).
  set (st2 := set_gpio g (set_UART0_C3 c3 st)) in *.
  assert (Hwf2 : tx_wf st2) by exact Hwf.
  assert (Hfit2 : tx_fits st2) by exact Hfit.
  assert (Hroom2 : 0 < tx_room st2) by exact Hroom.
  pose proof (proj1 (tx_room_advance st2 Hwf2) Hroom2) as Hne.
  destruct (enqueue_room (u32 c) st2 Hwf2 Hfit2 Hroom2)
    as (st3 & Henq & Hp3 & Hwf3 & Hfit3 & Epend & Eroom & Etr & _ & Ec3 & Eg).
  mexec. rewrite bind_unfold, putchar_wait_room by (intros E; apply Hne; auto).
  change (tx_buffer_total_size_ st) with (tx_buffer_total_size_ st2).
  change (tx_buffer_head st) with (tx_buffer_head st2).
  rewrite (bind_done _ _ _ _ _ Henq). unfold write_UART0_C2. rewrite modify_eq.
  eexists. split; [reflexivity |].
  split.
  { eapply tx_pushed_trans; [| eapply tx_pushed_trans; [exact Hp3 |]].
    - subst st2. destruct st. eexists _, _, _, _, _, _, _. funfold. reflexivity.
    - destruct st3. eexists _, _, _, _, _, _, _. funfold. reflexivity. }
  split; [exact Hwf3 |]. split; [exact Hfit3 |].
  split; [exact Epend |]. split; [exact Eroom |]. split; [exact Etr |].
  split; [reflexivity |].
  intros p Hp. specialize (Hpin p Hp). unfold pin_level in *. fsimpl.
  rewrite Ec3, Eg. exact Hpin.
Qed.

(** X3. serial_putchar on a well-formed TX ring with a free slot, with the
    capacity inside the range of the index type and the peripheral enabled,
    in a call that the status interrupt does not pre-empt: it returns without
    reading any hardware register (it does not wait), appends its unit to the
    pending units, leaves one free slot less, and ends with the transmitting
    flag set, the interrupt enables at C2_TX_ACTIVE and a configured transmit
    pin asserted. *)
Theorem serial_putchar_room (c : Z) (st : state) :
  tx_wf st → tx_fits st → ¬ clock_gated st → 0 < tx_room st →
  ∃ st', serial_putchar c st = Done tt st'
         ∧ tx_pushed st st'
         ∧ hw_in st' = hw_in st
         ∧ UART0_D_wr st' = UART0_D_wr st
         ∧ tx_wf st' ∧ tx_fits st'
         ∧ tx_pending st' = tx_pending st ++ [BUFTYPE (u32 c)]
         ∧ tx_room st' = tx_room st - 1
         ∧ transmitting st' = 1
         ∧ UART0_C2 st' = u8 C2_TX_ACTIVE
         ∧ ∀ p, transmit_pin st = Some p → pin_level st' p = Some true.
Proof.
  intros Hwf Hfit Hen Hroom.
  destruct (putchar_room_step c st Hwf Hfit Hen Hroom)
    as (st' & Hrun & Hp & Hrest).
  exists st'. split; [exact Hrun |]. split; [exact Hp |].
  pose proof (tx_pushed_same _ _ Hp) as (_ & _ & _ & _ & Ed & Ei & _).
  split; [exact Ei |]. split; [exact Ed |]. exact Hrest.
Qed.

Lemma write_each_room (n : nat) :
  ∀ (buf : list Z) (st : state),
    tx_wf st → tx_fits st → ¬ clock_gated st →
    (n ≤ length buf)%nat → Z.of_nat n ≤ tx_room st →
    ∃ st', write_each n buf st = Done tt st'
           ∧ tx_pushed st st'
           ∧ tx_wf st' ∧ tx_fits st'
           ∧ tx_pending st' = tx_pending st ++ map u8 (take n buf)
           ∧ tx_room st' = tx_room st - Z.of_nat n
           ∧ ((0 < n)%nat →
              transmitting st' = 1
              ∧ UART0_C2 st' = u8 C2_TX_ACTIVE
              ∧ ∀ p, transmit_pin st = Some p → pin_level st' p = Some true).
Proof.
  induction n as [|n IH]; intros buf st Hwf Hfit Hen Hlen Hroom.
  - exists st. split; [reflexivity |]. split; [apply tx_pushed_refl |].
    split; [exact Hwf |]. split; [exact Hfit |].
    split; [rewrite take_0, app_nil_r; reflexivity |].
    split; [lia | lia].
  - destruct buf as [|b buf]; [cbn [length] in Hlen; lia |].
    cbn [length] in Hlen. cbn [write_each take map].
    destruct (putchar_room_step (u8 b) st Hwf Hfit Hen ltac:(lia))
      as (st1 & Hrun & Hp1 & Hwf1 & Hfit1 & Epend1 & Eroom1 & Etr1 & Ec1 & Hpin1).
    pose proof (tx_pushed_same _ _ Hp1) as (Epin & Eg & _).
    assert (Hen1 : ¬ clock_gated st1) by (unfold clock_gated; rewrite Eg; exact Hen).
    destruct (IH buf st1 Hwf1 Hfit1 Hen1 ltac:(lia) ltac:(lia))
      as (st' & Hrest & Hp & Hwf' & Hfit' & Epend & Eroom & Hlast).
    exists st'. rewrite (bind_done _ _ _ _ _ Hrun).
    split; [exact Hrest |].
    split; [exact (tx_pushed_trans _ _ _ Hp1 Hp) |].
    split; [exact Hwf' |]. split; [exact Hfit' |].
    split; [rewrite Epend, Epend1, BUFTYPE_byte, <- app_assoc; reflexivity |].
    split; [lia |]. intros _.
    destruct n as [|n].
    + cbn [write_each] in Hrest. injection Hrest as <-.
      split; [exact Etr1 |]. split; [exact Ec1 | exact Hpin1].
    + destruct (Hlast ltac:(lia)) as (Htr & Hc2 & Hpin).
      split; [exact Htr |]. split; [exact Hc2 |].
      intros p Hp'. apply Hpin. congruence.
Qed.

Lemma write_loop_room (n : nat) :
  ∀ (buf : list Z) (st : state),
    tx_wf st → tx_fits st →
    (n ≤ length buf)%nat → Z.of_nat n ≤ tx_room st →
    ∃ st', write_loop n buf st = Done tt st'
           ∧ tx_pushed st st'
           ∧ tx_wf st' ∧ tx_fits st'
           ∧ tx_pending st' = tx_pending st ++ map u8 (take n buf)
           ∧ tx_room st' = tx_room st - Z.of_nat n
           ∧ ((0 < n)%nat → transmitting st' = 1)
           ∧ UART0_C3 st' = UART0_C3 st
           ∧ gpio st' = gpio st.
Proof.
  induction n as [|n IH]; intros buf st Hwf Hfit Hlen Hroom.
  - exists st. split; [reflexivity |]. split; [apply tx_pushed_refl |].
    split; [exact Hwf |]. split; [exact Hfit |].
    split; [rewrite take_0, app_nil_r; reflexivity |].
    split; [lia |]. split; [lia |]. split; reflexivity.
  - destruct buf as [|b buf]; [cbn [length] in Hlen; lia |].
    cbn [length] in Hlen. cbn [write_loop take map]. mexec.
    pose proof (proj1 (tx_room_advance st Hwf) ltac:(lia)) as Hne.
    destruct (Z.eqb_spec (tx_buffer_tail st)
                (advance (tx_buffer_total_size_ st) (tx_buffer_head st)))
      as [E|_]; [symmetry in E; contradiction |].
    unfold when. rewrite bind_skip.
    destruct (enqueue_room (u8 b) st Hwf Hfit ltac:(lia))
      as (st1 & Henq & Hp1 & Hwf1 & Hfit1 & Epend1 & Eroom1 & Etr1 & _ & Ec1 & Eg1).
    rewrite (bind_done _ _ _ _ _ Henq).
    destruct (IH buf st1 Hwf1 Hfit1 ltac:(lia) ltac:(lia))
      as (st' & Hrest & Hp & Hwf' & Hfit' & Epend & Eroom & Hlast & Ec & Eg).
    exists st'. split; [exact Hrest |].
    split; [exact (tx_pushed_trans _ _ _ Hp1 Hp) |].
    split; [exact Hwf' |]. split; [exact Hfit' |].
    split; [rewrite Epend, Epend1, BUFTYPE_u8, <- app_assoc; reflexivity |].
    split; [lia |].
    split; [| split; congruence].
    intros _. destruct n as [|n].
    + cbn [write_loop] in Hrest. injection Hrest as <-. exact Etr1.
    + apply Hlast. lia.
Qed.

Lemma write_room_all (buf : list Z) (count : Z) (st : state) :
  tx_wf st → tx_fits st → ¬ clock_gated st →
  0 ≤ count < 2 ^ 32 → count ≤ Z.of_nat (length buf) → count ≤ tx_room st →
  ∃ st', serial_write buf count st = Done tt st'
         ∧ tx_pushed st st'
         ∧ hw_in st' = hw_in st
         ∧ UART0_D_wr st' = UART0_D_wr st
         ∧ tx_wf st' ∧ tx_fits st'
         ∧ tx_pending st' = tx_pending st ++ map u8 (take (Z.to_nat count) buf)
         ∧ tx_room st' = tx_room st - count
         ∧ (0 < count →
            transmitting st' = 1
            ∧ UART0_C2 st' = u8 C2_TX_ACTIVE
            ∧ ∀ p, transmit_pin st = Some p → pin_level st' p = Some true).
Proof.
  intros Hwf Hfit Hen Hc Hlen Hroom. unfold serial_write.
  rewrite u32_small by lia.
  destruct HAS_KINETISK_UART0_FIFO.
  - rewrite bind_gets. pose proof Hen as Hen'. apply nz_true in Hen'.
    rewrite Hen'. cbn [negb]. rewrite bind_gets.
    unfold when_set, transmit_assert, pin_write.
    set (st2 := match transmit_pin st with
                | Some (PortOutputRegister pin) =>
                    set_gpio (<[pin := true]> (gpio st)) st
                | Some BitbandC3TxDir =>
                    set_UART0_C3 (Z.setbit (UART0_C3 st) C3_TXDIR_BIT) st
                | None => st
                end).
    assert (Hpin : ∀ p, transmit_pin st = Some p → pin_level st2 p = Some true).
    { intros p Hp. subst st2. rewrite Hp. destruct p as [pin|];
        unfold pin_level; fsimpl.
      - apply lookup_insert_eq.
      - unfold C3_TXDIR_BIT. rewrite Z.setbit_eq by lia. reflexivity. }
    assert (Hp2 : tx_pushed st st2).
    { subst st2. destruct (transmit_pin st) as [[pin|]|]; destruct st;
        eexists _, _, _, _, _, _, _; funfold; reflexivity. }
    assert (Hsame : tx_wf st2 ∧ tx_fits st2 ∧ tx_room st2 = tx_room st
                    ∧ tx_pending st2 = tx_pending st).
    { subst st2. destruct (transmit_pin st) as [[pin|]|];
        (split; [exact Hwf |]); (split; [exact Hfit |]); split; reflexivity. }
    destruct Hsame as (Hwf2 & Hfit2 & Eroom2 & Epend2).
    destruct (write_loop_room (Z.to_nat count) buf st2 Hwf2 Hfit2
                ltac:(lia) ltac:(lia))
      as (st3 & Hrun & Hp3 & Hwf3 & Hfit3 & Epend & Eroom & Htr & Ec3 & Eg).
    assert (Hrun' : (when_set (transmit_pin st) transmit_assert
                     ≫= λ _, write_loop (Z.to_nat count) buf) st
                    = Done tt st3).
    { unfold when_set, transmit_assert, pin_write. subst st2.
      destruct (transmit_pin st) as [[pin|]|]; mexec; exact Hrun. }
    unfold when_set, transmit_assert, pin_write in Hrun'.
    rewrite <- bind_assoc, (bind_done _ _ _ _ _ Hrun').
    unfold write_UART0_C2. rewrite modify_eq.
    eexists. split; [reflexivity |].
    assert (Hp : tx_pushed st (set_UART0_C2 (u8 C2_TX_ACTIVE) st3)).
    { eapply tx_pushed_trans; [exact Hp2 |].
      eapply tx_pushed_trans; [exact Hp3 |].
      destruct st3. eexists _, _, _, _, _, _, _. funfold. reflexivity. }
    split; [exact Hp |].
    pose proof (tx_pushed_same _ _ Hp) as (_ & _ & _ & _ & Ed & Ei & _).
    split; [exact Ei |]. split; [exact Ed |].
    split; [exact Hwf3 |]. split; [exact Hfit3 |].
    split; [change (tx_pending st3 = tx_pending st ++ map u8 (take (Z.to_nat count) buf));
            rewrite Epend, Epend2; reflexivity |].
    split; [change (tx_room st3 = tx_room st - count); lia |].
    intros Hpos. fsimpl. split; [apply Htr; lia |]. split; [reflexivity |].
    intros p Hp'. specialize (Hpin p Hp'). unfold pin_level in *. fsimpl.
    rewrite Ec3, Eg. exact Hpin.
  - destruct (write_each_room (Z.to_nat count) buf st Hwf Hfit Hen
                ltac:(lia) ltac:(lia))
      as (st' & Hrun & Hp & Hwf' & Hfit' & Epend & Eroom & Hlast).
    exists st'. split; [exact Hrun |]. split; [exact Hp |].
    pose proof (tx_pushed_same _ _ Hp) as (_ & _ & _ & _ & Ed & Ei & _).
    split; [exact Ei |]. split; [exact Ed |].
    split; [exact Hwf' |]. split; [exact Hfit' |]. split; [exact Epend |].
    split; [lia |]. intros Hpos. apply Hlast. lia.
Qed.

(** X4. serial_write of count bytes that fit into the free space of a
    well-formed TX ring, with the capacity inside the range of the index type
    and the peripheral enabled, in a call that the status interrupt does not
    pre-empt: it returns without reading any hardware register (it does not
    wait) and without handing anything to the transmitter itself; the first
    count bytes of the buffer are appended, in order, to the pending units;
    if count is positive the transmitting flag is set, the interrupt enables
    are C2_TX_ACTIVE and a configured transmit pin is asserted. *)
Theorem serial_write_room (buf : list Z) (count : Z) (st : state) :
  tx_wf st → tx_fits st → ¬ clock_gated st →
  0 ≤ count < 2 ^ 32 → count ≤ Z.of_nat (length buf) → count ≤ tx_room st →
  ∃ st', serial_write buf count st = Done tt st'
         ∧ tx_pushed st st'
         ∧ hw_in st' = hw_in st
         ∧ UART0_D_wr st' = UART0_D_wr st
         ∧ tx_wf st' ∧ tx_fits st'
         ∧ tx_pending st' = tx_pending st ++ map u8 (take (Z.to_nat count) buf)
         ∧ tx_room st' = tx_room st - count
         ∧ (0 < count →
            transmitting st' = 1
            ∧ UART0_C2 st' = u8 C2_TX_ACTIVE
            ∧ ∀ p, transmit_pin st = Some p → pin_level st' p = Some true).
Proof. exact (write_room_all buf count st). Qed.

End WriteRoom.

Section WriteStream.
Context `{cfg : Config}.

(** ** serial_write keeps the order of the bytes *)

Lemma u8_u8 (b : Z) : u8 (u8 b) = u8 b.
Proof. apply u8_small. apply Z.mod_pos_bound. lia. Qed.

Lemma write_wait_kept (fuel : nat) :
  ∀ (st st' : state),
    tx_wf st → tx_fits st → 1 < tx_buffer_total_size_ st →
    tx_buffer_tail st
    = advance (tx_buffer_total_size_ st) (tx_buffer_head st) →
    write_wait fuel
      (advance (tx_buffer_total_size_ st) (tx_buffer_head st)) st
    = Done tt st' →
    tx_kept st st'
    ∧ advance (tx_buffer_total_size_ st) (tx_buffer_head st)
      ≠ tx_buffer_tail st'.
Proof.
  induction fuel as [|fuel IH]; intros st st' Hwf Hfit Htot Hfull H;
    [discriminate |].
  cbn [write_wait] in H.
  apply bind_inv in H as ([] & st1 & Hturn & H).
  pose proof Hwf as [_ _ Ht _ Hh _ _ _].
  apply wait_turn_kept in Hturn; try assumption.
  2:{ rewrite Hfull. intros Eq. symmetry in Eq. revert Eq.
      apply advance_moves; lia. }
  pose proof Hturn as (Hwf1 & Hfit1 & _ & Eh & Et & _).
  rewrite bind_gets in H.
  destruct (Z.eqb_spec (tx_buffer_tail st1)
              (advance (tx_buffer_total_size_ st) (tx_buffer_head st)))
    as [E|Hne].
  - rewrite <- Eh, <- Et in H, E. apply IH in H; try assumption; [| lia].
    destruct H as [Hk Hx]. rewrite Eh, Et in Hx.
    split; [exact (tx_kept_trans _ _ _ Hturn Hk) | exact Hx].
  - rewrite skip_eq in H. injection H as <-.
    split; [exact Hturn | congruence].
Qed.

Lemma write_loop_stream (n : nat) :
  ∀ (buf : list Z) (st st' : state),
    tx_wf st → tx_fits st → 1 < tx_buffer_total_size_ st →
    write_loop n buf st = Done tt st' →
    tx_wf st' ∧ tx_fits st'
    ∧ tx_buffer_total_size_ st' = tx_buffer_total_size_ st
    ∧ tx_stream st' = tx_stream st ++ map u8 (take n buf).
Proof.
  induction n as [|n IH]; intros buf st st' Hwf Hfit Htot H.
  - cbn [write_loop] in H. injection H as <-.
    rewrite take_0, app_nil_r.
    split; [exact Hwf |]. split; [exact Hfit |]. split; reflexivity.
  - cbn [write_loop] in H. revert H. mexec. intros H.
    apply bind_inv in H as ([] & st2 & Hwait & H).
    assert (Hk : tx_kept st st2
                 ∧ advance (tx_buffer_total_size_ st) (tx_buffer_head st)
                   ≠ tx_buffer_tail st2).
    { destruct (Z.eqb_spec (tx_buffer_tail st)
                  (advance (tx_buffer_total_size_ st) (tx_buffer_head st)))
        as [E|Hne]; unfold when in Hwait.
      - revert Hwait. unfold write_UART0_C2. mexec. intros Hwait.
        set (st1 := set_UART0_C2 (u8 C2_TX_ACTIVE) st) in *.
        assert (Hsame : tx_ring_same st st1) by (repeat split).
        pose proof (tx_kept_same st st1 Hwf Hfit Hsame) as Hk1.
        change (tx_buffer_total_size_ st) with (tx_buffer_total_size_ st1)
          in Hwait.
        change (tx_buffer_head st) with (tx_buffer_head st1) in Hwait.
        apply write_wait_kept in Hwait as [Hk2 Hne]; try assumption.
        split; [exact (tx_kept_trans _ _ _ Hk1 Hk2) | exact Hne].
      - rewrite skip_eq in Hwait. injection Hwait as <-.
        split; [apply tx_kept_refl; assumption | congruence]. }
    destruct Hk as [Hk Hne].
    pose proof Hk as (Hwf2 & Hfit2 & Estr2 & Eh2 & Et2 & _).
    destruct buf as [|b buf]; [discriminate |].
    apply bind_inv in H as ([] & st3 & Henq & H).
    rewrite <- Eh2, <- Et2 in Henq, Hne.
    apply enqueue_spec in Henq; try assumption.
    destruct Henq as (Hwf3 & Hfit3 & Et3 & _ & _ & _ & Estr3).
    apply IH in H; try assumption; [| lia].
    destruct H as (Hwf' & Hfit' & Et' & Estr').
    split; [exact Hwf' |]. split; [exact Hfit' |].
    split; [congruence |].
    rewrite Estr', Estr3, Estr2, u8_u8, <- app_assoc. reflexivity.
Qed.

Lemma write_each_stream (n : nat) :
  ∀ (buf : list Z) (st st' : state),
    tx_wf st → tx_fits st → 1 < tx_buffer_total_size_ st →
    ¬ clock_gated st →
    write_each n buf st = Done tt st' →
    tx_wf st' ∧ tx_fits st'
    ∧ tx_buffer_total_size_ st' = tx_buffer_total_size_ st
    ∧ tx_stream st' = tx_stream st ++ map u8 (take n buf).
Proof.
  induction n as [|n IH]; intros buf st st' Hwf Hfit Htot Hen H.
  - cbn [write_each] in H. injection H as <-.
    rewrite take_0, app_nil_r.
    split; [exact Hwf |]. split; [exact Hfit |]. split; reflexivity.
  - cbn [write_each] in H. destruct buf as [|b buf]; [discriminate |].
    apply bind_inv in H as ([] & st1 & Hput & H).
    apply serial_putchar_stream in Hput; try assumption.
    destruct Hput as (Hwf1 & Hfit1 & Et1 & Eg1 & Estr1).
    apply IH in H; try assumption;
      [| lia | unfold clock_gated; rewrite Eg1; exact Hen].
    destruct H as (Hwf' & Hfit' & Et' & Estr').
    split; [exact Hwf' |]. split; [exact Hfit' |].
    split; [congruence |].
    cbn [take map]. rewrite Estr', Estr1, u8_u8, <- app_assoc. reflexivity.
Qed.

(** X5. Whenever serial_write returns on an enabled peripheral, on a
    well-formed TX ring with a capacity above 1 and inside the range of the
    index type, whatever happened while it was waiting for room (interrupts
    taken, units serviced inline), the first count bytes of the buffer have
    been appended in order to the stream of transmitted and pending bytes:
    none was lost, duplicated or overtaken. *)
Theorem serial_write_stream (buf : list Z) (count : Z) (st st' : state) :
  tx_wf st → tx_fits st → 1 < tx_buffer_total_size_ st →
  ¬ clock_gated st →
  0 ≤ count < 2 ^ 32 →
  serial_write buf count st = Done tt st' →
  tx_wf st' ∧ tx_fits st'
  ∧ tx_stream st' = tx_stream st ++ map u8 (take (Z.to_nat count) buf).
Proof.
  intros Hwf Hfit Htot Hen Hc H. unfold serial_write in H.
  rewrite u32_small in H by lia.
  destruct HAS_KINETISK_UART0_FIFO.
  - revert H. rewrite bind_gets. pose proof Hen as Hen'.
    apply nz_true in Hen'. rewrite Hen'. cbn [negb]. rewrite bind_gets.
    intros H. apply bind_inv in H as ([] & st1 & Hpin & H).
    assert (Hsame : tx_ring_same st st1).
    { unfold when_set, transmit_assert, pin_write in Hpin.
      destruct (transmit_pin st) as [[pin|]|]; revert Hpin; mexec;
        intros [= <-]; repeat split. }
    pose proof (tx_kept_same st st1 Hwf Hfit Hsame)
      as (Hwf1 & Hfit1 & Estr1 & _ & Et1 & _).
    apply bind_inv in H as ([] & st2 & Hloop & H).
    apply write_loop_stream in Hloop; try assumption; [| lia].
    destruct Hloop as (Hwf2 & Hfit2 & Et2 & Estr2).
    unfold write_UART0_C2 in H. rewrite modify_eq in H. injection H as <-.
    split; [exact Hwf2 |]. split; [exact Hfit2 |].
    change (tx_stream st2 = tx_stream st ++ map u8 (take (Z.to_nat count) buf)).
    rewrite Estr2, Estr1. reflexivity.
  - apply write_each_stream in H; try assumption.
    destruct H as (Hwf' & Hfit' & _ & Estr').
    split; [exact Hwf' |]. split; [exact Hfit' | exact Estr'].
Qed.

End WriteStream.

Section Safety.
Context `{cfg : Config}.

(** ** The handler is total and memory safe *)

Lemma rx_slot_store_ok (i v head tail : Z) (st : state) :
  ring_wf SERIAL1_RX_BUFFER_SIZE (rx_buffer_total_size_ st) head tail
          (rx_buffer st) (rx_buffer_storage_ st) →
  0 ≤ i < rx_buffer_total_size_ st →
  ∃ b e, rx_slot_store i v st
         = Done tt (set_rx_buffer b (set_rx_buffer_storage_ e st))
         ∧ Z.of_nat (length b) = SERIAL1_RX_BUFFER_SIZE
         ∧ ext_len e = ext_len (rx_buffer_storage_ st).
Proof.
  intros Hwf Hi. pose proof Hwf as [Hs Hb Ht Hc _ _ _ _].
  assert (Hok : ∃ st', rx_slot_store i v st = Done tt st').
  { unfold rx_slot_store, store.
    destruct (Z.ltb_spec i SERIAL1_RX_BUFFER_SIZE) as [Hlt|Hge]; mexec.
    - rewrite bind_unfold.
      replace ((0 <=? i) && (i <? Z.of_nat (length (rx_buffer st)))) with true
        by (symmetry; apply andb_true_iff; split;
            [apply Z.leb_le | apply Z.ltb_lt]; lia).
      rewrite modify_eq. eexists. reflexivity.
    - destruct (rx_buffer_storage_ st) as [a|] eqn:Es; simpl in Hc; [| lia].
      rewrite bind_unfold, u32_small by lia.
      replace ((0 <=? i - SERIAL1_RX_BUFFER_SIZE)
               && (i - SERIAL1_RX_BUFFER_SIZE <? Z.of_nat (length a))) with true
        by (symmetry; apply andb_true_iff; split;
            [apply Z.leb_le | apply Z.ltb_lt]; lia).
      rewrite modify_eq. eexists. reflexivity. }
  destruct Hok as (st' & Hrun).
  pose proof Hrun as Hrun'.
  apply (rx_slot_store_spec _ _ _ _ _ _ Hwf Hi) in Hrun'
    as (b & e & -> & Hlb & Hle & _).
  exists b, e. split; [exact Hrun |]. split; [exact Hlb | exact Hle].
Qed.

(** What the arrays of the RX ring must satisfy for every slot below the
    capacity to exist; the indices play no part in it. *)
Lemma rx_wf_arrays (st : state) (head tail : Z) :
  ring_wf SERIAL1_RX_BUFFER_SIZE (rx_buffer_total_size_ st) head tail
          (rx_buffer st) (rx_buffer_storage_ st) →
  ring_wf SERIAL1_RX_BUFFER_SIZE (rx_buffer_total_size_ st) 0 0
          (rx_buffer st) (rx_buffer_storage_ st).
Proof.
  intros [Hs Hb Ht Hc _ _ _ _]. constructor; try assumption; try lia.
  all: apply Z.pow_pos_nonneg; unfold index_bits;
    repeat destruct (_ >? _); lia.
Qed.

Lemma isr_rx_drain_returns (tail : Z) (fuel : nat) :
  ∀ (avail head : Z) (st : state),
    ring_wf SERIAL1_RX_BUFFER_SIZE (rx_buffer_total_size_ st) 0 0
            (rx_buffer st) (rx_buffer_storage_ st) →
    0 ≤ head < rx_buffer_total_size_ st →
    1 ≤ avail ≤ 255 → avail ≤ Z.of_nat fuel →
    2 * avail ≤ Z.of_nat (length (hw_in st)) →
    ∃ head' st',
      isr_rx_drain fuel avail head tail st = Done head' st'
      ∧ rx_stored st st'
      ∧ ring_wf SERIAL1_RX_BUFFER_SIZE (rx_buffer_total_size_ st) 0 0
                (rx_buffer st') (rx_buffer_storage_ st')
      ∧ 0 ≤ head' < rx_buffer_total_size_ st
      ∧ Z.of_nat (length (hw_in st))
        ≤ Z.of_nat (length (hw_in st')) + 2 * avail.
Proof.
  induction fuel as [|fuel IH]; intros avail head st Hwf Hh Ha Hfuel Htape;
    [lia |].
  pose proof Hwf as [Hs Hb Ht Hc Hz Hz' Hi Hi'].
  cbn [isr_rx_drain].
  destruct (receive_unit_returns st ltac:(lia)) as (n & tape1 & Hrun & Hlen).
  rewrite (bind_done _ _ _ _ _ Hrun). mexec.
  set (st1 := set_hw_in tape1 st).
  pose proof (advance_range (rx_buffer_total_size_ st) head ltac:(lia) ltac:(lia))
    as Hr.
  assert (Hstep : ∃ head' st2,
             (if negb (advance (rx_buffer_total_size_ st) head =? tail)
              then rx_slot_store (advance (rx_buffer_total_size_ st) head) n;;
                   mret (advance (rx_buffer_total_size_ st) head)
              else mret head) st1 = Done head' st2
             ∧ rx_stored st st2
             ∧ ring_wf SERIAL1_RX_BUFFER_SIZE (rx_buffer_total_size_ st) 0 0
                       (rx_buffer st2) (rx_buffer_storage_ st2)
             ∧ 0 ≤ head' < rx_buffer_total_size_ st
             ∧ hw_in st2 = tape1).
  { destruct (advance (rx_buffer_total_size_ st) head =? tail); cbn [negb].
    - exists head, st1. rewrite mret_eq. split; [reflexivity |].
      split; [apply rx_stored_read |]. split; [exact Hwf |].
      split; [exact Hh | reflexivity].
    - destruct (rx_slot_store_ok (advance (rx_buffer_total_size_ st) head) n
                  0 0 st1 Hwf Hr) as (b & e & Hst & Hlb & Hle).
      eexists _, _. rewrite (bind_done _ _ _ _ _ Hst), mret_eq.
      split; [reflexivity |].
      split; [subst st1; destruct st; eexists _, _, _; funfold; reflexivity |].
      split; [constructor; fsimpl; rewrite ?Hle; subst st1; fsimpl;
              (assumption || lia) |].
      split; [exact Hr | reflexivity]. }
  destruct Hstep as (head1 & st2 & Hrun2 & Hs2 & Hwf2 & Hh1 & Etape2).
  rewrite (bind_done _ _ _ _ _ Hrun2).
  rewrite (u8_small (avail - 1)) by lia.
  assert (Etot : rx_buffer_total_size_ st2 = rx_buffer_total_size_ st).
  { destruct Hs2 as (? & ? & ? & ->). reflexivity. }
  destruct (Z.gtb_spec (avail - 1) 0).
  - rewrite <- Etot in Hwf2, Hh1.
    destruct (IH (avail - 1) head1 st2 Hwf2 Hh1 ltac:(lia) ltac:(lia)
                ltac:(rewrite Etape2; lia))
      as (head' & st' & Hrun3 & Hs3 & Hwf3 & Hh' & Hlen3).
    exists head', st'. split; [exact Hrun3 |].
    split; [exact (rx_stored_trans _ _ _ Hs2 Hs3) |].
    rewrite Etot in Hwf3, Hh'. split; [exact Hwf3 |]. split; [exact Hh' |].
    rewrite Etape2 in Hlen3. lia.
  - rewrite mret_eq. exists head1, st2. split; [reflexivity |].
    split; [exact Hs2 |]. split; [exact Hwf2 |]. split; [exact Hh1 |].
    rewrite Etape2. lia.
Qed.

Lemma rx_wf_new_head (st st' : state) (head : Z) :
  rx_wf st →
  ring_wf SERIAL1_RX_BUFFER_SIZE (rx_buffer_total_size_ st) 0 0
          (rx_buffer st') (rx_buffer_storage_ st') →
  0 ≤ head < rx_buffer_total_size_ st →
  rx_buffer_total_size_ st' = rx_buffer_total_size_ st →
  rx_buffer_tail st' = rx_buffer_tail st →
  rx_buffer_head st' = rx_index head →
  rx_wf st'.
Proof.
  intros [_ _ _ _ _ Htl _ Hti] [Hs Hb Ht Hc _ _ _ _] Hh Et Etl Eh.
  unfold rx_wf. rewrite Et, Etl, Eh.
  pose proof (index_wrap_le SERIAL1_RX_BUFFER_SIZE head ltac:(lia)).
  pose proof (index_wrap_lt SERIAL1_RX_BUFFER_SIZE head).
  unfold rx_index. constructor; (assumption || lia).
Qed.

Lemma isr_receive_single_returns (st : state) :
  rx_wf st → 3 ≤ Z.of_nat (length (hw_in st)) →
  ∃ st', isr_receive_single st = Done tt st'
         ∧ rx_wf st'
         ∧ Z.of_nat (length (hw_in st)) ≤ Z.of_nat (length (hw_in st')) + 3.
Proof.
  intros Hwf Htape. pose proof Hwf as [Hs Hb Ht Hc Hh Htl Hhi Hti].
  unfold isr_receive_single.
  destruct (hw_in st) as [|s1 rest] eqn:Etape; cbn [length] in Htape; [lia |].
  rewrite (bind_hw_read8 _ _ _ _ Etape).
  destruct (nz (Z.land (u8 s1) UART_S1_RDRF)); unfold when at 1.
  2:{ eexists. split; [reflexivity |]. split; [exact Hwf | tape_lia]. }
  destruct (receive_unit_returns (set_hw_in rest st) ltac:(tape_lia))
    as (n & tape1 & Hrun & Hlen).
  rewrite (bind_done _ _ _ _ _ Hrun), set_hw_in_twice. mexec.
  fsimpl_in Hlen.
  pose proof (advance_range (rx_buffer_total_size_ st) (rx_buffer_head st)
                ltac:(lia) ltac:(lia)) as Hr.
  destruct (advance (rx_buffer_total_size_ st) (rx_buffer_head st)
            =? rx_buffer_tail st); cbn [negb]; unfold when.
  - eexists. rewrite skip_eq. split; [reflexivity |].
    split; [exact Hwf | tape_lia].
  - destruct (rx_slot_store_ok
                (advance (rx_buffer_total_size_ st) (rx_buffer_head st)) n
                0 0 (set_hw_in tape1 st) (rx_wf_arrays st _ _ Hwf) Hr)
      as (b & e & Hst & Hlb & Hle).
    rewrite (bind_done _ _ _ _ _ Hst), modify_eq.
    eexists. split; [reflexivity |]. split; [| tape_lia].
    apply (rx_wf_new_head st _
             (advance (rx_buffer_total_size_ st) (rx_buffer_head st)));
      try assumption; try reflexivity.
    fsimpl. pose proof (rx_wf_arrays st _ _ Hwf) as [? ? ? ? ? ? ? ?].
    constructor; rewrite ?Hle; (assumption || lia).
Qed.

Lemma isr_receive_fifo_returns (st : state) :
  rx_wf st → 512 ≤ Z.of_nat (length (hw_in st)) →
  ∃ st', isr_receive_fifo st = Done tt st'
         ∧ rx_wf st'
         ∧ Z.of_nat (length (hw_in st)) ≤ Z.of_nat (length (hw_in st')) + 512.
Proof.
  intros Hwf Htape. pose proof Hwf as [Hs Hb Ht Hc Hh Htl Hhi Hti].
  unfold isr_receive_fifo.
  destruct (hw_in st) as [|s1 [|av [|d rest]]] eqn:Etape;
    cbn [length] in Htape; try lia.
  rewrite (bind_hw_read8 _ _ _ _ Etape).
  destruct (nz (Z.land (u8 s1) (Z.lor UART_S1_RDRF UART_S1_IDLE)));
    unfold when at 1.
  2:{ eexists. split; [reflexivity |]. split; [exact Hwf | tape_lia]. }
  erewrite bind_hw_read8 by (fsimpl; reflexivity).
  assert (Hav : 0 ≤ u8 av < 256) by (unfold u8; apply Z.mod_pos_bound; lia).
  destruct (Z.eqb_spec (u8 av) 0).
  - erewrite bind_hw_read8 by (fsimpl; reflexivity).
    unfold write_UART0_CFIFO. mexec. eexists. split; [reflexivity |].
    split; [exact Hwf | tape_lia].
  - mexec.
    set (st0 := set_hw_in (d :: rest) (set_hw_in (av :: d :: rest) st)).
    destruct (isr_rx_drain_returns (rx_buffer_tail st) 256 (u8 av)
                (rx_buffer_head st) st0 (rx_wf_arrays st _ _ Hwf) Hh
                ltac:(lia) ltac:(lia) ltac:(subst st0; tape_lia))
      as (head' & st1 & Hrun & Hst & Hwf1 & Hh' & Hlen).
    rewrite (bind_done _ _ _ _ _ Hrun). mexec.
    assert (Esame : rx_buffer_total_size_ st1 = rx_buffer_total_size_ st
                    ∧ rx_buffer_tail st1 = rx_buffer_tail st
                    ∧ rts_pin st1 = rts_pin st).
    { destruct Hst as (? & ? & ? & ->). repeat split. }
    destruct Esame as (Et1 & Etl1 & Ep1).
    subst st0. fsimpl_in Hlen. cbn [length] in Hlen.
    unfold when_set, rts_deassert, pin_write. rewrite Ep1.
    assert (Hgoal : ∀ st2,
               rx_buffer st2 = rx_buffer st1 →
               rx_buffer_storage_ st2 = rx_buffer_storage_ st1 →
               rx_buffer_total_size_ st2 = rx_buffer_total_size_ st1 →
               rx_buffer_tail st2 = rx_buffer_tail st1 →
               rx_buffer_head st2 = rx_index head' →
               hw_in st2 = hw_in st1 →
               rx_wf st2
               ∧ Z.of_nat (length (s1 :: av :: d :: rest))
                 ≤ Z.of_nat (length (hw_in st2)) + 512).
    { intros st2 Eb Ee Et Etl Eh Ei. split.
      - apply (rx_wf_new_head st st2 head'); try assumption; try congruence.
        rewrite Eb, Ee. exact Hwf1.
      - rewrite Ei. cbn [length]. lia. }
    destruct (rts_pin st) as [pin|]; mexec.
    + destruct (u32 _ >=? rts_high_watermark_ st1); unfold when; mexec;
        (eexists; split; [reflexivity |]); apply Hgoal; reflexivity.
    + eexists. split; [reflexivity |]. apply Hgoal; reflexivity.
Qed.

(** X11. For every well-formed state of the two rings and every behaviour of the
    hardware, one run of uart0_status_isr returns: it never accesses an array
    outside its bounds nor an extension that is not installed, it reads a
    bounded number of hardware registers, and it leaves both rings well
    formed.  This holds also when the capacity of an extended ring exceeds
    the range of the index type. *)
Theorem uart0_status_isr_safe (st : state) :
  rx_wf st → tx_wf st →
  isr_tape_bound st ≤ Z.of_nat (length (hw_in st)) →
  ∃ st', uart0_status_isr st = Done tt st'
         ∧ rx_wf st' ∧ tx_wf st'
         ∧ Z.of_nat (length (hw_in st))
           ≤ Z.of_nat (length (hw_in st')) + isr_tape_bound st.
Proof.
  intros Hrwf Hwf Htape. unfold isr_tape_bound in *.
  pose proof (wf_total _ _ _ _ _ _ Hwf) as Httot.
  assert (Hrx : ∃ st1,
             (if HAS_KINETISK_UART0_FIFO then isr_receive_fifo
              else isr_receive_single) st = Done tt st1
             ∧ rx_wf st1 ∧ rx_part st st1
             ∧ Z.of_nat (length (hw_in st))
               ≤ Z.of_nat (length (hw_in st1)) + 512).
  { destruct HAS_KINETISK_UART0_FIFO eqn:Ef.
    - destruct (isr_receive_fifo_returns st Hrwf) as (st1 & Hr & ? & ?); [lia |].
      exists st1. split; [exact Hr |]. split; [assumption |].
      split; [apply isr_receive_fifo_frame; exact Hr | lia].
    - destruct (isr_receive_single_returns st Hrwf) as (st1 & Hr & ? & ?); [lia |].
      exists st1. split; [exact Hr |]. split; [assumption |].
      split; [apply isr_receive_single_frame; exact Hr | lia]. }
  destruct Hrx as (st1 & Hrun1 & Hrwf1 & Hq & Hlen1).
  pose proof (tx_wf_same _ _ (rx_part_tx_same _ _ Hq) Hwf) as Hwf1.
  assert (Etot : tx_buffer_total_size_ st1 = tx_buffer_total_size_ st).
  { destruct Hq as (? & ? & ? & ? & ? & ? & ->). reflexivity. }
  assert (Htx : ∃ st2,
             (if HAS_KINETISK_UART0_FIFO then isr_transmit_fifo (UART0_C2 st1)
              else isr_transmit_single (UART0_C2 st1)) st1 = Done tt st2
             ∧ tx_wf st2 ∧ tx_part st1 st2
             ∧ Z.of_nat (length (hw_in st1))
               ≤ Z.of_nat (length (hw_in st2))
                 + 2 * tx_buffer_total_size_ st + 2).
  { destruct HAS_KINETISK_UART0_FIFO.
    - destruct (isr_transmit_fifo_returns (UART0_C2 st1) st1 Hwf1)
        as (st2 & ? & ? & ? & ?); [lia |].
      exists st2. split; [assumption |]. split; [assumption |].
      split; [assumption | lia].
    - destruct (isr_transmit_single_returns (UART0_C2 st1) st1 Hwf1)
        as (st2 & ? & ? & ? & ?); [lia |].
      exists st2. split; [assumption |]. split; [assumption |].
      split; [assumption | lia]. }
  destruct Htx as (st2 & Hrun2 & Hwf2 & Hp & Hlen2).
  destruct (isr_transmit_complete_returns (UART0_C2 st1) st2)
    as (st3 & Hrun3 & Hc & Hlen3); [lia |].
  exists st3. split.
  - unfold uart0_status_isr. rewrite (bind_done _ _ _ _ _ Hrun1). mexec.
    rewrite (bind_done _ _ _ _ _ Hrun2). exact Hrun3.
  - split.
    + pose proof (rx_ring_same_trans _ _ _ (tx_part_rx_same _ _ Hp)
                    (tc_part_rx_same _ _ Hc)) as (E1 & E2 & E3 & E4 & E5).
      unfold rx_wf. rewrite E1, E2, E3, E4, E5. exact Hrwf1.
    + split; [exact (tx_wf_same _ _ (tc_part_tx_same _ _ Hc) Hwf2) | lia].
Qed.

End Safety.

Section NineBits.
Context `{cfg : Config}.

(** ** Units of nine bits *)

Lemma land_pow2_testbit (x k : Z) :
  0 ≤ k → Z.land x (2 ^ k) = if Z.testbit x k then 2 ^ k else 0.
Proof.
  intros Hk. apply Z.bits_inj'. intros i Hi.
  rewrite Z.land_spec, Z.pow2_bits_eqb by lia.
  destruct (Z.eqb_spec k i) as [->|Hne].
  - destruct (Z.testbit x i) eqn:E; cbn [andb].
    + rewrite Z.pow2_bits_true by lia. reflexivity.
    + rewrite Z.bits_0. reflexivity.
  - rewrite andb_false_r. destruct (Z.testbit x k).
    + rewrite Z.pow2_bits_false by lia. reflexivity.
    + rewrite Z.bits_0. reflexivity.
Qed.

Lemma nz_land_pow2 (x k : Z) :
  0 ≤ k → nz (Z.land x (2 ^ k)) = Z.testbit x k.
Proof.
  intros Hk. rewrite land_pow2_testbit by lia.
  destruct (Z.testbit x k); unfold nz.
  - assert (0 < 2 ^ k) by (apply Z.pow_pos_nonneg; lia).
    destruct (Z.eqb_spec (2 ^ k) 0); [lia | reflexivity].
  - reflexivity.
Qed.

Lemma nine_bits_join (n : Z) :
  0 ≤ n < 512 →
  (if Z.testbit n 8 then Z.lor (u8 n) 0x100 else u8 n) = n.
Proof.
  intros Hn. apply Z.bits_inj'. intros i Hi.
  assert (Hhigh : 8 < i → Z.testbit n i = false).
  { intros H. rewrite <- (Z.mod_small n (2 ^ 9)) by lia.
    apply Z.mod_pow2_bits_high. lia. }
  destruct (Z.testbit n 8) eqn:E8.
  - rewrite Z.lor_spec. change 0x100 with (2 ^ 8). unfold u8.
    rewrite Z.pow2_bits_eqb by lia.
    destruct (Z.eqb_spec 8 i) as [<-|Hne].
    + rewrite E8, orb_true_r. reflexivity.
    + rewrite orb_false_r.
      destruct (Z.lt_ge_cases i 8).
      * apply Z.mod_pow2_bits_low. lia.
      * rewrite Z.mod_pow2_bits_high, Hhigh by lia. reflexivity.
  - unfold u8. destruct (Z.lt_ge_cases i 8).
    + apply Z.mod_pow2_bits_low. lia.
    + rewrite Z.mod_pow2_bits_high by lia.
      destruct (Z.eqb_spec i 8) as [->|Hne]; [congruence |].
      rewrite Hhigh by lia. reflexivity.
Qed.

Lemma transmitted_t8 (n : Z) (st : state) :
  use9Bits st ≠ 0 →
  Z.testbit (UART0_C3 (transmitted n st)) 6 = Z.testbit n 8.
Proof.
  intros H9. apply nz_true in H9. unfold transmitted. rewrite H9. fsimpl.
  unfold u8. rewrite Z.mod_pow2_bits_low by lia.
  rewrite Z.lor_spec, Z.land_spec, Z.lnot_spec, Z.shiftr_spec by lia.
  change 0x40 with (2 ^ 6). change 0x100 with (2 ^ 8).
  rewrite Z.land_spec, !Z.pow2_bits_true by lia.
  cbn [negb]. rewrite andb_false_r, andb_true_r. reflexivity.
Qed.

(** X12. The ninth bit survives the way through the registers.  With use9Bits
    set, transmit_unit on a unit below 512 writes its low byte to the data
    register and its bit 8 to T8 (bit 6 of UART0_C3); a receiver that finds
    this bit in R8 (bit 7 of UART0_C3) and this byte in its data register gets
    the same unit from receive_unit. *)
Theorem nine_bit_round_trip (n : Z) (st : state) :
  use9Bits st ≠ 0 → 0 ≤ n < 512 →
  ∃ st' b,
    transmit_unit n st = Done tt st'
    ∧ UART0_D_wr st' = UART0_D_wr st ++ [b]
    ∧ ∀ (rx : state) (c3 : Z) (rest : list Z),
        use9Bits rx ≠ 0 →
        hw_in rx = c3 :: b :: rest →
        Z.testbit c3 7 = Z.testbit (UART0_C3 st') 6 →
        receive_unit rx = Done n (set_hw_in rest rx).
Proof.
  intros H9 Hn. exists (transmitted n st), (u8 n).
  split; [apply transmit_unit_eq |].
  split.
  { unfold transmitted. destruct (nz (use9Bits st)); reflexivity. }
  intros rx c3 rest Hr9 Etape Hbit.
  rewrite transmitted_t8 in Hbit by exact H9.
  rewrite receive_unit_take, Etape. unfold take_unit.
  apply nz_true in Hr9. rewrite Hr9.
  change 0x80 with (2 ^ 7). rewrite nz_land_pow2 by lia.
  unfold u8 at 1. rewrite Z.mod_pow2_bits_low by lia.
  rewrite Hbit.
  replace (u8 (u8 n)) with (u8 n)
    by (symmetry; apply u8_small; apply Z.mod_pos_bound; lia).
  rewrite nine_bits_join by exact Hn. reflexivity.
Qed.

End NineBits.

Section Extension.
Context `{cfg : Config}.

(** ** Extending the TX ring *)


End Extension.

Section FlowControl.
Context `{cfg : Config}.

(** ** RTS flow control *)

(** X14. serial_getchar with an RTS pin configured, on a well-formed RX ring
    with the capacity inside the range of the index type: after a successful
    pop it asserts RTS (drives the pin low) exactly when the occupancy,
    recomputed with the new tail, is at most the low watermark; it never
    deasserts RTS, and on an empty ring it leaves the pin alone. *)
Theorem serial_getchar_rts_resume (st : state) (pin : Z) :
  rx_wf st → rx_fits st → rts_pin st = Some pin →
  ∃ c st', serial_getchar st = Done c st'
           ∧ gpio st'
             = if negb (rx_buffer_head st =? rx_buffer_tail st)
                  && ((rx_buffer_head st' - rx_buffer_tail st')
                      mod rx_buffer_total_size_ st' <=? rts_low_watermark_ st)
               then <[pin := false]> (gpio st)
               else gpio st.
Proof.
  intros Hwf Hfit Hpin.
  destruct (Z.eqb_spec (rx_buffer_head st) (rx_buffer_tail st)) as [E|Hne].
  - exists (-1), st. rewrite serial_getchar_empty by exact E.
    split; reflexivity.
  - destruct (serial_getchar_rts st pin Hwf Hfit Hpin Hne)
      as (c & st' & Hrun & Hg).
    exists c, st'. split; [exact Hrun | exact Hg].
Qed.

Lemma isr_transmit_complete_gpio (c pin : Z) (st st' : state) :
  isr_transmit_complete c st = Done tt st' →
  transmit_pin st ≠ Some (PortOutputRegister pin) →
  gpio st' !! pin = gpio st !! pin.
Proof.
  unfold isr_transmit_complete. intros H Hpin.
  destruct (nz (Z.land c UART_C2_TCIE)); unfold when at 1 in H.
  2:{ injection H as <-. reflexivity. }
  apply hw_read8_inv in H as (s1 & rest & Etape & H).
  destruct (nz (Z.land (u8 s1) UART_S1_TC)); unfold when at 1 in H.
  2:{ injection H as <-. reflexivity. }
  revert H.
  unfold when_set, transmit_deassert, pin_write, write_UART0_C3, write_UART0_C2.
  mexec.
  destruct (transmit_pin st) as [[p|]|];
    destruct KINETISL; unfold when; mexec;
    try (destruct (nz (half_duplex_mode st)); mexec);
    intros [= <-]; fsimpl; try reflexivity.
  all: apply lookup_insert_ne; congruence.
Qed.

Lemma tx_part_gpio (st st' : state) : tx_part st st' → gpio st' = gpio st.
Proof. intros (t & c2 & c3 & dwr & tape & ->). reflexivity. Qed.

(** X15. The handler of the build with the hardware FIFO, on well-formed
    rings with both capacities inside the range of the index type, with an
    RTS pin configured that is not also the transmit pin: whenever it
    returns, it has deasserted RTS (driven the pin high) exactly when it
    drained received units and the occupancy of the RX ring is then at least
    the high watermark; otherwise the level of the pin is as before. *)
Theorem fifo_handler_rts_pause (st st' : state) (pin : Z) :
  HAS_KINETISK_UART0_FIFO = true →
  rx_wf st → rx_fits st → tx_wf st → tx_fits st →
  rts_pin st = Some pin →
  transmit_pin st ≠ Some (PortOutputRegister pin) →
  uart0_status_isr st = Done tt st' →
  gpio st' !! pin
  = match hw_in st with
    | s1 :: av :: _ =>
        if nz (Z.land (u8 s1) (Z.lor UART_S1_RDRF UART_S1_IDLE))
           && negb (u8 av =? 0)
           && (rts_high_watermark_ st
               <=? (rx_buffer_head st' - rx_buffer_tail st')
                   mod rx_buffer_total_size_ st')
        then Some true
        else gpio st !! pin
    | _ => gpio st !! pin
    end.
Proof.
  intros Hf Hrwf Hrfit Hwf Hfit Hpin Htp H. unfold uart0_status_isr in H.
  rewrite Hf in H.
  apply bind_inv in H as ([] & st1 & Hrx & H).
  pose proof (isr_receive_fifo_push st st1 Hf Hrwf Hrfit Hrx)
    as (_ & _ & Hp & _ & Hg).
  pose proof (tx_kept_same st st1 Hwf Hfit (rx_part_tx_same _ _ Hp))
    as (Hwf1 & Hfit1 & _).
  assert (Etp : transmit_pin st1 = transmit_pin st)
    by (apply rx_part_tx_flags; exact Hp).
  rewrite bind_gets in H. apply bind_inv in H as ([] & st2 & Htx & Htc).
  apply isr_transmit_fifo_kept in Htx as [_ Hp2]; try assumption.
  pose proof (tx_part_rx_same _ _ Hp2) as (E1 & E2 & E3 & _).
  pose proof (tc_part_rx_same _ _ (isr_transmit_complete_frame _ _ _ Htc))
    as (F1 & F2 & F3 & _).
  assert (Etp2 : transmit_pin st2 = transmit_pin st1)
    by (apply tx_part_tx_flags; exact Hp2).
  rewrite (isr_transmit_complete_gpio _ pin _ _ Htc) by congruence.
  rewrite (tx_part_gpio _ _ Hp2), Hg, Hpin, F1, F2, F3, E1, E2, E3.
  destruct (hw_in st) as [|s1 [|av rest]]; try reflexivity.
  destruct (_ && _ && _); [apply lookup_insert_eq | reflexivity].
Qed.

End FlowControl.

(** * Properties of the set-up functions *)

(** ** Reasoning about functions on a machine *)

Lemma op_bind_unfold {A B : Type} (op : Op A) (k : A → Op B) (m : machine) :
  (op ≫= k) m = match op m with
                | Returned a m' => k a m'
                | Faulted => Faulted
                | Blocked => Blocked
                end.
Proof. reflexivity. Qed.

Lemma op_bind_reads {A B : Type} (g : machine → A) (k : A → Op B)
      (m : machine) :
  (reads g ≫= k) m = k (g m) m.
Proof. reflexivity. Qed.

Lemma op_bind_changes {B : Type} (g : machine → machine) (k : unit → Op B)
      (m : machine) :
  (changes g ≫= k) m = k tt (g m).
Proof. reflexivity. Qed.

Lemma op_bind_nothing {B : Type} (k : unit → Op B) (m : machine) :
  (nothing ≫= k) m = k tt m.
Proof. reflexivity. Qed.

Lemma op_bind_mret {A B : Type} (a : A) (k : A → Op B) (m : machine) :
  (mret a ≫= k) m = k a m.
Proof. reflexivity. Qed.

Lemma op_bind_assoc {A B C : Type} (op : Op A) (k : A → Op B) (h : B → Op C)
      (m : machine) :
  ((op ≫= k) ≫= h) m = (op ≫= λ a, k a ≫= h) m.
Proof. rewrite !op_bind_unfold. destruct (op m); reflexivity. Qed.

Lemma op_bind_returned {A B : Type} (op : Op A) (k : A → Op B)
      (m m' : machine) (a : A) :
  op m = Returned a m' → (op ≫= k) m = k a m'.
Proof. intros E. rewrite op_bind_unfold, E. reflexivity. Qed.

Lemma op_bind_inv {A B : Type} (op : Op A) (k : A → Op B) (m m2 : machine)
      (b : B) :
  (op ≫= k) m = Returned b m2 →
  ∃ a m1, op m = Returned a m1 ∧ k a m1 = Returned b m2.
Proof.
  rewrite op_bind_unfold. destruct (op m) as [a m1| |]; try discriminate.
  intros E. exists a, m1. split; [reflexivity | exact E].
Qed.

Lemma set_driver_same (m : machine) : set_driver (driver m) m = m.
Proof. destruct m. reflexivity. Qed.

Lemma set_driver_twice (a b : state) (m : machine) :
  set_driver a (set_driver b m) = set_driver a m.
Proof. reflexivity. Qed.

Lemma on_driver_done {A : Type} (f : M A) (m : machine) (a : A) (st : state) :
  f (driver m) = Done a st → on_driver f m = Returned a (set_driver st m).
Proof. intros E. unfold on_driver. rewrite E. reflexivity. Qed.

Lemma on_driver_inv {A : Type} (f : M A) (m m' : machine) (a : A) :
  on_driver f m = Returned a m' →
  ∃ st, f (driver m) = Done a st ∧ m' = set_driver st m.
Proof.
  unfold on_driver. destruct (f (driver m)) as [a' st| |]; try discriminate.
  intros [= -> <-]. exists st. split; reflexivity.
Qed.

Lemma op_bind_driver_modify {B : Type} (g : state → state) (k : unit → Op B)
      (m : machine) :
  (on_driver (modify g) ≫= k) m = k tt (set_driver (g (driver m)) m).
Proof. reflexivity. Qed.

Lemma op_bind_driver_gets {A B : Type} (g : state → A) (k : A → Op B)
      (m : machine) :
  (on_driver (gets g) ≫= k) m = k (g (driver m)) m.
Proof.
  rewrite op_bind_unfold. unfold on_driver, gets.
  rewrite set_driver_same. reflexivity.
Qed.

Lemma reads_eq {A : Type} (g : machine → A) (m : machine) :
  reads g m = Returned (g m) m.
Proof. reflexivity. Qed.

Lemma changes_eq (g : machine → machine) (m : machine) :
  changes g m = Returned tt (g m).
Proof. reflexivity. Qed.

Lemma nothing_eq (m : machine) : nothing m = Returned tt m.
Proof. reflexivity. Qed.

Lemma op_mret_eq {A : Type} (a : A) (m : machine) :
  (mret a : Op A) m = Returned a m.
Proof. reflexivity. Qed.

Lemma on_driver_modify_eq (g : state → state) (m : machine) :
  on_driver (modify g) m = Returned tt (set_driver (g (driver m)) m).
Proof. reflexivity. Qed.

Lemma op_bind_driver_gets_modify {A B : Type} (g : state → A)
      (h : A → state → state) (k : unit → Op B) (m : machine) :
  (on_driver (x ← gets g; modify (h x)) ≫= k) m
  = k tt (set_driver (h (g (driver m)) (driver m)) m).
Proof. reflexivity. Qed.

Lemma on_driver_hw_read8 {B : Type} (k : Z → Op B) (m : machine) (v : Z)
      (rest : list Z) :
  hw_in (driver m) = v :: rest →
  (on_driver hw_read8 ≫= k) m
  = k (u8 v) (set_driver (set_hw_in rest (driver m)) m).
Proof.
  intros E. rewrite op_bind_unfold. unfold on_driver, hw_read8.
  rewrite bind_unfold. unfold hw_read. rewrite E. reflexivity.
Qed.

Lemma on_driver_hw_read8_inv {B : Type} (k : Z → Op B) (m m' : machine)
      (b : B) :
  (on_driver hw_read8 ≫= k) m = Returned b m' →
  ∃ v rest, hw_in (driver m) = v :: rest
            ∧ k (u8 v) (set_driver (set_hw_in rest (driver m)) m)
              = Returned b m'.
Proof.
  rewrite op_bind_unfold. unfold on_driver, hw_read8.
  rewrite bind_unfold. unfold hw_read.
  destruct (hw_in (driver m)) as [|v rest]; [discriminate |].
  intros H. exists v, rest. split; [reflexivity | exact H].
Qed.

Ltac ostep :=
  repeat first
    [ rewrite op_bind_assoc
    | rewrite op_bind_reads | rewrite op_bind_changes
    | rewrite op_bind_nothing | rewrite op_bind_mret
    | rewrite op_bind_driver_modify | rewrite op_bind_driver_gets
    | rewrite reads_eq | rewrite changes_eq | rewrite nothing_eq
    | rewrite op_mret_eq | rewrite on_driver_modify_eq
    | rewrite set_driver_twice ].

(** Reduce the projections of updated machines. *)
Ltac osimpl :=
  cbn [driver rx_pin_num tx_pin_num CORE_PIN_CONFIG UART0_BDH UART0_BDL
       UART0_C1 UART0_C4 UART0_S2_wr UART0_PFIFO UART0_TWFIFO UART0_RWFIFO
       UART0_MODEM irq_priority irq_enabled set_driver set_rx_pin_num
       set_tx_pin_num set_CORE_PIN_CONFIG set_UART0_BDH set_UART0_BDL
       set_UART0_C1 set_UART0_C4 set_UART0_S2_wr set_UART0_PFIFO
       set_UART0_TWFIFO set_UART0_RWFIFO set_UART0_MODEM set_irq_priority
       set_irq_enabled].

Ltac oexec := repeat (progress (ostep; osimpl)).

Section Begin.
Context `{cfg : Config} `{kin : Kinetis}.

(** ** serial_begin *)

Lemma land_low_bits (x n : Z) : 0 ≤ n → Z.land x (Z.ones n) = x mod 2 ^ n.
Proof. intros H. apply Z.land_ones. exact H. Qed.

Lemma baud_fields_kinetisk (x : Z) :
  0 ≤ x →
  u8 (Z.land (Z.shiftr x 13) 0x1F) * 2 ^ 13
  + u8 (Z.land (Z.shiftr x 5) 0xFF) * 2 ^ 5
  + u8 (Z.land x 0x1F)
  = x mod 2 ^ 18.
Proof.
  intros Hx.
  change 0x1F with (Z.ones 5). change 0xFF with (Z.ones 8).
  rewrite !land_low_bits, !Z.shiftr_div_pow2 by lia.
  assert (H5 : 0 ≤ x mod 2 ^ 5 < 2 ^ 5) by (apply Z.mod_pos_bound; lia).
  assert (H8 : 0 ≤ (x / 2 ^ 5) mod 2 ^ 8 < 2 ^ 8)
    by (apply Z.mod_pos_bound; lia).
  assert (H13 : 0 ≤ (x / 2 ^ 13) mod 2 ^ 5 < 2 ^ 5)
    by (apply Z.mod_pos_bound; lia).
  rewrite !u8_small by lia.
  change (2 ^ 18) with (2 ^ 5 * 2 ^ 13).
  rewrite Z.rem_mul_r by lia.
  change (2 ^ 13) with (2 ^ 8 * 2 ^ 5) at 3.
  rewrite Z.rem_mul_r by lia.
  rewrite Z.div_div by lia.
  change (2 ^ 5 * 2 ^ 8) with (2 ^ 13). lia.
Qed.

Lemma baud_fields_kinetisl (x : Z) :
  0 ≤ x →
  u8 (Z.land (Z.shiftr x 8) 0x1F) * 2 ^ 8 + u8 (Z.land x 0xFF)
  = x mod 2 ^ 13.
Proof.
  intros Hx.
  change 0x1F with (Z.ones 5). change 0xFF with (Z.ones 8).
  rewrite !land_low_bits, !Z.shiftr_div_pow2 by lia.
  assert (H8 : 0 ≤ x mod 2 ^ 8 < 2 ^ 8) by (apply Z.mod_pos_bound; lia).
  assert (H5 : 0 ≤ (x / 2 ^ 8) mod 2 ^ 5 < 2 ^ 5)
    by (apply Z.mod_pos_bound; lia).
  rewrite !u8_small by lia.
  change (2 ^ 13) with (2 ^ 8 * 2 ^ 5).
  rewrite Z.rem_mul_r by lia. lia.
Qed.

Lemma switch_rx_pin_returns (pin : Z) (v : Z → Z) (m : machine) :
  Machine.switch_rx_pin pin v m
  = Returned tt
      (set_CORE_PIN_CONFIG
         (match Machine.rx_pin_case pin with
          | Some k => <[pin := u32 (v k)]> (CORE_PIN_CONFIG m)
          | None => CORE_PIN_CONFIG m
          end) m).
Proof.
  unfold Machine.switch_rx_pin, Machine.write_CORE_PIN_CONFIG.
  destruct (Machine.rx_pin_case pin); [reflexivity |].
  destruct m. reflexivity.
Qed.

Lemma switch_tx_pin_returns (pin : Z) (v : Z → Z) (m : machine) :
  Machine.switch_tx_pin pin v m
  = Returned tt
      (set_CORE_PIN_CONFIG
         (match Machine.tx_pin_case pin with
          | Some k => <[pin := u32 (v k)]> (CORE_PIN_CONFIG m)
          | None => CORE_PIN_CONFIG m
          end) m).
Proof.
  unfold Machine.switch_tx_pin, Machine.write_CORE_PIN_CONFIG.
  destruct (Machine.tx_pin_case pin); [reflexivity |].
  destruct m. reflexivity.
Qed.

(** X16. serial_begin stores the divisor in the baud rate registers.  With
    HAS_KINETISK_UART0 the divisor is raised to at least 32 and its bits 17
    to 13 go to UART0_BDH, bits 12 to 5 to UART0_BDL and bits 4 to 0 to
    UART0_C4; with HAS_KINETISL_UART0 it is raised to at least 1 and its bits
    12 to 8 go to UART0_BDH and bits 7 to 0 to UART0_BDL.  Read back together,
    the registers give the divisor modulo 2^18, resp. 2^13. *)
Theorem serial_begin_baud_divisor (divisor : Z) (m : machine) :
  ∃ m', Machine.serial_begin divisor m = Returned tt m'
        ∧ (HAS_KINETISK_UART0 = true →
           UART0_BDH m' * 2 ^ 13 + UART0_BDL m' * 2 ^ 5 + UART0_C4 m'
           = Z.max (u32 divisor) 32 mod 2 ^ 18)
        ∧ (HAS_KINETISK_UART0 = false → HAS_KINETISL_UART0 = true →
           UART0_BDH m' * 2 ^ 8 + UART0_BDL m'
           = Z.max (u32 divisor) 1 mod 2 ^ 13).
Proof.
  assert (Hd : 0 ≤ u32 divisor) by (apply Z.mod_pos_bound; lia).
  unfold Machine.serial_begin. cbv zeta. oexec.
  rewrite (op_bind_returned _ _ _ _ _ (switch_rx_pin_returns _ _ _)). oexec.
  rewrite (op_bind_returned _ _ _ _ _ (switch_tx_pin_returns _ _ _)).
  unfold Machine.set_baud_kinetisk, Machine.set_baud_kinetisl. cbv zeta.
  destruct HAS_KINETISK_UART0; [| destruct HAS_KINETISL_UART0].
  - destruct HAS_KINETISK_UART0_FIFO; oexec;
      (eexists; split; [reflexivity |]); osimpl;
      (split; [intros _ | intros [=]]);
      destruct (Z.ltb_spec (u32 divisor) 32);
      rewrite baud_fields_kinetisk by lia; f_equal; lia.
  - oexec. eexists. split; [reflexivity |]. osimpl.
    split; [intros [=] | intros _ _].
    destruct (Z.ltb_spec (u32 divisor) 1);
      rewrite baud_fields_kinetisl by lia; f_equal; lia.
  - oexec. eexists. split; [reflexivity |].
    split; intros; discriminate.
Qed.

Lemma serial_begin_state (st : state) :
  run serial_begin st
  = set_UART0_C2 (u8 C2_TX_INACTIVE)
      (set_transmitting 0
         (set_tx_buffer_tail 0
            (set_tx_buffer_head 0
               (set_rx_buffer_tail 0
                  (set_rx_buffer_head 0
                     (set_SIM_SCGC4
                        (u32 (Z.lor (SIM_SCGC4 st) SIM_SCGC4_UART0)) st)))))).
Proof. reflexivity. Qed.

(** What serial_begin does to the driver state is what the model of the
    driver proper says; the configuration registers aside, it leaves the pin
    numbers alone and enables the interrupt at IRQ_PRIORITY. *)
Lemma serial_begin_driver (divisor : Z) (m : machine) :
  ∃ m', Machine.serial_begin divisor m = Returned tt m'
        ∧ driver m' = run serial_begin (driver m)
        ∧ irq_enabled m' = true
        ∧ irq_priority m' = IRQ_PRIORITY
        ∧ rx_pin_num m' = rx_pin_num m
        ∧ tx_pin_num m' = tx_pin_num m
        ∧ CORE_PIN_CONFIG m' = begin_pins m.
Proof.
  rewrite serial_begin_state. unfold begin_pins.
  unfold Machine.serial_begin. cbv zeta. oexec.
  rewrite (op_bind_returned _ _ _ _ _ (switch_rx_pin_returns _ _ _)). oexec.
  rewrite (op_bind_returned _ _ _ _ _ (switch_tx_pin_returns _ _ _)).
  unfold Machine.set_baud_kinetisk, Machine.set_baud_kinetisl, write_UART0_C2.
  cbv zeta.
  destruct HAS_KINETISK_UART0; [| destruct HAS_KINETISL_UART0];
    try destruct HAS_KINETISK_UART0_FIFO; oexec;
    (eexists; split; [reflexivity |]); osimpl; repeat split.
Qed.

Lemma clock_gate_on (s : Z) :
  0 < SIM_SCGC4_UART0 < 2 ^ 32 →
  Z.land (u32 (Z.lor s SIM_SCGC4_UART0)) SIM_SCGC4_UART0 = SIM_SCGC4_UART0.
Proof.
  intros Hu. apply Z.bits_inj'. intros i Hi.
  rewrite Z.land_spec.
  destruct (Z.testbit SIM_SCGC4_UART0 i) eqn:E; [| apply andb_false_r].
  rewrite andb_true_r.
  assert (Hlt : i < 32).
  { destruct (Z.lt_ge_cases i 32) as [|Hge]; [assumption |].
    rewrite <- (Z.mod_small SIM_SCGC4_UART0 (2 ^ 32)) in E by lia.
    rewrite Z.mod_pow2_bits_high in E by lia. discriminate. }
  unfold u32. rewrite Z.mod_pow2_bits_low, Z.lor_spec, E by lia.
  apply orb_true_r.
Qed.

(** X17. serial_begin makes the driver ready from any state in which the
    arrays cover the capacities: both rings are well formed and empty, the
    clock gate is on, nothing is being transmitted, the interrupt enables are
    C2_TX_INACTIVE and the status interrupt is enabled at IRQ_PRIORITY.  An
    installed extension with its capacity and watermarks, the transmit pin and
    the RTS pin are kept. *)
Theorem serial_begin_establishes (divisor : Z) (m : machine) :
  ring_wf SERIAL1_TX_BUFFER_SIZE (tx_buffer_total_size_ (driver m)) 0 0
          (tx_buffer (driver m)) (tx_buffer_storage_ (driver m)) →
  ring_wf SERIAL1_RX_BUFFER_SIZE (rx_buffer_total_size_ (driver m)) 0 0
          (rx_buffer (driver m)) (rx_buffer_storage_ (driver m)) →
  0 < SIM_SCGC4_UART0 < 2 ^ 32 →
  ∃ m', Machine.serial_begin divisor m = Returned tt m'
        ∧ tx_wf (driver m') ∧ rx_wf (driver m')
        ∧ ¬ clock_gated (driver m')
        ∧ tx_pending (driver m') = [] ∧ rx_pending (driver m') = []
        ∧ transmitting (driver m') = 0
        ∧ UART0_C2 (driver m') = u8 C2_TX_INACTIVE
        ∧ irq_enabled m' = true ∧ irq_priority m' = IRQ_PRIORITY
        ∧ tx_buffer_storage_ (driver m') = tx_buffer_storage_ (driver m)
        ∧ rx_buffer_storage_ (driver m') = rx_buffer_storage_ (driver m)
        ∧ tx_buffer_total_size_ (driver m') = tx_buffer_total_size_ (driver m)
        ∧ rx_buffer_total_size_ (driver m') = rx_buffer_total_size_ (driver m)
        ∧ rts_low_watermark_ (driver m') = rts_low_watermark_ (driver m)
        ∧ rts_high_watermark_ (driver m') = rts_high_watermark_ (driver m)
        ∧ transmit_pin (driver m') = transmit_pin (driver m)
        ∧ rts_pin (driver m') = rts_pin (driver m).
Proof.
  intros Htx Hrx Hu.
  destruct (serial_begin_driver divisor m) as (m' & Hrun & Hd & Hen & Hpr & _).
  exists m'. split; [exact Hrun |].
  rewrite Hd, serial_begin_state.
  split; [exact Htx |]. split; [exact Hrx |].
  split.
  { unfold clock_gated. fsimpl. rewrite clock_gate_on by exact Hu. lia. }
  split.
  { unfold tx_pending. fsimpl. apply ring_units_empty.
    destruct Htx as [_ _ Ht _ _ _ _ _]. lia. }
  split.
  { unfold rx_pending. fsimpl. apply ring_units_empty.
    destruct Hrx as [_ _ Ht _ _ _ _ _]. lia. }
  fsimpl. repeat split; assumption.
Qed.

End Begin.

Section PinSelection.
Context `{cfg : Config} `{kin : Kinetis}.

(** ** Selecting the RX and TX pins *)

Lemma rx_pin_case_pins (p k : Z) :
  Machine.rx_pin_case p = Some k →
  p = 0 ∨ p = 21 ∨ p = 3 ∨ p = 25 ∨ p = 27.
Proof.
  unfold Machine.rx_pin_case.
  destruct (Z.eqb_spec p 0); [lia |].
  destruct (Z.eqb_spec p 21); [lia |].
  destruct (Z.eqb_spec p 3); [lia |].
  destruct (Z.eqb_spec p 25); [lia |].
  destruct (Z.eqb_spec p 27); [lia |].
  rewrite !andb_false_r. discriminate.
Qed.

Lemma tx_pin_case_pins (p k : Z) :
  Machine.tx_pin_case p = Some k →
  p = 1 ∨ p = 5 ∨ p = 4 ∨ p = 24 ∨ p = 26.
Proof.
  unfold Machine.tx_pin_case.
  destruct (Z.eqb_spec p 1); [lia |].
  destruct (Z.eqb_spec p 5); [lia |].
  destruct (Z.eqb_spec p 4); [lia |].
  destruct (Z.eqb_spec p 24); [lia |].
  destruct (Z.eqb_spec p 26); [lia |].
  rewrite !andb_false_r. discriminate.
Qed.

Lemma set_CORE_PIN_CONFIG_twice (a b : gmap Z Z) (m : machine) :
  set_CORE_PIN_CONFIG a (set_CORE_PIN_CONFIG b m) = set_CORE_PIN_CONFIG a m.
Proof. reflexivity. Qed.

Lemma serial_set_rx_result (pin : Z) (m : machine) :
  0 ≤ pin < 256 →
  Machine.serial_set_rx pin m
  = Returned tt
      (if pin =? rx_pin_num m then m
       else
         set_rx_pin_num pin
           (if nz (Z.land (SIM_SCGC4 (driver m)) SIM_SCGC4_UART0) then
              set_CORE_PIN_CONFIG
                (let released :=
                   match Machine.rx_pin_case (rx_pin_num m) with
                   | Some _ => <[rx_pin_num m := 0]> (CORE_PIN_CONFIG m)
                   | None => CORE_PIN_CONFIG m
                   end in
                 match Machine.rx_pin_case pin with
                 | Some k =>
                     <[pin := u32 (Machine.lor4 PORT_PCR_PE PORT_PCR_PS
                                     PORT_PCR_PFE (PORT_PCR_MUX k))]> released
                 | None => released
                 end) m
            else m)).
Proof.
  intros Hp. unfold Machine.serial_set_rx. cbv zeta.
  rewrite u8_small by lia. oexec.
  destruct (pin =? rx_pin_num m); [reflexivity |]. oexec.
  destruct (nz (Z.land (SIM_SCGC4 (driver m)) SIM_SCGC4_UART0));
    unfold provided; oexec; [| reflexivity].
  rewrite (op_bind_returned _ _ _ _ _ (switch_rx_pin_returns _ _ _)).
  rewrite (op_bind_returned _ _ _ _ _ (switch_rx_pin_returns _ _ _)).
  oexec. rewrite set_CORE_PIN_CONFIG_twice. reflexivity.
Qed.

(** X18. Selecting the RX pin before or after serial_begin.  For a pin that
    can carry UART0 RX in this build, serial_set_rx followed by serial_begin
    and serial_begin followed by serial_set_rx both end with the pin recorded
    in rx_pin_num and its configuration register set to pull-up, filter and
    the multiplexer setting of the pin; in the second order a different pin
    that was routed before is released (its register is set to 0). *)
Theorem rx_pin_selection (pin k divisor : Z) (m : machine) :
  0 ≤ pin < 256 → Machine.rx_pin_case pin = Some k →
  0 < SIM_SCGC4_UART0 < 2 ^ 32 →
  let routed := u32 (Machine.lor4 PORT_PCR_PE PORT_PCR_PS PORT_PCR_PFE
                                  (PORT_PCR_MUX k)) in
  (∃ m1 m2, Machine.serial_set_rx pin m = Returned tt m1
            ∧ Machine.serial_begin divisor m1 = Returned tt m2
            ∧ rx_pin_num m2 = pin
            ∧ CORE_PIN_CONFIG m2 !! pin = Some routed)
  ∧ (∃ m1 m2, Machine.serial_begin divisor m = Returned tt m1
              ∧ Machine.serial_set_rx pin m1 = Returned tt m2
              ∧ rx_pin_num m2 = pin
              ∧ CORE_PIN_CONFIG m2 !! pin = Some routed
              ∧ (rx_pin_num m ≠ pin →
                 is_Some (Machine.rx_pin_case (rx_pin_num m)) →
                 CORE_PIN_CONFIG m2 !! rx_pin_num m = Some 0)).
Proof.
  intros Hp Hk Hu routed.
  assert (Hbegin : ∀ x, rx_pin_num x = pin →
            begin_pins x !! pin = Some routed).
  { intros x Ex. unfold begin_pins. cbv zeta. rewrite Ex, Hk.
    destruct (Machine.tx_pin_case (tx_pin_num x)) as [k'|] eqn:Et.
    - apply tx_pin_case_pins in Et. apply rx_pin_case_pins in Hk.
      rewrite lookup_insert_ne by lia. apply lookup_insert_eq.
    - apply lookup_insert_eq. }
  split.
  - eexists. rewrite (serial_set_rx_result pin m Hp).
    match goal with
    | |- ∃ m2, Returned tt ?x = Returned tt ?y ∧ _ =>
        destruct (serial_begin_driver divisor x)
          as (m2 & Hrun & _ & _ & _ & Erx & _ & Epc)
    end.
    exists m2. split; [reflexivity |]. split; [exact Hrun |].
    assert (Erx1 : rx_pin_num m2 = pin).
    { rewrite Erx. destruct (Z.eqb_spec pin (rx_pin_num m)); [congruence |].
      reflexivity. }
    split; [exact Erx1 |]. rewrite Epc. apply Hbegin.
    rewrite <- Erx. exact Erx1.
  - destruct (serial_begin_driver divisor m)
      as (m1 & Hrun & Hd & _ & _ & Erx & _ & Epc).
    exists m1. eexists. split; [exact Hrun |].
    rewrite (serial_set_rx_result pin m1 Hp).
    split; [reflexivity |].
    rewrite Erx. destruct (Z.eqb_spec pin (rx_pin_num m)) as [E|Hne].
    + split; [congruence |]. split; [| congruence].
      rewrite Epc. apply Hbegin. congruence.
    + osimpl. split; [reflexivity |].
      rewrite Hd, serial_begin_state. fsimpl.
      rewrite clock_gate_on by exact Hu.
      replace (nz SIM_SCGC4_UART0) with true
        by (symmetry; apply nz_true; lia).
      osimpl. cbv zeta. rewrite Hk.
      split; [apply lookup_insert_eq |].
      intros _ [k0 Ek0]. rewrite Ek0.
      rewrite lookup_insert_ne by congruence. apply lookup_insert_eq.
Qed.

Lemma lor_flag_128 (pin : Z) :
  0 ≤ pin < 128 →
  u8 (Z.lor (u8 pin) 128) = pin + 128
  ∧ Z.land (pin + 128) 127 = pin
  ∧ Z.land pin 127 = pin.
Proof.
  intros Hp. rewrite (u8_small pin) by lia.
  assert (Hbit : Z.testbit pin 7 = false).
  { apply Z.testbit_false; [lia |]. rewrite Z.div_small by lia. reflexivity. }
  assert (Hland : Z.land pin 128 = 0).
  { change 128 with (2 ^ 7). rewrite land_pow2_testbit, Hbit by lia.
    reflexivity. }
  assert (Hlor : Z.lor pin 128 = pin + 128).
  { rewrite <- Z.lxor_lor, <- Z.add_nocarry_lxor by exact Hland.
    reflexivity. }
  rewrite Hlor, u8_small by lia.
  change 127 with (Z.ones 7). rewrite !Z.land_ones by lia.
  split; [reflexivity |]. split.
  - rewrite <- (Z.mul_1_l (2 ^ 7)) at 1. change 128 with (1 * 2 ^ 7).
    rewrite Z.mod_add by lia. apply Z.mod_small. lia.
  - apply Z.mod_small. lia.
Qed.

Lemma serial_set_tx_result (pin opendrain : Z) (m : machine) :
  let stored := if nz (u8 opendrain) then u8 (Z.lor (u8 pin) 128)
                else u8 pin in
  let drive := if nz (u8 opendrain) then Z.lor PORT_PCR_DSE PORT_PCR_ODE
               else Z.lor PORT_PCR_DSE PORT_PCR_SRE in
  Machine.serial_set_tx pin opendrain m
  = Returned tt
      (if stored =? tx_pin_num m then m
       else
         set_tx_pin_num stored
           (if nz (Z.land (SIM_SCGC4 (driver m)) SIM_SCGC4_UART0) then
              set_CORE_PIN_CONFIG
                (let released :=
                   match Machine.tx_pin_case (Z.land (tx_pin_num m) 127) with
                   | Some _ =>
                       <[Z.land (tx_pin_num m) 127 := 0]> (CORE_PIN_CONFIG m)
                   | None => CORE_PIN_CONFIG m
                   end in
                 match Machine.tx_pin_case (Z.land stored 127) with
                 | Some k =>
                     <[Z.land stored 127
                       := u32 (Z.lor drive (PORT_PCR_MUX k))]> released
                 | None => released
                 end) m
            else m)).
Proof.
  intros stored drive. unfold Machine.serial_set_tx. cbv zeta.
  fold stored. fold drive. oexec.
  destruct (stored =? tx_pin_num m); [reflexivity |]. oexec.
  destruct (nz (Z.land (SIM_SCGC4 (driver m)) SIM_SCGC4_UART0));
    unfold provided; oexec; [| reflexivity].
  rewrite (op_bind_returned _ _ _ _ _ (switch_tx_pin_returns _ _ _)).
  rewrite (op_bind_returned _ _ _ _ _ (switch_tx_pin_returns _ _ _)).
  oexec. rewrite set_CORE_PIN_CONFIG_twice. reflexivity.
Qed.

(** X19. Selecting the TX pin before or after serial_begin.  For a pin below
    128 that can carry UART0 TX in this build, serial_set_tx records the pin
    in tx_pin_num, with 128 added when open drain is asked for.  Called after
    serial_begin for a new selection, it sets the configuration register of
    the pin to the drive mode asked for (DSE with ODE for open drain, DSE with
    SRE otherwise) and the multiplexer setting of the pin.  Called before
    serial_begin with the clock gate off, it only records the selection, and
    serial_begin then configures the pin if the selection is not open drain;
    an open-drain selection matches no case of the switch in serial_begin,
    which leaves the register of the pin as it was. *)
Theorem tx_pin_selection (pin k divisor opendrain : Z) (m : machine) :
  0 ≤ pin < 128 → Machine.tx_pin_case pin = Some k →
  0 ≤ opendrain < 256 →
  0 < SIM_SCGC4_UART0 < 2 ^ 32 →
  let stored := if nz opendrain then pin + 128 else pin in
  let drive := if nz opendrain then Z.lor PORT_PCR_DSE PORT_PCR_ODE
               else Z.lor PORT_PCR_DSE PORT_PCR_SRE in
  (∃ m1 m2, Machine.serial_begin divisor m = Returned tt m1
            ∧ Machine.serial_set_tx pin opendrain m1 = Returned tt m2
            ∧ tx_pin_num m2 = stored
            ∧ (tx_pin_num m ≠ stored →
               CORE_PIN_CONFIG m2 !! pin
               = Some (u32 (Z.lor drive (PORT_PCR_MUX k)))))
  ∧ (clock_gated (driver m) →
     ∃ m1 m2, Machine.serial_set_tx pin opendrain m = Returned tt m1
              ∧ Machine.serial_begin divisor m1 = Returned tt m2
              ∧ tx_pin_num m2 = stored
              ∧ CORE_PIN_CONFIG m2 !! pin
                = if nz opendrain then CORE_PIN_CONFIG m !! pin
                  else Some (u32 (Machine.lor3 PORT_PCR_DSE PORT_PCR_SRE
                                               (PORT_PCR_MUX k)))).
Proof.
  intros Hp Hk Hod Hu stored drive.
  destruct (lor_flag_128 pin Hp) as (Eflag & Emask & Emask0).
  assert (Estored : (if nz (u8 opendrain) then u8 (Z.lor (u8 pin) 128)
                     else u8 pin) = stored).
  { subst stored. rewrite (u8_small opendrain) by lia.
    destruct (nz opendrain); [exact Eflag | apply u8_small; lia]. }
  assert (Emasked : Z.land stored 127 = pin).
  { subst stored. destruct (nz opendrain); assumption. }
  assert (Edrive : (if nz (u8 opendrain)
                    then Z.lor PORT_PCR_DSE PORT_PCR_ODE
                    else Z.lor PORT_PCR_DSE PORT_PCR_SRE) = drive).
  { subst drive. rewrite (u8_small opendrain) by lia. reflexivity. }
  split.
  - destruct (serial_begin_driver divisor m)
      as (m1 & Hrun & Hd & _ & _ & _ & Etx & Epc).
    exists m1. eexists. split; [exact Hrun |].
    pose proof (serial_set_tx_result pin opendrain m1) as Hres.
    cbv zeta in Hres. rewrite Estored, Edrive, Emasked, Hk in Hres.
    split; [exact Hres |].
    rewrite Etx. destruct (Z.eqb_spec stored (tx_pin_num m)) as [E|Hne].
    + split; [congruence |]. intros Hx. congruence.
    + osimpl. split; [reflexivity |]. intros _.
      rewrite Hd, serial_begin_state. fsimpl.
      rewrite clock_gate_on by exact Hu.
      replace (nz SIM_SCGC4_UART0) with true
        by (symmetry; apply nz_true; lia).
      osimpl. apply lookup_insert_eq.
  - intros Hg.
    pose proof (serial_set_tx_result pin opendrain m) as Hres.
    cbv zeta in Hres. rewrite Estored, Edrive, Emasked, Hk in Hres.
    apply nz_false in Hg. rewrite Hg in Hres.
    set (m1 := if stored =? tx_pin_num m then m
               else set_tx_pin_num stored m) in Hres.
    assert (Ex : tx_pin_num m1 = stored ∧ rx_pin_num m1 = rx_pin_num m
                 ∧ CORE_PIN_CONFIG m1 = CORE_PIN_CONFIG m).
    { subst m1. destruct (Z.eqb_spec stored (tx_pin_num m)).
      - split; [congruence | split; reflexivity].
      - split; [reflexivity | split; reflexivity]. }
    destruct Ex as (Ex1 & Ex2 & Ex3).
    destruct (serial_begin_driver divisor m1)
      as (m2 & Hrun & _ & _ & _ & Erx & Etx & Epc).
    exists m1, m2. split; [exact Hres |].
    split; [exact Hrun |]. rewrite Etx, Epc. split; [exact Ex1 |].
    unfold begin_pins. cbv zeta. rewrite Ex1, Ex2, Ex3.
    assert (Hrxne : ∀ k', Machine.rx_pin_case (rx_pin_num m) = Some k' →
                          rx_pin_num m ≠ pin).
    { intros k' Hk'. apply rx_pin_case_pins in Hk'.
      apply tx_pin_case_pins in Hk. lia. }
    subst stored. destruct (nz opendrain).
    + destruct (Machine.tx_pin_case (pin + 128)) as [k'|] eqn:Ek'.
      { apply tx_pin_case_pins in Ek'. lia. }
      destruct (Machine.rx_pin_case (rx_pin_num m)) as [k'|] eqn:Er;
        [| reflexivity].
      apply lookup_insert_ne. apply (Hrxne k'). reflexivity.
    + rewrite Hk. apply lookup_insert_eq.
Qed.

End PinSelection.

Section Shutdown.
Context `{cfg : Config} `{kin : Kinetis}.

(** ** Shutting down: serial_end *)

Lemma uart0_status_isr_rts_pin (st st' : state) :
  tx_wf st → tx_fits st →
  uart0_status_isr st = Done tt st' → rts_pin st' = rts_pin st.
Proof.
  intros Hwf Hfit H. unfold uart0_status_isr in H.
  apply bind_inv in H as ([] & st1 & Hrx & H).
  assert (Hp : rx_part st st1).
  { destruct HAS_KINETISK_UART0_FIFO;
      [apply isr_receive_fifo_frame | apply isr_receive_single_frame];
      exact Hrx. }
  pose proof (tx_kept_same st st1 Hwf Hfit (rx_part_tx_same _ _ Hp))
    as (Hwf1 & Hfit1 & _).
  rewrite bind_gets in H. apply bind_inv in H as ([] & st2 & Htx & Htc).
  assert (Hp2 : tx_part st1 st2).
  { destruct HAS_KINETISK_UART0_FIFO;
      [eapply isr_transmit_fifo_kept | eapply isr_transmit_single_kept];
      eassumption. }
  apply isr_transmit_complete_frame in Htc.
  destruct Hp as (b & e & h & g & cf & t & ->).
  destruct Hp2 as (t2 & c2 & c3 & dwr & tape & ->).
  destruct Htc as (tr & g3 & c2' & c3' & tape' & ->).
  reflexivity.
Qed.

Lemma wait_idle_rts_pin (fuel : nat) :
  ∀ st st' : state,
    tx_wf st → tx_fits st →
    wait_idle fuel yield st = Done tt st' → rts_pin st' = rts_pin st.
Proof.
  induction fuel as [|fuel IH]; intros st st' Hwf Hfit H; [discriminate |].
  cbn [wait_idle] in H. rewrite bind_gets in H.
  destruct (nz (transmitting st)).
  2:{ rewrite skip_eq in H. injection H as <-. reflexivity. }
  apply bind_inv in H as ([] & st1 & Hturn & H).
  unfold yield in H. rewrite bind_skip in H.
  unfold idle_turn in Hturn.
  apply hw_read_inv in Hturn as (irq & rest & Etape & Hturn).
  pose proof (tx_kept_read st rest Hwf Hfit) as (Hwf0 & Hfit0 & _).
  destruct (nz irq); unfold when in Hturn.
  - pose proof (uart0_status_isr_kept _ _ Hwf0 Hfit0 Hturn)
      as (Hwf1 & Hfit1 & _).
    apply uart0_status_isr_rts_pin in Hturn; [| assumption | assumption].
    rewrite (IH st1 st' Hwf1 Hfit1 H), Hturn. reflexivity.
  - injection Hturn as <-. rewrite (IH _ st' Hwf0 Hfit0 H). reflexivity.
Qed.

(** X20. serial_end on a well-formed TX ring with the capacity inside the
    range of the index type.  With the clock gate of UART0 off it returns at
    once and changes nothing.  With the gate on, whenever it returns: nothing
    is being transmitted and nothing was added to, lost from or reordered in
    the stream of transmitted and pending bytes; the status interrupt is
    disabled and UART0_C2 is zero; the RX ring is empty, so that
    serial_available gives 0; the RX and TX pins that were selected are back
    to pull-up inputs, multiplexer setting 1; a configured RTS pin is
    deasserted; and the clock gate is still on.  It does return when nothing
    is being transmitted and the status and data registers can be read. *)
Theorem serial_end_shuts_down (m : machine) :
  tx_wf (driver m) → tx_fits (driver m) →
  (clock_gated (driver m) → Machine.serial_end m = Returned tt m)
  ∧ (∀ m', ¬ clock_gated (driver m) →
          Machine.serial_end m = Returned tt m' →
          let input := u32 (Machine.lor3 PORT_PCR_PE PORT_PCR_PS
                                         (PORT_PCR_MUX 1)) in
          transmitting (driver m') = 0
          ∧ tx_stream (driver m') = tx_stream (driver m)
          ∧ irq_enabled m' = false
          ∧ UART0_C2 (driver m') = 0
          ∧ serial_available (driver m') = Done 0 (driver m')
          ∧ (is_Some (Machine.rx_pin_case (rx_pin_num m)) →
             CORE_PIN_CONFIG m' !! rx_pin_num m = Some input)
          ∧ (is_Some (Machine.tx_pin_case (Z.land (tx_pin_num m) 127)) →
             CORE_PIN_CONFIG m' !! Z.land (tx_pin_num m) 127 = Some input)
          ∧ (∀ p, rts_pin (driver m) = Some p →
                  gpio (driver m') !! p = Some true)
          ∧ SIM_SCGC4 (driver m') = SIM_SCGC4 (driver m))
  ∧ (transmitting (driver m) = 0 → (2 ≤ length (hw_in (driver m)))%nat →
     ∃ m', Machine.serial_end m = Returned tt m').
Proof.
  intros Hwf Hfit. split; [| split].
  - intros Hg. unfold Machine.serial_end. rewrite op_bind_driver_gets.
    apply nz_false in Hg. rewrite Hg. reflexivity.
  - intros m' Hg H input. unfold Machine.serial_end in H.
    rewrite op_bind_driver_gets in H.
    apply nz_true in Hg. rewrite Hg in H. cbn [negb] in H.
    apply op_bind_inv in H as ([] & m1 & Hwait & H).
    apply on_driver_inv in Hwait as (st1 & Hwait & ->).
    rewrite bind_gets in Hwait.
    pose proof (wait_idle_rts_pin _ _ _ Hwf Hfit Hwait) as Erts.
    apply wait_idle_spec in Hwait as (Htr & Hk & _ & _);
      [| reflexivity | assumption | assumption].
    destruct Hk as (_ & _ & Estream & _ & _ & _ & _ & Eclock).
    revert H. unfold write_UART0_C2. oexec.
    rewrite (op_bind_returned _ _ _ _ _ (switch_rx_pin_returns _ _ _)). oexec.
    rewrite (op_bind_returned _ _ _ _ _ (switch_tx_pin_returns _ _ _)). oexec.
    intros H.
    apply on_driver_hw_read8_inv in H as (s1 & rest1 & _ & H).
    apply on_driver_hw_read8_inv in H as (d & rest2 & _ & H).
    revert H. oexec. unfold on_driver. rewrite bind_gets. fsimpl.
    assert (Hpins : ∀ pc,
              CORE_PIN_CONFIG m' = pc → 
              pc = match Machine.tx_pin_case (Z.land (tx_pin_num m) 127) with
                   | Some _ =>
                       <[Z.land (tx_pin_num m) 127 := input]>
                         (match Machine.rx_pin_case (rx_pin_num m) with
                          | Some _ =>
                              <[rx_pin_num m := input]> (CORE_PIN_CONFIG m)
                          | None => CORE_PIN_CONFIG m
                          end)
                   | None =>
                       match Machine.rx_pin_case (rx_pin_num m) with
                       | Some _ =>
                           <[rx_pin_num m := input]> (CORE_PIN_CONFIG m)
                       | None => CORE_PIN_CONFIG m
                       end
                   end →
              (is_Some (Machine.rx_pin_case (rx_pin_num m)) →
               CORE_PIN_CONFIG m' !! rx_pin_num m = Some input)
              ∧ (is_Some (Machine.tx_pin_case (Z.land (tx_pin_num m) 127)) →
                 CORE_PIN_CONFIG m' !! Z.land (tx_pin_num m) 127
                 = Some input)).
    { intros pc -> ->. split.
      - intros [k Hk].
        destruct (Machine.tx_pin_case _) as [k'|] eqn:Ek'.
        + rewrite Hk, lookup_insert_ne; [apply lookup_insert_eq |].
          apply rx_pin_case_pins in Hk. apply tx_pin_case_pins in Ek'. lia.
        + rewrite Hk. apply lookup_insert_eq.
      - intros [k Hk]. rewrite Hk. apply lookup_insert_eq. }
    osimpl. fsimpl. rewrite Erts.
    destruct (rts_pin (driver m)) as [p|] eqn:Ep;
      unfold when_set, rts_deassert, pin_write;
      [rewrite modify_eq | rewrite skip_eq]; intros [= <-];
      destruct (Hpins _ eq_refl eq_refl) as [Hrxp Htxp]; osimpl; fsimpl.
    all: split; [exact Htr |].
    all: split; [rewrite <- Estream; reflexivity |].
    all: split; [reflexivity |]. all: split; [reflexivity |].
    all: split; [reflexivity |].
    all: split; [exact Hrxp |]. all: split; [exact Htxp |].
    all: split; [| exact Eclock].
    + intros q [= <-]. apply lookup_insert_eq.
    + intros q [=].
  - intros Htr Hlen. unfold Machine.serial_end.
    rewrite op_bind_driver_gets.
    destruct (nz (Z.land (SIM_SCGC4 (driver m)) SIM_SCGC4_UART0));
      cbn [negb]; [| exists m; reflexivity].
    destruct (hw_in (driver m)) as [|s1 [|d rest]] eqn:Etape;
      cbn [length] in Hlen; [lia | lia |].
    assert (Hw : on_driver (fuel ← gets (λ st, S (length (hw_in st)));
                            wait_idle fuel yield) m = Returned tt m).
    { unfold on_driver. rewrite bind_gets. cbn [wait_idle].
      rewrite bind_gets. apply nz_false in Htr. rewrite Htr, skip_eq.
      rewrite set_driver_same. reflexivity. }
    rewrite (op_bind_returned _ _ _ _ _ Hw).
    unfold write_UART0_C2. oexec.
    rewrite (op_bind_returned _ _ _ _ _ (switch_rx_pin_returns _ _ _)). oexec.
    rewrite (op_bind_returned _ _ _ _ _ (switch_tx_pin_returns _ _ _)). oexec.
    rewrite (on_driver_hw_read8 _ _ s1 (d :: rest))
      by (osimpl; fsimpl; exact Etape).
    rewrite (on_driver_hw_read8 _ _ d rest) by reflexivity.
    oexec. unfold on_driver. rewrite bind_gets. osimpl. fsimpl.
    destruct (rts_pin (driver m)) as [p|];
      unfold when_set, rts_deassert, pin_write;
      [rewrite modify_eq | rewrite skip_eq]; eexists; reflexivity.
Qed.

End Shutdown.

Section Format.
Context `{cfg : Config} `{kin : Kinetis}.

(** ** Half duplex: serial_format *)

(** The parity and size bits of UART0_C1 are bits 0, 1 and 4: writing them
    leaves bits 5 and 7, RSRC and LOOPS, as they are. *)
Lemma format_bits_C1 (c f i : Z) :
  i = 5 ∨ i = 7 →
  Z.testbit
    (if nz (Z.land f 4)
     then u8 (Z.lor (u8 (Z.lor (Z.land c (Z.lnot 19)) (Z.land f 3))) 16)
     else u8 (Z.lor (Z.land c (Z.lnot 19)) (Z.land f 3))) i
  = Z.testbit c i.
Proof.
  intros Hi. unfold u8.
  destruct (nz (Z.land f 4));
    rewrite ?Z.mod_pow2_bits_low, ?Z.lor_spec, ?Z.mod_pow2_bits_low,
      ?Z.lor_spec, !Z.land_spec by lia;
    destruct Hi as [-> | ->]; cbn;
    rewrite ?andb_false_r, ?orb_false_r, ?andb_true_r; reflexivity.
Qed.

Lemma loop_bits_C1 (c i : Z) :
  i = 5 ∨ i = 7 → Z.testbit (u8 (Z.lor c (Z.lor 128 32))) i = true.
Proof.
  intros Hi. unfold u8. rewrite Z.mod_pow2_bits_low, Z.lor_spec by lia.
  destruct Hi as [-> | ->]; apply orb_true_r.
Qed.

(** The last part of serial_format, from [if ((format & SERIAL_HALF_DUPLEX)
    != 0)] on, when it returns. *)
Lemma format_half_duplex_part (f : Z) (m : machine) :
  UART_C1_LOOPS = 0x80 → UART_C1_RSRC = 0x20 →
  (nz (Z.land f SERIAL_HALF_DUPLEX) = true → KINETISL = false →
   tx_pin_num m < CORE_NUM_DIGITAL) →
  ∃ m1,
    (if nz (Z.land f SERIAL_HALF_DUPLEX) then
       c ← reads UART0_C1;
       changes (set_UART0_C1
                  (u8 (Z.lor c (Z.lor UART_C1_LOOPS UART_C1_RSRC))));;
       tx ← reads tx_pin_num;
       if KINETISL then
         match Machine.tx_pin_case_half_duplex tx with
         | Some k =>
             Machine.write_CORE_PIN_CONFIG tx
               (Machine.lor5 PORT_PCR_DSE PORT_PCR_SRE (PORT_PCR_MUX k)
                             PORT_PCR_PE PORT_PCR_PS)
         | None => nothing
         end;;
         on_driver (modify (set_half_duplex_mode 1))
       else
         (if tx <? CORE_NUM_DIGITAL then
            Machine.write_CORE_PIN_CONFIG tx
              (Machine.lor5 PORT_PCR_DSE PORT_PCR_SRE (PORT_PCR_MUX 3)
                            PORT_PCR_PE PORT_PCR_PS)
          else faults);;
         on_driver (modify (set_transmit_pin (Some BitbandC3TxDir)))
     else
       if KINETISL then on_driver (modify (set_half_duplex_mode 0))
       else
         tp ← on_driver (gets transmit_pin);
         match tp with
         | Some BitbandC3TxDir => on_driver (modify (set_transmit_pin None))
         | _ => nothing
         end) m = Returned tt m1
    ∧ tx_ring_same (driver m) (driver m1)
    ∧ if nz (Z.land f SERIAL_HALF_DUPLEX)
      then half_duplex_on (driver m1)
           ∧ Z.testbit (UART0_C1 m1) 7 = true
           ∧ Z.testbit (UART0_C1 m1) 5 = true
      else ¬ half_duplex_on (driver m1) ∧ UART0_C1 m1 = UART0_C1 m.
Proof.
  intros HL HR Hpin. unfold half_duplex_on, Machine.write_CORE_PIN_CONFIG.
  rewrite HL, HR.
  destruct (nz (Z.land f SERIAL_HALF_DUPLEX)).
  - oexec. destruct KINETISL.
    + destruct (Machine.tx_pin_case_half_duplex (tx_pin_num m)); oexec;
        (eexists; split; [reflexivity |]); osimpl; fsimpl;
        (split; [repeat split |]);
        (split; [discriminate |]);
        (split; apply loop_bits_C1; auto).
    + specialize (Hpin eq_refl eq_refl). apply Z.ltb_lt in Hpin.
      rewrite Hpin. oexec.
      eexists. split; [reflexivity |]. osimpl. fsimpl.
      split; [repeat split |]. split; [reflexivity |].
      split; apply loop_bits_C1; auto.
  - destruct KINETISL.
    + oexec. eexists. split; [reflexivity |]. osimpl. fsimpl.
      split; [repeat split |]. split; [| reflexivity]. intros E. apply E.
      reflexivity.
    + oexec. destruct (transmit_pin (driver m)) as [[pin|]|] eqn:Ep; oexec;
        (eexists; split; [reflexivity |]); osimpl; fsimpl;
        (split; [repeat split |]); (split; [| reflexivity]);
        rewrite ?Ep; discriminate.
Qed.

(** The same part with a TX pin number outside the table that
    portConfigRegister indexes. *)
Lemma format_half_duplex_part_faults (f : Z) (m : machine) :
  nz (Z.land f SERIAL_HALF_DUPLEX) = true → KINETISL = false →
  CORE_NUM_DIGITAL ≤ tx_pin_num m →
    (if nz (Z.land f SERIAL_HALF_DUPLEX) then
       c ← reads UART0_C1;
       changes (set_UART0_C1
                  (u8 (Z.lor c (Z.lor UART_C1_LOOPS UART_C1_RSRC))));;
       tx ← reads tx_pin_num;
       if KINETISL then
         match Machine.tx_pin_case_half_duplex tx with
         | Some k =>
             Machine.write_CORE_PIN_CONFIG tx
               (Machine.lor5 PORT_PCR_DSE PORT_PCR_SRE (PORT_PCR_MUX k)
                             PORT_PCR_PE PORT_PCR_PS)
         | None => nothing
         end;;
         on_driver (modify (set_half_duplex_mode 1))
       else
         (if tx <? CORE_NUM_DIGITAL then
            Machine.write_CORE_PIN_CONFIG tx
              (Machine.lor5 PORT_PCR_DSE PORT_PCR_SRE (PORT_PCR_MUX 3)
                            PORT_PCR_PE PORT_PCR_PS)
          else faults);;
         on_driver (modify (set_transmit_pin (Some BitbandC3TxDir)))
     else
       if KINETISL then on_driver (modify (set_half_duplex_mode 0))
       else
         tp ← on_driver (gets transmit_pin);
         match tp with
         | Some BitbandC3TxDir => on_driver (modify (set_transmit_pin None))
         | _ => nothing
         end) m = Faulted.
Proof.
  intros Hflag Hk Hpin. rewrite Hflag, Hk. oexec.
  apply Z.ltb_ge in Hpin. rewrite Hpin. reflexivity.
Qed.

(** Up to that part serial_format only reads UART0_S2 and writes format
    registers. *)
Ltac format_prefix s2 rest Etape :=
  unfold Machine.serial_format, provided, write_UART0_C3;
  cbv zeta; oexec;
  match goal with
  | |- context [Z.land ?f 15 =? 4] => destruct (Z.land f 15 =? 4)
  end;
  rewrite ?op_bind_driver_gets_modify; oexec;
  rewrite (on_driver_hw_read8 _ _ s2 rest)
    by (osimpl; fsimpl; exact Etape);
  oexec;
  destruct SERIAL_9BIT_SUPPORT; oexec;
  (destruct (MK64FX512_or_MK66FX1M0 || KINETISL);
   [match goal with
    | |- context [nz (Z.land ?f 256)] => destruct (nz (Z.land f 256))
    end |]);
  oexec.

(** X21. serial_format and half duplex; LOOPS is bit 7 and RSRC bit 5 of
    UART0_C1, and UART0_S2 can be read.
    - Without SERIAL_HALF_DUPLEX in the format, serial_format returns, the
      driver is not in half duplex mode afterwards, and LOOPS and RSRC are as
      they were: the bits that serial_format clears in UART0_C1 are the
      parity and size bits only.
    - With SERIAL_HALF_DUPLEX, on KINETISL, and on the other builds when
      tx_pin_num is below CORE_NUM_DIGITAL, serial_format returns with LOOPS
      and RSRC set and the driver in half duplex mode.
    - With SERIAL_HALF_DUPLEX on the other builds and tx_pin_num not below
      CORE_NUM_DIGITAL, as serial_set_tx leaves it for an open-drain
      selection, portConfigRegister is indexed outside its table.
    When serial_format returns, the TX ring and the transmitted bytes are
    not touched. *)
Theorem serial_format_half_duplex (format : Z) (m : machine) :
  UART_C1_LOOPS = 0x80 → UART_C1_RSRC = 0x20 →
  hw_in (driver m) ≠ [] →
  (nz (Z.land (u32 format) SERIAL_HALF_DUPLEX) = false →
   ∃ m1, Machine.serial_format format m = Returned tt m1
         ∧ tx_ring_same (driver m) (driver m1)
         ∧ ¬ half_duplex_on (driver m1)
         ∧ Z.testbit (UART0_C1 m1) 7 = Z.testbit (UART0_C1 m) 7
         ∧ Z.testbit (UART0_C1 m1) 5 = Z.testbit (UART0_C1 m) 5)
  ∧ (nz (Z.land (u32 format) SERIAL_HALF_DUPLEX) = true →
     (KINETISL = false → tx_pin_num m < CORE_NUM_DIGITAL) →
     ∃ m1, Machine.serial_format format m = Returned tt m1
           ∧ tx_ring_same (driver m) (driver m1)
           ∧ half_duplex_on (driver m1)
           ∧ Z.testbit (UART0_C1 m1) 7 = true
           ∧ Z.testbit (UART0_C1 m1) 5 = true)
  ∧ (nz (Z.land (u32 format) SERIAL_HALF_DUPLEX) = true →
     KINETISL = false → CORE_NUM_DIGITAL ≤ tx_pin_num m →
     Machine.serial_format format m = Faulted).
Proof.
  intros HL HR Htape.
  destruct (hw_in (driver m)) as [|s2 rest] eqn:Etape; [contradiction |].
  clear Htape. split; [| split].
  - intros Hflag.
    assert (Hpin : nz (Z.land (u32 format) SERIAL_HALF_DUPLEX) = true →
                   KINETISL = false → tx_pin_num m < CORE_NUM_DIGITAL)
      by (intros E; congruence).
    format_prefix s2 rest Etape.
    all: match goal with
         | |- ∃ m1, _ ?mp = Returned tt m1 ∧ _ =>
             destruct (format_half_duplex_part (u32 format) mp HL HR Hpin)
               as (m1 & Hrun & Hsame & Hmode);
             exists m1; split; [exact Hrun |]
         end.
    all: split;
           [revert Hsame; osimpl; unfold tx_ring_same; fsimpl; exact id |].
    all: rewrite Hflag in Hmode; destruct Hmode as [Hoff EC1];
           split; [exact Hoff |].
    all: rewrite EC1; osimpl; split; apply format_bits_C1; auto.
  - intros Hflag Hpin'.
    assert (Hpin : nz (Z.land (u32 format) SERIAL_HALF_DUPLEX) = true →
                   KINETISL = false → tx_pin_num m < CORE_NUM_DIGITAL)
      by (intros _; exact Hpin').
    format_prefix s2 rest Etape.
    all: match goal with
         | |- ∃ m1, _ ?mp = Returned tt m1 ∧ _ =>
             destruct (format_half_duplex_part (u32 format) mp HL HR Hpin)
               as (m1 & Hrun & Hsame & Hmode);
             exists m1; split; [exact Hrun |]
         end.
    all: split;
           [revert Hsame; osimpl; unfold tx_ring_same; fsimpl; exact id |].
    all: rewrite Hflag in Hmode; exact Hmode.
  - intros Hflag Hk Hpin.
    format_prefix s2 rest Etape.
    all: apply (format_half_duplex_part_faults (u32 format)); assumption.
Qed.

End Format.

Section HalfDuplex.
Context `{cfg : Config} `{kin : Kinetis}.

(** ** Half duplex: serial_format, serial_putchar and the handler *)

Lemma putchar_prologue_direction (st : state) (k : unit → M unit) :
  half_duplex_on st → UART_C3_TXDIR = 0x20 →
  ∃ g c3,
    (when_set (transmit_pin st) transmit_assert
     ≫= λ _, when KINETISL
                (hd ← gets half_duplex_mode;
                 when (nz hd)
                   (reg ← gets UART0_C3;
                    write_UART0_C3 (Z.lor reg UART_C3_TXDIR)))
     ≫= k) st
    = k tt (set_gpio g (set_UART0_C3 c3 st))
    ∧ Z.testbit c3 C3_TXDIR_BIT = true.
Proof.
  intros Hon Hdir.
  exists (match transmit_pin st with
          | Some (PortOutputRegister pin) => <[pin := true]> (gpio st)
          | _ => gpio st
          end),
         (let c3 := match transmit_pin st with
                    | Some BitbandC3TxDir =>
                        Z.setbit (UART0_C3 st) C3_TXDIR_BIT
                    | _ => UART0_C3 st
                    end in
          if KINETISL && nz (half_duplex_mode st)
          then u8 (Z.lor c3 UART_C3_TXDIR) else c3).
  unfold half_duplex_on in Hon. rewrite Hdir.
  unfold when_set, transmit_assert, pin_write, write_UART0_C3. cbv zeta.
  destruct KINETISL.
  - apply nz_true in Hon. rewrite Hon. cbn [andb].
    split.
    + destruct (transmit_pin st) as [[pin|]|]; unfold when; mexec;
        rewrite ?Hon; mexec; destruct st; funfold; reflexivity.
    + unfold u8, C3_TXDIR_BIT.
      rewrite Z.mod_pow2_bits_low, Z.lor_spec by lia.
      apply orb_true_r.
  - rewrite Hon. cbn [andb]. split.
    + unfold when. mexec. destruct st; funfold; reflexivity.
    + apply Z.setbit_eq. unfold C3_TXDIR_BIT. lia.
Qed.

(** X22. The turnaround of the single wire; TXDIR is bit 5 of UART0_C3.  While
    the driver is in half duplex mode, a serial_putchar call with a free slot
    in the TX ring and the peripheral enabled, which no interrupt pre-empts,
    returns with the TXDIR bit set and the transmitting flag set; and the
    transmit-complete part of the handler, when TCIE is enabled and the
    status read has TC set, returns with the bit clear and the transmitting
    flag clear.  Both leave the driver in half duplex mode. *)
Theorem half_duplex_turnaround (st : state) :
  half_duplex_on st → UART_C3_TXDIR = 0x20 →
  (∀ c, tx_wf st → ¬ clock_gated st → 0 < tx_room st →
        ∃ st', serial_putchar c st = Done tt st'
               ∧ Z.testbit (UART0_C3 st') C3_TXDIR_BIT = true
               ∧ transmitting st' = 1
               ∧ half_duplex_on st')
  ∧ (∀ c2 s1 rest,
       Z.land c2 UART_C2_TCIE ≠ 0 → hw_in st = s1 :: rest →
       Z.land (u8 s1) UART_S1_TC ≠ 0 →
       ∃ st', isr_transmit_complete c2 st = Done tt st'
              ∧ Z.testbit (UART0_C3 st') C3_TXDIR_BIT = false
              ∧ transmitting st' = 0
              ∧ half_duplex_on st').
Proof.
  intros Hon Hdir. split.
  - intros c Hwf Hen Hroom. unfold serial_putchar.
    rewrite bind_gets. apply nz_true in Hen. rewrite Hen. cbn [negb].
    rewrite bind_gets.
    destruct (putchar_prologue_direction st
                (λ _, h ← gets tx_buffer_head;
                      total ← gets tx_buffer_total_size_;
                      fuel ← gets (λ st0, S (length (hw_in st0)));
                      putchar_wait fuel (advance total h);;
                      enqueue (advance total h) (u32 c);;
                      write_UART0_C2 C2_TX_ACTIVE) Hon Hdir)
      as (g & c3 & -> & Hbit).
    set (st2 := set_gpio g (set_UART0_C3 c3 st)) in *.
    assert (Hwf2 : tx_wf st2) by exact Hwf.
    assert (Hroom2 : 0 < tx_room st2) by exact Hroom.
    pose proof (proj1 (tx_room_advance st2 Hwf2) Hroom2) as Hne.
    assert (Hr : 0 ≤ advance (tx_buffer_total_size_ st2) (tx_buffer_head st2)
                 < tx_buffer_total_size_ st2).
    { destruct Hwf2. apply advance_range; lia. }
    destruct (tx_slot_store_ok _ (u32 c) _ _ st2 Hwf2 Hr) as (b & e & Hst).
    mexec. rewrite bind_unfold, putchar_wait_room by (intros E; apply Hne; auto).
    change (tx_buffer_total_size_ st) with (tx_buffer_total_size_ st2).
    change (tx_buffer_head st) with (tx_buffer_head st2).
    unfold enqueue, write_UART0_C2. mexec. rewrite (bind_done _ _ _ _ _ Hst).
    mexec. eexists. split; [reflexivity |]. fsimpl.
    split; [exact Hbit |]. split; [reflexivity |].
    unfold half_duplex_on in *. subst st2. destruct KINETISL; exact Hon.
  - intros c2 s1 rest Hc Htape Hs. unfold isr_transmit_complete.
    apply nz_true in Hc. apply nz_true in Hs. rewrite Hc. unfold when at 1.
    rewrite (bind_hw_read8 _ _ _ _ Htape), Hs. unfold when at 1. mexec.
    unfold when_set, transmit_deassert, pin_write, write_UART0_C3,
      write_UART0_C2.
    unfold half_duplex_on in *. rewrite Hdir.
    destruct KINETISL.
    + pose proof Hon as Hnz. apply nz_true in Hnz.
      destruct (transmit_pin st) as [[pin|]|] eqn:Ep; unfold when; mexec;
        rewrite ?Hnz; mexec;
        (eexists; split; [reflexivity |]); fsimpl;
        (split; [| split; [reflexivity | exact Hon]]);
        unfold u8, C3_TXDIR_BIT;
        rewrite Z.mod_pow2_bits_low, Z.land_spec by lia;
        apply andb_false_r.
    + rewrite Hon. unfold when. mexec.
      eexists. split; [reflexivity |]. fsimpl.
      split; [| split; [reflexivity | exact Hon]].
      apply Z.clearbit_eq.
Qed.

End HalfDuplex.

Section FlowControlPins.
Context `{cfg : Config} `{kin : Kinetis}.

(** ** The flow control pins: serial_set_rts, serial_set_cts *)

(** X23. serial_set_rts.  It returns 1 exactly when the clock gate of UART0
    is on and the pin is a digital pin; then the pin is recorded as the RTS
    pin and is asserted (driven low).  With the gate on and any other pin
    number it returns 0 and forgets a pin configured before: RTS flow
    control is off.  With the gate off it returns 0 and changes nothing.  The
    rings are never touched. *)
Theorem serial_set_rts_result (pin : Z) (st : state) :
  ∃ r st', serial_set_rts pin st = Done r st'
           ∧ (r = 1 ∨ r = 0)
           ∧ (r = 1 ↔ ¬ clock_gated st ∧ u8 pin < CORE_NUM_DIGITAL)
           ∧ (r = 1 → rts_pin st' = Some (u8 pin)
                      ∧ gpio st' !! u8 pin = Some false)
           ∧ (r = 0 → ¬ clock_gated st →
              rts_pin st' = None ∧ gpio st' = gpio st)
           ∧ (clock_gated st → st' = st)
           ∧ rx_ring_same st st' ∧ tx_ring_same st st'.
Proof.
  unfold serial_set_rts, clock_gated. rewrite bind_gets.
  destruct (nz (Z.land (SIM_SCGC4 st) SIM_SCGC4_UART0)) eqn:Eg; cbn [negb].
  2:{ apply nz_false in Eg. exists 0, st. split; [reflexivity |].
      split; [right; reflexivity |].
      split; [split; [discriminate | intros [Hn _]; contradiction] |].
      split; [discriminate |].
      split; [intros _ Hn; contradiction |].
      split; [reflexivity |]. split; repeat split. }
  apply nz_true in Eg. unfold rts_assert, pin_write.
  destruct (Z.ltb_spec (u8 pin) CORE_NUM_DIGITAL) as [Hlt|Hge]; mexec;
    eexists _, _; (split; [reflexivity |]); fsimpl.
  - split; [left; reflexivity |].
    split; [split; [intros _; auto | reflexivity] |].
    split; [intros _; split; [reflexivity | apply lookup_insert_eq] |].
    split; [discriminate |].
    split; [intros Hn; contradiction |]. split; repeat split.
  - split; [right; reflexivity |].
    split; [split; [discriminate | intros [_ Hn]; lia] |].
    split; [discriminate |].
    split; [intros _ _; split; reflexivity |].
    split; [intros Hn; contradiction |]. split; repeat split.
Qed.

Lemma u8_bits_set (a x : Z) : 0 ≤ x < 256 → Z.land (u8 (Z.lor a x)) x = x.
Proof.
  intros Hx. apply Z.bits_inj'. intros i Hi. rewrite Z.land_spec.
  destruct (Z.testbit x i) eqn:E; [| apply andb_false_r].
  rewrite andb_true_r.
  assert (Hlt : i < 8).
  { destruct (Z.lt_ge_cases i 8) as [|Hge]; [assumption |].
    rewrite <- (Z.mod_small x (2 ^ 8)) in E by lia.
    rewrite Z.mod_pow2_bits_high in E by lia. discriminate. }
  unfold u8. rewrite Z.mod_pow2_bits_low, Z.lor_spec, E by lia.
  apply orb_true_r.
Qed.

Lemma u8_bits_clear (a x : Z) : Z.land (u8 (Z.land a (Z.lnot x))) x = 0.
Proof.
  apply Z.bits_inj'. intros i Hi.
  rewrite Z.land_spec, Z.bits_0. unfold u8.
  destruct (Z.lt_ge_cases i 8) as [Hlt|Hge].
  - rewrite Z.mod_pow2_bits_low, Z.land_spec, Z.lnot_spec by lia.
    destruct (Z.testbit a i), (Z.testbit x i); reflexivity.
  - rewrite Z.mod_pow2_bits_high by lia. reflexivity.
Qed.

(** X24. serial_set_cts.  It returns 1 exactly when the build is for
    KINETISK, the clock gate of UART0 is on and the pin is 18 or 20; then the
    pin is routed to UART0 with a pull resistor and TXCTSE is set in
    UART0_MODEM.  For any other pin it returns 0 and clears TXCTSE: asking
    for an unsupported pin switches CTS flow control off.  On KINETISL or
    with the gate off it returns 0 and changes nothing.  The driver state is
    never changed. *)
Theorem serial_set_cts_result (pin : Z) (m : machine) :
  0 ≤ UART_MODEM_TXCTSE < 256 →
  ∃ r m', Machine.serial_set_cts pin m = Returned r m'
          ∧ driver m' = driver m
          ∧ (r = 1 ∨ r = 0)
          ∧ (r = 1 ↔ KINETISL = false ∧ ¬ clock_gated (driver m)
                     ∧ (u8 pin = 18 ∨ u8 pin = 20))
          ∧ (r = 1 →
             CORE_PIN_CONFIG m' !! u8 pin
             = Some (u32 (Z.lor (PORT_PCR_MUX 3) PORT_PCR_PE))
             ∧ Z.land (UART0_MODEM m') UART_MODEM_TXCTSE
               = UART_MODEM_TXCTSE)
          ∧ (r = 0 → KINETISL = false → ¬ clock_gated (driver m) →
             CORE_PIN_CONFIG m' = CORE_PIN_CONFIG m
             ∧ Z.land (UART0_MODEM m') UART_MODEM_TXCTSE = 0)
          ∧ (KINETISL = true ∨ clock_gated (driver m) → m' = m).
Proof.
  intros Hx. unfold Machine.serial_set_cts, Machine.write_CORE_PIN_CONFIG.
  cbv zeta. unfold clock_gated.
  destruct KINETISL; cbn [negb].
  { exists 0, m. split; [reflexivity |]. split; [reflexivity |].
    split; [right; reflexivity |].
    split; [split; [discriminate | intros ([=] & _)] |].
    split; [discriminate |]. split; [discriminate |]. reflexivity. }
  rewrite op_bind_driver_gets.
  destruct (nz (Z.land (SIM_SCGC4 (driver m)) SIM_SCGC4_UART0)) eqn:Eg;
    cbn [negb].
  2:{ apply nz_false in Eg.
      exists 0, m. split; [reflexivity |]. split; [reflexivity |].
      split; [right; reflexivity |].
      split; [split; [discriminate | intros (_ & Hn & _); contradiction] |].
      split; [discriminate |].
      split; [intros _ _ Hn; contradiction | reflexivity]. }
  apply nz_true in Eg.
  destruct (Z.eqb_spec (u8 pin) 18) as [E18|N18];
    [| destruct (Z.eqb_spec (u8 pin) 20) as [E20|N20]]; oexec;
    eexists _, _; (split; [reflexivity |]); osimpl;
    (split; [reflexivity |]).
  - rewrite E18. split; [left; reflexivity |].
    split; [split; [intros _; auto | reflexivity] |].
    split; [intros _; split; [apply lookup_insert_eq
                             | apply u8_bits_set; exact Hx] |].
    split; [discriminate |]. intros [[=] | Hn]; contradiction.
  - rewrite E20. split; [left; reflexivity |].
    split; [split; [intros _; auto | reflexivity] |].
    split; [intros _; split; [apply lookup_insert_eq
                             | apply u8_bits_set; exact Hx] |].
    split; [discriminate |]. intros [[=] | Hn]; contradiction.
  - split; [right; reflexivity |].
    split; [split; [discriminate | intros (_ & _ & [E | E]); contradiction] |].
    split; [discriminate |].
    split; [intros _ _ _; split; [reflexivity | apply u8_bits_clear] |].
    intros [[=] | Hn]; contradiction.
Qed.

End FlowControlPins.

(** * Concrete runs: witnesses, counterexamples and failing inputs *)

Section TeensyLC.
Local Existing Instance teensy_lc.

Ltac compute_all :=
  cbv zeta; repeat match goal with |- _ ∧ _ => split end;
  vm_compute; reflexivity.

(** ** C1: the rings lose data once the capacity exceeds the index type *)

(** C1 fails on the code. On Teensy LC (base size 64, hence uint8_t
    indices) with a 200-unit extension the capacity is 264.  After 255 units
    were received and none read, serial_available reports 255; the handler
    then accepts the 256th unit (256 is within the 263 usable slots), stores
    head 256 into the uint8_t rx_buffer_head, which becomes 0 = tail: the ring
    now reads as empty and serial_getchar returns -1, so none of the 256
    pushed units is ever popped.  The TX ring behaves alike: after 256
    serial_putchar calls with no interrupt in between, head = tail, nothing was
    written to the data register, and the next transmit-ready interrupt finds
    the ring empty and sends nothing. *)
Theorem fifo_lost_beyond_index_range :
  let st255 := lc_receive 255 lc_rx_extended in
  let st256 := run uart0_status_isr (feed [0x20; 77] st255) in
  let t255 := run (times 255 (serial_putchar 65)) lc_tx_extended in
  let t256 := run (serial_putchar 66) t255 in
  let t257 := run uart0_status_isr (feed [0; 0x80] t256) in
  rx_buffer_total_size_ lc_rx_extended = 264
  ∧ serial_available st255 = Done 255 st255
  ∧ uart0_status_isr (feed [0x20; 77] st255) = Done tt st256
  ∧ rx_buffer_head st256 = rx_buffer_tail st256
  ∧ serial_available st256 = Done 0 st256
  ∧ serial_getchar st256 = Done (-1) st256
  ∧ tx_buffer_total_size_ lc_tx_extended = 264
  ∧ times 255 (serial_putchar 65) lc_tx_extended = Done tt t255
  ∧ serial_write_buffer_free t255 = Done 8 t255
  ∧ serial_putchar 66 t255 = Done tt t256
  ∧ tx_buffer_head t256 = tx_buffer_tail t256
  ∧ UART0_D_wr t256 = []
  ∧ uart0_status_isr (feed [0; 0x80] t256) = Done tt t257
  ∧ UART0_D_wr t257 = []
  ∧ UART0_C2 t257 = u8 C2_TX_COMPLETING.
Proof. compute_all. Qed.

(** ** C7: the stored tail is truncated to the index type *)

(** C7 fails on the code. Teensy LC with the 200-unit RX extension (capacity
    264): 255 units are received and read, which leaves head = tail = 255;
    one more unit (77) is received into slot 256, and head wraps to 0 in its
    uint8_t.  The ring is not empty and serial_getchar returns the unit of
    slot 256, but the tail it stores is 0 and not (255 + 1) mod 264 = 256. *)
Theorem getchar_tail_truncated :
  let st1 := lc_receive 255 lc_rx_extended in
  let st2 := run (times 255 (serial_getchar ≫= λ _, skip)) st1 in
  let st3 := run uart0_status_isr (feed [0x20; 77] st2) in
  let st4 := run serial_getchar st3 in
  times 255 (serial_getchar ≫= λ _, skip) st1 = Done tt st2
  ∧ uart0_status_isr (feed [0x20; 77] st2) = Done tt st3
  ∧ rx_buffer_total_size_ st3 = 264
  ∧ rx_buffer_tail st3 = 255
  ∧ rx_buffer_head st3 ≠ rx_buffer_tail st3
  ∧ rx_slot st3 256 = Some 77
  ∧ serial_getchar st3 = Done 77 st4
  ∧ rx_buffer_tail st4 = 0
  ∧ (rx_buffer_tail st3 + 1) mod rx_buffer_total_size_ st3 = 256.
Proof.
  cbv zeta. repeat match goal with |- _ ∧ _ => split end;
    try (vm_compute; reflexivity).
  vm_compute. discriminate.
Qed.

(** ** C3: no RTS pause in the build without FIFO *)

(** C3 fails on the code. Teensy LC with RTS on pin 2: serial_set_rts
    asserts RTS (level low).  40 units are received and none read, so the
    occupancy equals the high watermark (64 - 24 = 40), yet RTS is still
    asserted after the handler ran: the single-slot receive path never
    evaluates the watermark.  On Teensy 3.2 (FIFO build) the same input
    deasserts RTS (level high). *)
Theorem rts_not_deasserted_without_fifo :
  let st0 := run (serial_set_rts 2) lc_begun in
  let st40 := lc_receive 40 st0 in
  let u0 := run (serial_set_rts (cfg := teensy_32) 2) t32_begun in
  let u40 := run (times 40 (uart0_status_isr (cfg := teensy_32)))
                 (feed (rx_events_fifo 40) u0) in
  serial_set_rts 2 lc_begun = Done 1 st0
  ∧ rts_pin st0 = Some 2
  ∧ gpio st0 !! 2 = Some false
  ∧ times 40 uart0_status_isr (feed (rx_events_single 40) st0) = Done tt st40
  ∧ serial_available st40 = Done 40 st40
  ∧ rts_high_watermark_ st40 = 40
  ∧ gpio st40 !! 2 = Some false
  ∧ times 40 (uart0_status_isr (cfg := teensy_32)) (feed (rx_events_fifo 40) u0)
    = Done tt u40
  ∧ serial_available u40 = Done 40 u40
  ∧ rts_high_watermark_ u40 = 40
  ∧ gpio u40 !! 2 = Some true.
Proof. compute_all. Qed.

(** ** C6: a null buffer with a length *)

(** C6 fails on the code. serial_add_memory_for_read(NULL, 5) on Teensy LC
    puts the capacity back to the base size 64 but leaves the watermarks at
    their base values plus 5 (31 and 45 instead of 26 and 40). *)
Theorem null_buffer_shifts_watermarks :
  let st := run (serial_add_memory_for_read None 5) lc_begun in
  serial_add_memory_for_read None 5 lc_begun = Done tt st
  ∧ rx_buffer_storage_ st = None
  ∧ rx_buffer_total_size_ st = SERIAL1_RX_BUFFER_SIZE
  ∧ rts_low_watermark_ st = RTS_LOW_WATERMARK + 5
  ∧ rts_high_watermark_ st = RTS_HIGH_WATERMARK + 5
  ∧ rts_low_watermark_ st ≠ RTS_LOW_WATERMARK
  ∧ rts_high_watermark_ st ≠ RTS_HIGH_WATERMARK.
Proof.
  cbv zeta. repeat match goal with |- _ ∧ _ => split end;
    try (vm_compute; reflexivity); vm_compute; discriminate.
Qed.

(** ** C4: popping the last unit keeps the enables at Active *)

(** The claim C4 fails here: one unit (65) is pending on Teensy LC, with the
    enables at C2_TX_ACTIVE; on a transmit-ready interrupt the handler writes
    65 to the data register, which empties the ring, and UART0_C2 is still
    C2_TX_ACTIVE, not C2_TX_COMPLETING. *)
Lemma last_pop_keeps_tx_active :
  let st := feed [0; 0x80] (run (serial_putchar 65) lc_begun) in
  let st' := run uart0_status_isr st in
  UART0_C2 st = u8 C2_TX_ACTIVE
  ∧ tx_buffer_head st ≠ tx_buffer_tail st
  ∧ uart0_status_isr st = Done tt st'
  ∧ UART0_D_wr st' = [65]
  ∧ tx_buffer_head st' = tx_buffer_tail st'
  ∧ UART0_C2 st' = u8 C2_TX_ACTIVE
  ∧ UART0_C2 st' ≠ u8 C2_TX_COMPLETING.
Proof.
  cbv zeta. repeat match goal with |- _ ∧ _ => split end;
    try (vm_compute; reflexivity); vm_compute; discriminate.
Qed.

(** ** C8: serial_clear moves head, not tail *)

(** The claim C8 fails here: with five units received on Teensy LC
    (head = 5, tail = 0) serial_clear leaves tail at 0 and sets head to 0;
    the claim has tail set to 5 and head unchanged. *)
Lemma serial_clear_moves_head :
  let st := lc_receive 5 lc_begun in
  let st' := run serial_clear st in
  rx_buffer_head st = 5
  ∧ rx_buffer_tail st = 0
  ∧ serial_clear st = Done tt st'
  ∧ rx_buffer_head st' ≠ rx_buffer_head st
  ∧ rx_buffer_tail st' ≠ rx_buffer_head st
  ∧ rx_buffer_head st' = 0
  ∧ rx_buffer_tail st' = 0.
Proof.
  cbv zeta. repeat match goal with |- _ ∧ _ => split end;
    try (vm_compute; reflexivity); vm_compute; discriminate.
Qed.

(** ** The FIFO laws at work *)

(** The overflow scenario of the specification on Teensy LC: of 70 units
    received with nothing read, the first 63 are kept and the last 7 dropped;
    64 serial_getchar calls then return the 63 units in order and find the
    ring empty. *)
Example rx_seventy_units :
  let ops := replicate 70 RxIrq ++ replicate 64 RxGet in
  let kept := map Z.of_nat (seq 1 63) in
  let st := feed (rx_events_single 70) lc_begun in
  serial_available (lc_receive 70 lc_begun) = Done 63 (lc_receive 70 lc_begun)
  ∧ rx_pending (lc_receive 70 lc_begun) = kept
  ∧ ∃ st', rx_run ops st = Done (kept, kept) st'
           ∧ rx_buffer_head st' = rx_buffer_tail st'.
Proof.
  cbv zeta. split; [vm_compute; reflexivity |].
  split; [vm_compute; reflexivity |].
  eexists. split; [vm_compute; reflexivity |].
  vm_compute; reflexivity.
Qed.

(** A full TX ring on Teensy LC: 63 bytes are put, then two more.  The first
    of these waits at interrupt priority 0 and services the transmitter
    itself; the second waits in thread mode (priority 256) and is preempted by
    the status interrupt.  63 further transmit-ready interrupts drain the
    ring.  The data register has then received all 65 bytes in the order of
    the calls. *)
Example tx_blocking_schedule :
  let bytes := map Z.of_nat (seq 1 65) in
  let ops := map TxPut bytes ++ replicate 63 TxIrq in
  let tape := [0; 0x80] ++ [256; 1; 0; 0x80]
              ++ concat (replicate 63 [0; 0x80]) in
  ∃ st', tx_run ops (feed tape lc_begun) = Done tt st'
         ∧ UART0_D_wr st' = bytes
         ∧ tx_buffer_head st' = tx_buffer_tail st'
         ∧ hw_in st' = [].
Proof.
  cbv zeta. eexists. split; [vm_compute; reflexivity |].
  repeat match goal with |- _ ∧ _ => split end; vm_compute; reflexivity.
Qed.

(** ** Witnesses *)

Ltac by_compute := vm_compute; first [reflexivity | discriminate | tauto].

Lemma occupancy_free_identity_witness :
  (0 ≤ 3 < 64 ∧ 0 ≤ 60 < 64 ∧ 64 ≤ 2 ^ 31)
  ∧ ring_occupied 64 3 60 = (3 - 60) mod 64
  ∧ ring_free 64 3 60 = 64 - 1 - (3 - 60) mod 64
  ∧ ring_occupied 64 3 60 + ring_free 64 3 60 = 64 - 1.
Proof.
  split; [lia |].
  destruct (occupancy_free_identity 64 3 60 ltac:(lia) ltac:(lia) ltac:(lia))
    as (H1 & H2 & H3 & _).
  exact (conj H1 (conj H2 H3)).
Defined.

Lemma disabled_peripheral_noop_witness :
  clock_gated power_on
  ∧ serial_putchar 65 power_on = Done tt power_on
  ∧ serial_write [1; 2; 3] 3 power_on = Done tt power_on.
Proof.
  assert (Hg : clock_gated power_on) by reflexivity.
  split; [exact Hg |].
  apply (disabled_peripheral_noop power_on 65 [1; 2; 3] 3 Hg);
    [lia | simpl; lia].
Defined.

Lemma serial_print_crlf_witness :
  Forall (λ c, c ≠ 0) [104; 10; 105]
  ∧ serial_print ([104; 10; 105] ++ 0 :: [7]) lc_begun
    = putchar_each (crlf_expand [104; 10; 105]) lc_begun.
Proof.
  assert (Hs : Forall (λ c : Z, c ≠ 0) [104; 10; 105])
    by (repeat constructor; discriminate).
  split; [exact Hs |].
  apply (serial_print_crlf [104; 10; 105] [7] lc_begun Hs).
Defined.

Lemma lc_tx_wf (st : state) :
  length (tx_buffer st) = 64%nat → tx_buffer_storage_ st = None →
  tx_buffer_total_size_ st = 64 →
  0 ≤ tx_buffer_head st < 64 → 0 ≤ tx_buffer_tail st < 64 →
  tx_wf st.
Proof.
  intros Eb Es Et Hh Htl. unfold tx_wf. rewrite Es, Et.
  change SERIAL1_TX_BUFFER_SIZE with 64.
  constructor; change (2 ^ index_bits 64) with 256; rewrite ?Eb; simpl; lia.
Defined.

(** A full RX ring on Teensy LC: 63 units received, none read, and a tape
    of 700 further status reads. *)
Lemma rx_overflow_drop_witness :
  let st := feed (replicate 700 0x20) (lc_receive 63 lc_begun) in
  rx_full st
  ∧ ∃ st', uart0_status_isr st = Done tt st'
           ∧ rx_buffer_head st' = rx_buffer_head st
           ∧ rx_buffer_tail st' = rx_buffer_tail st
           ∧ rx_buffer_total_size_ st' = rx_buffer_total_size_ st
           ∧ rx_buffer st' = rx_buffer st
           ∧ rx_buffer_storage_ st' = rx_buffer_storage_ st
           ∧ ∃ n, serial_available st = Done n st
                  ∧ serial_available st' = Done n st'.
Proof.
  intros st.
  assert (Eh : rx_buffer_head st = 63) by (vm_compute; reflexivity).
  assert (Et : rx_buffer_total_size_ st = 64) by (vm_compute; reflexivity).
  assert (Ett : tx_buffer_total_size_ st = 64) by (vm_compute; reflexivity).
  assert (Hfull : rx_full st) by (vm_compute; reflexivity).
  split; [exact Hfull |].
  apply (rx_overflow_drop st).
  - rewrite Eh, Et. lia.
  - rewrite Eh. change (2 ^ index_bits SERIAL1_RX_BUFFER_SIZE) with 256. lia.
  - rewrite Et. lia.
  - exact Hfull.
  - apply lc_tx_wf; try (vm_compute; reflexivity);
      [ replace (tx_buffer_head st) with 0 by (vm_compute; reflexivity)
      | replace (tx_buffer_tail st) with 0 by (vm_compute; reflexivity) ]; lia.
  - unfold isr_tape_bound. rewrite Ett.
    replace (length (hw_in st)) with 700%nat by (vm_compute; reflexivity). lia.
Defined.

(** One pending unit on Teensy LC and an interrupt that is both a receive
    event and a transmit-ready event: the handler stores the received unit 7
    and sends the pending unit 65. *)
Lemma tx_interrupt_transitions_witness :
  let st := feed [0x20; 7; 0x80] (run (serial_putchar 65) lc_begun) in
  let st1 := run isr_receive_single st in
  (tx_wf st
   ∧ (if HAS_KINETISK_UART0_FIFO then isr_receive_fifo
      else isr_receive_single) st = Done tt st1
   ∧ hw_in st1 = [0x80]
   ∧ HAS_KINETISK_UART0_FIFO = false
   ∧ Z.land (UART0_C2 st) UART_C2_TIE ≠ 0
   ∧ Z.land (UART0_C2 st) UART_C2_TCIE = 0
   ∧ Z.land (u8 0x80) UART_S1_TDRE ≠ 0)
  ∧ rx_buffer_head st1 = 1
  ∧ ∃ st', uart0_status_isr st = Done tt st'
           ∧ tx_buffer_head st' = tx_buffer_head st
           ∧ tx_buffer st' = tx_buffer st
           ∧ tx_buffer_storage_ st' = tx_buffer_storage_ st
           ∧ if tx_buffer_head st =? tx_buffer_tail st
             then UART0_C2 st' = u8 C2_TX_COMPLETING
                  ∧ tx_buffer_tail st' = tx_buffer_tail st
                  ∧ UART0_D_wr st' = UART0_D_wr st
             else let tail := advance (tx_buffer_total_size_ st)
                                      (tx_buffer_tail st) in
                  ∃ n, tx_slot st tail = Some n
                       ∧ UART0_D_wr st' = UART0_D_wr st ++ [u8 n]
                       ∧ tx_buffer_tail st' = tx_index tail
                       ∧ UART0_C2 st' = UART0_C2 st.
Proof.
  intros st st1.
  assert (Hwf : tx_wf st).
  { apply lc_tx_wf; try (vm_compute; reflexivity);
      [ replace (tx_buffer_head st) with 1 by (vm_compute; reflexivity)
      | replace (tx_buffer_tail st) with 0 by (vm_compute; reflexivity) ]; lia. }
  assert (Hrx : (if HAS_KINETISK_UART0_FIFO then isr_receive_fifo
                 else isr_receive_single) st = Done tt st1)
    by (vm_compute; reflexivity).
  assert (Htape : hw_in st1 = [0x80]) by (vm_compute; reflexivity).
  assert (Hf : HAS_KINETISK_UART0_FIFO = false) by reflexivity.
  assert (Htie : Z.land (UART0_C2 st) UART_C2_TIE ≠ 0)
    by (vm_compute; discriminate).
  assert (Htcie : Z.land (UART0_C2 st) UART_C2_TCIE = 0)
    by (vm_compute; reflexivity).
  assert (Hs1 : Z.land (u8 0x80) UART_S1_TDRE ≠ 0)
    by (vm_compute; discriminate).
  split;
    [exact (conj Hwf (conj Hrx (conj Htape (conj Hf
              (conj Htie (conj Htcie Hs1)))))) |].
  split; [vm_compute; reflexivity |].
  exact (proj1 (tx_interrupt_transitions st st1 Hwf Hrx) 0x80 [] Htape
               Hf Htie Htcie Hs1).
Defined.

(** Five units received on Teensy LC, then serial_clear. *)
Lemma serial_clear_empties_witness :
  let st := lc_receive 5 lc_begun in
  (HAS_KINETISK_UART0_FIFO = false ∨ ¬ clock_gated st)
  ∧ ∃ st', serial_clear st = Done tt st'
           ∧ rx_buffer_head st' = rx_buffer_tail st
           ∧ rx_buffer_tail st' = rx_buffer_tail st
           ∧ rx_buffer st' = rx_buffer st
           ∧ rx_buffer_storage_ st' = rx_buffer_storage_ st
           ∧ (∀ pin, rts_pin st = Some pin → gpio st' !! pin = Some false)
           ∧ (rts_pin st = None → gpio st' = gpio st)
           ∧ serial_available st' = Done 0 st'.
Proof.
  intros st.
  assert (H : HAS_KINETISK_UART0_FIFO = false ∨ ¬ clock_gated st)
    by (left; reflexivity).
  split; [exact H |]. apply (serial_clear_empties st H).
Defined.

End TeensyLC.

(** * Further concrete runs *)

Section TeensyLCFurther.
Local Existing Instance teensy_lc.

Ltac split_all := cbv zeta; repeat match goal with |- _ ∧ _ => split end.

Lemma lc_rx_wf (st : state) :
  length (rx_buffer st) = 64%nat → rx_buffer_storage_ st = None →
  rx_buffer_total_size_ st = 64 →
  0 ≤ rx_buffer_head st < 64 → 0 ≤ rx_buffer_tail st < 64 →
  rx_wf st.
Proof.
  intros Eb Es Et Hh Htl. unfold rx_wf. rewrite Es, Et.
  change SERIAL1_RX_BUFFER_SIZE with 64.
  constructor; change (2 ^ index_bits 64) with 256; rewrite ?Eb; simpl; lia.
Defined.

(** Wellformedness of both rings of a concrete Teensy LC state. *)
Ltac lc_wf :=
  lazymatch goal with
  | |- tx_wf _ => apply lc_tx_wf
  | |- rx_wf _ => apply lc_rx_wf
  end;
  try (vm_compute; reflexivity);
  match goal with
  | |- _ ≤ ?x < _ =>
      let v := eval vm_compute in x in
      replace x with v by (vm_compute; reflexivity); lia
  end.

Ltac lc_fits :=
  first [progress unfold tx_fits | progress unfold rx_fits];
  vm_compute; discriminate.

Ltac lc_enabled := unfold clock_gated; vm_compute; discriminate.

(** Two bytes put and three transmit-ready interrupts on Teensy LC. *)
Lemma tx_fifo_law_witness :
  let ops := [TxPut 65; TxPut 66; TxIrq; TxIrq; TxIrq] in
  let st := feed [0; 0x80; 0; 0x80; 0; 0x80] lc_begun in
  let st' := run (tx_run ops) st in
  (tx_wf st ∧ tx_fits st ∧ 1 < tx_buffer_total_size_ st ∧ ¬ clock_gated st
   ∧ tx_run ops st = Done tt st')
  ∧ tx_wf st' ∧ tx_fits st'
  ∧ tx_stream st' = tx_stream st ++ puts ops.
Proof.
  intros ops st st'.
  assert (Hwf : tx_wf st) by lc_wf.
  assert (Hfit : tx_fits st) by lc_fits.
  assert (Htot : 1 < tx_buffer_total_size_ st) by (vm_compute; reflexivity).
  assert (Hen : ¬ clock_gated st) by lc_enabled.
  assert (Hrun : tx_run ops st = Done tt st') by (vm_compute; reflexivity).
  split; [exact (conj Hwf (conj Hfit (conj Htot (conj Hen Hrun)))) |].
  exact (tx_fifo_law ops st st' Hwf Hfit Htot Hen Hrun).
Defined.

(** Three units received and read on Teensy LC, interleaved. *)
Lemma rx_fifo_law_witness :
  let ops := [RxIrq; RxIrq; RxGet; RxIrq; RxGet; RxGet; RxGet] in
  let st := feed (rx_events_single 3) lc_begun in
  let st' := run (rx_run ops) st in
  (rx_wf st ∧ rx_fits st ∧ tx_wf st ∧ tx_fits st
   ∧ rx_run ops st = Done ([1; 2; 3], [1; 2; 3]) st')
  ∧ rx_pending st ++ [1; 2; 3] = [1; 2; 3] ++ rx_pending st'.
Proof.
  intros ops st st'.
  assert (Hrwf : rx_wf st) by lc_wf.
  assert (Hrfit : rx_fits st) by lc_fits.
  assert (Hwf : tx_wf st) by lc_wf.
  assert (Hfit : tx_fits st) by lc_fits.
  assert (Hrun : rx_run ops st = Done ([1; 2; 3], [1; 2; 3]) st')
    by (vm_compute; reflexivity).
  split; [exact (conj Hrwf (conj Hrfit (conj Hwf (conj Hfit Hrun)))) |].
  exact (rx_fifo_law ops st st' _ _ Hrwf Hrfit Hwf Hfit Hrun).
Defined.

(** serial_putchar on Teensy LC right after serial_begin. *)
Lemma serial_putchar_room_witness :
  let st := lc_begun in
  (tx_wf st ∧ tx_fits st ∧ ¬ clock_gated st ∧ 0 < tx_room st)
  ∧ ∃ st', serial_putchar 65 st = Done tt st'
           ∧ tx_pushed st st'
           ∧ hw_in st' = hw_in st
           ∧ UART0_D_wr st' = UART0_D_wr st
           ∧ tx_wf st' ∧ tx_fits st'
           ∧ tx_pending st' = tx_pending st ++ [BUFTYPE (u32 65)]
           ∧ tx_room st' = tx_room st - 1
           ∧ transmitting st' = 1
           ∧ UART0_C2 st' = u8 C2_TX_ACTIVE
           ∧ ∀ p, transmit_pin st = Some p → pin_level st' p = Some true.
Proof.
  intros st.
  assert (Hwf : tx_wf st) by lc_wf.
  assert (Hfit : tx_fits st) by lc_fits.
  assert (Hen : ¬ clock_gated st) by lc_enabled.
  assert (Hroom : 0 < tx_room st) by (vm_compute; reflexivity).
  split; [exact (conj Hwf (conj Hfit (conj Hen Hroom))) |].
  exact (serial_putchar_room 65 st Hwf Hfit Hen Hroom).
Defined.

(** serial_write of three bytes on Teensy LC right after serial_begin. *)
Lemma serial_write_room_witness :
  let st := lc_begun in
  let buf := [104; 105; 33] in
  (tx_wf st ∧ tx_fits st ∧ ¬ clock_gated st
   ∧ 0 ≤ 3 < 2 ^ 32 ∧ 3 ≤ Z.of_nat (length buf) ∧ 3 ≤ tx_room st)
  ∧ ∃ st', serial_write buf 3 st = Done tt st'
           ∧ tx_pushed st st'
           ∧ hw_in st' = hw_in st
           ∧ UART0_D_wr st' = UART0_D_wr st
           ∧ tx_wf st' ∧ tx_fits st'
           ∧ tx_pending st' = tx_pending st ++ map u8 (take (Z.to_nat 3) buf)
           ∧ tx_room st' = tx_room st - 3
           ∧ (0 < 3 →
              transmitting st' = 1
              ∧ UART0_C2 st' = u8 C2_TX_ACTIVE
              ∧ ∀ p, transmit_pin st = Some p → pin_level st' p = Some true).
Proof.
  intros st buf.
  assert (Hwf : tx_wf st) by lc_wf.
  assert (Hfit : tx_fits st) by lc_fits.
  assert (Hen : ¬ clock_gated st) by lc_enabled.
  assert (Hc : 0 ≤ 3 < 2 ^ 32) by lia.
  assert (Hlen : 3 ≤ Z.of_nat (length buf)) by (vm_compute; discriminate).
  assert (Hroom : 3 ≤ tx_room st) by (vm_compute; discriminate).
  split; [exact (conj Hwf (conj Hfit (conj Hen (conj Hc (conj Hlen Hroom))))) |].
  exact (serial_write_room buf 3 st Hwf Hfit Hen Hc Hlen Hroom).
Defined.

(** serial_flush on Teensy LC with one byte pending: a turn without an
    interrupt, then the interrupts that send the byte, find the ring empty
    and report the end of the transmission. *)
Lemma serial_flush_waits_for_completion_witness :
  let st := feed [0; 1; 0; 0x80; 1; 0; 0x80; 1; 0; 0x40]
                 (run (serial_putchar 65) lc_begun) in
  let st' := run serial_flush st in
  (tx_wf st ∧ tx_fits st ∧ transmitting st ≠ 0
   ∧ serial_flush st = Done tt st')
  ∧ transmitting st' = 0
  ∧ tx_kept st st'
  ∧ tx_finished st st'
  ∧ UART0_D_wr st' = [65].
Proof.
  intros st st'.
  assert (Hwf : tx_wf st) by lc_wf.
  assert (Hfit : tx_fits st) by lc_fits.
  assert (Hbusy : transmitting st ≠ 0) by (vm_compute; discriminate).
  assert (Hrun : serial_flush st = Done tt st') by (vm_compute; reflexivity).
  split; [exact (conj Hwf (conj Hfit (conj Hbusy Hrun))) |].
  pose proof (proj2 (serial_flush_waits_for_completion st Hwf Hfit) st' Hrun)
    as H.
  split; [exact (proj1 H) |].
  split; [exact (proj1 (proj2 H)) |].
  split; [exact (proj2 (proj2 H) Hbusy) |].
  vm_compute; reflexivity.
Defined.

(** Pin 2 made the transmit pin on an idle Teensy LC. *)
Lemma serial_set_transmit_pin_idle_witness :
  let st := lc_begun in
  (tx_wf st ∧ tx_fits st ∧ 0 ≤ 2 < 256 ∧ 2 < CORE_NUM_DIGITAL
   ∧ transmitting st = 0)
  ∧ serial_set_transmit_pin 2 st
    = Done tt (set_transmit_pin (Some (PortOutputRegister 2))
                 (set_gpio (<[2 := false]> (gpio st)) st)).
Proof.
  intros st.
  assert (Hwf : tx_wf st) by lc_wf.
  assert (Hfit : tx_fits st) by lc_fits.
  assert (Hr : 0 ≤ 2 < 256) by lia.
  assert (Hd : 2 < CORE_NUM_DIGITAL) by (vm_compute; reflexivity).
  assert (Htr : transmitting st = 0) by (vm_compute; reflexivity).
  split; [exact (conj Hwf (conj Hfit (conj Hr (conj Hd Htr)))) |].
  exact (proj1 (serial_set_transmit_pin_idle 2 st Hwf Hfit Hr Hd) Htr).
Defined.

(** Three units received on Teensy LC, none read yet. *)
Lemma serial_peek_next_getchar_witness :
  let st := lc_receive 3 lc_begun in
  rx_wf st
  ∧ ∃ c st', serial_peek st = Done c st
             ∧ serial_getchar st = Done c st'
             ∧ if rx_buffer_head st =? rx_buffer_tail st
               then c = -1 ∧ st' = st
               else rx_slot st ((rx_buffer_tail st + 1)
                                mod rx_buffer_total_size_ st) = Some c.
Proof.
  intros st.
  assert (Hwf : rx_wf st) by lc_wf.
  split; [exact Hwf |].
  exact (serial_peek_next_getchar st Hwf).
Defined.

Lemma getchar_drains_available_witness :
  let st := lc_receive 3 lc_begun in
  (rx_wf st ∧ rx_fits st ∧ rx_buffer_total_size_ st ≤ 2 ^ 31
   ∧ rx_pending st = [1; 2; 3])
  ∧ ∃ st', serial_available st = Done (Z.of_nat (length (rx_pending st))) st
           ∧ getchar_each (length (rx_pending st)) st
             = Done (rx_pending st) st'
           ∧ serial_available st' = Done 0 st'
           ∧ serial_getchar st' = Done (-1) st'.
Proof.
  intros st.
  assert (Hwf : rx_wf st) by lc_wf.
  assert (Hfit : rx_fits st) by lc_fits.
  assert (Hn : rx_buffer_total_size_ st ≤ 2 ^ 31) by (vm_compute; discriminate).
  assert (Hp : rx_pending st = [1; 2; 3]) by (vm_compute; reflexivity).
  split; [exact (conj Hwf (conj Hfit (conj Hn Hp))) |].
  exact (getchar_drains_available st Hwf Hfit Hn).
Defined.

(** Teensy LC with three units pending and a tape of 700 status reads, each
    with RDRF set. *)
Lemma uart0_status_isr_safe_witness :
  let st := feed (replicate 700 0x20) (lc_receive 3 lc_begun) in
  (rx_wf st ∧ tx_wf st ∧ isr_tape_bound st ≤ Z.of_nat (length (hw_in st)))
  ∧ ∃ st', uart0_status_isr st = Done tt st'
           ∧ rx_wf st' ∧ tx_wf st'
           ∧ Z.of_nat (length (hw_in st))
             ≤ Z.of_nat (length (hw_in st')) + isr_tape_bound st.
Proof.
  intros st.
  assert (Hrwf : rx_wf st) by lc_wf.
  assert (Hwf : tx_wf st) by lc_wf.
  assert (Ht : isr_tape_bound st ≤ Z.of_nat (length (hw_in st)))
    by (vm_compute; discriminate).
  split; [exact (conj Hrwf (conj Hwf Ht)) |].
  exact (uart0_status_isr_safe st Hrwf Hwf Ht).
Defined.


(** Teensy LC with RTS on pin 2 and three units pending. *)
Lemma serial_getchar_rts_resume_witness :
  let st := lc_receive 3 (run (serial_set_rts 2) lc_begun) in
  (rx_wf st ∧ rx_fits st ∧ rts_pin st = Some 2)
  ∧ ∃ c st', serial_getchar st = Done c st'
             ∧ gpio st'
               = if negb (rx_buffer_head st =? rx_buffer_tail st)
                    && ((rx_buffer_head st' - rx_buffer_tail st')
                        mod rx_buffer_total_size_ st'
                        <=? rts_low_watermark_ st)
                 then <[2 := false]> (gpio st)
                 else gpio st.
Proof.
  intros st.
  assert (Hwf : rx_wf st) by lc_wf.
  assert (Hfit : rx_fits st) by lc_fits.
  assert (Hp : rts_pin st = Some 2) by (vm_compute; reflexivity).
  split; [exact (conj Hwf (conj Hfit Hp)) |].
  exact (serial_getchar_rts_resume st 2 Hwf Hfit Hp).
Defined.

End TeensyLCFurther.

Section Teensy32Further.
Local Existing Instance teensy_32.

Lemma t32_tx_wf (st : state) :
  length (tx_buffer st) = 64%nat → tx_buffer_storage_ st = None →
  tx_buffer_total_size_ st = 64 →
  0 ≤ tx_buffer_head st < 64 → 0 ≤ tx_buffer_tail st < 64 →
  tx_wf st.
Proof.
  intros Eb Es Et Hh Htl. unfold tx_wf. rewrite Es, Et.
  change SERIAL1_TX_BUFFER_SIZE with 64.
  constructor; change (2 ^ index_bits 64) with 256; rewrite ?Eb; simpl; lia.
Defined.

Lemma t32_rx_wf (st : state) :
  length (rx_buffer st) = 64%nat → rx_buffer_storage_ st = None →
  rx_buffer_total_size_ st = 64 →
  0 ≤ rx_buffer_head st < 64 → 0 ≤ rx_buffer_tail st < 64 →
  rx_wf st.
Proof.
  intros Eb Es Et Hh Htl. unfold rx_wf. rewrite Es, Et.
  change SERIAL1_RX_BUFFER_SIZE with 64.
  constructor; change (2 ^ index_bits 64) with 256; rewrite ?Eb; simpl; lia.
Defined.

Ltac t32_wf :=
  lazymatch goal with
  | |- tx_wf _ => apply t32_tx_wf
  | |- rx_wf _ => apply t32_rx_wf
  end;
  try (vm_compute; reflexivity);
  match goal with
  | |- _ ≤ ?x < _ =>
      let v := eval vm_compute in x in
      replace x with v by (vm_compute; reflexivity); lia
  end.

Ltac t32_fits :=
  first [progress unfold tx_fits | progress unfold rx_fits];
  vm_compute; discriminate.

(** A full TX ring on Teensy 3.2 and a serial_write of two more bytes, run at
    interrupt priority 0: for each byte the loop finds the transmitter ready
    and services one unit itself. *)
Lemma serial_write_stream_witness :
  let st := feed [0; 0x80; 0; 0x80]
                 (run (serial_write (replicate 63 7) 63) t32_begun) in
  let st' := run (serial_write [1; 2] 2) st in
  (tx_wf st ∧ tx_fits st ∧ 1 < tx_buffer_total_size_ st ∧ ¬ clock_gated st
   ∧ 0 ≤ 2 < 2 ^ 32 ∧ tx_room st = 0
   ∧ serial_write [1; 2] 2 st = Done tt st')
  ∧ tx_wf st' ∧ tx_fits st'
  ∧ tx_stream st' = tx_stream st ++ map u8 (take (Z.to_nat 2) [1; 2]).
Proof.
  intros st st'.
  assert (Hwf : tx_wf st) by t32_wf.
  assert (Hfit : tx_fits st) by t32_fits.
  assert (Htot : 1 < tx_buffer_total_size_ st) by (vm_compute; reflexivity).
  assert (Hen : ¬ clock_gated st) by (unfold clock_gated; vm_compute; discriminate).
  assert (Hc : 0 ≤ 2 < 2 ^ 32) by lia.
  assert (Hfull : tx_room st = 0) by (vm_compute; reflexivity).
  assert (Hrun : serial_write [1; 2] 2 st = Done tt st')
    by (vm_compute; reflexivity).
  split; [exact (conj Hwf (conj Hfit (conj Htot (conj Hen
                   (conj Hc (conj Hfull Hrun)))))) |].
  exact (serial_write_stream [1; 2] 2 st st' Hwf Hfit Htot Hen Hc Hrun).
Defined.

(** Teensy 3.2 with RTS on pin 2: 39 units are pending and the handler
    drains one more from the FIFO, which brings the occupancy to the high
    watermark. *)
Lemma fifo_handler_rts_pause_witness :
  let u0 := run (serial_set_rts 2) t32_begun in
  let st := feed [0x20; 1; 40]
                 (run (times 39 uart0_status_isr)
                      (feed (rx_events_fifo 39) u0)) in
  let st' := run uart0_status_isr st in
  (HAS_KINETISK_UART0_FIFO = true
   ∧ rx_wf st ∧ rx_fits st ∧ tx_wf st ∧ tx_fits st
   ∧ rts_pin st = Some 2
   ∧ transmit_pin st ≠ Some (PortOutputRegister 2)
   ∧ uart0_status_isr st = Done tt st'
   ∧ gpio st !! 2 = Some false
   ∧ gpio st' !! 2 = Some true)
  ∧ gpio st' !! 2
    = match hw_in st with
      | s1 :: av :: _ =>
          if nz (Z.land (u8 s1) (Z.lor UART_S1_RDRF UART_S1_IDLE))
             && negb (u8 av =? 0)
             && (rts_high_watermark_ st
                 <=? (rx_buffer_head st' - rx_buffer_tail st')
                     mod rx_buffer_total_size_ st')
          then Some true
          else gpio st !! 2
      | _ => gpio st !! 2
      end.
Proof.
  intros u0 st st'.
  assert (Hf : HAS_KINETISK_UART0_FIFO = true) by reflexivity.
  assert (Hrwf : rx_wf st) by t32_wf.
  assert (Hrfit : rx_fits st) by t32_fits.
  assert (Hwf : tx_wf st) by t32_wf.
  assert (Hfit : tx_fits st) by t32_fits.
  assert (Hp : rts_pin st = Some 2) by (vm_compute; reflexivity).
  assert (Htp : transmit_pin st ≠ Some (PortOutputRegister 2))
    by (vm_compute; discriminate).
  assert (Hrun : uart0_status_isr st = Done tt st') by (vm_compute; reflexivity).
  assert (Hlow : gpio st !! 2 = Some false) by (vm_compute; reflexivity).
  assert (Hhigh : gpio st' !! 2 = Some true) by (vm_compute; reflexivity).
  split; [exact (conj Hf (conj Hrwf (conj Hrfit (conj Hwf (conj Hfit
                   (conj Hp (conj Htp (conj Hrun (conj Hlow Hhigh))))))))) |].
  exact (fifo_handler_rts_pause st st' 2 Hf Hrwf Hrfit Hwf Hfit Hp Htp Hrun).
Defined.

End Teensy32Further.

Section Teensy32NineBits.
Local Existing Instance teensy_32_9bit.

(** The unit 0x1A5 sent on a Teensy 3.2 in nine-bit mode and looped back. *)
Lemma nine_bit_round_trip_witness :
  let st := t32_9bit_begun in
  (use9Bits st ≠ 0 ∧ 0 ≤ 0x1A5 < 512)
  ∧ ∃ st' b,
      transmit_unit 0x1A5 st = Done tt st'
      ∧ UART0_D_wr st' = UART0_D_wr st ++ [b]
      ∧ ∀ (rx : state) (c3 : Z) (rest : list Z),
          use9Bits rx ≠ 0 →
          hw_in rx = c3 :: b :: rest →
          Z.testbit c3 7 = Z.testbit (UART0_C3 st') 6 →
          receive_unit rx = Done 0x1A5 (set_hw_in rest rx).
Proof.
  intros st.
  assert (H9 : use9Bits st ≠ 0) by (vm_compute; discriminate).
  assert (Hn : 0 ≤ 0x1A5 < 512) by lia.
  split; [exact (conj H9 Hn) |].
  exact (nine_bit_round_trip 0x1A5 st H9 Hn).
Defined.

End Teensy32NineBits.

(** * Concrete runs of the set-up functions *)

Section TeensyLCSetup.
Local Existing Instance teensy_lc.
Local Existing Instance kinetis_lc.

Ltac lc_wf :=
  lazymatch goal with
  | |- tx_wf _ => apply lc_tx_wf
  | |- rx_wf _ => apply lc_rx_wf
  end;
  try (vm_compute; reflexivity);
  match goal with
  | |- _ ≤ ?x < _ =>
      let v := eval vm_compute in x in
      replace x with v by (vm_compute; reflexivity); lia
  end.

Ltac lc_fits :=
  first [progress unfold tx_fits | progress unfold rx_fits];
  vm_compute; discriminate.

Ltac lc_enabled := unfold clock_gated; vm_compute; discriminate.

Ltac lc_gate_mask :=
  change SIM_SCGC4_UART0 with 1024; change (2 ^ 32) with 4294967296; lia.

(** serial_begin on a Teensy LC at power-on. *)
Lemma serial_begin_establishes_witness :
  let m := machine_of power_on in
  (ring_wf SERIAL1_TX_BUFFER_SIZE (tx_buffer_total_size_ (driver m)) 0 0
           (tx_buffer (driver m)) (tx_buffer_storage_ (driver m))
   ∧ ring_wf SERIAL1_RX_BUFFER_SIZE (rx_buffer_total_size_ (driver m)) 0 0
             (rx_buffer (driver m)) (rx_buffer_storage_ (driver m))
   ∧ 0 < SIM_SCGC4_UART0 < 2 ^ 32)
  ∧ ∃ m', Machine.serial_begin 26 m = Returned tt m'
          ∧ tx_wf (driver m') ∧ rx_wf (driver m')
          ∧ ¬ clock_gated (driver m')
          ∧ tx_pending (driver m') = [] ∧ rx_pending (driver m') = []
          ∧ irq_enabled m' = true.
Proof.
  intros m.
  assert (Htx : tx_wf (driver m)) by lc_wf.
  assert (Hrx : rx_wf (driver m)) by lc_wf.
  assert (Hu : 0 < SIM_SCGC4_UART0 < 2 ^ 32) by lc_gate_mask.
  split; [exact (conj Htx (conj Hrx Hu)) |].
  destruct (serial_begin_establishes 26 m Htx Hrx Hu)
    as (m' & Hrun & H1 & H2 & H3 & H4 & H5 & _ & _ & H6 & _).
  exists m'.
  exact (conj Hrun (conj H1 (conj H2 (conj H3 (conj H4 (conj H5 H6)))))).
Defined.

(** RX moved from pin 0 to pin 3 on a Teensy LC, before and after
    serial_begin; afterwards pin 0 is released. *)
Lemma rx_pin_selection_witness :
  let m := machine_of power_on in
  let routed := u32 (Machine.lor4 PORT_PCR_PE PORT_PCR_PS PORT_PCR_PFE
                                  (PORT_PCR_MUX 2)) in
  (0 ≤ 3 < 256 ∧ Machine.rx_pin_case 3 = Some 2
   ∧ 0 < SIM_SCGC4_UART0 < 2 ^ 32)
  ∧ (∃ m1 m2, Machine.serial_set_rx 3 m = Returned tt m1
              ∧ Machine.serial_begin 26 m1 = Returned tt m2
              ∧ rx_pin_num m2 = 3 ∧ CORE_PIN_CONFIG m2 !! 3 = Some routed)
  ∧ (∃ m1 m2, Machine.serial_begin 26 m = Returned tt m1
              ∧ Machine.serial_set_rx 3 m1 = Returned tt m2
              ∧ rx_pin_num m2 = 3 ∧ CORE_PIN_CONFIG m2 !! 3 = Some routed
              ∧ CORE_PIN_CONFIG m2 !! 0 = Some 0).
Proof.
  intros m routed.
  assert (Hp : 0 ≤ 3 < 256) by lia.
  assert (Hk : Machine.rx_pin_case 3 = Some 2) by reflexivity.
  assert (Hu : 0 < SIM_SCGC4_UART0 < 2 ^ 32) by lc_gate_mask.
  split; [exact (conj Hp (conj Hk Hu)) |].
  destruct (rx_pin_selection 3 2 26 m Hp Hk Hu) as [Hbefore Hafter].
  split; [exact Hbefore |].
  destruct Hafter as (m1 & m2 & Hb & Hs & En & Er & Hold).
  exists m1, m2.
  assert (Hne : rx_pin_num m ≠ 3) by (intros E; discriminate E).
  assert (Hsome : is_Some (Machine.rx_pin_case (rx_pin_num m)))
    by (exists 3; reflexivity).
  exact (conj Hb (conj Hs (conj En (conj Er (Hold Hne Hsome))))).
Defined.

(** TX moved from pin 1 to pin 4 as open drain on a Teensy LC: after
    serial_begin the pin is configured; selected at power-on, serial_begin
    leaves its register alone. *)
Lemma tx_pin_selection_witness :
  let m := machine_of power_on in
  (0 ≤ 4 < 128 ∧ Machine.tx_pin_case 4 = Some 2 ∧ 0 ≤ 1 < 256
   ∧ 0 < SIM_SCGC4_UART0 < 2 ^ 32 ∧ clock_gated (driver m))
  ∧ (∃ m1 m2, Machine.serial_begin 26 m = Returned tt m1
              ∧ Machine.serial_set_tx 4 1 m1 = Returned tt m2
              ∧ tx_pin_num m2 = 132
              ∧ CORE_PIN_CONFIG m2 !! 4
                = Some (u32 (Z.lor (Z.lor PORT_PCR_DSE PORT_PCR_ODE)
                                   (PORT_PCR_MUX 2))))
  ∧ (∃ m1 m2, Machine.serial_set_tx 4 1 m = Returned tt m1
              ∧ Machine.serial_begin 26 m1 = Returned tt m2
              ∧ tx_pin_num m2 = 132
              ∧ CORE_PIN_CONFIG m2 !! 4 = CORE_PIN_CONFIG m !! 4).
Proof.
  intros m.
  assert (Hp : 0 ≤ 4 < 128) by lia.
  assert (Hk : Machine.tx_pin_case 4 = Some 2) by reflexivity.
  assert (Hod : 0 ≤ 1 < 256) by lia.
  assert (Hu : 0 < SIM_SCGC4_UART0 < 2 ^ 32) by lc_gate_mask.
  assert (Hg : clock_gated (driver m)) by reflexivity.
  split; [exact (conj Hp (conj Hk (conj Hod (conj Hu Hg)))) |].
  destruct (tx_pin_selection 4 2 26 1 m Hp Hk Hod Hu) as [Hafter Hbefore].
  split; [| exact (Hbefore Hg)].
  destruct Hafter as (m1 & m2 & Hb & Hs & En & Hc).
  exists m1, m2.
  assert (Hne : tx_pin_num m ≠ 132) by (intros E; discriminate E).
  exact (conj Hb (conj Hs (conj En (Hc Hne)))).
Defined.

(** serial_end on an idle Teensy LC after serial_begin. *)
Lemma serial_end_shuts_down_witness :
  let m := machine_of (feed [0; 0] lc_begun) in
  (tx_wf (driver m) ∧ tx_fits (driver m) ∧ ¬ clock_gated (driver m)
   ∧ transmitting (driver m) = 0 ∧ (2 ≤ length (hw_in (driver m)))%nat)
  ∧ ∃ m', Machine.serial_end m = Returned tt m'
          ∧ transmitting (driver m') = 0
          ∧ tx_stream (driver m') = tx_stream (driver m)
          ∧ irq_enabled m' = false
          ∧ UART0_C2 (driver m') = 0
          ∧ serial_available (driver m') = Done 0 (driver m').
Proof.
  intros m.
  assert (Hwf : tx_wf (driver m)) by lc_wf.
  assert (Hfit : tx_fits (driver m)) by lc_fits.
  assert (Hen : ¬ clock_gated (driver m)) by lc_enabled.
  assert (Htr : transmitting (driver m) = 0) by reflexivity.
  assert (Hlen : (2 ≤ length (hw_in (driver m)))%nat)
    by (vm_compute; repeat constructor).
  split; [exact (conj Hwf (conj Hfit (conj Hen (conj Htr Hlen)))) |].
  destruct (serial_end_shuts_down m Hwf Hfit) as (_ & Hret & Hruns).
  destruct (Hruns Htr Hlen) as (m' & Hrun).
  destruct (Hret m' Hen Hrun) as (H1 & H2 & H3 & H4 & H5 & _).
  exists m'.
  exact (conj Hrun (conj H1 (conj H2 (conj H3 (conj H4 H5))))).
Defined.

(** A Teensy LC in half duplex mode: serial_putchar turns the wire to
    transmit. *)
Lemma half_duplex_turnaround_witness :
  let st := set_half_duplex_mode 1 lc_begun in
  (half_duplex_on st ∧ UART_C3_TXDIR = 0x20
   ∧ tx_wf st ∧ ¬ clock_gated st ∧ 0 < tx_room st)
  ∧ ∃ st', serial_putchar 65 st = Done tt st'
           ∧ Z.testbit (UART0_C3 st') C3_TXDIR_BIT = true
           ∧ transmitting st' = 1
           ∧ half_duplex_on st'.
Proof.
  intros st.
  assert (Hon : half_duplex_on st) by (vm_compute; discriminate).
  assert (Hdir : UART_C3_TXDIR = 0x20) by reflexivity.
  assert (Hwf : tx_wf st) by lc_wf.
  assert (Hen : ¬ clock_gated st) by lc_enabled.
  assert (Hroom : 0 < tx_room st) by (vm_compute; reflexivity).
  split; [exact (conj Hon (conj Hdir (conj Hwf (conj Hen Hroom)))) |].
  exact (proj1 (half_duplex_turnaround st Hon Hdir) 65 Hwf Hen Hroom).
Defined.

End TeensyLCSetup.

Section Teensy32Setup.
Local Existing Instance teensy_32.
Local Existing Instance kinetis_32.

(** serial_format with the half duplex flag on a Teensy 3.2 after
    serial_begin: with TX on pin 1 the driver enters half duplex mode; after
    serial_set_tx(1, 1) has stored pin 129, the same call is undefined. *)
Lemma serial_format_half_duplex_witness :
  let m := machine_of (feed [0] t32_begun) in
  let m2 := after (Machine.serial_set_tx 1 1) m in
  (UART_C1_LOOPS = 0x80 ∧ UART_C1_RSRC = 0x20
   ∧ hw_in (driver m) ≠ [] ∧ hw_in (driver m2) ≠ []
   ∧ nz (Z.land (u32 0x200) SERIAL_HALF_DUPLEX) = true
   ∧ (KINETISL = false → tx_pin_num m < CORE_NUM_DIGITAL)
   ∧ KINETISL = false ∧ CORE_NUM_DIGITAL ≤ tx_pin_num m2)
  ∧ (∃ m1, Machine.serial_format 0x200 m = Returned tt m1
           ∧ tx_ring_same (driver m) (driver m1)
           ∧ half_duplex_on (driver m1)
           ∧ Z.testbit (UART0_C1 m1) 7 = true
           ∧ Z.testbit (UART0_C1 m1) 5 = true)
  ∧ Machine.serial_format 0x200 m2 = Faulted.
Proof.
  intros m m2.
  assert (HL : UART_C1_LOOPS = 0x80) by reflexivity.
  assert (HR : UART_C1_RSRC = 0x20) by reflexivity.
  assert (Htape : hw_in (driver m) ≠ []) by (vm_compute; discriminate).
  assert (Htape2 : hw_in (driver m2) ≠ []) by (vm_compute; discriminate).
  assert (Hflag : nz (Z.land (u32 0x200) SERIAL_HALF_DUPLEX) = true)
    by reflexivity.
  assert (Hpin : KINETISL = false → tx_pin_num m < CORE_NUM_DIGITAL)
    by (intros _; vm_compute; reflexivity).
  assert (Hk : KINETISL = false) by reflexivity.
  assert (Hpin2 : CORE_NUM_DIGITAL ≤ tx_pin_num m2)
    by (vm_compute; discriminate).
  split;
    [exact (conj HL (conj HR (conj Htape (conj Htape2 (conj Hflag
              (conj Hpin (conj Hk Hpin2))))))) |].
  split.
  - exact (proj1 (proj2 (serial_format_half_duplex 0x200 m HL HR Htape))
                 Hflag Hpin).
  - exact (proj2 (proj2 (serial_format_half_duplex 0x200 m2 HL HR Htape2))
                 Hflag Hk Hpin2).
Defined.

(** CTS on pin 18 of a Teensy 3.2 after serial_begin. *)
Lemma serial_set_cts_result_witness :
  let m := machine_of t32_begun in
  0 ≤ UART_MODEM_TXCTSE < 256
  ∧ ∃ m', Machine.serial_set_cts 18 m = Returned 1 m'
          ∧ driver m' = driver m
          ∧ CORE_PIN_CONFIG m' !! u8 18
            = Some (u32 (Z.lor (PORT_PCR_MUX 3) PORT_PCR_PE))
          ∧ Z.land (UART0_MODEM m') UART_MODEM_TXCTSE = UART_MODEM_TXCTSE.
Proof.
  intros m.
  assert (Hx : 0 ≤ UART_MODEM_TXCTSE < 256)
    by (change UART_MODEM_TXCTSE with 1; lia).
  split; [exact Hx |].
  destruct (serial_set_cts_result 18 m Hx)
    as (r & m' & Hrun & Hd & _ & Hiff & Hon & _).
  assert (Hen : ¬ clock_gated (driver m))
    by (unfold clock_gated; vm_compute; discriminate).
  assert (Hr : r = 1)
    by (apply (proj2 Hiff);
        exact (conj eq_refl (conj Hen (or_introl eq_refl)))).
  exists m'. subst r.
  exact (conj Hrun (conj Hd (Hon eq_refl))).
Defined.

End Teensy32Setup.

